(* ===== verification/_CoqProject ===== *)
-Q . S2P
Prelude.v
Text.v
Shared.v
Addr.v
FakeIp.v
TuicCodec.v
Frag.v
Assoc.v
Metrics.v
Show.v
TuicUpstream.v
Reconnect.v
Vless.v
Dns.v
Crypto.v
Record.v
Auth.v
ClientHello.v
KeySchedule.v
ServerHello.v
Cert.v
Reassembly.v
Handshake.v
RealityStream.v
Config.v
RealityUpstream.v
Failover.v
FailoverSpec.v
UdpRelay.v
Device.v
TunSlot.v
Upstream.v
ClientTun.v
TunInv.v
TunSend.v
TunStep.v
TunProps.v
TunDirty.v
TunData.v
TunFlows.v
TunServe.v
TunUplink.v
TunDownlink.v
RelayTask.v
Joint.v
EndToEnd.v
Sink.v
Harness.v
Wakeup.v
Generator.v
Startup.v
Probe.v
Redact.v
StdCrypto.v
Conform.v
ConformTls.v
ConformReality.v
ConformTun.v
