(* ===== verification/Prelude.v ===== *)
(** * Verification of mini_vpn

    mini_vpn is a VPN client for a TUN interface, in Rust.  An application's packets enter through a
    TUN device and a user-space TCP stack; DNS queries are answered with fake addresses, UDP packets
    and TCP flows are relayed to the real target over TUIC (QUIC) or over REALITY (TLS 1.3 disguised
    as a connection to another site, carrying VLESS), and a failover moves TCP flows between the two.
    This library models the client as executable definitions, one file per component, and proves what
    makes each component, and their composition in the event loop, correct.

    ** Conventions

    A Rust function is a Rocq function of the same name where the name is free.  [res E A] is the
    outcome of fallible code: [Ok], [Err] for the error returned by [?], and [Panic] for an abort (an
    index out of range, a failed [expect] or [unwrap], an assertion).  Integers are [Z] with the
    wrap-around or the bound written out; bytes are [byte], strings the list of their UTF-8 bytes, maps
    [gmap], an index into a vector goes through [idx], [slice] or [get], which say what happens out of
    range.  State is passed explicitly; the event loop uses the state monad [sm] of this file, with
    [let!] for its bind and [keeps] for what a computation preserves.  Clocks, randomness and what the
    network does are arguments.  Code outside the repository is a class with its documented behaviour
    as laws: [Crypto] (X25519, HKDF, AES-GCM, SHA-256), [Base64], [QuicLib] (quinn), [EtherParse],
    [Smoltcp] (the TCP stack), [Platform] (files, sockets, the TUN device); each has a concrete instance
    that satisfies the laws, on which the witnesses run.

    ** Files

    - [Prelude], [Text], [Shared], [Addr]: shared notation, tactics, lists and integers; the text
      functions of the standard library; addresses and errors (src/shared); address parsing.
    - [FakeIp] (src/fake_ip.rs): the pool of fake addresses.  [Dns] (src/dns.rs, src/dns_block.rs): the
      query parser, the answers, and the block list of encrypted DNS.
    - [TuicCodec], [Frag], [Assoc], [TuicUpstream] (src/tuic.rs, src/udp_relay.rs): the TUIC wire
      format, the reassembly of fragments, the table of UDP flows, the connection and the UDP driver
      task.  [Reconnect]: the lock around that connection, with the interleavings of its callers.
      [Metrics] (src/metrics.rs): counters and their snapshot.  [Show]: the text form of targets
      (src/shared/target.rs) and the periodic lines.
    - [Crypto], [Record], [Auth], [ClientHello], [KeySchedule], [ServerHello], [Cert], [Reassembly],
      [Handshake], [Vless] (src/reality): the TLS 1.3 client of REALITY, from its record layer to the
      driver of the whole handshake, and the VLESS framing.
    - [RealityStream], [RealityUpstream] (src/reality_upstream.rs): the encrypted stream and the
      opening of a flow.  [Probe]: its health probe, a request through the tunnel.  [Config]: the
      environment and its parsers.  [Redact]: the debug output of the configurations.
    - [Failover], [FailoverSpec] (src/failover.rs): the choice of the leg, method by method and atomic
      access by atomic access, and the automaton it implements.
    - [Upstream] (src/upstream.rs): the traits of an upstream as classes, with TUIC, REALITY and the
      failover pair as instances.
    - [UdpRelay], [Device], [TunSlot], [ClientTun] (src/udp_relay.rs, src/device.rs, src/client_tun.rs):
      packets, the TUN device, listener pools and slots, and the event loop.  [ClientTun.Loop] is the
      state of [run_event_loop] with its channels and background tasks; [loop_event] has one
      constructor per branch of its [select!] and per step of a background task; [loop_step] is one
      iteration.  What the TCP stack does to a socket in a poll is arbitrary ([poll_env]).
    - [TunInv], [TunStep], [TunSend], [TunProps], [TunDirty], [TunData], [TunFlows], [TunServe],
      [TunUplink], [TunDownlink]: the invariant of the loop, its preservation by every event, and
      the properties that follow; [TunDirty] compares the loop, which visits the marked slots, with
      one that visits all; [TunUplink] and [TunDownlink] follow the bytes of a connection, over a
      stack with a log and, for the downlink, beside a history of what the relays sent.
    - [RelayTask] ([run_relay] of src/client_tun.rs): a relay task poll by poll over a REALITY stream,
      where the loop's model has one action per message and takes a write for granted.  [Joint]: runs of
      the loop together with the polled task of one of its relays, in which the relay always stands for
      the task.  [EndToEnd]: loop, task and stream together, over joint runs.
    - [Sink] (src/loop_profiler.rs, the hooks of src/client_tun.rs and src/harness.rs): the timing
      hooks of the loop and the two sinks behind them.
    - [Harness], [Wakeup], [Generator] (src/harness.rs): the stress harness.  The in-memory device and
      the mock upstream; the tasks that wake each other, as state machines over all interleavings; the
      traffic generators, the scenarios and their reports.
    - [Startup] (src/main.rs, src/quic.rs, the start-up of src/client_tun.rs): from the environment to
      the running loop.
    - [StdCrypto]: SHA-2, HMAC, HKDF, AES-GCM and X25519 computed as the standards define them.
      [Conform], [ConformTls], [ConformReality], [ConformTun]: the unit tests of the repository, with
      their vectors (RFC 8448, RFC 4648), helpers and test servers, run on the definitions.  A test is
      the list of the booleans its assertions compute, and each list is evaluated to [true]s.

    ** What the theorems show

    - The event loop: from every reachable state, every event but a SYN to port 0 and an oversized reply
      (which do stop it) is handled without an abort ([TunProps.event_loop_never_aborts]); fake
      addresses are counted exactly as long as names are asked of a pool with room; a
      handshake's result is used only for the connection that asked for it; listeners are partitioned
      among at most 64 ports; a SYN finds a listener; dead slots, and only those, are taken back.
    - The data: what an application sends reaches its stream in order and complete, as long as
      inline opens succeed and the buffer of the handshake holds ([TunUplink.uplink_exact]), what a
      relay sends is handed to the socket of its connection in order and complete as long as the
      slot is the relay's ([TunDownlink.downlink_exact]), and its backlog drains when there is room
      ([TunDownlink.backlog_drains]); DNS and UDP there and back ([TunFlows]); nothing is ever
      relayed to a target the policy forbids.
    - The slots a loop iteration visits are enough, as long as the relays of the others live
      ([TunDirty.dirty_set_equivalent]).  The relay task refines the relay of the loop's model
      whatever its stream does ([RelayTask.relay_task_refines]); over a socket that neither ends nor
      fails it seals and passes on exactly its data on every schedule of its polls
      ([RelayTask.relay_task_exact]); and composed, over such a socket, what an application sent is
      what the server opens, and what the server sent is what the application is given
      ([EndToEnd.app_to_server_exact], [EndToEnd.server_to_app_exact]).
    - REALITY: the handshake driver returns whatever the server sends, succeeds with every server that
      follows the protocol, and when it succeeds the bytes it read carry a certificate that passed the
      check and a correct Finished; the stream delivers and
      accepts exactly the application data under any splitting; nonces are never reused.
    - TUIC: codecs round-trip, fragments are reassembled whole and once while the table has room,
      ids are stable, bounded and never shared, downlink packets are forwarded or counted as
      dropped; concurrent callers reconnect once, one connection is open at a time, each call is
      atomic and none starves ([Reconnect]).
    - Failover: the implementation refines its automaton; the hysteresis, the black-hole detection and
      the single winner of concurrent switches; a flow that finds TUIC dead is carried by REALITY in the
      same call.
    - Start-up hands the loop a reachable state; printed targets parse back ([Show.target_roundtrip]);
      the debug output of a configuration does not depend on its credentials
      ([Redact.debug_hides_credentials]); the profiler's times add up.
    - The harness: its device is equivalent to the real one, its echoes come back intact, its packet
      link never loses a wake-up on any schedule ([Wakeup.link_no_lost_wakeup], by inevitability over
      the interleavings of the two tasks), and its reports account for what happened
      ([Generator.hol_report_sound], [Generator.tcp_report_sound], [Generator.udp_throughput_accounts]).
    - Some theorems record behaviour that looks unintended: a full pool overwrites a mapping in use,
      an overflowing uplink buffer and a failed inline open lose bytes, a late end of stream resets
      the next connection, a SYN to port 0 and an oversized reply stop the loop, a UUID with a
      multi-byte character aborts, the stall gate of the harness can miss its release, the slot of a
      relay that ended by timeout or error is not noticed, the end of a stream discards the backlog,
      and a relay whose write is stuck is not timed out.

    ** Bounds and fuel

    Recursion that is not structural has fuel that is enough by construction: the length of the
    input for parsers ([Dns.read_labels], [ServerHello.find_ext_from], [Reassembly.cut_messages],
    [ClientHello.parse_exts], [Text.strip_many], [Harness.chunks]), the bytes buffered and still to
    come for the handshake and the stream ([Handshake.flight_fuel], [RealityStream.read_fuel]), and
    the size of the id space for the search of a free id ([Assoc.alloc_id]); totality is proved, not
    assumed.  The receive loops of the generators take fuel, and more than the payload is enough;
    their driving loops run over the rounds the environment gives, and a round past the time limit
    ends them. The loop's theorems assume a pool size of at most 2^20 ([TunInv.POOL_BOUND], beyond
    which memory ends first) and the MTU range the configuration enforces.  Reachable states are
    inductive ([TunProps.loop_reachable]); the events they admit ([TunStep.event_ok]) exclude what
    provably stops the client (a SYN to port 0, an oversized reply), a slot at its 2^64th epoch, and
    a name asked of a full pool, which does not stop the client but overwrites a mapping that may be
    in use, so that the counts are no longer exact.  [RealityStream.rd_ok] and [RealityStream.wr_ok]
    describe a socket that neither ends nor fails.  The counters of [Failover.FailoverState]
    ([AtomicU32]) and of [TunSlot.TcpDownlinkDiag] ([u64], diagnostics only) are unbounded integers:
    their wrap-around, after 2^32 failures in a row or 2^64 bytes, is not modelled.

    ** Not modelled

    The text of log lines (the metrics and statistics lines are in [Show]; the profile line and the
    report rows are not); the synthetic CPU cost of the harness and the starting and stopping of its
    tasks.  Of the unit tests: those that call a TLS parser or bind sockets, the echo mock of
    src/upstream.rs, and two whose computation is too long for the kernel (the X25519 vector of RFC
    7748, chunks of 16 KiB through the REALITY stream); the timed scenarios of
    tests/concurrency_harness.rs.  The TCP stack, QUIC, TLS certificate checks of QUIC, the packet
    parser and the cryptographic primitives are parameters; the theorems on REALITY hold for every
    [Crypto] with its laws, and [StdCrypto] serves the tests.  Fairness of the scheduler is not
    modelled: tasks interleave arbitrarily, and liveness is stated for the steps that are taken. *)

From stdpp Require Export base tactics list gmap fin_maps option numbers infinite.
From Stdlib Require Export ZArith Lia.
From Corelib Require Export Init.Byte.
From Stdlib Require Strings.Byte.

#[global] Open Scope Z_scope.

(** ** Outcomes of fallible code

    A Rust function that returns [Result] or [Option], or that may panic on an
    out-of-range index, a failed [expect] or an arithmetic overflow check, is
    modelled by [res]: [Ok] is success, [Err] the error value returned with [?]
    (for an [Option], the error is [tt]), [Panic] the abort of the thread. *)

Inductive res (E A : Type) : Type :=
| Ok (a : A)
| Err (e : E)
| Panic.
Arguments Ok {E A} _.
Arguments Err {E A} _.
Arguments Panic {E A}.

Definition rbind {E A B : Type} (m : res E A) (k : A → res E B) : res E B :=
  match m with
  | Ok a => k a
  | Err e => Err e
  | Panic => Panic
  end.

Declare Scope res_scope.
Delimit Scope res_scope with res.
#[global] Open Scope res_scope.

Notation "'let?' x ':=' m 'in' k" := (rbind m (λ x, k))
  (at level 10, x name, m at level 100, k at level 200,
   format "'[v' 'let?'  x  ':='  m  'in' '/' k ']'") : res_scope.
Notation "'let?' ' x ':=' m 'in' k" := (rbind m (λ x, k))
  (at level 10, x strict pattern, m at level 100, k at level 200) : res_scope.
Notation "'require' b 'else' e 'in' k" := (if (b : bool) then k else Err e)
  (at level 10, b at level 100, e at level 100, k at level 200) : res_scope.

(** [option.ok_or(e)?] and the [?] of an [Option]. *)
Definition ok_or {E A : Type} (e : E) (o : option A) : res E A :=
  match o with
  | Some a => Ok a
  | None => Err e
  end.

(** [option.expect(..)], [option.unwrap()]. *)
Definition expect {E A : Type} (o : option A) : res E A :=
  match o with
  | Some a => Ok a
  | None => Panic
  end.

Definition is_ok {E A : Type} (m : res E A) : bool :=
  match m with Ok _ => true | _ => false end.

(** ** State and errors

    Code that updates a state [S] and may fail: the new state comes back also when it fails. *)

Definition sm (S E A : Type) : Type := S → S * res E A.

Definition mlift {S E A} (r : res E A) : sm S E A := λ s, (s, r).

Definition mthen {S E A B} (m : sm S E A) (k : A → sm S E B) : sm S E B := λ s,
  match m s with
  | (s, Ok a) => k a s
  | (s, Err e) => (s, Err e)
  | (s, Panic) => (s, Panic)
  end.

Definition mget {S E} : sm S E S := λ s, (s, Ok s).
Definition mupd {S E} (f : S → S) : sm S E unit := λ s, (f s, Ok tt).

Notation "'let!' x ':=' m 'in' k" := (mthen m (λ x, k))
  (at level 10, x name, m at level 100, k at level 200) : res_scope.
Notation "'let!' ' x ':=' m 'in' k" := (mthen m (λ x, k))
  (at level 10, x strict pattern, m at level 100, k at level 200) : res_scope.

(** ** Bytes *)

(** [b as u64] for a byte, and [z as u8]. *)
Definition b2z (b : byte) : Z := Z.of_N (Strings.Byte.to_N b).
Definition z2b (z : Z) : byte :=
  match Strings.Byte.of_N (Z.to_N (z mod 256)) with
  | Some b => b
  | None => x00
  end.

#[global] Instance byte_eq_decision : EqDecision byte := Strings.Byte.byte_eq_dec.
#[global] Instance byte_inhabited : Inhabited byte := populate x00.
#[global] Program Instance byte_countable : Countable byte :=
  inj_countable Strings.Byte.to_N Strings.Byte.of_N _.
Next Obligation. intros b. apply Strings.Byte.of_to_N. Qed.

(** ** Slices

    Lengths and indices are [Z]: [usize] values in the modelled code are lengths
    of buffers that exist in memory, far below [2^64]. *)

Definition len {A : Type} (l : list A) : Z := Z.of_nat (length l).

(** [l.get(i)] *)
Definition get {A : Type} (l : list A) (i : Z) : option A :=
  if bool_decide (0 ≤ i) then l !! Z.to_nat i else None.

(** [l.get(a..b)] *)
Definition get_range {A : Type} (l : list A) (a b : Z) : option (list A) :=
  if bool_decide (0 ≤ a ≤ b ∧ b ≤ len l)
  then Some (take (Z.to_nat (b - a)) (drop (Z.to_nat a) l))
  else None.

(** [l.get(a..)] *)
Definition get_from {A : Type} (l : list A) (a : Z) : option (list A) :=
  get_range l a (len l).

(** [l[i]], [l[a..b]]: abort when out of range. *)
Definition idx {E A : Type} (l : list A) (i : Z) : res E A := expect (get l i).
Definition slice {E A : Type} (l : list A) (a b : Z) : res E (list A) :=
  expect (get_range l a b).

(** [l[..n]] and [l[n..]] in contexts where [n] is known to be in range. *)
Definition ztake {A : Type} (n : Z) (l : list A) : list A := take (Z.to_nat n) l.
Definition zdrop {A : Type} (n : Z) (l : list A) : list A := drop (Z.to_nat n) l.

(** ** Machine integers *)

Definition u8_max : Z := 2 ^ 8 - 1.
Definition u16_max : Z := 2 ^ 16 - 1.
Definition u32_max : Z := 2 ^ 32 - 1.
Definition u64_max : Z := 2 ^ 64 - 1.

Definition is_u8 (z : Z) : Prop := 0 ≤ z < 2 ^ 8.
Definition is_u16 (z : Z) : Prop := 0 ≤ z < 2 ^ 16.
Definition is_u32 (z : Z) : Prop := 0 ≤ z < 2 ^ 32.
Definition is_u64 (z : Z) : Prop := 0 ≤ z < 2 ^ 64.

(** [z as u16] *)
Definition as_u8 (z : Z) : Z := z mod 2 ^ 8.
Definition as_u16 (z : Z) : Z := z mod 2 ^ 16.
Definition as_u32 (z : Z) : Z := z mod 2 ^ 32.

(** [a.wrapping_add(b)] on [u16] and [u64]. *)
Definition wrapping_add_u16 (a b : Z) : Z := (a + b) mod 2 ^ 16.
Definition wrapping_add_u64 (a b : Z) : Z := (a + b) mod 2 ^ 64.

(** [a.saturating_sub(b)] on any unsigned type. *)
Definition saturating_sub (a b : Z) : Z := Z.max 0 (a - b).

(** [a.checked_add(b)] on [u64]. *)
Definition checked_add_u64 (a b : Z) : option Z :=
  if bool_decide (a + b < 2 ^ 64) then Some (a + b) else None.

(** Big-endian encodings: [to_be_bytes], [from_be_bytes]. *)
Fixpoint to_be (n : nat) (z : Z) : list byte :=
  match n with
  | O => []
  | S n' => z2b (Z.shiftr z (8 * Z.of_nat n')) :: to_be n' z
  end.

Definition of_be (l : list byte) : Z := fold_left (λ acc b, acc * 256 + b2z b) l 0.

Definition be16 (z : Z) : list byte := to_be 2 z.
Definition be32 (z : Z) : list byte := to_be 4 z.
Definition be64 (z : Z) : list byte := to_be 8 z.

(** [((a as usize) << 16) | ((b as usize) << 8) | c as usize] *)
Definition u24 (a b c : byte) : Z :=
  Z.lor (Z.lor (Z.shiftl (b2z a) 16) (Z.shiftl (b2z b) 8)) (b2z c).

(** [u16::from_be_bytes([a, b])] *)
Definition u16_of (a b : byte) : Z := of_be [a; b].

(** ** Tactics *)

(** Case analysis on the outer-most bind or test of a hypothesis about a fallible
    computation, keeping the equation. *)
Ltac res_step :=
  match goal with
  | H : rbind ?m _ = Ok _ |- _ => destruct m eqn:?; cbn [rbind] in H; [| discriminate H | discriminate H]
  | H : ok_or _ ?o = Ok _ |- _ => destruct o eqn:?; cbn [ok_or] in H; [| discriminate H]
  | H : expect ?o = Ok _ |- _ => destruct o eqn:?; cbn [expect] in H; [| discriminate H]
  | H : (if ?b then _ else Err _) = Ok _ |- _ => destruct b eqn:?; [| discriminate H]
  | H : (if ?b then Err _ else _) = Ok _ |- _ => destruct b eqn:?; [discriminate H |]
  | H : Ok _ = Ok _ |- _ => injection H as H; try subst
  end.
Ltac inv_res := repeat res_step.

(** Turn the boolean tests of the code into propositions. *)
Ltac bdec :=
  repeat match goal with
  | H : bool_decide _ = true |- _ => apply bool_decide_eq_true_1 in H
  | H : bool_decide _ = false |- _ => apply bool_decide_eq_false_1 in H
  | H : negb _ = true |- _ => apply negb_true_iff in H
  | H : negb _ = false |- _ => apply negb_false_iff in H
  | H : (_ && _) = true |- _ => apply andb_true_iff in H as [? ?]
  | H : (_ || _) = false |- _ => apply orb_false_iff in H as [? ?]
  end.

(** Split on every [bool_decide] of the goal. *)
Ltac case_bd := repeat (case_bool_decide; try lia; try done).

Ltac unfold_ints := unfold is_u8, is_u16, is_u32, is_u64, as_u8, as_u16, as_u32,
  wrapping_add_u16, wrapping_add_u64, saturating_sub, u8_max, u16_max, u32_max, u64_max in *.
Ltac ulia := unfold_ints; lia.

(** Right-nest every append and push it through conses. *)
Ltac app_norm := repeat first [rewrite <-app_assoc | progress (cbn [app])].

Create HintDb vpn discriminated.
Create Rewrite HintDb vpn_len.

(** ** Lemmas on outcomes *)

Lemma rbind_ok {E A B} (m : res E A) (k : A → res E B) (b : B) :
  rbind m k = Ok b ↔ ∃ a, m = Ok a ∧ k a = Ok b.
Proof.
  split; [destruct m; cbn; try discriminate; eauto | intros (a & -> & ?); done].
Qed.

Lemma rbind_panic {E A B} (m : res E A) (k : A → res E B) :
  rbind m k = Panic ↔ m = Panic ∨ ∃ a, m = Ok a ∧ k a = Panic.
Proof.
  split; [destruct m; cbn; try discriminate; eauto | intros [->|(a & -> & ?)]; done].
Qed.

Lemma ok_or_no_panic {E A} (e : E) (o : option A) : ok_or e o ≠ Panic.
Proof. by destruct o. Qed.

#[export] Hint Resolve ok_or_no_panic : vpn.

Lemma mthen_Ok {S E A B} (m : sm S E A) (k : A → sm S E B) s s' b :
  mthen m k s = (s', Ok b) → ∃ s1 a, m s = (s1, Ok a) ∧ k a s1 = (s', Ok b).
Proof. unfold mthen. destruct (m s) as [s1 [a| |]] eqn:Em; try discriminate. eauto. Qed.

Lemma mthen_no_panic {S E A B} (m : sm S E A) (k : A → sm S E B) s :
  (m s).2 ≠ Panic → (∀ s1 a, m s = (s1, Ok a) → (k a s1).2 ≠ Panic) → (mthen m k s).2 ≠ Panic.
Proof. unfold mthen. destruct (m s) as [s1 [a| |]] eqn:Em; cbn; auto. Qed.

Lemma mlift_Ok {S E A} (r : res E A) (s s' : S) a : mlift r s = (s', Ok a) → s' = s ∧ r = Ok a.
Proof. unfold mlift. by intros [= <- ->]. Qed.

(** Run one known step. *)
Lemma mthen_step {S E A B} (m : sm S E A) (k : A → sm S E B) s s1 a :
  m s = (s1, Ok a) → mthen m k s = k a s1.
Proof. unfold mthen. by intros ->. Qed.

(** ** What a computation keeps

    [keeps φ m]: wherever [φ] holds, it holds after [m], whether [m] succeeds, fails or aborts. *)

Definition keeps {S E A} (φ : S → Prop) (m : sm S E A) : Prop := ∀ s, φ s → φ (m s).1.

Lemma keeps_mthen {S E A B} φ (m : sm S E A) (k : A → sm S E B) :
  keeps φ m → (∀ a, keeps φ (k a)) → keeps φ (mthen m k).
Proof.
  intros Hm Hk s Hs. specialize (Hm s Hs). unfold mthen.
  destruct (m s) as [s1 [a| |]]; cbn in *; [by apply Hk|done..].
Qed.

(** The state read satisfies [φ] too. *)
Lemma keeps_mget {S E B} φ (k : S → sm S E B) :
  (∀ s, φ s → keeps φ (k s)) → keeps φ (mthen mget k).
Proof. intros Hk s Hs. by apply Hk. Qed.

Lemma keeps_mlift_then {S E A B} φ (r : res E A) (k : A → sm S E B) :
  (∀ a, r = Ok a → keeps φ (k a)) → keeps φ (mthen (mlift r) k).
Proof. intros Hk s Hs. unfold mthen, mlift. destruct r; cbn; [by apply Hk|done..]. Qed.

Lemma keeps_mlift {S E A} (φ : S → Prop) (r : res E A) : keeps φ (mlift r).
Proof. by intros s. Qed.

Lemma keeps_mupd {S E} (φ : S → Prop) (f : S → S) : (∀ s, φ s → φ (f s)) → keeps (E:=E) φ (mupd f).
Proof. by intros H s Hs; apply H. Qed.

Create HintDb keeps discriminated.
#[export] Hint Constants Opaque : keeps.
#[export] Hint Resolve keeps_mlift : keeps.

(** Walk through a computation: binds, reads, tests; the updates are left, or solved by [tac]. *)
Ltac walk tac :=
  repeat match goal with
  | |- ∀ _, _ => intros ?
  | |- keeps _ (mthen mget _) => apply keeps_mget
  | |- keeps _ (mthen (mlift _) _) => apply keeps_mlift_then
  | |- keeps _ (mthen _ _) => apply keeps_mthen
  | |- keeps _ (mupd _) => apply keeps_mupd; solve [tac]
  | |- keeps _ (match ?x with _ => _ end) => destruct x eqn:?
  | |- keeps _ _ => solve [eauto with keeps]
  end.

(** ** Lemmas on bytes and integers *)

Lemma b2z_range b : 0 ≤ b2z b < 256.
Proof.
  unfold b2z. pose proof (Strings.Byte.to_N_bounded b). lia.
Qed.

Lemma b2z_z2b z : b2z (z2b z) = z mod 256.
Proof.
  unfold b2z, z2b. pose proof (Z.mod_pos_bound z 256 ltac:(lia)) as Hm.
  destruct (Strings.Byte.of_N (Z.to_N (z mod 256))) as [b|] eqn:Hb.
  - apply Strings.Byte.to_of_N in Hb. rewrite Hb. lia.
  - apply Strings.Byte.of_N_None_iff in Hb. lia.
Qed.

Lemma z2b_b2z b : z2b (b2z b) = b.
Proof.
  unfold z2b. rewrite Z.mod_small by apply b2z_range. unfold b2z.
  by rewrite N2Z.id, Strings.Byte.of_to_N.
Qed.

Lemma b2z_inj b1 b2 : b2z b1 = b2z b2 → b1 = b2.
Proof. intros H. by rewrite <-(z2b_b2z b1), H, z2b_b2z. Qed.

Lemma z2b_mod z : z2b (z mod 256) = z2b z.
Proof. apply b2z_inj. rewrite !b2z_z2b. by rewrite Z.mod_mod by lia. Qed.

Lemma length_to_be n z : length (to_be n z) = n.
Proof. induction n; cbn; congruence. Qed.

Lemma of_be_app l b : of_be (l ++ [b]) = of_be l * 256 + b2z b.
Proof. unfold of_be. by rewrite fold_left_app. Qed.

Lemma to_be_snoc n z : to_be (S n) z = to_be n (Z.shiftr z 8) ++ [z2b z].
Proof.
  induction n as [|n IH].
  - cbn. by rewrite Z.shiftr_0_r.
  - change (to_be (S (S n)) z) with (z2b (Z.shiftr z (8 * Z.of_nat (S n))) :: to_be (S n) z).
    rewrite IH. cbn [to_be app]. f_equal. f_equal.
    rewrite Z.shiftr_shiftr by lia. f_equal. lia.
Qed.

Lemma of_be_to_be n z : of_be (to_be n z) = z mod 2 ^ (8 * Z.of_nat n).
Proof.
  revert z. induction n as [|n IH]; intros z.
  - cbn. by rewrite Z.mod_1_r.
  - rewrite to_be_snoc, of_be_app, IH, b2z_z2b.
    replace (8 * Z.of_nat (S n)) with (8 + 8 * Z.of_nat n) by lia.
    rewrite Z.pow_add_r by lia. rewrite Z.shiftr_div_pow2 by lia.
    change (2 ^ 8) with 256. pose proof (Z.pow_pos_nonneg 2 (8 * Z.of_nat n)).
    rewrite Z.rem_mul_r by lia. lia.
Qed.

Lemma of_be_bound l : 0 ≤ of_be l < 2 ^ (8 * len l).
Proof.
  unfold len. induction l as [|b l IH] using rev_ind; [cbn; lia|].
  rewrite of_be_app, length_app. cbn [length].
  replace (8 * Z.of_nat (length l + 1)) with (8 + 8 * Z.of_nat (length l)) by lia.
  rewrite Z.pow_add_r by lia. change (2 ^ 8) with 256. pose proof (b2z_range b). lia.
Qed.

Lemma to_be_of_be l : to_be (length l) (of_be l) = l.
Proof.
  induction l as [|b l IH] using rev_ind; [done|].
  rewrite length_app. replace (length l + length [b])%nat with (S (length l)) by (cbn; lia).
  rewrite to_be_snoc, of_be_app. pose proof (b2z_range b).
  rewrite Z.shiftr_div_pow2 by lia. change (2 ^ 8) with 256.
  rewrite Z.div_add_l, Z.div_small, Z.add_0_r, IH by lia. f_equal. f_equal.
  rewrite <-z2b_mod, Z.add_comm, Z.mod_add, Z.mod_small, z2b_b2z by lia. done.
Qed.

Lemma u16_of_be16 z : is_u16 z → ∃ a b, be16 z = [a; b] ∧ u16_of a b = z.
Proof.
  intros Hz. eexists _, _. split; [reflexivity|].
  change (of_be (to_be 2 z) = z). rewrite of_be_to_be. apply Z.mod_small. ulia.
Qed.

Lemma u16_of_range a b : is_u16 (u16_of a b).
Proof. exact (of_be_bound [a; b]). Qed.

Lemma lor_shiftl_add a b n : 0 ≤ n → 0 ≤ b < 2 ^ n → Z.lor (Z.shiftl a n) b = a * 2 ^ n + b.
Proof.
  intros Hn Hb. rewrite <-Z.shiftl_mul_pow2 by lia.
  assert (Z.land (Z.shiftl a n) b = 0) as H0.
  { apply Z.bits_inj'. intros i Hi. rewrite Z.land_spec, Z.bits_0.
    destruct (decide (i < n)).
    - by rewrite Z.shiftl_spec_low by lia.
    - destruct (decide (b = 0)) as [->|]; [by rewrite Z.bits_0, andb_false_r|].
      rewrite (Z.bits_above_log2 b); [apply andb_false_r|lia|].
      pose proof (proj1 (Z.log2_lt_pow2 b n ltac:(lia)) (proj2 Hb)). lia. }
  rewrite <-(Z.lxor_lor _ _ H0). symmetry. by apply Z.add_nocarry_lxor.
Qed.

Lemma u24_of_be a b c : u24 a b c = of_be [a; b; c].
Proof.
  unfold u24, of_be. cbn [fold_left].
  pose proof (b2z_range a). pose proof (b2z_range b). pose proof (b2z_range c).
  assert (Z.lor (Z.shiftl (b2z a) 16) (Z.shiftl (b2z b) 8) = Z.shiftl (b2z a * 256 + b2z b) 8) as ->.
  { rewrite lor_shiftl_add; rewrite ?Z.shiftl_mul_pow2; lia. }
  rewrite lor_shiftl_add; lia.
Qed.

Lemma u24_range a b c : 0 ≤ u24 a b c < 2 ^ 24.
Proof. rewrite u24_of_be. apply (of_be_bound [a; b; c]). Qed.

(** ** Lemmas on slices *)

Lemma len_nonneg {A} (l : list A) : 0 ≤ len l.
Proof. unfold len. lia. Qed.

Lemma len_nil {A} : len (@nil A) = 0.
Proof. done. Qed.

Lemma len_cons {A} (x : A) l : len (x :: l) = len l + 1.
Proof. unfold len. cbn [length]. lia. Qed.

Lemma len_app {A} (l1 l2 : list A) : len (l1 ++ l2) = len l1 + len l2.
Proof. unfold len. rewrite length_app. lia. Qed.

Lemma len_to_be n z : len (to_be n z) = Z.of_nat n.
Proof. unfold len. by rewrite length_to_be. Qed.

Lemma len_ztake {A} n (l : list A) : 0 ≤ n ≤ len l → len (ztake n l) = n.
Proof. unfold len, ztake. intros. rewrite length_take. lia. Qed.

Lemma len_zdrop {A} n (l : list A) : 0 ≤ n ≤ len l → len (zdrop n l) = len l - n.
Proof. unfold len, zdrop. intros. rewrite length_drop. lia. Qed.

#[export] Hint Rewrite @len_nil @len_cons @len_app len_to_be : vpn_len.

(** Normalise every length in the goal and the context, then call [lia]. *)
Ltac len_norm := unfold be16, be32, be64 in *; autorewrite with vpn_len in *.
Ltac llia := len_norm; ulia.

Lemma ztake_zdrop {A} n (l : list A) : ztake n l ++ zdrop n l = l.
Proof. apply take_drop. Qed.

Lemma ztake_app {A} n (l1 l2 : list A) : n = len l1 → ztake n (l1 ++ l2) = l1.
Proof. intros ->. unfold ztake, len. rewrite Nat2Z.id. apply take_app_length. Qed.

Lemma zdrop_app {A} n (l1 l2 : list A) : n = len l1 → zdrop n (l1 ++ l2) = l2.
Proof. intros ->. unfold zdrop, len. rewrite Nat2Z.id. apply drop_app_length. Qed.

Lemma get_range_Some {A} (l : list A) a b s :
  get_range l a b = Some s ↔
  0 ≤ a ≤ b ∧ b ≤ len l ∧ s = take (Z.to_nat (b - a)) (drop (Z.to_nat a) l).
Proof. unfold get_range. case_bool_decide; naive_solver lia. Qed.

Lemma get_range_len {A} (l : list A) a b s : get_range l a b = Some s → len s = b - a.
Proof.
  intros (? & ? & ->)%get_range_Some. unfold len in *. rewrite length_take, length_drop. lia.
Qed.

Lemma get_range_app {A} (p s q : list A) a b :
  a = len p → b = len p + len s → get_range (p ++ s ++ q) a b = Some s.
Proof.
  intros -> ->. apply get_range_Some. autorewrite with vpn_len.
  pose proof (len_nonneg p). pose proof (len_nonneg s). pose proof (len_nonneg q).
  split_and!; [lia..|]. replace (len p + len s - len p) with (len s) by lia.
  unfold len. rewrite !Nat2Z.id, drop_app_length. by rewrite take_app_length.
Qed.

Lemma get_from_app {A} (p s : list A) a : a = len p → get_from (p ++ s) a = Some s.
Proof.
  intros ->. unfold get_from. rewrite <-(app_nil_r s) at 1.
  apply get_range_app; llia.
Qed.

Lemma get_range_decompose {A} (l : list A) a b s :
  get_range l a b = Some s → ∃ p q, l = p ++ s ++ q ∧ len p = a ∧ len s = b - a.
Proof.
  intros H. pose proof (get_range_len _ _ _ _ H) as Hl.
  apply get_range_Some in H as (? & ? & Hs).
  exists (take (Z.to_nat a) l), (drop (Z.to_nat b) l). split_and!; [|unfold len in *; rewrite length_take; lia|done].
  rewrite Hs, <-(take_drop (Z.to_nat a) l) at 1. f_equal.
  rewrite <-(take_drop (Z.to_nat (b - a)) (drop (Z.to_nat a) l)) at 1. f_equal.
  rewrite drop_drop. f_equal. lia.
Qed.

Lemma get_Some_lt {A} (l : list A) i x : get l i = Some x → 0 ≤ i < len l.
Proof.
  unfold get, len. case_bool_decide; [|done]. intros ?%lookup_lt_Some. lia.
Qed.

Lemma get_is_Some {A} (l : list A) i : 0 ≤ i < len l → ∃ x, get l i = Some x.
Proof.
  intros. unfold get, len in *. rewrite bool_decide_eq_true_2 by lia.
  apply lookup_lt_is_Some. lia.
Qed.

Lemma get_app_mid {A} (p q : list A) x i : i = len p → get (p ++ x :: q) i = Some x.
Proof.
  intros ->. unfold get. rewrite bool_decide_eq_true_2 by apply len_nonneg.
  unfold len. rewrite Nat2Z.id. by apply list_lookup_middle.
Qed.

Lemma idx_no_panic {E A} (l : list A) i : 0 ≤ i < len l → ∃ x, (idx l i : res E A) = Ok x.
Proof. intros [x Hx]%get_is_Some. exists x. unfold idx. by rewrite Hx. Qed.

Lemma slice_no_panic {E A} (l : list A) a b :
  0 ≤ a ≤ b → b ≤ len l → ∃ s, (slice l a b : res E (list A)) = Ok s.
Proof.
  intros. unfold slice, get_range. rewrite bool_decide_eq_true_2 by lia. eexists. done.
Qed.

#[global] Arguments len : simpl never.
#[global] Arguments b2z : simpl never.
#[global] Arguments z2b : simpl never.
#[global] Arguments of_be : simpl never.
#[global] Arguments be16 : simpl never.
#[global] Arguments be32 : simpl never.
#[global] Arguments be64 : simpl never.
#[global] Arguments u16_of : simpl never.
#[global] Arguments u24 : simpl never.
#[global] Arguments ztake : simpl never.
#[global] Arguments zdrop : simpl never.
#[global] Arguments get_range : simpl never.
#[global] Arguments Z.min : simpl never.
#[global] Arguments Z.max : simpl never.

Lemma get_app_l {A} (l k : list A) i x : get l i = Some x → get (l ++ k) i = Some x.
Proof.
  unfold get. case_bool_decide; [|done]. intros. by apply lookup_app_l_Some.
Qed.

Lemma idx_app_l {E A} (l k : list A) i x : get l i = Some x → (idx (l ++ k) i : res E A) = Ok x.
Proof. intros H. unfold idx. by rewrite (get_app_l _ k _ _ H). Qed.

Lemma app_split_len {A} (l1 l2 k1 k2 : list A) :
  l1 ++ l2 = k1 ++ k2 → len l1 = len k1 → l1 = k1 ∧ l2 = k2.
Proof. intros H Hl. apply app_inj_1; [unfold len in Hl; lia|done]. Qed.

(** ** [iter().min_by_key(..)]

    The first element whose key is least, for a strict order [lt] on the elements' keys. *)

Definition min_by {A} (lt : A → A → bool) (l : list A) : option A :=
  match l with
  | [] => None
  | x :: xs => Some (fold_left (λ m y, if lt y m then y else m) xs x)
  end.

Lemma min_by_elem {A} (lt : A → A → bool) l x : min_by lt l = Some x → x ∈ l.
Proof.
  destruct l as [|y l]; [done|]. cbn. intros [= <-]. revert y.
  induction l as [|z l IH]; intros y; cbn; [set_solver|].
  destruct (lt z y); specialize (IH (if lt z y then z else y)) as IH';
    [specialize (IH z)|specialize (IH y)]; set_solver.
Qed.

Lemma min_by_None {A} (lt : A → A → bool) l : min_by lt l = None ↔ l = [].
Proof. by destruct l. Qed.

(** The result is least, for [lt] the strict part of a total order. *)
Lemma min_by_least {A} (lt : A → A → bool) l x :
  (∀ a, lt a a = false) →
  (∀ a b c, lt b a = false → lt c b = false → lt c a = false) →
  (∀ a b, lt a b = true → lt b a = false) →
  min_by lt l = Some x → ∀ y, y ∈ l → lt y x = false.
Proof.
  intros Hirr Htr Has. destruct l as [|x0 l]; [done|]. cbn. intros [= <-]. revert x0.
  assert (∀ l x0, lt x0 (fold_left (λ m y, if lt y m then y else m) l x0) = false) as Hacc.
  { clear -Hirr Htr Has. induction l as [|z l IH]; intros x0; cbn; [apply Hirr|].
    destruct (lt z x0) eqn:E; [|apply IH]. eapply Htr; [apply IH|]. by apply Has. }
  induction l as [|z l IH]; intros x0 y Hy; cbn.
  - apply list_elem_of_singleton in Hy as ->. apply Hirr.
  - apply elem_of_cons in Hy as [->|Hy].
    + destruct (lt z x0) eqn:E; [|apply Hacc]. eapply Htr; [apply Hacc|]. by apply Has.
    + apply elem_of_cons in Hy as [->|Hy].
      * destruct (lt z x0) eqn:E; [apply Hacc|]. eapply Htr; [apply Hacc|done].
      * apply IH. set_solver.
Qed.

Lemma map_Forall_subseteq `{Countable K} {A} (P : K → A → Prop) (m1 m2 : gmap K A) :
  map_Forall P m2 → m1 ⊆ m2 → map_Forall P m1.
Proof. intros HP Hsub k x Hk. eapply HP, lookup_weaken; done. Qed.

(** ** Ring cursors

    The value [k] places after [x] on the ring [lo .. hi]. *)

Definition ring (lo hi x k : Z) : Z := lo + (x - lo + k) mod (hi - lo + 1).

Lemma ring_0 lo hi x : lo ≤ x ≤ hi → ring lo hi x 0 = x.
Proof. intros. unfold ring. rewrite Z.mod_small; lia. Qed.

Lemma ring_next lo hi x k :
  lo ≤ x ≤ hi → ring lo hi (if bool_decide (hi < x + 1) then lo else x + 1) k = ring lo hi x (k + 1).
Proof.
  intros. unfold ring. case_bool_decide; f_equal; [|f_equal; lia].
  replace (x - lo + (k + 1)) with (k + 1 * (hi - lo + 1)) by lia.
  rewrite Z.mod_add by lia. f_equal. lia.
Qed.

Lemma ring_surj lo hi x a :
  lo ≤ x ≤ hi → lo ≤ a ≤ hi → ∃ k, 0 ≤ k < hi - lo + 1 ∧ ring lo hi x k = a.
Proof.
  intros. exists ((a - x) mod (hi - lo + 1)). split; [apply Z.mod_pos_bound; lia|].
  unfold ring. rewrite Z.add_mod_idemp_r by lia. rewrite Z.mod_small; lia.
Qed.

(** A map whose keys cover the ring has at least as many entries as the ring has places. *)
Lemma ring_cover_size {A} (m : gmap Z A) lo hi x :
  lo ≤ x ≤ hi → (∀ k, 0 ≤ k < hi - lo + 1 → is_Some (m !! ring lo hi x k)) →
  hi - lo + 1 ≤ Z.of_nat (size m).
Proof.
  intros Hx Hocc.
  assert (list_to_set (seqZ lo (hi - lo + 1)) ⊆@{gset Z} dom m) as Hsub.
  { intros a Ha. apply elem_of_list_to_set, elem_of_seqZ in Ha.
    destruct (ring_surj lo hi x a Hx) as (k & Hk & <-); [lia|]. by apply elem_of_dom, Hocc. }
  apply subseteq_size in Hsub. rewrite size_dom, size_list_to_set in Hsub by apply NoDup_seqZ.
  rewrite length_seqZ in Hsub. lia.
Qed.

Lemma map_size_range {A} (m : gmap Z A) lo hi :
  lo ≤ hi + 1 → (∀ k x, m !! k = Some x → lo ≤ k ≤ hi) → Z.of_nat (size m) ≤ hi - lo + 1.
Proof.
  intros Hle Hr.
  assert (dom m ⊆@{gset Z} list_to_set (seqZ lo (hi - lo + 1))) as Hsub.
  { intros a [x Hx]%elem_of_dom. apply elem_of_list_to_set, elem_of_seqZ.
    specialize (Hr _ _ Hx). lia. }
  apply subseteq_size in Hsub. rewrite size_dom, size_list_to_set in Hsub by apply NoDup_seqZ.
  rewrite length_seqZ in Hsub. lia.
Qed.
