(* ===== verification/Text.v ===== *)
(** * Text: the string operations of the standard library the client uses

    A Rust [String] is the list of its bytes.  This file models UTF-8 validation
    ([std::str::from_utf8]), [to_ascii_lowercase], [trim], [str::parse] of unsigned integers,
    [u8::from_str_radix(.., 16)], slicing of a [str] at byte offsets (which aborts off a character
    boundary), [join] and [strip_suffix]. *)

From S2P Require Import Prelude.
From Stdlib Require Strings.String.
Import (notations) Strings.String.

(** A string literal. *)
Definition str (s : Strings.String.string) : list byte := Strings.String.list_byte_of_string s.

Definition in_range (lo hi : Z) (b : byte) : bool :=
  bool_decide (lo ≤ b2z b) && bool_decide (b2z b ≤ hi).

(** Continuation byte. *)
Definition is_cont (b : byte) : bool := in_range 128 191 b.

(** [std::str::from_utf8(l).is_ok()]: the well-formed byte sequences of the Unicode standard
    (no overlong forms, no surrogates, nothing above U+10FFFF). *)
Fixpoint utf8_valid (l : list byte) : bool :=
  match l with
  | [] => true
  | b :: l1 =>
      if in_range 0 127 b then utf8_valid l1
      else if in_range 194 223 b then
        match l1 with c1 :: l2 => is_cont c1 && utf8_valid l2 | _ => false end
      else if in_range 224 239 b then
        match l1 with
        | c1 :: c2 :: l3 =>
            (if bool_decide (b2z b = 224) then in_range 160 191 c1
             else if bool_decide (b2z b = 237) then in_range 128 159 c1 else is_cont c1) &&
            is_cont c2 && utf8_valid l3
        | _ => false
        end
      else if in_range 240 244 b then
        match l1 with
        | c1 :: c2 :: c3 :: l4 =>
            (if bool_decide (b2z b = 240) then in_range 144 191 c1
             else if bool_decide (b2z b = 244) then in_range 128 143 c1 else is_cont c1) &&
            is_cont c2 && is_cont c3 && utf8_valid l4
        | _ => false
        end
      else false
  end.

Definition is_ascii (b : byte) : bool := in_range 0 127 b.

(** [to_ascii_lowercase] *)
Definition lower (b : byte) : byte := if in_range 65 90 b then z2b (b2z b + 32) else b.
Definition to_ascii_lowercase (s : list byte) : list byte := lower <$> s.

(** The UTF-8 encodings of the characters with the [White_Space] property. *)
Definition whitespace : list (list byte) :=
  [[x09]; [x0a]; [x0b]; [x0c]; [x0d]; [x20]; [xc2; x85]; [xc2; xa0]; [xe1; x9a; x80];
   [xe2; x80; x80]; [xe2; x80; x81]; [xe2; x80; x82]; [xe2; x80; x83]; [xe2; x80; x84];
   [xe2; x80; x85]; [xe2; x80; x86]; [xe2; x80; x87]; [xe2; x80; x88]; [xe2; x80; x89];
   [xe2; x80; x8a]; [xe2; x80; xa8]; [xe2; x80; xa9]; [xe2; x80; xaf]; [xe2; x81; x9f];
   [xe3; x80; x80]].

Fixpoint strip_prefix (p s : list byte) : option (list byte) :=
  match p, s with
  | [], _ => Some s
  | x :: p, y :: s => if bool_decide (x = y) then strip_prefix p s else None
  | _ :: _, [] => None
  end.

(** Strip the first of [ps] that is a prefix of [s]. *)
Fixpoint strip_any (ps : list (list byte)) (s : list byte) : option (list byte) :=
  match ps with
  | [] => None
  | p :: ps => match strip_prefix p s with Some r => Some r | None => strip_any ps s end
  end.

(** Strip as often as possible; [fuel] at least the length of [s] is enough. *)
Fixpoint strip_many (fuel : nat) (ps : list (list byte)) (s : list byte) : list byte :=
  match fuel with
  | O => s
  | S fuel => match strip_any ps s with Some r => strip_many fuel ps r | None => s end
  end.

(** [s.trim()] *)
Definition trim (s : list byte) : list byte :=
  let s := strip_many (length s) whitespace s in
  rev (strip_many (length s) ((λ w, rev w) <$> whitespace) (rev s)).

(** [s.trim_end_matches(c)] for an ASCII character. *)
Definition trim_end_matches (c : byte) (s : list byte) : list byte :=
  rev (strip_many (length s) [[c]] (rev s)).

(** [s.strip_suffix(t)] *)
Definition strip_suffix (s t : list byte) : option (list byte) :=
  (λ r, rev r) <$> strip_prefix (rev t) (rev s).

(** [s.ends_with(c)] for an ASCII character. *)
Definition ends_with (c : byte) (s : list byte) : bool := bool_decide (last s = Some c).

(** [labels.join(sep)] *)
Fixpoint join (sep : list byte) (l : list (list byte)) : list byte :=
  match l with
  | [] => []
  | [x] => x
  | x :: l => x ++ sep ++ join sep l
  end.

(** [str::parse] of an unsigned integer with maximum [mx]: an optional [+], at least one decimal
    digit, no overflow. *)
Definition digit (b : byte) : option Z := if in_range 48 57 b then Some (b2z b - 48) else None.

Fixpoint parse_digits (mx acc : Z) (s : list byte) : option Z :=
  match s with
  | [] => Some acc
  | b :: s =>
      d ← digit b;
      if bool_decide (acc * 10 + d ≤ mx) then parse_digits mx (acc * 10 + d) s else None
  end.

Definition parse_uint (mx : Z) (s : list byte) : option Z :=
  match s with
  | [] => None
  | b :: r =>
      let s := if bool_decide (b = x2b) then r else s in
      match s with [] => None | _ => parse_digits mx 0 s end
  end.

(** [c.to_digit(16)] *)
Definition hex_digit (b : byte) : option Z :=
  if in_range 48 57 b then Some (b2z b - 48)
  else if in_range 97 102 b then Some (b2z b - 87)
  else if in_range 65 70 b then Some (b2z b - 55)
  else None.

Fixpoint parse_hex_digits (mx acc : Z) (s : list byte) : option Z :=
  match s with
  | [] => Some acc
  | b :: s =>
      d ← hex_digit b;
      if bool_decide (acc * 16 + d ≤ mx) then parse_hex_digits mx (acc * 16 + d) s else None
  end.

(** [u8::from_str_radix(s, 16)] *)
Definition u8_from_hex (s : list byte) : option Z :=
  match s with
  | [] => None
  | b :: r =>
      let s := if bool_decide (b = x2b) then r else s in
      match s with [] => None | _ => parse_hex_digits 255 0 s end
  end.

(** [&s[a..b]] on a [str]: aborts when [a] or [b] is out of range or inside a character. *)
Definition char_boundary (s : list byte) (i : Z) : bool :=
  bool_decide (i = len s) ||
  match get s i with Some b => negb (is_cont b) | None => false end.

Definition str_slice {E} (s : list byte) (a b : Z) : res E (list byte) :=
  if char_boundary s a && char_boundary s b then slice s a b else Panic.

(** ** Lemmas *)

Lemma strip_prefix_Some p s r : strip_prefix p s = Some r ↔ s = p ++ r.
Proof.
  revert s. induction p as [|x p IH]; intros s; cbn; [naive_solver|].
  destruct s as [|y s]; [naive_solver|]. case_bool_decide; [|naive_solver].
  subst. rewrite IH. naive_solver.
Qed.

Lemma strip_suffix_Some s t p : strip_suffix s t = Some p ↔ s = p ++ t.
Proof.
  unfold strip_suffix. rewrite fmap_Some. split.
  - intros (r & Hr%strip_prefix_Some & ->). rewrite <-(rev_involutive s), Hr.
    by rewrite rev_app_distr, !rev_involutive in *.
  - intros ->. exists (rev p). rewrite rev_involutive. split; [|done].
    apply strip_prefix_Some. by rewrite rev_app_distr.
Qed.

Lemma strip_many_char fuel c s :
  (length s ≤ fuel)%nat →
  ∃ k, s = replicate k c ++ strip_many fuel [[c]] s ∧ head (strip_many fuel [[c]] s) ≠ Some c.
Proof.
  revert s. induction fuel as [|fuel IH]; intros s Hf.
  - destruct s; [|cbn in Hf; lia]. by exists 0%nat.
  - cbn. destruct s as [|x s]; [by exists 0%nat|]. cbn. case_bool_decide as Hx.
    + subst. destruct (IH s) as (k & Hs & Hh); [cbn in Hf; lia|]. exists (S k). cbn.
      split; [by f_equal|done].
    + exists 0%nat. split; [done|]. cbn. congruence.
Qed.

Lemma replicate_snoc {A} k (c : A) : replicate k c ++ [c] = c :: replicate k c.
Proof. induction k; cbn; congruence. Qed.

Lemma rev_replicate {A} k (c : A) : rev (replicate k c) = replicate k c.
Proof. induction k as [|k IH]; [done|]. cbn. rewrite IH. apply replicate_snoc. Qed.

Lemma trim_end_matches_spec c s :
  ∃ k, s = trim_end_matches c s ++ replicate k c ∧ last (trim_end_matches c s) ≠ Some c.
Proof.
  unfold trim_end_matches. destruct (strip_many_char (length s) c (rev s)) as (k & Hs & Hh).
  { by rewrite length_rev. }
  exists k. split.
  - rewrite <-(rev_replicate k), <-rev_app_distr, <-Hs. by rewrite rev_involutive.
  - revert Hh. generalize (strip_many (length s) [[c]] (rev s)). intros [|x l]; [done|].
    cbn. by rewrite last_snoc.
Qed.

Lemma trim_end_unique c (b1 b2 : list byte) k1 k2 :
  b1 ++ replicate k1 c = b2 ++ replicate k2 c → last b1 ≠ Some c → last b2 ≠ Some c → b1 = b2.
Proof.
  revert k2. induction k1 as [|k1 IH]; intros k2 H H1 H2.
  - destruct k2 as [|k2]; [by rewrite !app_nil_r in H|]. cbn [replicate] in H.
    rewrite <-replicate_snoc, app_nil_r, app_assoc in H. subst b1. by rewrite last_snoc in H1.
  - destruct k2 as [|k2].
    + cbn [replicate] in H. rewrite <-replicate_snoc, app_nil_r, app_assoc in H. subst b2.
      by rewrite last_snoc in H2.
    + cbn [replicate] in H. rewrite <-!replicate_snoc, !app_assoc in H.
      apply app_inj_tail in H as [H _]. by eapply IH.
Qed.
