(* ===== verification/Shared.v ===== *)
(** * Shared: addresses, targets and the client's error type

    Models [src/shared/errors.rs], [src/shared/target.rs] and the address types of the
    standard library they use.  An [Ipv4Addr] is its [u32] value, an [Ipv6Addr] its [u128]
    value, a Rust [String] the list of its UTF-8 bytes. *)

From S2P Require Import Prelude.

Definition Ipv4Addr : Type := Z.
Definition Ipv6Addr : Type := Z.
Abbreviation rstring := (list byte).

(** [Ipv4Addr::new(a, b, c, d)] and [ip.octets()]. *)
Definition ipv4_new (a b c d : Z) : Ipv4Addr := ((a * 256 + b) * 256 + c) * 256 + d.
Definition octets (ip : Ipv4Addr) : list byte := be32 ip.
Definition octets6 (ip : Ipv6Addr) : list byte := to_be 16 ip.
Arguments octets6 : simpl never.

Inductive SocketAddr : Type :=
| V4 (ip : Z) (port : Z)
| V6 (ip : Z) (port : Z).

Inductive TargetAddr : Type :=
| IpPort (a : SocketAddr)
| DomainPort (host : list byte) (port : Z).

#[global] Instance SocketAddr_eq_dec : EqDecision SocketAddr.
Proof. solve_decision. Defined.
#[global] Instance TargetAddr_eq_dec : EqDecision TargetAddr.
Proof. solve_decision. Defined.

Definition sockaddr_port (a : SocketAddr) : Z :=
  match a with V4 _ p => p | V6 _ p => p end.

Definition target_port (t : TargetAddr) : Z :=
  match t with IpPort a => sockaddr_port a | DomainPort _ p => p end.

(** What the Rust types guarantee of an address. *)
Definition target_wf (t : TargetAddr) : Prop :=
  match t with
  | IpPort (V4 ip p) => is_u32 ip ∧ is_u16 p
  | IpPort (V6 ip p) => 0 ≤ ip < 2 ^ 128 ∧ is_u16 p
  | DomainPort _ p => is_u16 p
  end.

(** The reasons carried by [ClientError], one constructor per message of the source. *)
Inductive reason : Type :=
(* reality/record.rs *)
| record_auth_failed | record_all_zero
(* reality/auth.rs *)
| short_id_odd | short_id_too_long | short_id_bad_byte | short_id_not_hex
(* reality/key_schedule.rs *)
| ecdhe_all_zero
(* reality/server_hello.rs *)
| sh_not_server_hello | sh_header_truncated | sh_bad_length | sh_legacy_version
| sh_random_truncated | sh_hello_retry | sh_downgrade | sh_sid_len_truncated
| sh_sid_truncated | sh_sid_mismatch | sh_cipher_truncated | sh_cipher_unsupported
| sh_compression_truncated | sh_compression | sh_ext_len_truncated | sh_ext_truncated
| sh_no_supported_versions | sh_supported_versions_len | sh_version_not_13
| sh_no_key_share | sh_key_share_truncated | sh_key_share_group | sh_key_share_len
(* reality/cert.rs *)
| cert_not_certificate | cert_header_truncated | cert_bad_length | cert_ctx_truncated
| cert_list_len_truncated | cert_list_truncated | cert_data_len_truncated
| cert_der_truncated | cert_no_ed25519 | cert_pubkey_truncated | cert_no_signature
(* reality/handshake.rs *)
| hs_io | hs_eof_header | hs_eof_body | hs_record_too_long | hs_plaintext_too_long
| hs_first_not_handshake | hs_inner_not_handshake | hs_no_verified_cert
| hs_finished_truncated | hs_finished_mac | hs_unexpected_message | hs_unexpected_record
(* reality_upstream.rs *)
| cert_hmac_failed | vless_write_failed | pbk_not_base64 | pbk_bad_length
| reality_server_missing | reality_uuid_missing | reality_uuid_bad | reality_pbk_missing
| reality_sni_missing | reality_connect_failed | reality_timeout
(* shared/target.rs, tuic.rs, client_tun.rs *)
| bad_target | tuic_server_missing | tuic_server_bad | tuic_uuid_missing | tuic_uuid_bad
| tuic_password_missing | tuic_export_failed | pool_size_bad | pool_size_zero
| tuic_io | tuic_timeout
(* quic.rs *)
| quic_ca_open | quic_ca_read | quic_ca_empty | quic_ca_add | quic_bind | quic_no_runtime
| quic_payload_size | quic_endpoint.

Inductive ClientError : Type :=
| Io (r : reason)
| InvalidTarget (r : reason)
| Utf8
| Reality (r : reason).

#[global] Instance reason_eq_dec : EqDecision reason.
Proof. solve_decision. Defined.
#[global] Instance ClientError_eq_dec : EqDecision ClientError.
Proof. solve_decision. Defined.

Lemma octets_len ip : len (octets ip) = 4.
Proof. apply len_to_be. Qed.

Lemma octets_inj ip : is_u32 ip → of_be (octets ip) = ip.
Proof. intros. unfold octets, be32. rewrite of_be_to_be. apply Z.mod_small. ulia. Qed.

Lemma octets6_len ip : len (octets6 ip) = 16.
Proof. apply len_to_be. Qed.

Lemma octets6_inj ip : 0 ≤ ip < 2 ^ 128 → of_be (octets6 ip) = ip.
Proof. intros. unfold octets6. rewrite of_be_to_be. by apply Z.mod_small. Qed.
