(* ===== verification/Addr.v ===== *)
(** * Addr: textual addresses, [src/shared/target.rs] and [std::net]'s parsers

    [TargetAddr::parse] tries [str::parse::<SocketAddr>] first and falls back to [host:port].  The
    parser of the standard library is a recursive-descent parser over the bytes of the string; each
    [read_*] takes the remaining input and returns what it read and what is left. *)

From S2P Require Import Prelude Text Shared.

(** [read_given_char] *)
Definition read_char (c : byte) (s : list byte) : option (list byte) :=
  match s with
  | b :: s => if bool_decide (b = c) then Some s else None
  | [] => None
  end.

(** The digits of a number below [mx + 1]: value, how many, rest.  [None] on overflow or when there
    are more than [lim] digits. *)
Fixpoint read_digits (dig : byte → option Z) (radix mx lim acc cnt : Z) (s : list byte)
  : option (Z * Z * list byte) :=
  match s with
  | b :: r =>
      match dig b with
      | Some d =>
          let acc := acc * radix + d in
          if bool_decide (mx < acc) then None
          else if bool_decide (lim < cnt + 1) then None
          else read_digits dig radix mx lim acc (cnt + 1) r
      | None => Some (acc, cnt, s)
      end
  | [] => Some (acc, cnt, s)
  end.

(** [read_number(radix, max_digits, allow_zero_prefix)] *)
Definition read_number (dig : byte → option Z) (radix mx lim : Z) (zero_prefix : bool) (s : list byte)
  : option (Z * list byte) :=
  '(v, cnt, r) ← read_digits dig radix mx lim 0 0 s;
  if bool_decide (cnt = 0) then None
  else if negb zero_prefix && bool_decide (head s = Some x30) && bool_decide (1 < cnt) then None
  else Some (v, r).

(** [read_separator(sep, index, inner)] *)
Definition read_sep {A} (sep : byte) (index : nat) (inner : list byte → option (A * list byte)) (s : list byte)
  : option (A * list byte) :=
  match index with
  | O => inner s
  | S _ => s ← read_char sep s; inner s
  end.

Definition read_octet : list byte → option (Z * list byte) := read_number digit 10 255 3 false.

Definition read_ipv4_addr (s : list byte) : option (Z * list byte) :=
  '(a, s) ← read_octet s;
  '(b, s) ← read_sep x2e 1 read_octet s;
  '(c, s) ← read_sep x2e 2 read_octet s;
  '(d, s) ← read_sep x2e 3 read_octet s;
  Some (ipv4_new a b c d, s).

(** [read_groups]: the groups read, whether the last two were an embedded IPv4 address, and the
    rest; [limit] groups from index [i] on. *)
Fixpoint read_groups (limit i : nat) (s : list byte) : list Z * bool * list byte :=
  match limit with
  | O => ([], false, s)
  | S limit =>
      match (if bool_decide (limit = 0)%nat then None else read_sep x3a i read_ipv4_addr s) with
      | Some (ip, s) => ([ip / 2 ^ 16; ip mod 2 ^ 16], true, s)
      | None =>
          match read_sep x3a i (read_number hex_digit 16 65535 4 true) s with
          | Some (g, s) => let '(gs, v4, s) := read_groups limit (S i) s in (g :: gs, v4, s)
          | None => ([], false, s)
          end
      end
  end.

Definition read_ipv6_addr (s : list byte) : option (list byte * list byte) :=
  let '(head, head_ipv4, s) := read_groups 8 0 s in
  if bool_decide (length head = 8)%nat then Some (concat (be16 <$> head), s)
  else if (head_ipv4 : bool) then None
  else
    s ← read_char x3a s;
    s ← read_char x3a s;
    let '(tail, _, s) := read_groups (7 - length head) 0 s in
    Some (concat (be16 <$> (head ++ replicate (8 - length head - length tail) 0 ++ tail)), s).

Definition read_port (s : list byte) : option (Z * list byte) :=
  s ← read_char x3a s; read_number digit 10 u16_max u32_max true s.

(** [read_scope_id().unwrap_or(0)]: only what is left matters here. *)
Definition skip_scope_id (s : list byte) : list byte :=
  match read_char x25 s with
  | Some r => match read_number digit 10 u32_max u32_max true r with Some (_, r) => r | None => s end
  | None => s
  end.

Definition read_socket_addr (s : list byte) : option (SocketAddr * list byte) :=
  match ('(ip, s) ← read_ipv4_addr s; '(port, s) ← read_port s; Some (V4 ip port, s)) with
  | Some r => Some r
  | None =>
      s ← read_char x5b s;
      '(ip, s) ← read_ipv6_addr s;
      s ← read_char x5d (skip_scope_id s);
      '(port, s) ← read_port s;
      Some (V6 (of_be ip) port, s)
  end.

(** [s.parse::<SocketAddr>()]: all input must be used. *)
Definition parse_socket_addr (s : list byte) : option SocketAddr :=
  match read_socket_addr s with
  | Some (a, []) => Some a
  | _ => None
  end.

(** [input.rsplit_once(':')] *)
Fixpoint rsplit_once (c : byte) (s : list byte) : option (list byte * list byte) :=
  match s with
  | [] => None
  | b :: s =>
      match rsplit_once c s with
      | Some (h, t) => Some (b :: h, t)
      | None => if bool_decide (b = c) then Some ([], s) else None
      end
  end.

Definition target_parse (input : list byte) : res ClientError TargetAddr :=
  match parse_socket_addr input with
  | Some addr => Ok (IpPort addr)
  | None =>
      let? ' (host, port_str) := ok_or (InvalidTarget bad_target) (rsplit_once x3a input) in
      let? port := ok_or (InvalidTarget bad_target) (parse_uint u16_max port_str) in
      if bool_decide (host = []) then Err (InvalidTarget bad_target)
      else Ok (DomainPort host port)
  end.

(** ** Lemmas *)

Lemma rsplit_once_None c s : c ∉ s → rsplit_once c s = None.
Proof.
  induction s as [|b s IH]; [done|]. rewrite not_elem_of_cons. intros [Hb Hs]. cbn. rewrite IH by done.
  by rewrite bool_decide_eq_false_2.
Qed.

Lemma rsplit_once_last c h t : c ∉ t → rsplit_once c (h ++ c :: t) = Some (h, t).
Proof.
  intros Hn. induction h as [|b h IH]; cbn; [|by rewrite IH].
  by rewrite rsplit_once_None, bool_decide_eq_true_2.
Qed.

Lemma last_occurrence (c : byte) (s : list byte) : c ∈ s → ∃ h t, s = h ++ c :: t ∧ c ∉ t.
Proof.
  induction s as [|b s IH]; [by rewrite elem_of_nil|]. destruct (decide (c ∈ s)) as [Hs|Hs].
  - destruct (IH Hs) as (h & t & -> & Hn). by exists (b :: h), t.
  - intros [->|]%elem_of_cons; [|done]. by exists [], s.
Qed.

Lemma rsplit_once_Some c s h t : rsplit_once c s = Some (h, t) → s = h ++ c :: t ∧ c ∉ t.
Proof.
  destruct (decide (c ∈ s)) as [Hs|Hs]; [|by rewrite rsplit_once_None].
  destruct (last_occurrence c s Hs) as (h' & t' & -> & Hn). rewrite rsplit_once_last by done. by intros [= <- <-].
Qed.

Lemma parse_digits_bound mx acc s v : 0 ≤ acc ≤ mx → parse_digits mx acc s = Some v → 0 ≤ v ≤ mx.
Proof.
  revert acc. induction s as [|b s IH]; intros acc Ha; cbn; [intros [= <-]; lia|].
  unfold digit. destruct (in_range 48 57 b) eqn:Hr; [|done]. cbn. case_bool_decide; [|done]. apply IH.
  unfold in_range in Hr. bdec. lia.
Qed.

Lemma parse_uint_bound mx s v : 0 ≤ mx → parse_uint mx s = Some v → 0 ≤ v ≤ mx.
Proof.
  intros Hm. unfold parse_uint. destruct s as [|b r]; [done|].
  destruct (if bool_decide (b = x2b) then r else b :: r); [done|]. by apply parse_digits_bound.
Qed.

(** A target that is not a socket address is a non-empty host, a colon and a port. *)
Lemma target_parse_domain s h p :
  target_parse s = Ok (DomainPort h p) → parse_socket_addr s = None ∧ h ≠ [] ∧ is_u16 p ∧
  ∃ t, s = (h ++ x3a :: t) ∧ x3a ∉ t ∧ parse_uint u16_max t = Some p.
Proof.
  unfold target_parse. destruct (parse_socket_addr s); [done|].
  destruct (rsplit_once x3a s) as [[h' t]|] eqn:Es; [|done]. cbn [ok_or rbind].
  destruct (parse_uint u16_max t) as [port|] eqn:Ep; [|done]. cbn [ok_or rbind].
  case_bool_decide as Hh; [done|]. intros [= -> ->]. apply rsplit_once_Some in Es as [-> Hn].
  apply parse_uint_bound in Ep as Hb; [|ulia]. split_and!; [done|done|ulia|]. eauto.
Qed.

(** ** Checks against [std]'s documented examples *)

Import (notations) Strings.String.

Lemma parse_examples :
  parse_socket_addr (str "127.0.0.1:8080") = Some (V4 (ipv4_new 127 0 0 1) 8080) ∧
  parse_socket_addr (str "127.0.0.01:80") = None ∧
  parse_socket_addr (str "[2001:db8::1]:8443")
    = Some (V6 (of_be (concat (be16 <$> [8193; 3512; 0; 0; 0; 0; 0; 1]))) 8443) ∧
  parse_socket_addr (str "[::ffff:1.2.3.4]:1") = Some (V6 (of_be (concat (be16 <$> [0; 0; 0; 0; 0; 65535; 258; 772]))) 1) ∧
  parse_socket_addr (str "1.2.3.4:65536") = None ∧
  target_parse (str "example.com:443") = Ok (DomainPort (str "example.com") 443) ∧
  target_parse (str ":80") = Err (InvalidTarget bad_target).
Proof. by vm_compute. Qed.
