(* ===== verification/FakeIp.v ===== *)
(** * FakeIp: the fake-IP pool of [src/fake_ip.rs]

    The pool hands out addresses of [198.18.0.0/15] to domain names, keeps the two maps
    [domain -> ip] and [ip -> Mapping] in step, counts the live flows of each mapping and
    reclaims idle mappings.  [HashMap]s are [gmap]s; the [u32] reference count wraps as in a
    release build. *)

From S2P Require Import Prelude Shared.

Record Mapping := mk_Mapping {
  mp_domain : list byte;
  mp_refcount : Z;
  mp_last_used : Z
}.

Record FakeIpPool := mk_FakeIpPool {
  fp_range_start : Z;
  fp_range_end : Z;
  fp_next : Z;
  fp_domain_to_ip : gmap (list byte) Z;
  fp_ip_to_mapping : gmap Z Mapping
}.

Definition pool_new : FakeIpPool :=
  {| fp_range_start := ipv4_new 198 18 0 0;
     fp_range_end := ipv4_new 198 19 255 255;
     fp_next := ipv4_new 198 18 0 0 + 2;
     fp_domain_to_ip := ∅;
     fp_ip_to_mapping := ∅ |}.

Definition pool_with_next (p : FakeIpPool) (n : Z) : FakeIpPool :=
  mk_FakeIpPool (fp_range_start p) (fp_range_end p) n (fp_domain_to_ip p) (fp_ip_to_mapping p).

Definition pool_with_maps (p : FakeIpPool) (d2i : gmap (list byte) Z) (i2m : gmap Z Mapping)
  : FakeIpPool :=
  mk_FakeIpPool (fp_range_start p) (fp_range_end p) (fp_next p) d2i i2m.

Definition touch_mapping (now : Z) (m : Mapping) : Mapping :=
  mk_Mapping (mp_domain m) (mp_refcount m) now.

Definition advance_next (p : FakeIpPool) : FakeIpPool :=
  let n := fp_next p + 1 in
  pool_with_next p (if bool_decide (n > fp_range_end p) then fp_range_start p + 2 else n).

(** The number of allocatable addresses, [range_end - (range_start + 2) + 1]. *)
Definition pool_span (p : FakeIpPool) : Z := fp_range_end p - (fp_range_start p + 2) + 1.

(** The [for _ in 0..span] loop of [next_free_ip]: [None] when it runs to its end. *)
Fixpoint probe_free (n : nat) (p : FakeIpPool) : option Z * FakeIpPool :=
  match n with
  | O => (None, p)
  | S n' =>
      let cand := fp_next p in
      let p := advance_next p in
      match fp_ip_to_mapping p !! cand with
      | None => (Some cand, p)
      | Some _ => probe_free n' p
      end
  end.

Definition next_free_ip (p : FakeIpPool) : Z * FakeIpPool :=
  match probe_free (Z.to_nat (pool_span p)) p with
  | (Some cand, p) => (cand, p)
  | (None, p) =>
      let cand := fp_next p in
      let p := advance_next p in
      match fp_ip_to_mapping p !! cand with
      | Some victim =>
          (cand, pool_with_maps p (delete (mp_domain victim) (fp_domain_to_ip p))
                                  (delete cand (fp_ip_to_mapping p)))
      | None => (cand, p)
      end
  end.

Definition pool_alloc (p : FakeIpPool) (domain : list byte) (now : Z) : Z * FakeIpPool :=
  match fp_domain_to_ip p !! domain with
  | Some ip =>
      (ip, pool_with_maps p (fp_domain_to_ip p)
                            (alter (touch_mapping now) ip (fp_ip_to_mapping p)))
  | None =>
      let '(ip, p) := next_free_ip p in
      (ip, pool_with_maps p (<[domain := ip]> (fp_domain_to_ip p))
                            (<[ip := mk_Mapping domain 0 now]> (fp_ip_to_mapping p)))
  end.

Definition pool_acquire (p : FakeIpPool) (ip now : Z) : FakeIpPool :=
  pool_with_maps p (fp_domain_to_ip p)
    (alter (λ m, mk_Mapping (mp_domain m) (as_u32 (mp_refcount m + 1)) now) ip
           (fp_ip_to_mapping p)).

Definition pool_release (p : FakeIpPool) (ip now : Z) : FakeIpPool :=
  pool_with_maps p (fp_domain_to_ip p)
    (alter (λ m, mk_Mapping (mp_domain m) (saturating_sub (mp_refcount m) 1) now) ip
           (fp_ip_to_mapping p)).

(** The test of the [filter] closure in [sweep]. *)
Definition mapping_stale (now ttl : Z) (m : Mapping) : bool :=
  bool_decide (mp_refcount m = 0) && bool_decide (saturating_sub now (mp_last_used m) > ttl).

Definition sweep_remove (p : FakeIpPool) (ip : Z) : FakeIpPool :=
  match fp_ip_to_mapping p !! ip with
  | Some m => pool_with_maps p (delete (mp_domain m) (fp_domain_to_ip p))
                               (delete ip (fp_ip_to_mapping p))
  | None => p
  end.

Definition pool_stale (p : FakeIpPool) (now ttl : Z) : list Z :=
  (map_to_list (filter (λ kv, mapping_stale now ttl kv.2 = true) (fp_ip_to_mapping p))).*1.

Definition pool_sweep (p : FakeIpPool) (now ttl : Z) : Z * FakeIpPool :=
  let stale := pool_stale p now ttl in
  (len stale, fold_left sweep_remove stale p).

Definition pool_resolve (p : FakeIpPool) (ip : Z) : option (list byte) :=
  mp_domain <$> fp_ip_to_mapping p !! ip.

Definition is_fake (p : FakeIpPool) (ip : Z) : bool :=
  bool_decide (fp_range_start p ≤ ip) && bool_decide (ip ≤ fp_range_end p).

Definition pool_usage (p : FakeIpPool) : Z * Z :=
  (Z.of_nat (size (fp_ip_to_mapping p)),
   Z.of_nat (size (filter (λ kv, mp_refcount kv.2 > 0) (fp_ip_to_mapping p)))).

(** ** Invariant *)

Record pool_wf (p : FakeIpPool) : Prop := {
  wf_range : 0 ≤ fp_range_start p ∧ fp_range_start p + 2 ≤ fp_range_end p < 2 ^ 32;
  wf_next : fp_range_start p + 2 ≤ fp_next p ≤ fp_range_end p;
  wf_d2i : ∀ d ip, fp_domain_to_ip p !! d = Some ip →
             ∃ m, fp_ip_to_mapping p !! ip = Some m ∧ mp_domain m = d;
  wf_i2d : ∀ ip m, fp_ip_to_mapping p !! ip = Some m →
             fp_domain_to_ip p !! mp_domain m = Some ip;
  wf_addr : ∀ ip m, fp_ip_to_mapping p !! ip = Some m →
             fp_range_start p + 2 ≤ ip ≤ fp_range_end p;
  wf_rc : ∀ ip m, fp_ip_to_mapping p !! ip = Some m → is_u32 (mp_refcount m)
}.

(** The operations the client performs on the pool. *)
Inductive pool_op : Type :=
| OpAlloc (domain : list byte) (now : Z)
| OpAcquire (ip now : Z)
| OpRelease (ip now : Z)
| OpSweep (now ttl : Z).

Definition pool_run (o : pool_op) (p : FakeIpPool) : FakeIpPool :=
  match o with
  | OpAlloc d now => snd (pool_alloc p d now)
  | OpAcquire ip now => pool_acquire p ip now
  | OpRelease ip now => pool_release p ip now
  | OpSweep now ttl => snd (pool_sweep p now ttl)
  end.

Inductive pool_reachable : FakeIpPool → Prop :=
| reach_new : pool_reachable pool_new
| reach_op o p : pool_reachable p → pool_reachable (pool_run o p).

(** ** Ring cursor *)

(** The address [k] places after the cursor on the ring of allocatable addresses. *)
Definition ring_at (p : FakeIpPool) (k : Z) : Z :=
  ring (fp_range_start p + 2) (fp_range_end p) (fp_next p) k.

Lemma advance_fields p :
  fp_range_start (advance_next p) = fp_range_start p ∧
  fp_range_end (advance_next p) = fp_range_end p ∧
  fp_domain_to_ip (advance_next p) = fp_domain_to_ip p ∧
  fp_ip_to_mapping (advance_next p) = fp_ip_to_mapping p.
Proof. done. Qed.

Lemma advance_wf p : pool_wf p → pool_wf (advance_next p).
Proof.
  intros [????? ?]. constructor; try done. cbn. case_bool_decide; lia.
Qed.
#[export] Hint Resolve advance_wf : vpn.

Lemma span_pos p : pool_wf p → 0 < pool_span p.
Proof. intros [? ? _ _ _ _]. unfold pool_span. lia. Qed.

Lemma ring_at_0 p : pool_wf p → ring_at p 0 = fp_next p.
Proof. intros Hwf. apply ring_0, Hwf. Qed.

Lemma ring_at_advance p k : pool_wf p → ring_at (advance_next p) k = ring_at p (k + 1).
Proof.
  intros Hwf. pose proof (wf_next _ Hwf). unfold ring_at. rewrite <-ring_next by done. cbn.
  f_equal. repeat case_bool_decide; lia.
Qed.

Lemma probe_free_fields n p :
  let p' := snd (probe_free n p) in
  fp_range_start p' = fp_range_start p ∧ fp_range_end p' = fp_range_end p ∧
  fp_domain_to_ip p' = fp_domain_to_ip p ∧ fp_ip_to_mapping p' = fp_ip_to_mapping p.
Proof.
  revert p. induction n as [|n IH]; intros p; [done|]. cbn.
  destruct (fp_ip_to_mapping p !! fp_next p); [|done].
  apply (IH (advance_next p)).
Qed.

Lemma probe_free_wf n p : pool_wf p → pool_wf (snd (probe_free n p)).
Proof.
  revert p. induction n as [|n IH]; intros p Hwf; [done|]. cbn.
  destruct (fp_ip_to_mapping p !! fp_next p); [apply IH|]; by apply advance_wf.
Qed.
#[export] Hint Resolve probe_free_wf : vpn.

Lemma probe_free_Some n p c p' :
  pool_wf p → probe_free n p = (Some c, p') →
  fp_ip_to_mapping p !! c = None ∧ fp_range_start p + 2 ≤ c ≤ fp_range_end p.
Proof.
  revert p. induction n as [|n IH]; intros p Hwf; [done|]. cbn.
  destruct (fp_ip_to_mapping p !! fp_next p) eqn:E.
  - intros H. apply IH in H as [? ?]; [done|by apply advance_wf].
  - intros [= <- <-]. split; [done|]. apply (wf_next _ Hwf).
Qed.

Lemma probe_free_None n p p' :
  pool_wf p → probe_free n p = (None, p') →
  ∀ k, 0 ≤ k < Z.of_nat n → is_Some (fp_ip_to_mapping p !! ring_at p k).
Proof.
  revert p. induction n as [|n IH]; intros p Hwf; [lia|]. cbn.
  destruct (fp_ip_to_mapping p !! fp_next p) eqn:E; [|done].
  intros H k Hk. destruct (decide (k = 0)) as [->|].
  - rewrite ring_at_0 by done. eauto.
  - specialize (IH _ (advance_wf _ Hwf) H (k - 1) ltac:(lia)).
    rewrite ring_at_advance in IH by done.
    replace (k - 1 + 1) with k in IH by lia. done.
Qed.

(** A pool that runs out of free addresses has every address of the range in use. *)
Lemma probe_full p p' :
  pool_wf p → probe_free (Z.to_nat (pool_span p)) p = (None, p') →
  pool_span p ≤ Z.of_nat (size (fp_ip_to_mapping p)).
Proof.
  intros Hwf H. pose proof (span_pos p Hwf).
  eapply (ring_cover_size _ (fp_range_start p + 2) (fp_range_end p) (fp_next p)); [apply Hwf|].
  intros k Hk. apply (probe_free_None _ _ _ Hwf H). unfold pool_span in *. lia.
Qed.

(** ** [next_free_ip] and [alloc] *)

Lemma wf_delete p ip m :
  pool_wf p → fp_ip_to_mapping p !! ip = Some m →
  pool_wf (pool_with_maps p (delete (mp_domain m) (fp_domain_to_ip p))
                            (delete ip (fp_ip_to_mapping p))).
Proof.
  intros Hwf Hm. pose proof (wf_i2d _ Hwf _ _ Hm) as Hd.
  constructor; cbn; try apply Hwf.
  - intros d i Hi. apply lookup_delete_Some in Hi as [Hne Hi].
    destruct (wf_d2i _ Hwf _ _ Hi) as (m' & Hm' & <-). exists m'. split; [|done].
    apply lookup_delete_Some. split; [|done]. intros <-. simplify_eq.
  - intros i m' Hi. apply lookup_delete_Some in Hi as [Hne Hi].
    apply lookup_delete_Some. pose proof (wf_i2d _ Hwf _ _ Hi) as Hd'.
    split; [|done]. intros Heq. rewrite Heq in Hd. simplify_eq.
  - intros i m' [_ Hi]%lookup_delete_Some. by eapply wf_addr.
  - intros i m' [_ Hi]%lookup_delete_Some. by eapply wf_rc.
Qed.

Lemma wf_insert p d ip now :
  pool_wf p → fp_domain_to_ip p !! d = None → fp_ip_to_mapping p !! ip = None →
  fp_range_start p + 2 ≤ ip ≤ fp_range_end p →
  pool_wf (pool_with_maps p (<[d := ip]> (fp_domain_to_ip p))
                            (<[ip := mk_Mapping d 0 now]> (fp_ip_to_mapping p))).
Proof.
  intros Hwf Hd Hip Hr. constructor; cbn; try apply Hwf.
  - intros d' i [[<- <-]|[Hne Hi]]%lookup_insert_Some.
    + eexists. by rewrite lookup_insert_eq.
    + destruct (wf_d2i _ Hwf _ _ Hi) as (m & Hm & <-). exists m. split; [|done].
      rewrite lookup_insert_ne by congruence. done.
  - intros i m [[<- <-]|[Hne Hi]]%lookup_insert_Some; [apply lookup_insert_eq|].
    pose proof (wf_i2d _ Hwf _ _ Hi). rewrite lookup_insert_ne by congruence. done.
  - intros i m [[<- <-]|[Hne Hi]]%lookup_insert_Some; [done|by eapply wf_addr].
  - intros i m [[<- <-]|[Hne Hi]]%lookup_insert_Some; [cbn; ulia|by eapply wf_rc].
Qed.

Lemma wf_alter p f ip :
  pool_wf p → (∀ m, mp_domain (f m) = mp_domain m) →
  (∀ m, is_u32 (mp_refcount m) → is_u32 (mp_refcount (f m))) →
  pool_wf (pool_with_maps p (fp_domain_to_ip p) (alter f ip (fp_ip_to_mapping p))).
Proof.
  intros Hwf Hdom Hrc.
  assert (∀ i m, alter f ip (fp_ip_to_mapping p) !! i = Some m →
     ∃ m0, fp_ip_to_mapping p !! i = Some m0 ∧ mp_domain m = mp_domain m0 ∧
           (is_u32 (mp_refcount m0) → is_u32 (mp_refcount m))) as Halt.
  { intros i m. rewrite lookup_alter. case_decide; [subst|eauto].
    intros (m0 & ? & ->)%fmap_Some. eauto. }
  constructor; cbn; try apply Hwf.
  - intros d i Hi. destruct (wf_d2i _ Hwf _ _ Hi) as (m & Hm & <-).
    rewrite lookup_alter. case_decide; [subst|eauto]. rewrite Hm. cbn. eauto.
  - intros i m (m0 & Hm0 & -> & _)%Halt. by apply wf_i2d.
  - intros i m (m0 & Hm0 & _)%Halt. by eapply wf_addr.
  - intros i m (m0 & Hm0 & _ & Hr)%Halt. by eapply Hr, wf_rc.
Qed.

(** [next_free_ip] returns a free address of the range.  Unless the pool is full it leaves both
    maps as they are; a full pool loses exactly the mapping of the address it returns. *)
Lemma next_free_ip_spec p c p' :
  pool_wf p → next_free_ip p = (c, p') →
  pool_wf p' ∧ fp_range_start p' = fp_range_start p ∧ fp_range_end p' = fp_range_end p ∧
  fp_range_start p + 2 ≤ c ≤ fp_range_end p ∧ fp_ip_to_mapping p' !! c = None ∧
  ((fp_domain_to_ip p' = fp_domain_to_ip p ∧ fp_ip_to_mapping p' = fp_ip_to_mapping p) ∨
   (pool_span p ≤ Z.of_nat (size (fp_ip_to_mapping p)) ∧
    ∃ m, fp_ip_to_mapping p !! c = Some m ∧
      fp_domain_to_ip p' = delete (mp_domain m) (fp_domain_to_ip p) ∧
      fp_ip_to_mapping p' = delete c (fp_ip_to_mapping p))).
Proof.
  intros Hwf. unfold next_free_ip.
  pose proof (probe_free_fields (Z.to_nat (pool_span p)) p) as Hf.
  pose proof (probe_free_wf (Z.to_nat (pool_span p)) p Hwf) as Hwf'.
  destruct (probe_free _ p) as [[cand|] q] eqn:Hp; cbn in Hf, Hwf'; destruct Hf as (Hs & He & Hd & Hm).
  - intros [= <- <-]. pose proof (probe_free_Some _ _ _ _ Hwf Hp) as [? ?].
    rewrite Hm. split_and!; [first [done|lia]..|]. left. by split.
  - pose proof (probe_full _ _ Hwf Hp). pose proof (wf_next _ Hwf').
    assert (pool_wf (advance_next q)) as Hadv by auto with vpn.
    cbn. destruct (fp_ip_to_mapping q !! fp_next q) as [v|] eqn:Hv; intros [= <- <-].
    + split; [by apply (wf_delete (advance_next q))|]. cbn.
      rewrite lookup_delete_eq, Hs, He, Hd, Hm in *. split_and!; [first [done|lia]..|]. right. eauto.
    + split; [done|]. cbn. rewrite Hs, He, Hm, Hd in *. split_and!; [first [done|lia]..|]. by left.
Qed.

Lemma pool_alloc_wf p d now : pool_wf p → pool_wf (snd (pool_alloc p d now)).
Proof.
  intros Hwf. unfold pool_alloc. destruct (fp_domain_to_ip p !! d) eqn:Hd.
  - by apply wf_alter.
  - destruct (next_free_ip p) as [c q] eqn:Hn.
    pose proof (next_free_ip_spec _ _ _ Hwf Hn) as (Hq & Hs & He & Hr & Hc & Hcase).
    apply wf_insert; try done; [|lia].
    destruct Hcase as [[-> _]|(_ & m & _ & -> & _)]; [done|].
    apply lookup_delete_None. by right.
Qed.

Lemma pool_acquire_wf p ip now : pool_wf p → pool_wf (pool_acquire p ip now).
Proof.
  intros Hwf. apply wf_alter; [done..|]. intros m _. cbn. apply Z.mod_pos_bound. lia.
Qed.

Lemma pool_release_wf p ip now : pool_wf p → pool_wf (pool_release p ip now).
Proof. intros Hwf. apply wf_alter; [done..|]. intros m ?. cbn. ulia. Qed.

(** ** [sweep] *)

Lemma sweep_remove_wf p ip : pool_wf p → pool_wf (sweep_remove p ip).
Proof.
  intros Hwf. unfold sweep_remove. destruct (_ !! ip) eqn:Hm; [|done]. by apply wf_delete.
Qed.

Lemma sweep_remove_mapping p ip :
  fp_ip_to_mapping (sweep_remove p ip) = delete ip (fp_ip_to_mapping p).
Proof.
  unfold sweep_remove. destruct (_ !! ip) eqn:Hm; [done|]. by rewrite delete_id.
Qed.

Lemma sweep_fold_wf l p : pool_wf p → pool_wf (fold_left sweep_remove l p).
Proof. revert p. induction l; cbn; auto using sweep_remove_wf. Qed.

Lemma sweep_fold_mapping l p ip :
  fp_ip_to_mapping (fold_left sweep_remove l p) !! ip =
  if decide (ip ∈ l) then None else fp_ip_to_mapping p !! ip.
Proof.
  revert p. induction l as [|a l IH]; intros p; cbn; [by case_decide; [set_solver|]|].
  rewrite IH, sweep_remove_mapping. destruct (decide (ip = a)) as [->|].
  - rewrite lookup_delete_eq. repeat case_decide; set_solver.
  - rewrite lookup_delete_ne by done. repeat case_decide; set_solver.
Qed.

Lemma elem_of_pool_stale p now ttl ip :
  ip ∈ pool_stale p now ttl ↔
  ∃ m, fp_ip_to_mapping p !! ip = Some m ∧ mapping_stale now ttl m = true.
Proof.
  unfold pool_stale. rewrite list_elem_of_fmap. split.
  - intros ([i m] & -> & Hm%elem_of_map_to_list). apply map_lookup_filter_Some in Hm as [??]. eauto.
  - intros (m & Hm & Hs). exists (ip, m). split; [done|].
    apply elem_of_map_to_list, map_lookup_filter_Some. done.
Qed.

Lemma pool_sweep_lookup p now ttl ip :
  fp_ip_to_mapping (snd (pool_sweep p now ttl)) !! ip =
  m ← fp_ip_to_mapping p !! ip; if mapping_stale now ttl m then None else Some m.
Proof.
  unfold pool_sweep. cbn. rewrite sweep_fold_mapping. case_decide as Hin.
  - apply elem_of_pool_stale in Hin as (m & -> & Hs). cbn. by rewrite Hs.
  - destruct (_ !! ip) as [m|] eqn:Hm; [|done]. cbn.
    destruct (mapping_stale now ttl m) eqn:Hs; [|done].
    destruct Hin. apply elem_of_pool_stale. eauto.
Qed.

Lemma pool_sweep_wf p now ttl : pool_wf p → pool_wf (snd (pool_sweep p now ttl)).
Proof. apply sweep_fold_wf. Qed.

Lemma pool_new_wf : pool_wf pool_new.
Proof.
  constructor; try by (intros *; cbn; rewrite lookup_empty).
  - cbn. unfold ipv4_new. lia.
  - cbn. unfold ipv4_new. lia.
Qed.

Lemma pool_run_wf o p : pool_wf p → pool_wf (pool_run o p).
Proof.
  intros Hwf. destruct o; cbn [pool_run].
  - by apply pool_alloc_wf.
  - by apply pool_acquire_wf.
  - by apply pool_release_wf.
  - by apply pool_sweep_wf.
Qed.
#[export] Hint Resolve pool_new_wf pool_alloc_wf pool_acquire_wf pool_release_wf pool_sweep_wf : vpn.

Lemma pool_reachable_wf' p : pool_reachable p → pool_wf p.
Proof. induction 1; auto using pool_new_wf, pool_run_wf. Qed.

(** ** [alloc] *)

(** What [alloc] does to the [ip -> Mapping] table. *)
Lemma pool_alloc_maps p d now ip p' :
  pool_wf p → pool_alloc p d now = (ip, p') →
  fp_domain_to_ip p' !! d = Some ip ∧
  match fp_domain_to_ip p !! d with
  | Some _ => ∃ m, fp_ip_to_mapping p !! ip = Some m ∧ mp_domain m = d ∧
      fp_ip_to_mapping p' = <[ip := touch_mapping now m]> (fp_ip_to_mapping p)
  | None => fp_ip_to_mapping p' = <[ip := mk_Mapping d 0 now]> (fp_ip_to_mapping p) ∧
      (fp_ip_to_mapping p !! ip = None ∨
       pool_span p ≤ Z.of_nat (size (fp_ip_to_mapping p)))
  end.
Proof.
  intros Hwf. unfold pool_alloc. destruct (fp_domain_to_ip p !! d) eqn:Hd.
  - intros [= <- <-]. cbn. split; [done|].
    destruct (wf_d2i _ Hwf _ _ Hd) as (m & Hm & ?). exists m. split_and!; [done..|].
    apply map_eq. intros i. rewrite lookup_alter, lookup_insert.
    case_decide; [subst; by rewrite Hm|done].
  - destruct (next_free_ip p) as [c q] eqn:Hn. intros [= <- <-]. cbn.
    pose proof (next_free_ip_spec _ _ _ Hwf Hn) as (_ & _ & _ & _ & Hc & Hcase).
    split; [by rewrite lookup_insert_eq|].
    destruct Hcase as [[_ Hm]|(Hfull & m & Hcm & _ & Hm)]; rewrite Hm in *.
    + split; [done|by left].
    + split; [by rewrite insert_delete_eq|by right].
Qed.

Lemma pool_alloc_range p d now ip p' :
  pool_wf p → pool_alloc p d now = (ip, p') →
  fp_range_start p' = fp_range_start p ∧ fp_range_end p' = fp_range_end p.
Proof.
  intros Hwf. unfold pool_alloc. destruct (fp_domain_to_ip p !! d).
  - by intros [= <- <-].
  - destruct (next_free_ip p) as [c q] eqn:Hn. intros [= <- <-].
    by pose proof (next_free_ip_spec _ _ _ Hwf Hn) as (_ & ? & ? & _).
Qed.

Lemma sweep_fold_range l p :
  fp_range_start (fold_left sweep_remove l p) = fp_range_start p ∧
  fp_range_end (fold_left sweep_remove l p) = fp_range_end p.
Proof.
  revert p. induction l as [|a l IH]; intros p; [done|]. cbn. destruct (IH (sweep_remove p a)) as [-> ->].
  unfold sweep_remove. by destruct (_ !! a).
Qed.

Lemma pool_span_reachable p : pool_reachable p → pool_span p = 131070.
Proof.
  intros Hr.
  assert (fp_range_start p = ipv4_new 198 18 0 0 ∧ fp_range_end p = ipv4_new 198 19 255 255)
    as [Hs He].
  { induction Hr as [|o p Hr [IHs IHe]]; [done|]. destruct o; cbn [pool_run]; [|done..|].
    - destruct (pool_alloc p domain now) as [ip p'] eqn:E.
      apply pool_alloc_range in E as [Hs He]; [|by apply pool_reachable_wf']. cbn [snd].
      by rewrite Hs, He.
    - unfold pool_sweep. cbn [snd]. by rewrite !(proj1 (sweep_fold_range _ _)), !(proj2 (sweep_fold_range _ _)). }
  unfold pool_span. rewrite Hs, He. done.
Qed.

(** A pool of any size up to its capacity, with every mapping in use, is reachable. *)
Lemma pool_fill (n : nat) :
  Z.of_nat n ≤ 131070 →
  ∃ p, pool_reachable p ∧ size (fp_ip_to_mapping p) = n ∧
    ∀ ip m, fp_ip_to_mapping p !! ip = Some m → mp_refcount m = 1.
Proof.
  induction n as [|n IH]; intros Hn.
  - exists pool_new. split_and!; [constructor|done|]. intros ip m. cbn. by rewrite lookup_empty.
  - destruct IH as (p & Hr & Hsz & Hrc); [lia|].
    set (d := fresh (elements (dom (fp_domain_to_ip p)))).
    assert (fp_domain_to_ip p !! d = None) as Hd by (apply not_elem_of_dom; rewrite <-elem_of_elements; apply infinite_is_fresh).
    destruct (pool_alloc p d 0) as [ip p'] eqn:E.
    pose proof (pool_reachable_wf' _ Hr) as Hwf.
    destruct (pool_alloc_maps _ _ _ _ _ Hwf E) as [_ Hm]. rewrite Hd in Hm.
    destruct Hm as [Hm [Hnone|Hfull]]; [|rewrite (pool_span_reachable _ Hr) in Hfull; lia].
    exists (pool_run (OpAcquire ip 0) (pool_run (OpAlloc d 0) p)).
    split; [by do 2 constructor|]. cbn. rewrite E. cbn. rewrite Hm. split.
    + rewrite <-(size_dom (D:=gset Z)), dom_alter_L, size_dom, map_size_insert_None by done. lia.
    + intros i m. rewrite lookup_alter. case_decide; [subst|].
      * rewrite lookup_insert_eq. by intros [= <-].
      * rewrite lookup_insert_ne by done. apply Hrc.
Qed.

(** Every mapping has an address of the range, so there are at most [pool_span] of them. *)
Lemma pool_wf_size p : pool_wf p → Z.of_nat (size (fp_ip_to_mapping p)) ≤ pool_span p.
Proof.
  intros Hwf. pose proof (span_pos _ Hwf). unfold pool_span in *.
  apply map_size_range; [lia|]. intros ip m Hm. by eapply wf_addr.
Qed.

Lemma mapping_not_stale now ttl m :
  0 ≤ ttl → mapping_stale now ttl m = false ↔ mp_refcount m ≠ 0 ∨ now - mp_last_used m ≤ ttl.
Proof.
  intros. unfold mapping_stale. rewrite andb_false_iff, !bool_decide_eq_false. ulia.
Qed.

Lemma pool_sweep_size p now ttl :
  fst (pool_sweep p now ttl) =
  Z.of_nat (size (fp_ip_to_mapping p))
  - Z.of_nat (size (fp_ip_to_mapping (snd (pool_sweep p now ttl)))).
Proof.
  set (P := λ kv : Z * Mapping, mapping_stale now ttl kv.2 = true).
  assert (fp_ip_to_mapping (snd (pool_sweep p now ttl))
          = filter (λ kv, ¬ P kv) (fp_ip_to_mapping p)) as ->.
  { apply map_eq. intros ip. rewrite pool_sweep_lookup, map_lookup_filter.
    destruct (_ !! ip) as [m|]; [|done]. cbn. unfold P. cbn.
    destruct (mapping_stale now ttl m); repeat case_guard; done. }
  rewrite <-(map_filter_union_complement P (fp_ip_to_mapping p)) at 1.
  rewrite map_size_disj_union by apply map_disjoint_filter_complement.
  unfold pool_sweep, pool_stale, len, P. cbn [fst].
  rewrite length_fmap, length_map_to_list. lia.
Qed.

(** ** Properties *)

(** In every state the client can reach, the two tables of the pool are inverse to each
    other, every fake IP lies in [198.18.0.2 .. 198.19.255.255], the cursor stays in range and
    every reference count is a [u32]. *)
Theorem pool_reachable_wf p : pool_reachable p → pool_wf p.
Proof. apply pool_reachable_wf'. Qed.

Lemma pool_reachable_wf_witness :
  pool_wf (pool_run (OpSweep 9 1) (pool_run (OpAlloc [x61] 3) pool_new)).
Proof. apply (pool_reachable_wf _). repeat constructor. Defined.

Lemma pool_alloc_resolves p d now ip p' :
  pool_wf p → pool_alloc p d now = (ip, p') → is_fake p' ip = true ∧ pool_resolve p' ip = Some d.
Proof.
  intros Hwf E. assert (pool_wf p') as Hwf' by (pose proof (pool_alloc_wf p d now Hwf); by rewrite E in *).
  destruct (pool_alloc_maps _ _ _ _ _ Hwf E) as [Hd _].
  destruct (wf_d2i _ Hwf' _ _ Hd) as (m' & Hm' & Hdom). pose proof (wf_addr _ Hwf' _ _ Hm'). split.
  - unfold is_fake. rewrite !bool_decide_eq_true_2 by lia. done.
  - unfold pool_resolve. rewrite Hm'. cbn. by rewrite Hdom.
Qed.

(** C28: [alloc] returns a fake IP that resolves to the domain; asking again for the domain
    returns the same address; an address already in the table keeps its reference count, a new
    one starts at zero; and unless the pool is full every other mapping is untouched. *)
Theorem pool_alloc_correct p d now ip p' :
  pool_wf p → pool_alloc p d now = (ip, p') →
  is_fake p' ip = true ∧ pool_resolve p' ip = Some d ∧
  (∀ now', fst (pool_alloc p' d now') = ip) ∧
  (Z.of_nat (size (fp_ip_to_mapping p)) < pool_span p →
   (∀ ip', ip' ≠ ip → fp_ip_to_mapping p' !! ip' = fp_ip_to_mapping p !! ip') ∧
   mp_refcount <$> fp_ip_to_mapping p' !! ip =
     Some (default 0 (mp_refcount <$> fp_ip_to_mapping p !! ip))).
Proof.
  intros Hwf E. destruct (pool_alloc_resolves _ _ _ _ _ Hwf E) as [Hf Hr].
  destruct (pool_alloc_maps _ _ _ _ _ Hwf E) as [Hd Hm]. split_and!; [done..| |].
  - intros now'. unfold pool_alloc. by rewrite Hd.
  - intros Hfree. destruct (fp_domain_to_ip p !! d).
    + destruct Hm as (m & Hm & _ & ->). rewrite lookup_insert_eq, Hm. split; [|done].
      intros. by rewrite lookup_insert_ne.
    + destruct Hm as [-> [Hn|?]]; [|lia]. rewrite lookup_insert_eq, Hn. split; [|done].
      intros. by rewrite lookup_insert_ne.
Qed.

Lemma pool_alloc_correct_witness :
  pool_alloc pool_new [x61] 7 = (ipv4_new 198 18 0 2, snd (pool_alloc pool_new [x61] 7)) ∧
  is_fake (snd (pool_alloc pool_new [x61] 7)) (ipv4_new 198 18 0 2) = true.
Proof.
  assert (pool_alloc pool_new [x61] 7
          = (ipv4_new 198 18 0 2, snd (pool_alloc pool_new [x61] 7))) as E.
  { vm_compute. reflexivity. }
  split; [exact E|]. exact (proj1 (pool_alloc_correct _ _ _ _ _ pool_new_wf E)).
Defined.

(** [sweep] removes exactly the mappings with no live flow that have been idle for more
    than [ttl] seconds, in both directions, keeps every other mapping as it was and returns the
    number removed; a mapping in use is never reclaimed. *)
Theorem pool_sweep_exact p now ttl n p' :
  pool_wf p → 0 ≤ ttl → pool_sweep p now ttl = (n, p') →
  (∀ ip m, fp_ip_to_mapping p' !! ip = Some m ↔
     fp_ip_to_mapping p !! ip = Some m ∧ (mp_refcount m ≠ 0 ∨ now - mp_last_used m ≤ ttl)) ∧
  (∀ d ip, fp_domain_to_ip p' !! d = Some ip ↔
     fp_domain_to_ip p !! d = Some ip ∧ is_Some (fp_ip_to_mapping p' !! ip)) ∧
  n = Z.of_nat (size (fp_ip_to_mapping p)) - Z.of_nat (size (fp_ip_to_mapping p')).
Proof.
  intros Hwf Httl E. pose proof (pool_sweep_lookup p now ttl) as Hl.
  pose proof (pool_sweep_wf p now ttl Hwf) as Hwf'. pose proof (pool_sweep_size p now ttl) as Hsz.
  rewrite E in Hl, Hwf', Hsz. cbn [fst snd] in *. split_and!; [| |done].
  - intros ip m. rewrite Hl. rewrite bind_Some. split.
    + intros (m0 & ? & H). destruct (mapping_stale now ttl m0) eqn:Hs; simplify_eq.
      split; [done|]. by eapply mapping_not_stale.
    + intros [Hm Hk]. exists m. split; [done|].
      by rewrite (proj2 (mapping_not_stale _ _ _ Httl) Hk).
  - intros d ip. split.
    + intros Hd. destruct (wf_d2i _ Hwf' _ _ Hd) as (m & Hm & <-). split; [|eauto].
      rewrite Hl in Hm. apply bind_Some in Hm as (m0 & Hm0 & H).
      destruct (mapping_stale _ _ _); simplify_eq. by apply wf_i2d.
    + intros [Hd [m Hm]]. pose proof (wf_i2d _ Hwf' _ _ Hm) as Hd'.
      rewrite Hl in Hm. apply bind_Some in Hm as (m0 & Hm0 & H).
      destruct (mapping_stale _ _ _); simplify_eq.
      destruct (wf_d2i _ Hwf _ _ Hd) as (? & ? & <-). by simplify_eq.
Qed.

Lemma pool_sweep_exact_witness :
  let p := pool_acquire (snd (pool_alloc (snd (pool_alloc pool_new [x61] 0)) [x62] 0))
             (ipv4_new 198 18 0 3) 0 in
  fst (pool_sweep p 1000 300) = 1 ∧
  fp_ip_to_mapping (snd (pool_sweep p 1000 300)) !! ipv4_new 198 18 0 3
    = Some (mk_Mapping [x62] 1 0).
Proof.
  intros p. split; [vm_compute; reflexivity|].
  assert (pool_wf p) as Hwf by (apply pool_acquire_wf; do 2 apply pool_alloc_wf; apply pool_new_wf).
  apply (pool_sweep_exact p 1000 300 _ _ Hwf ltac:(lia) eq_refl).
  split; [vm_compute; reflexivity|]. left. done.
Defined.

(** C40: on a full pool [alloc] for a new domain overwrites a mapping even when live flows hold
    it: there is a reachable pool whose mappings all have a live flow, and in which [alloc] of
    any unknown domain drops one of them and hands its address to the new domain with a
    reference count of zero, so that the next [sweep] may reclaim it under the flow. *)
Theorem pool_alloc_evicts_live :
  ∃ p, pool_reachable p ∧ ∀ d now, fp_domain_to_ip p !! d = None →
    ∃ ip p' m, pool_alloc p d now = (ip, p') ∧ fp_ip_to_mapping p !! ip = Some m ∧
      mp_refcount m = 1 ∧ fp_domain_to_ip p' !! mp_domain m = None ∧
      fp_ip_to_mapping p' !! ip = Some (mk_Mapping d 0 now).
Proof.
  destruct (pool_fill (Z.to_nat 131070)) as (p & Hr & Hsz & Hrc); [lia|].
  exists p. split; [done|]. intros d now Hd.
  pose proof (pool_reachable_wf' _ Hr) as Hwf.
  destruct (pool_alloc p d now) as [ip p'] eqn:E.
  assert (pool_wf p') as Hwf' by (pose proof (pool_alloc_wf p d now Hwf); by rewrite E in *).
  destruct (pool_alloc_maps _ _ _ _ _ Hwf E) as [Hd' Hm]. rewrite Hd in Hm.
  destruct Hm as [Hm Hor].
  assert (∃ m, fp_ip_to_mapping p !! ip = Some m) as [m Hip].
  { destruct (fp_ip_to_mapping p !! ip) as [m|] eqn:Hn; [eauto|exfalso].
    pose proof (pool_wf_size p' Hwf') as Hle. rewrite Hm, map_size_insert_None in Hle by done.
    pose proof (pool_alloc_range _ _ _ _ _ Hwf E) as [Hs He].
    pose proof (pool_span_reachable _ Hr) as Hsp. unfold pool_span in *. rewrite Hs, He in Hle. lia. }
  exists ip, p', m. split_and!; [done|done|by eapply Hrc| |by rewrite Hm, lookup_insert_eq].
  destruct (fp_domain_to_ip p' !! mp_domain m) as [i|] eqn:Hi; [exfalso|done].
  destruct (wf_d2i _ Hwf' _ _ Hi) as (m' & Hm' & Hdd). rewrite Hm in Hm'.
  apply lookup_insert_Some in Hm' as [[<- <-]|[Hne Hm']]; cbn in Hdd.
  - subst d. by rewrite (wf_i2d _ Hwf _ _ Hip) in Hd.
  - pose proof (wf_i2d _ Hwf _ _ Hip) as H1. pose proof (wf_i2d _ Hwf _ _ Hm') as H2.
    rewrite Hdd in H2. congruence.
Qed.
