(* ===== verification/TuicCodec.v ===== *)
(** * TuicCodec: the TUIC v5 command codec of [src/tuic.rs]

    The byte layouts of [Authenticate], [Connect], [Packet] and [Heartbeat], the decoder of
    downlink packets, and the pure decisions of the UDP path (transport choice, heartbeat gate,
    reconnect back-off, datagram pressure). *)

From S2P Require Import Prelude Shared.

Definition TUIC_VER : byte := x05.
Definition CMD_AUTHENTICATE : byte := x00.
Definition CMD_CONNECT : byte := x01.
Definition CMD_PACKET : byte := x02.
Definition CMD_HEARTBEAT : byte := x04.
Definition ATYP_NONE : byte := xff.
Definition ATYP_DOMAIN : byte := x00.
Definition ATYP_IPV4 : byte := x01.
Definition ATYP_IPV6 : byte := x02.

Definition encode_address (target : TargetAddr) : list byte :=
  match target with
  | IpPort (V4 ip port) => ATYP_IPV4 :: octets ip ++ be16 port
  | IpPort (V6 ip port) => ATYP_IPV6 :: octets6 ip ++ be16 port
  | DomainPort host port =>
      let n := Z.min (len host) u8_max in
      ATYP_DOMAIN :: z2b n :: ztake n host ++ be16 port
  end.

Definition encode_authenticate (uuid token : list byte) : list byte :=
  TUIC_VER :: CMD_AUTHENTICATE :: uuid ++ token.

Definition encode_connect (target : TargetAddr) : list byte :=
  TUIC_VER :: CMD_CONNECT :: encode_address target.

Definition encode_packet (assoc_id : Z) (target : TargetAddr) (data : list byte) : list byte :=
  let addr := encode_address target in
  TUIC_VER :: CMD_PACKET :: be16 assoc_id ++ be16 0 ++ z2b 1 :: z2b 0 ::
  be16 (as_u16 (len data)) ++ addr ++ data.

Definition encode_heartbeat : list byte := [TUIC_VER; CMD_HEARTBEAT].

Record PacketMeta := mk_PacketMeta {
  pm_assoc_id : Z;
  pm_pkt_id : Z;
  pm_frag_total : Z;
  pm_frag_id : Z;
  pm_data : list byte
}.

(** The length of the address field at [pos]; [Err tt] is the source's [None]. *)
Definition address_len (buf : list byte) (pos : Z) : res unit Z :=
  let? t := ok_or tt (get buf pos) in
  if bool_decide (t = ATYP_IPV4) then Ok (1 + 4 + 2)
  else if bool_decide (t = ATYP_IPV6) then Ok (1 + 16 + 2)
  else if bool_decide (t = ATYP_DOMAIN) then
    let? l := ok_or tt (get buf (pos + 1)) in
    Ok (1 + 1 + b2z l + 2)
  else if bool_decide (t = ATYP_NONE) then Ok 1
  else Err tt.

Definition decode_packet_meta (buf : list byte) : res unit PacketMeta :=
  if bool_decide (len buf < 10) then Err tt else
  let? b8 := idx buf 8 in
  let? b9 := idx buf 9 in
  let size := u16_of b8 b9 in
  let? addr_len := address_len buf 10 in
  let data_start := 10 + addr_len in
  let? data_end := ok_or tt (checked_add_u64 data_start size) in
  if bool_decide (len buf < data_end) then Err tt else
  let? b2 := idx buf 2 in
  let? b3 := idx buf 3 in
  let? b4 := idx buf 4 in
  let? b5 := idx buf 5 in
  let? b6 := idx buf 6 in
  let? b7 := idx buf 7 in
  let? data := slice buf data_start data_end in
  Ok (mk_PacketMeta (u16_of b2 b3) (u16_of b4 b5) (b2z b6) (b2z b7) data).

Definition decode_packet (buf : list byte) : res unit (Z * list byte) :=
  let? m := decode_packet_meta buf in
  Ok (pm_assoc_id m, pm_data m).

(** ** Decisions of the UDP path *)

Inductive UdpSend := Datagram | Stream.
Inductive UdpRelayMode := Native | Quic.

#[global] Instance UdpSend_eq_dec : EqDecision UdpSend.
Proof. solve_decision. Defined.
#[global] Instance UdpRelayMode_eq_dec : EqDecision UdpRelayMode.
Proof. solve_decision. Defined.

Definition udp_send_plan (mode : UdpRelayMode) (max_datagram : option Z) (n : Z) : UdpSend :=
  match mode with
  | Quic => Stream
  | Native =>
      match max_datagram with
      | Some max => if bool_decide (n ≤ max) then Datagram else Stream
      | None => Stream
      end
  end.

Definition is_datagram_pressured (send_buffer_space mtu : Z) : bool :=
  bool_decide (send_buffer_space < mtu).

Definition should_send_heartbeat (last_activity now idle_window : Z) : bool :=
  bool_decide (last_activity ≠ 0) &&
  bool_decide (saturating_sub now last_activity ≤ idle_window).

Definition UDP_RECONNECT_CAP_MS : Z := 30000.
Definition UDP_RECONNECT_BASE_MS : Z := 500.

(** [1u64.checked_shl(attempt)]: [None] when the shift amount is at least the width. *)
Definition checked_shl_u64 (a n : Z) : option Z :=
  if bool_decide (n < 64) then Some (Z.shiftl a n mod 2 ^ 64) else None.
Definition saturating_mul_u64 (a b : Z) : Z := Z.min (a * b) u64_max.

(** The delay in milliseconds. *)
Definition udp_reconnect_backoff (attempt : Z) : Z :=
  let exp := saturating_mul_u64 UDP_RECONNECT_BASE_MS
               (default u64_max (checked_shl_u64 1 attempt)) in
  Z.min exp UDP_RECONNECT_CAP_MS.

(** ** The peer's view of the wire format

    What a TUIC server writes: a packet with explicit fragment fields and an address that may be
    absent, and the address parser of the other end.  They are the reference definitions the
    codec is compared with. *)

Definition packet_frame (ver cmd : byte) (assoc pkt ftot fid : Z) (addr data : list byte)
  : list byte :=
  ver :: cmd :: be16 assoc ++ be16 pkt ++ z2b ftot :: z2b fid :: be16 (len data) ++ addr ++ data.

Definition decode_address (buf : list byte) : option (TargetAddr * list byte) :=
  match buf with
  | t :: rest =>
      if bool_decide (t = ATYP_IPV4) then
        match rest with
        | a :: b :: c :: d :: p :: q :: r => Some (IpPort (V4 (of_be [a; b; c; d]) (u16_of p q)), r)
        | _ => None
        end
      else if bool_decide (t = ATYP_IPV6) then
        match zdrop 16 rest with
        | p :: q :: r => Some (IpPort (V6 (of_be (ztake 16 rest)) (u16_of p q)), r)
        | _ => None
        end
      else if bool_decide (t = ATYP_DOMAIN) then
        match rest with
        | l :: body =>
            match zdrop (b2z l) body with
            | p :: q :: r => Some (DomainPort (ztake (b2z l) body) (u16_of p q), r)
            | _ => None
            end
        | [] => None
        end
      else None
  | [] => None
  end.

(** An address field as the server may send it. *)
Definition wire_addr (a : option TargetAddr) : list byte :=
  match a with Some t => encode_address t | None => [ATYP_NONE] end.

Definition host_fits (t : TargetAddr) : Prop :=
  match t with DomainPort h _ => len h ≤ 255 | _ => True end.

(** ** Lemmas *)

Lemma be32_explode z : ∃ a b c d, be32 z = [a; b; c; d].
Proof. by do 4 eexists. Qed.

Lemma decode_encode_address' t rest :
  target_wf t → host_fits t → decode_address (encode_address t ++ rest) = Some (t, rest).
Proof.
  destruct t as [[ip p|ip p]|h p]; cbn; intros Hwf Hfit.
  - destruct Hwf as [Hip Hp]. pose proof (octets_inj ip Hip) as Ho. unfold octets in *.
    destruct (be32_explode ip) as (a & b & c & d & E). rewrite E in *.
    destruct (u16_of_be16 p Hp) as (x & y & -> & Hu). cbn in *. rewrite Ho, Hu. done.
  - destruct Hwf as [Hip Hp]. destruct (u16_of_be16 p Hp) as (x & y & -> & Hu).
    rewrite <-app_assoc, zdrop_app, ztake_app by (by rewrite octets6_len). rewrite octets6_inj by done. cbn. by rewrite Hu.
  - destruct (u16_of_be16 p Hwf) as (x & y & -> & Hu).
    rewrite Z.min_l by (unfold u8_max; lia).
    rewrite b2z_z2b, Z.mod_small by (pose proof (len_nonneg h); lia).
    assert (ztake (len h) h = h) as ->.
    { unfold ztake, len. rewrite Nat2Z.id. by rewrite firstn_all. }
    rewrite <-app_assoc, zdrop_app, ztake_app by done. cbn. by rewrite Hu.
Qed.

Lemma wire_addr_len (a : option TargetAddr) rest pos pre :
  from_option target_wf True a → pos = len pre →
  address_len (pre ++ wire_addr a ++ rest) pos = Ok (len (wire_addr a)).
Proof.
  intros Hwf ->. destruct a as [[[ip p|ip p]|h p]|]; unfold address_len;
    cbn; rewrite get_app_mid by done; cbn.
  - done.
  - done.
  - pose proof (len_nonneg h).
    replace (get _ (len pre + 1)) with (Some (z2b (Z.min (len h) u8_max))).
    + cbn. f_equal. rewrite b2z_z2b.
      unfold u8_max. rewrite Z.mod_small by lia.
      len_norm. rewrite len_ztake by lia. ulia.
    + symmetry. rewrite cons_middle, app_assoc. apply get_app_mid. llia.
  - done.
Qed.

Lemma decode_frame ver cmd assoc pkt ftot fid a data :
  is_u16 assoc → is_u16 pkt → is_u8 ftot → is_u8 fid → is_u16 (len data) →
  from_option target_wf True a →
  decode_packet_meta (packet_frame ver cmd assoc pkt ftot fid (wire_addr a) data)
  = Ok (mk_PacketMeta assoc pkt ftot fid data).
Proof.
  intros Ha Hp Hft Hfi Hd Hwf. unfold packet_frame.
  destruct (u16_of_be16 _ Ha) as (a1 & a2 & -> & Hua).
  destruct (u16_of_be16 _ Hp) as (p1 & p2 & -> & Hup).
  destruct (u16_of_be16 _ Hd) as (s1 & s2 & -> & Hus).
  set (hdr := [ver; cmd; a1; a2; p1; p2; z2b ftot; z2b fid; s1; s2]).
  change (decode_packet_meta (hdr ++ wire_addr a ++ data)
          = Ok (mk_PacketMeta assoc pkt ftot fid data)).
  unfold decode_packet_meta. rewrite (wire_addr_len a data 10 hdr) by done.
  assert (len hdr = 10) as Hh by done. pose proof (len_nonneg data).
  pose proof (len_nonneg (wire_addr a)).
  assert (len (wire_addr a) ≤ 300) as Hsmall.
  { destruct a as [[[ip p|ip p]|h p]|]; cbn; len_norm; try done.
    pose proof (len_nonneg h). rewrite len_ztake; unfold u8_max; lia. }
  rewrite bool_decide_eq_false_2 by llia.
  repeat (erewrite (idx_app_l hdr) by reflexivity; cbn [rbind]). rewrite Hus.
  unfold checked_add_u64. rewrite bool_decide_eq_true_2 by ulia. cbn [ok_or rbind].
  rewrite bool_decide_eq_false_2 by llia.
  repeat (erewrite (idx_app_l hdr) by reflexivity; cbn [rbind]). unfold slice.
  replace (get_range _ _ _) with (Some data).
  - cbn. rewrite Hua, Hup, !b2z_z2b, !Z.mod_small by ulia. done.
  - symmetry. rewrite app_assoc. rewrite <-(app_nil_r data) at 1.
    apply get_range_app; llia.
Qed.

Lemma encode_packet_frame assoc t data :
  is_u16 (len data) →
  encode_packet assoc t data = packet_frame TUIC_VER CMD_PACKET assoc 0 1 0 (wire_addr (Some t)) data.
Proof. intros Hd. unfold encode_packet, as_u16. by rewrite Z.mod_small by ulia. Qed.

Lemma address_len_bound buf pos n : address_len buf pos = Ok n → 1 ≤ n ≤ 259.
Proof.
  unfold address_len. destruct (get buf pos); [|done]. cbn [ok_or rbind].
  repeat case_bool_decide; try (intros [= <-]; lia); try done.
  destruct (get buf (pos + 1)) as [l|]; [|done]. intros [= <-]. pose proof (b2z_range l). lia.
Qed.

Lemma address_len_no_panic buf pos : address_len buf pos ≠ Panic.
Proof.
  unfold address_len. destruct (get buf pos); [|done]. cbn.
  repeat case_bool_decide; try done. by destruct (get buf (pos + 1)).
Qed.

Lemma decode_packet_meta_cases buf :
  decode_packet_meta buf = Err tt ∨
  ∃ m pre post, decode_packet_meta buf = Ok m ∧ buf = pre ++ pm_data m ++ post ∧
    11 ≤ len pre ∧ is_u16 (pm_assoc_id m) ∧ is_u16 (pm_pkt_id m) ∧ is_u8 (pm_frag_total m) ∧
    is_u8 (pm_frag_id m) ∧ is_u16 (len (pm_data m)).
Proof.
  unfold decode_packet_meta. case_bool_decide as H10; [by left|].
  assert (∀ i, 0 ≤ i < 10 → ∃ x, (idx buf i : res unit byte) = Ok x) as Hidx.
  { intros. apply idx_no_panic. lia. }
  destruct (Hidx 8) as [b8 ->]; [lia|]. destruct (Hidx 9) as [b9 ->]; [lia|]. cbn [rbind].
  destruct (address_len buf 10) as [n|[]|] eqn:Hn; [|by left|by apply address_len_no_panic in Hn].
  apply address_len_bound in Hn. pose proof (u16_of_range b8 b9) as Hsz. cbn [rbind].
  unfold checked_add_u64. rewrite bool_decide_eq_true_2 by ulia. cbn [ok_or rbind].
  case_bool_decide as Hlen; [by left|right].
  destruct (Hidx 2) as [b2 ->]; [lia|]. destruct (Hidx 3) as [b3 ->]; [lia|].
  destruct (Hidx 4) as [b4 ->]; [lia|]. destruct (Hidx 5) as [b5 ->]; [lia|].
  destruct (Hidx 6) as [b6 ->]; [lia|]. destruct (Hidx 7) as [b7 ->]; [lia|]. cbn [rbind].
  destruct (slice_no_panic (E:=unit) buf (10 + n) (10 + n + u16_of b8 b9)) as [s Hs]; [ulia..|].
  rewrite Hs. cbn [rbind]. unfold slice in Hs. destruct (get_range _ _ _) eqn:Hr; [|done].
  injection Hs as ->. apply get_range_decompose in Hr as (pre & post & -> & Hpre & Hl).
  eexists _, pre, post. split; [done|]. cbn. split_and!; try done; try apply u16_of_range;
    try (apply b2z_range); ulia.
Qed.

(** ** Properties *)

(** The address encoding is what a TUIC peer parses: a well-formed target whose host name
    fits the length byte is decoded to itself, whatever bytes follow. *)
Theorem decode_encode_address t rest :
  target_wf t → host_fits t → decode_address (encode_address t ++ rest) = Some (t, rest).
Proof. apply decode_encode_address'. Qed.

Lemma decode_encode_address_witness :
  decode_address (encode_address (DomainPort [x61; x62] 443) ++ [x07])
  = Some (DomainPort [x61; x62] 443, [x07]).
Proof. apply decode_encode_address; [cbn; ulia | cbn; done]. Defined.

(** C32: [decode_packet_meta] recovers every field of a packet a peer sends, with or without an
    address, and [decode_packet] inverts [encode_packet] for every payload a UDP datagram can
    carry. *)
Theorem packet_roundtrip assoc pkt ftot fid a t data :
  is_u16 assoc → is_u16 pkt → is_u8 ftot → is_u8 fid → is_u16 (len data) →
  from_option target_wf True a → target_wf t →
  decode_packet_meta (packet_frame TUIC_VER CMD_PACKET assoc pkt ftot fid (wire_addr a) data)
    = Ok (mk_PacketMeta assoc pkt ftot fid data) ∧
  decode_packet_meta (encode_packet assoc t data) = Ok (mk_PacketMeta assoc 0 1 0 data) ∧
  decode_packet (encode_packet assoc t data) = Ok (assoc, data).
Proof.
  intros. assert (decode_packet_meta (encode_packet assoc t data)
                  = Ok (mk_PacketMeta assoc 0 1 0 data)) as E.
  { rewrite encode_packet_frame by done. apply decode_frame; try done; ulia. }
  split_and!; [by apply decode_frame|done|]. unfold decode_packet. by rewrite E.
Qed.

Lemma packet_roundtrip_witness :
  decode_packet (encode_packet 7 (IpPort (V4 (ipv4_new 1 2 3 4) 53)) [x01; x02])
  = Ok (7, [x01; x02]).
Proof.
  apply (packet_roundtrip 7 0 1 0 None (IpPort (V4 (ipv4_new 1 2 3 4) 53)) [x01; x02]);
    cbn; unfold ipv4_new, len; cbn; ulia.
Defined.

(** [decode_packet_meta] never panics: on any buffer it returns [None], or fields in their
    integer ranges and a payload that is a slice of the buffer behind the header. *)
Theorem decode_packet_meta_total buf :
  decode_packet_meta buf = Err tt ∨
  ∃ m pre post, decode_packet_meta buf = Ok m ∧ buf = pre ++ pm_data m ++ post ∧
    11 ≤ len pre ∧ is_u16 (pm_assoc_id m) ∧ is_u16 (pm_pkt_id m) ∧ is_u8 (pm_frag_total m) ∧
    is_u8 (pm_frag_id m) ∧ is_u16 (len (pm_data m)).
Proof. apply decode_packet_meta_cases. Qed.

(** The reconnect back-off is [500 * 2^attempt] milliseconds capped at thirty seconds for
    every [u32] attempt number, although the shift overflows from attempt 64 on; it never
    decreases and is never zero. *)
Theorem udp_reconnect_backoff_spec attempt :
  is_u32 attempt →
  udp_reconnect_backoff attempt = Z.min (500 * 2 ^ attempt) 30000 ∧
  500 ≤ udp_reconnect_backoff attempt ≤ udp_reconnect_backoff (attempt + 1).
Proof.
  assert (∀ a, 0 ≤ a → udp_reconnect_backoff a = Z.min (500 * 2 ^ a) 30000) as Hspec.
  { intros a Ha. unfold udp_reconnect_backoff, checked_shl_u64, saturating_mul_u64,
      UDP_RECONNECT_BASE_MS, UDP_RECONNECT_CAP_MS. case_bool_decide as H64.
    - cbn [default]. rewrite Z.shiftl_mul_pow2, Z.mul_1_l by lia.
      assert (0 < 2 ^ a < 2 ^ 64) by (split; [lia|apply Z.pow_lt_mono_r; lia]).
      unfold default, id. rewrite Z.mod_small by lia. ulia.
    - assert (2 ^ 64 ≤ 2 ^ a) by (apply Z.pow_le_mono_r; lia). unfold default, id. ulia. }
  intros Ha. rewrite !Hspec by ulia. split; [done|].
  rewrite Z.pow_add_r by ulia. change (2 ^ 1) with 2.
  assert (1 ≤ 2 ^ attempt) by (pose proof (Z.pow_pos_nonneg 2 attempt); ulia). lia.
Qed.

Lemma udp_reconnect_backoff_spec_witness : udp_reconnect_backoff 100 = 30000.
Proof.
  rewrite (proj1 (udp_reconnect_backoff_spec 100 ltac:(ulia))). reflexivity.
Defined.
