(* ===== verification/Frag.v ===== *)
(** * Frag: reassembly of fragmented downlink packets, [FragReassembler] of [src/tuic.rs]

    A server in native mode splits a large UDP packet into [Packet] commands with
    [FRAG_TOTAL > 1].  The reassembler collects them by [(assoc_id, pkt_id)]. *)

From S2P Require Import Prelude Shared TuicCodec.

Definition FRAG_REASSEMBLY_CAP : Z := 256.
Definition FRAG_REASSEMBLY_TTL_SECS : Z := 10.

Record FragPartial := mk_FragPartial {
  fr_frags : list (option (list byte));
  fr_received : Z;
  fr_first_seen : Z
}.

Record FragReassembler := mk_FragReassembler {
  fr_partials : gmap (Z * Z) FragPartial;
  fr_cap : Z
}.

Definition frag_with_cap (cap : Z) : FragReassembler := mk_FragReassembler ∅ (Z.max cap 1).
Definition frag_new : FragReassembler := frag_with_cap FRAG_REASSEMBLY_CAP.

(** The order of [min_by_key(|(k, p)| (p.first_seen, **k))]. *)
Definition frag_older (a b : (Z * Z) * FragPartial) : bool :=
  let '((a1, a2), pa) := a in
  let '((b1, b2), pb) := b in
  bool_decide (fr_first_seen pa < fr_first_seen pb) ||
  (bool_decide (fr_first_seen pa = fr_first_seen pb) &&
   (bool_decide (a1 < b1) || (bool_decide (a1 = b1) && bool_decide (a2 < b2)))).

Definition evict_if_full (r : FragReassembler) : FragReassembler :=
  if bool_decide (Z.of_nat (size (fr_partials r)) < fr_cap r) then r else
  match min_by frag_older (map_to_list (fr_partials r)) with
  | Some (victim, _) => mk_FragReassembler (delete victim (fr_partials r)) (fr_cap r)
  | None => r
  end.

Definition meta_key (m : PacketMeta) : Z * Z := (pm_assoc_id m, pm_pkt_id m).

(** The two guards before [entry(key)]: drop a stale partial of another size, make room. *)
Definition frag_make_room (r : FragReassembler) (key : Z * Z) (frag_total : Z) : FragReassembler :=
  let r :=
    match fr_partials r !! key with
    | Some p => if bool_decide (len (fr_frags p) = frag_total) then r
                else mk_FragReassembler (delete key (fr_partials r)) (fr_cap r)
    | None => r
    end in
  match fr_partials r !! key with
  | Some _ => r
  | None => evict_if_full r
  end.

(** [entry(key).or_insert_with(..)] *)
Definition frag_entry (r : FragReassembler) (key : Z * Z) (frag_total now : Z) : FragPartial :=
  default (mk_FragPartial (replicate (Z.to_nat frag_total) None) 0 now) (fr_partials r !! key).

(** Writing one slot: a panic when the index is out of range, as in the source. *)
Definition frag_put (p : FragPartial) (i : Z) (data : list byte) : res unit FragPartial :=
  let? slot := idx (fr_frags p) i in
  Ok (mk_FragPartial (<[Z.to_nat i := Some data]> (fr_frags p))
        (if slot is None then fr_received p + 1 else fr_received p) (fr_first_seen p)).

Definition frag_whole (frags : list (option (list byte))) : list byte := concat (omap id frags).

(** [Ok (Some w)]: the packet is complete; [Ok None]: not yet, or an invalid fragment. *)
Definition frag_accept (r : FragReassembler) (m : PacketMeta) (now : Z)
  : res unit (option (list byte) * FragReassembler) :=
  if bool_decide (pm_frag_total m = 0) || bool_decide (pm_frag_total m ≤ pm_frag_id m)
  then Ok (None, r)
  else if bool_decide (pm_frag_total m = 1) then Ok (Some (pm_data m), r)
  else
    let key := meta_key m in
    let frag_total := pm_frag_total m in
    let r := frag_make_room r key frag_total in
    let? p := frag_put (frag_entry r key frag_total now) (pm_frag_id m) (pm_data m) in
    let r' := mk_FragReassembler (<[key := p]> (fr_partials r)) (fr_cap r) in
    if bool_decide (fr_received p < len (fr_frags p)) then Ok (None, r')
    else
      let? done := expect (fr_partials r' !! key) in
      Ok (Some (frag_whole (fr_frags done)),
          mk_FragReassembler (delete key (fr_partials r')) (fr_cap r')).

Definition frag_sweep (r : FragReassembler) (now ttl : Z) : FragReassembler :=
  mk_FragReassembler
    (filter (λ kp, saturating_sub now (fr_first_seen kp.2) ≤ ttl) (fr_partials r)) (fr_cap r).

(** ** Invariant *)

Definition slots_filled (l : list (option (list byte))) : Z := len (omap id l).

Record partial_wf (p : FragPartial) : Prop := {
  pw_len : 2 ≤ len (fr_frags p) ≤ 255;
  pw_rcv : fr_received p = slots_filled (fr_frags p);
  pw_open : fr_received p < len (fr_frags p)
}.

Record frag_wf (r : FragReassembler) : Prop := {
  fw_cap : 1 ≤ fr_cap r;
  fw_size : Z.of_nat (size (fr_partials r)) ≤ fr_cap r;
  fw_partials : map_Forall (λ _ p, partial_wf p) (fr_partials r)
}.

(** Packets and sweeps in any order; the state after a trace and the packets it delivered. *)
Inductive frag_event :=
| EvAccept (m : PacketMeta) (now : Z)
| EvSweep (now ttl : Z).

Definition frag_step (r : FragReassembler) (e : frag_event)
  : res unit (option (list byte) * FragReassembler) :=
  match e with
  | EvAccept m now => frag_accept r m now
  | EvSweep now ttl => Ok (None, frag_sweep r now ttl)
  end.

(** The packets delivered by a trace, each with its key. *)
Fixpoint frag_run (r : FragReassembler) (tr : list frag_event)
  : res unit (list ((Z * Z) * list byte) * FragReassembler) :=
  match tr with
  | [] => Ok ([], r)
  | e :: tr =>
      let? ' (o, r) := frag_step r e in
      let? ' (out, r) := frag_run r tr in
      Ok (match e, o with
          | EvAccept m _, Some w => (meta_key m, w) :: out
          | _, _ => out
          end, r)
  end.

(** ** Lemmas *)

Lemma slots_filled_replicate n : slots_filled (replicate n None) = 0.
Proof. unfold slots_filled. induction n; [done|]. done. Qed.

Lemma slots_filled_app l k : slots_filled (l ++ k) = slots_filled l + slots_filled k.
Proof. unfold slots_filled. rewrite omap_app, len_app. done. Qed.

Lemma slots_filled_insert l i x d :
  l !! i = Some x →
  slots_filled (<[i := Some d]> l) = slots_filled l + (if x is None then 1 else 0).
Proof.
  intros H. rewrite insert_take_drop by (by eapply lookup_lt_Some).
  assert (slots_filled l = slots_filled (take i l ++ x :: drop (S i) l)) as ->.
  { by rewrite take_drop_middle. }
  rewrite !slots_filled_app. change (?x :: ?l) with ([x] ++ l). rewrite !slots_filled_app.
  destruct x; unfold slots_filled; cbn; rewrite ?len_cons, ?len_nil; lia.
Qed.

Lemma slots_filled_le l : 0 ≤ slots_filled l ≤ len l.
Proof.
  unfold slots_filled, len. induction l as [|[d|] l IH]; cbn in *; lia.
Qed.

Lemma evict_size r :
  1 ≤ fr_cap r → Z.of_nat (size (fr_partials r)) ≤ fr_cap r →
  Z.of_nat (size (fr_partials (evict_if_full r))) < fr_cap r.
Proof.
  intros Hcap Hsz. unfold evict_if_full. case_bool_decide as Hlt; [done|].
  destruct (min_by _ _) as [[k p]|] eqn:Hmin.
  - apply min_by_elem, elem_of_map_to_list in Hmin. cbn.
    rewrite map_size_delete_Some by eauto.
    assert (size (fr_partials r) ≠ 0%nat) by (intros E%map_size_empty_inv; rewrite E, lookup_empty in Hmin; done).
    lia.
  - apply min_by_None, map_to_list_empty_iff in Hmin. rewrite Hmin, map_size_empty in *. lia.
Qed.

Lemma evict_sub r : fr_partials (evict_if_full r) ⊆ fr_partials r ∧ fr_cap (evict_if_full r) = fr_cap r.
Proof.
  unfold evict_if_full. case_bool_decide; [done|].
  destruct (min_by _ _) as [[k p]|]; [|done]. split; [apply delete_subseteq|done].
Qed.

Lemma make_room_spec r key n :
  frag_wf r →
  let r' := frag_make_room r key n in
  frag_wf r' ∧ fr_cap r' = fr_cap r ∧ fr_partials r' ⊆ fr_partials r ∧
  (fr_partials r' !! key = None → Z.of_nat (size (fr_partials r')) < fr_cap r) ∧
  (∀ p, fr_partials r' !! key = Some p → len (fr_frags p) = n).
Proof.
  intros [Hcap Hsz Hp]. unfold frag_make_room.
  set (r1 := match fr_partials r !! key with Some p => _ | None => r end).
  assert (fr_cap r1 = fr_cap r ∧ fr_partials r1 ⊆ fr_partials r ∧
          (∀ p, fr_partials r1 !! key = Some p → len (fr_frags p) = n)) as (Hc1 & Hs1 & Hk1).
  { unfold r1. destruct (fr_partials r !! key) eqn:E; [|naive_solver].
    case_bool_decide; [naive_solver|]. cbn. split_and!; [done|apply delete_subseteq|].
    intros ?. by rewrite lookup_delete_eq. }
  pose proof (map_subseteq_size _ _ Hs1).
  pose proof (map_Forall_subseteq _ _ _ Hp Hs1) as Hp1.
  destruct (fr_partials r1 !! key) eqn:E; cbn.
  - split_and!; [constructor; rewrite ?Hc1; try done; lia|done..|congruence|].
    intros p Hp'. apply Hk1. congruence.
  - destruct (evict_sub r1) as [Hs2 Hc2]. pose proof (evict_size r1 ltac:(lia) ltac:(lia)).
    assert (fr_partials (evict_if_full r1) !! key = None) as Hn.
    { by eapply lookup_weaken_None. }
    split_and!; [|congruence|by etrans|rewrite <-Hc1; done|by intros ? ?; simplify_eq].
    constructor; rewrite ?Hc2, ?Hc1; [done|lia|by eapply map_Forall_subseteq].
Qed.

Lemma frag_put_spec p i data :
  0 ≤ i < len (fr_frags p) →
  ∃ slot, fr_frags p !! Z.to_nat i = Some slot ∧
    frag_put p i data = Ok (mk_FragPartial (<[Z.to_nat i := Some data]> (fr_frags p))
                 (if slot is None then fr_received p + 1 else fr_received p) (fr_first_seen p)).
Proof.
  intros Hi. unfold frag_put. destruct (get_is_Some (fr_frags p) i Hi) as [slot Hs].
  exists slot. unfold idx. rewrite Hs. split; [|done].
  unfold get in Hs. by rewrite bool_decide_eq_true_2 in Hs by lia.
Qed.

Lemma len_insert {A} (l : list A) i x : len (<[i := x]> l) = len l.
Proof. unfold len. by rewrite length_insert. Qed.

Lemma frag_accept_step r m now :
  is_u8 (pm_frag_total m) → is_u8 (pm_frag_id m) → frag_wf r →
  ∃ o r', frag_accept r m now = Ok (o, r') ∧ frag_wf r' ∧ fr_cap r' = fr_cap r.
Proof.
  intros Hft Hfi Hwf. unfold frag_accept.
  destruct (_ || _) eqn:Hinv; [by eauto|]. apply orb_false_iff in Hinv as [? ?]. bdec.
  case_bool_decide; [by eauto|].
  destruct (make_room_spec r (meta_key m) (pm_frag_total m) Hwf) as (Hwf1 & Hc1 & _ & Hroom & Hk).
  set (r1 := frag_make_room _ _ _) in *. set (p0 := frag_entry _ _ _ _).
  assert (len (fr_frags p0) = pm_frag_total m ∧ fr_received p0 = slots_filled (fr_frags p0))
    as [Hlen Hrcv].
  { unfold p0, frag_entry. destruct (fr_partials r1 !! meta_key m) as [p|] eqn:E; cbn.
    - split; [by apply Hk|]. apply (fw_partials _ Hwf1 _ _ E).
    - rewrite slots_filled_replicate. unfold len. rewrite length_replicate. ulia. }
  destruct (frag_put_spec p0 (pm_frag_id m) (pm_data m)) as (slot & Hslot & ->); [ulia|].
  cbn [rbind]. set (p := mk_FragPartial _ _ _).
  assert (fr_received p = slots_filled (fr_frags p)) as Hrcv'.
  { cbn. rewrite (slots_filled_insert _ _ _ _ Hslot). destruct slot; lia. }
  assert (len (fr_frags p) = pm_frag_total m) as Hlen' by (cbn; by rewrite len_insert).
  case_bool_decide as Hopen.
  - eexists _, _. split; [done|]. split; [|done]. constructor; cbn; [apply Hwf1| |].
    + destruct (fr_partials r1 !! meta_key m) eqn:E.
      * rewrite map_size_insert_Some by eauto. apply Hwf1.
      * rewrite map_size_insert_None by done. specialize (Hroom ltac:(first [exact E|exact eq_refl])). lia.
    + apply map_Forall_insert_2; [|apply Hwf1]. constructor; [ulia|done..].
  - cbn. rewrite lookup_insert_eq. cbn. eexists _, _. split; [done|]. split; [|done].
    rewrite delete_insert_eq. pose proof (map_subseteq_size _ _ (delete_subseteq (fr_partials r1) (meta_key m))).
    destruct Hwf1. constructor; cbn; [done|lia|by apply map_Forall_delete].
Qed.

Lemma frag_sweep_wf r now ttl : frag_wf r → frag_wf (frag_sweep r now ttl).
Proof.
  intros [Hc Hs Hp]. unfold frag_sweep.
  assert (filter (λ kp, saturating_sub now (fr_first_seen kp.2) ≤ ttl) (fr_partials r)
          ⊆ fr_partials r) as Hsub by apply map_filter_subseteq.
  pose proof (map_subseteq_size _ _ Hsub).
  constructor; cbn; [done|lia|by eapply map_Forall_subseteq].
Qed.

Lemma frag_with_cap_wf cap : frag_wf (frag_with_cap cap).
Proof. constructor; cbn; [lia|rewrite map_size_empty; lia|apply map_Forall_empty]. Qed.
#[export] Hint Resolve frag_sweep_wf frag_with_cap_wf : vpn.

(** ** Reassembly of one packet among arbitrary other traffic *)

Section reassembly.
Context (a p : Z) (chunks : list (list byte)) (U : gset (Z * Z)) (t0 : Z).
Let k : Z * Z := (a, p).
Let n : nat := length chunks.
Hypothesis (Hn : 2 ≤ Z.of_nat n ≤ 255).

(** The fragment [i] of the packet, as the server sends it. *)
Definition fragment (i : nat) : PacketMeta :=
  mk_PacketMeta a p (Z.of_nat n) (Z.of_nat i) (chunks !!! i).

Definition slots (seen : list nat) : list (option (list byte)) :=
  (λ i, if decide (i ∈ seen) then Some (chunks !!! i) else None) <$> seq 0 n.

(** The reassembler after the fragments [seen] of the packet, with no other pending key
    outside [U]. *)
Record collecting (r : FragReassembler) (seen : list nat) : Prop := {
  co_wf : frag_wf r;
  co_dom : dom (fr_partials r) ⊆ U;
  co_U : Z.of_nat (size U) ≤ fr_cap r;
  co_part : match seen with
            | [] => fr_partials r !! k = None
            | _ => ∃ q, fr_partials r !! k = Some q ∧ fr_frags q = slots seen ∧ t0 ≤ fr_first_seen q
            end
}.

Lemma slots_lookup seen i : (i < n)%nat →
  slots seen !! i = Some (if decide (i ∈ seen) then Some (chunks !!! i) else None).
Proof.
  intros. unfold slots. rewrite list_lookup_fmap, lookup_seq_lt by done. done.
Qed.

Lemma slots_nil : slots [] = replicate n None.
Proof.
  unfold slots. apply list_eq. intros i. destruct (decide (i < n)%nat).
  - rewrite list_lookup_fmap, lookup_seq_lt, lookup_replicate_2 by lia. done.
  - rewrite !lookup_ge_None_2; [done|rewrite ?length_replicate, ?length_fmap, ?length_seq; lia..].
Qed.

Lemma slots_cons seen i : (i < n)%nat → slots (i :: seen) = <[i := Some (chunks !!! i)]> (slots seen).
Proof.
  intros Hi. apply list_eq. intros j. destruct (decide (j < n)%nat).
  - rewrite slots_lookup by done. destruct (decide (i = j)) as [->|Hne].
    + rewrite list_lookup_insert_eq; [by rewrite decide_True by set_solver|].
      unfold slots. rewrite length_fmap, length_seq. lia.
    + rewrite list_lookup_insert_ne, slots_lookup by done.
      by rewrite (decide_ext (j ∈ i :: seen) (j ∈ seen)) by set_solver.
  - rewrite !lookup_ge_None_2; [done|unfold slots; rewrite ?length_insert, ?length_fmap, ?length_seq; lia..].
Qed.

Lemma slots_len seen : len (slots seen) = Z.of_nat n.
Proof. unfold slots, len. by rewrite length_fmap, length_seq. Qed.

Lemma slots_count seen :
  NoDup seen → Forall (λ i, (i < n)%nat) seen → slots_filled (slots seen) = Z.of_nat (length seen).
Proof.
  induction seen as [|i seen IH]; intros Hnd Hall.
  - rewrite slots_nil. apply slots_filled_replicate.
  - apply NoDup_cons in Hnd as [Hi Hnd]. apply Forall_cons in Hall as [Hlt Hall].
    rewrite slots_cons by done. erewrite slots_filled_insert by (by apply slots_lookup).
    rewrite decide_False, IH by done. cbn. lia.
Qed.

Lemma slots_full seen : seen ≡ₚ seq 0 n → frag_whole (slots seen) = concat chunks.
Proof.
  intros Hp. unfold frag_whole, slots. f_equal.
  assert (∀ i, i ∈ seq 0 n → i ∈ seen) as Hin by (intros i; by rewrite Hp).
  transitivity ((λ i, chunks !!! i) <$> seq 0 n).
  - revert Hin. generalize (seq 0 n). intros l. induction l as [|i l IH]; intros Hin; [done|].
    cbn. rewrite decide_True by set_solver. cbn. f_equal. apply IH. set_solver.
  - unfold n. clear. apply list_eq. intros i. rewrite list_lookup_fmap.
    destruct (decide (i < length chunks)%nat) as [H|H].
    + rewrite lookup_seq_lt by done. cbn. symmetry. by apply list_lookup_lookup_total_lt.
    + rewrite !lookup_ge_None_2; [done|rewrite ?length_seq; lia..].
Qed.

(** No eviction happens while the pending keys stay inside [U]. *)
Lemma make_room_partials r key ft :
  dom (fr_partials r) ⊆ U → key ∈ U → Z.of_nat (size U) ≤ fr_cap r →
  fr_cap (frag_make_room r key ft) = fr_cap r ∧
  fr_partials (frag_make_room r key ft) =
    match fr_partials r !! key with
    | Some q => if bool_decide (len (fr_frags q) = ft) then fr_partials r
                else delete key (fr_partials r)
    | None => fr_partials r
    end.
Proof.
  intros Hd Hk HU. unfold frag_make_room.
  assert (∀ r', fr_cap r' = fr_cap r → dom (fr_partials r') ⊆ U → fr_partials r' !! key = None →
            evict_if_full r' = r') as Hno.
  { intros r' Hc Hd' Hn'. unfold evict_if_full. rewrite bool_decide_eq_true_2; [done|].
    assert (dom (fr_partials r') ⊂ U) as Hlt.
    { split; [done|]. intros H. specialize (H key Hk). by apply elem_of_dom in H as [? H]; simplify_eq. }
    apply subset_size in Hlt. rewrite size_dom in Hlt. lia. }
  destruct (fr_partials r !! key) as [q|] eqn:E.
  - case_bool_decide; [by rewrite E|]. cbn. rewrite lookup_delete_eq. rewrite Hno; cbn; try done.
    + rewrite dom_delete_L. set_solver.
    + by rewrite lookup_delete_eq.
  - rewrite E. by rewrite Hno.
Qed.

Lemma frag_accept_other r m now o r' j :
  dom (fr_partials r) ⊆ U → meta_key m ∈ U → Z.of_nat (size U) ≤ fr_cap r → j ≠ meta_key m →
  frag_accept r m now = Ok (o, r') → fr_partials r' !! j = fr_partials r !! j.
Proof.
  intros Hd Hk HU Hj. unfold frag_accept.
  destruct (_ || _); [by intros [= <- <-]|]. case_bool_decide; [by intros [= <- <-]|].
  destruct (make_room_partials r (meta_key m) (pm_frag_total m) Hd Hk HU) as [Hc Hp].
  set (r1 := frag_make_room _ _ _) in *.
  assert (fr_partials r1 !! j = fr_partials r !! j) as Hj1.
  { rewrite Hp. destruct (fr_partials r !! meta_key m); [|done]. case_bool_decide; [done|].
    by rewrite lookup_delete_ne. }
  destruct (frag_put _ _ _) as [q| |]; [|done..]. cbn [rbind]. case_bool_decide.
  - intros [= <- <-]. cbn. by rewrite lookup_insert_ne.
  - cbn. rewrite lookup_insert_eq. cbn. intros [= <- <-]. cbn.
    by rewrite lookup_delete_ne, lookup_insert_ne.
Qed.

Lemma dom_after r m now o r' :
  dom (fr_partials r) ⊆ U → meta_key m ∈ U → Z.of_nat (size U) ≤ fr_cap r →
  frag_accept r m now = Ok (o, r') → dom (fr_partials r') ⊆ U.
Proof.
  intros Hd Hk HU E j [q Hq]%elem_of_dom. destruct (decide (j = meta_key m)) as [->|Hj]; [done|].
  rewrite (frag_accept_other _ _ _ _ _ _ Hd Hk HU Hj E) in Hq. by apply Hd, elem_of_dom.
Qed.

Lemma collecting_other r seen m now :
  is_u8 (pm_frag_total m) → is_u8 (pm_frag_id m) → meta_key m ≠ k → meta_key m ∈ U →
  collecting r seen → ∃ o r', frag_accept r m now = Ok (o, r') ∧ collecting r' seen.
Proof.
  intros Hft Hfi Hne Hin [Hwf Hd HU Hpart].
  destruct (frag_accept_step r m now Hft Hfi Hwf) as (o & r' & E & Hwf' & Hc).
  exists o, r'. split; [done|]. constructor; [done|by eapply dom_after|lia|].
  by rewrite (frag_accept_other _ _ _ _ _ k Hd Hin HU ltac:(done) E).
Qed.

Lemma collecting_sweep r seen now ttl :
  now - t0 ≤ ttl → 0 ≤ ttl → collecting r seen → collecting (frag_sweep r now ttl) seen.
Proof.
  intros Hnow Httl [Hwf Hd HU Hpart]. constructor; [by apply frag_sweep_wf| |done|].
  - etrans; [|done]. cbn. apply subseteq_dom, map_filter_subseteq.
  - destruct seen as [|i seen]; cbn.
    + by apply map_lookup_filter_None_2; left.
    + destruct Hpart as (q & Hq & Hf & Ht). exists q. split_and!; [|done..].
      apply map_lookup_filter_Some. split; [done|]. cbn. ulia.
Qed.

Lemma collecting_fragment r seen i now :
  k ∈ U → t0 ≤ now → NoDup (i :: seen) → Forall (λ i, (i < n)%nat) (i :: seen) →
  collecting r seen →
  ∃ r', if decide (S (length seen) = n)
        then frag_accept r (fragment i) now = Ok (Some (frag_whole (slots (i :: seen))), r') ∧
             collecting r' []
        else frag_accept r (fragment i) now = Ok (None, r') ∧ collecting r' (i :: seen).
Proof.
  intros HkU Hnow Hnd Hall Hco. pose proof Hco as [Hwf Hd HU Hpart].
  assert (i < n)%nat as Hi by (by apply Forall_cons in Hall as [? _]).
  destruct (make_room_partials r k (Z.of_nat n) Hd HkU HU) as [Hc Hp].
  set (r1 := frag_make_room r k (Z.of_nat n)) in *.
  assert (fr_frags (frag_entry r1 k (Z.of_nat n) now) = slots seen ∧
          t0 ≤ fr_first_seen (frag_entry r1 k (Z.of_nat n) now) ∧
          fr_received (frag_entry r1 k (Z.of_nat n) now) = Z.of_nat (length seen)) as (Hf & Ht & Hr).
  { unfold frag_entry. rewrite Hp. destruct seen as [|j seen].
    - rewrite Hpart, Hpart. cbn. by rewrite slots_nil, Nat2Z.id.
    - destruct Hpart as (q & Hq & Hf & Ht). rewrite Hq, Hf, slots_len, bool_decide_eq_true_2 by done.
      rewrite Hq. unfold id. cbn [from_option]. split_and!; [done..|].
      rewrite (pw_rcv _ (fw_partials _ Hwf _ _ Hq)), Hf. apply slots_count.
      + by apply NoDup_cons in Hnd as [_ ?].
      + by apply Forall_cons in Hall as [_ ?]. }
  set (p0 := frag_entry _ _ _ _) in *.
  destruct (frag_put_spec p0 (Z.of_nat i) (chunks !!! i)) as (slot & Hslot & Hput).
  { rewrite Hf, slots_len. lia. }
  rewrite Hf, Nat2Z.id in Hslot. rewrite slots_lookup in Hslot by done.
  rewrite decide_False in Hslot by (by apply NoDup_cons in Hnd as [? _]). injection Hslot as <-.
  rewrite Hf, Hr, Nat2Z.id, <-slots_cons in Hput by done.
  assert (∀ o r', frag_accept r (fragment i) now = Ok (o, r') →
            frag_wf r' ∧ fr_cap r' = fr_cap r ∧ dom (fr_partials r') ⊆ U) as Hinv.
  { intros o r' E. destruct (frag_accept_step r (fragment i) now) as (o' & r'' & E' & ? & ?); [cbn; ulia..|done|].
    rewrite E in E'. injection E' as <- <-. split; [done|]. split; [done|]. eapply dom_after; [done| |done|done]. done. }
  assert (∃ r', frag_accept r (fragment i) now =
            Ok (if decide (S (length seen) = n) then Some (frag_whole (slots (i :: seen))) else None, r') ∧
          fr_partials r' !! k = if decide (S (length seen) = n) then None
            else Some (mk_FragPartial (slots (i :: seen)) (Z.of_nat (length seen) + 1) (fr_first_seen p0)))
    as (r' & E & Hlk).
  { unfold frag_accept. change (meta_key (fragment i)) with k. cbn [pm_frag_total pm_frag_id pm_data fragment].
    rewrite !bool_decide_eq_false_2 by lia. cbn [orb]. fold r1. fold p0. rewrite Hput. cbn [rbind].
    cbn [fr_received fr_frags]. rewrite slots_len. case_decide.
    - rewrite bool_decide_eq_false_2 by lia. cbn. rewrite lookup_insert_eq. cbn. eexists. split; [done|].
      cbn. by rewrite lookup_delete_eq.
    - assert (length (i :: seen) ≤ n)%nat.
      { rewrite <-(length_seq n 0). apply submseteq_length, NoDup_submseteq; [done|].
        intros j Hj. apply elem_of_seq. rewrite Forall_forall in Hall. specialize (Hall j Hj). lia. }
      cbn in *. rewrite bool_decide_eq_true_2 by lia. eexists. split; [done|]. cbn. by rewrite lookup_insert_eq. }
  destruct (Hinv _ _ E) as (? & ? & ?). exists r'. case_decide; (split; [done|]); constructor; try done; try lia.
  eexists. split; [done|]. done.
Qed.

(** A trace in which the fragments [ids] of the packet arrive, in this order, among packets of
    other keys of [U] and sweeps that come before the packet can expire. *)
Inductive trace_of : list frag_event → list nat → Prop :=
| trace_nil : trace_of [] []
| trace_fragment i now tr ids :
    t0 ≤ now → trace_of tr ids → trace_of (EvAccept (fragment i) now :: tr) (i :: ids)
| trace_other m now tr ids :
    is_u8 (pm_frag_total m) → is_u8 (pm_frag_id m) → meta_key m ≠ k → meta_key m ∈ U →
    trace_of tr ids → trace_of (EvAccept m now :: tr) ids
| trace_sweep now ttl tr ids :
    now - t0 ≤ ttl → 0 ≤ ttl → trace_of tr ids → trace_of (EvSweep now ttl :: tr) ids.

Lemma run_rest tr r :
  trace_of tr [] → collecting r [] →
  ∃ out r', frag_run r tr = Ok (out, r') ∧ filter (λ kw, kw.1 = k) out = [].
Proof.
  intros Htr. remember [] as ids eqn:Hids. revert r. induction Htr; intros r Hco; simplify_eq.
  - by eexists _, _.
  - destruct (collecting_other r [] m now) as (o & r1 & E & Hco1); try done.
    destruct (IHHtr eq_refl r1 Hco1) as (out & r' & Hrun & Hf).
    cbn. rewrite E. cbn. rewrite Hrun. cbn. eexists _, _. split; [done|].
    destruct o; [|done]. by rewrite filter_cons_False.
  - destruct (IHHtr eq_refl (frag_sweep r now ttl)) as (out & r' & Hrun & Hf); [by apply collecting_sweep|].
    cbn. rewrite Hrun. cbn. by eexists _, _.
Qed.

Lemma run_collect tr ids seen r :
  k ∈ U → trace_of tr ids → ids ≠ [] → rev ids ++ seen ≡ₚ seq 0 n → collecting r seen →
  ∃ out r', frag_run r tr = Ok (out, r') ∧ filter (λ kw, kw.1 = k) out = [(k, concat chunks)].
Proof.
  intros HkU Htr. revert seen r. induction Htr; intros seen r Hids Hperm Hco; [done|..].
  - assert (rev ids ++ i :: seen ≡ₚ seq 0 n) as Hperm'.
    { rewrite <-Hperm. cbn. by rewrite <-app_assoc. }
    assert (NoDup (rev ids ++ i :: seen)) as Hnd by (rewrite Hperm'; apply NoDup_seq).
    apply NoDup_app in Hnd as (_ & _ & Hnd).
    assert (Forall (λ i, (i < n)%nat) (i :: seen)) as Hall.
    { apply Forall_forall. intros j Hj. assert (j ∈ seq 0 n) as Hs by (rewrite <-Hperm'; set_solver).
      apply elem_of_seq in Hs. lia. }
    assert (length (rev ids ++ i :: seen) = n) as Hlen by (by rewrite Hperm', length_seq).
    rewrite length_app, length_rev in Hlen. cbn in Hlen.
    destruct (collecting_fragment r seen i now) as [r1 Hstep]; try done.
    case_decide as Hfull; destruct Hstep as [E Hco1].
    + assert (ids = []) as -> by (apply length_zero_iff_nil; lia).
      destruct (run_rest tr r1 Htr Hco1) as (out & r' & Hrun & Hf).
      cbn [frag_run frag_step]. rewrite E. cbn. rewrite Hrun. cbn. eexists _, _. split; [done|].
      rewrite filter_cons_True, Hf by done. by rewrite slots_full.
    + destruct (IHHtr (i :: seen) r1) as (out & r' & Hrun & Hf); try done.
      { intros ->. cbn in Hlen. lia. }
      cbn [frag_run frag_step]. rewrite E. cbn. rewrite Hrun. cbn. by eexists _, _.
  - destruct (collecting_other r seen m now) as (o & r1 & E & Hco1); try done.
    destruct (IHHtr seen r1) as (out & r' & Hrun & Hf); try done.
    cbn. rewrite E. cbn. rewrite Hrun. cbn. eexists _, _. split; [done|].
    destruct o; [|done]. by rewrite filter_cons_False.
  - destruct (IHHtr seen (frag_sweep r now ttl)) as (out & r' & Hrun & Hf); try done.
    { by apply collecting_sweep. }
    cbn. rewrite Hrun. cbn. by eexists _, _.
Qed.
End reassembly.

(** ** Properties *)

(** C26: a packet split into 2 to 255 fragments that each arrive once is delivered whole, exactly once
    and in order, whatever the order in which its fragments arrive and whatever packets of other keys
    and sweeps come in between, provided nothing of its key is in the table when it starts, the table
    has room for the keys in flight ([U]) and no sweep comes after the packet's lifetime. *)
Theorem frag_reassembly a p chunks U t0 tr ids r :
  2 ≤ Z.of_nat (length chunks) ≤ 255 → ids ≡ₚ seq 0 (length chunks) →
  trace_of a p chunks U t0 tr ids → (a, p) ∈ U →
  frag_wf r → dom (fr_partials r) ⊆ U → Z.of_nat (size U) ≤ fr_cap r →
  fr_partials r !! (a, p) = None →
  ∃ out r', frag_run r tr = Ok (out, r') ∧
    filter (λ kw, kw.1 = (a, p)) out = [((a, p), concat chunks)].
Proof.
  intros Hn Hids Htr HU Hwf Hd Hsz Hnone.
  eapply (run_collect a p chunks U t0 Hn tr ids [] r); try done.
  - intros ->. apply Permutation_length in Hids. rewrite length_seq in Hids. cbn in Hids. lia.
  - by rewrite app_nil_r, <-Permutation_rev, Hids.
Qed.

Definition frag_demo : list frag_event :=
  [EvAccept (mk_PacketMeta 1 7 3 2 [x63]) 5; EvAccept (mk_PacketMeta 2 7 2 0 [x7a]) 5;
   EvAccept (mk_PacketMeta 1 7 3 0 [x61]) 6; EvSweep 8 10;
   EvAccept (mk_PacketMeta 1 7 3 1 [x62]) 9].

Lemma frag_reassembly_witness :
  ∃ out r', frag_run frag_new frag_demo = Ok (out, r') ∧
    filter (λ kw, kw.1 = (1, 7)) out = [((1, 7), [x61; x62; x63])].
Proof.
  apply (frag_reassembly 1 7 [[x61]; [x62]; [x63]] {[(1, 7); (2, 7)]} 5 frag_demo [2; 0; 1]%nat).
  - cbn. lia.
  - apply (Permutation_cons_append [0; 1]%nat 2%nat).
  - apply (trace_fragment 1 7 [[x61]; [x62]; [x63]] _ 5 2 5); [lia|].
    apply trace_other; [cbn; ulia..|done|set_solver|].
    apply (trace_fragment 1 7 [[x61]; [x62]; [x63]] _ 5 0 6); [lia|].
    apply trace_sweep; [lia..|].
    apply (trace_fragment 1 7 [[x61]; [x62]; [x63]] _ 5 1 9); [lia|]. constructor.
  - set_solver.
  - apply frag_with_cap_wf.
  - cbn. set_solver.
  - vm_compute. done.
  - done.
Defined.

(** On any packet header the decoder can produce, [accept] terminates without an
    out-of-range index and keeps the table well formed: never more than [cap] partial packets,
    each with at most 255 slots, a correct count of filled slots and at least one slot open. *)
Theorem frag_accept_safe r m now :
  is_u8 (pm_frag_total m) → is_u8 (pm_frag_id m) → frag_wf r →
  ∃ o r', frag_accept r m now = Ok (o, r') ∧ frag_wf r' ∧
    Z.of_nat (size (fr_partials r')) ≤ fr_cap r.
Proof.
  intros Hft Hfi Hwf. destruct (frag_accept_step r m now Hft Hfi Hwf) as (o & r' & E & Hwf' & Hc).
  exists o, r'. split_and!; [done..|]. rewrite <-Hc. apply Hwf'.
Qed.

Lemma frag_accept_safe_witness :
  ∃ o r', frag_accept frag_new (mk_PacketMeta 1 2 255 254 [x00]) 3 = Ok (o, r') ∧ frag_wf r' ∧
    Z.of_nat (size (fr_partials r')) ≤ fr_cap frag_new.
Proof.
  apply (frag_accept_safe frag_new (mk_PacketMeta 1 2 255 254 [x00]) 3);
    [cbn; ulia | cbn; ulia | apply frag_with_cap_wf].
Defined.
