(* ===== verification/Assoc.v ===== *)
(** * Assoc: UDP flows and the TUIC association table

    [FourTuple] and [FlowEntry] of [src/udp_relay.rs] and [AssocTable] of [src/tuic.rs]: each UDP
    flow gets a [u16] association id, by which uplink and downlink packets are matched.  The
    table also remembers the fake IP each association holds, and hands it back when the
    association is reclaimed. *)

From S2P Require Import Prelude Shared.

Definition MAX_UDP_FLOWS : Z := 1024.
Definition UDP_FLOW_IDLE_SECS : Z := 60.

Record FourTuple := mk_FourTuple {
  ft_src_ip : Z;
  ft_src_port : Z;
  ft_dst_ip : Z;
  ft_dst_port : Z
}.

Record FlowEntry := mk_FlowEntry {
  fe_tuple : FourTuple;
  fe_last_activity : Z
}.

#[global] Instance FourTuple_eq_dec : EqDecision FourTuple.
Proof. solve_decision. Defined.
#[global] Program Instance FourTuple_countable : Countable FourTuple :=
  inj_countable (λ t, (ft_src_ip t, ft_src_port t, ft_dst_ip t, ft_dst_port t))
    (λ '(a, b, c, d), Some (mk_FourTuple a b c d)) _.
Next Obligation. by intros []. Qed.

Definition app_endpoint (e : FlowEntry) : Z * Z :=
  (ft_src_ip (fe_tuple e), ft_src_port (fe_tuple e)).
Definition target_src (e : FlowEntry) : Z * Z :=
  (ft_dst_ip (fe_tuple e), ft_dst_port (fe_tuple e)).

Record AssocTable := mk_AssocTable {
  at_tuple_to_id : gmap FourTuple Z;
  at_id_to_entry : gmap Z FlowEntry;
  at_id_to_fake_ip : gmap Z Z;
  at_reclaimed : list Z;
  at_next_id : Z;
  at_cap : Z
}.

Definition assoc_with_cap (cap : Z) : AssocTable :=
  mk_AssocTable ∅ ∅ ∅ [] 1 (Z.min (Z.max cap 1) u16_max).
Definition assoc_new : AssocTable := assoc_with_cap MAX_UDP_FLOWS.

Definition set_fake_ip (t : AssocTable) (id ip : Z) : AssocTable :=
  mk_AssocTable (at_tuple_to_id t) (at_id_to_entry t) (<[id := ip]> (at_id_to_fake_ip t))
    (at_reclaimed t) (at_next_id t) (at_cap t).

Definition take_reclaimed_fake_ips (t : AssocTable) : list Z * AssocTable :=
  (at_reclaimed t,
   mk_AssocTable (at_tuple_to_id t) (at_id_to_entry t) (at_id_to_fake_ip t) []
     (at_next_id t) (at_cap t)).

Definition note_reclaimed (t : AssocTable) (id : Z) : AssocTable :=
  match at_id_to_fake_ip t !! id with
  | Some ip =>
      mk_AssocTable (at_tuple_to_id t) (at_id_to_entry t) (delete id (at_id_to_fake_ip t))
        (at_reclaimed t ++ [ip]) (at_next_id t) (at_cap t)
  | None => t
  end.

(** The order of [min_by_key(|(id, e)| (e.last_activity, **id))]. *)
Definition entry_older (a b : Z * FlowEntry) : bool :=
  bool_decide (fe_last_activity a.2 < fe_last_activity b.2) ||
  (bool_decide (fe_last_activity a.2 = fe_last_activity b.2) && bool_decide (a.1 < b.1)).

Definition evict_lru (t : AssocTable) : AssocTable :=
  match min_by entry_older (map_to_list (at_id_to_entry t)) with
  | Some (id, _) =>
      match at_id_to_entry t !! id with
      | Some e =>
          note_reclaimed
            (mk_AssocTable (delete (fe_tuple e) (at_tuple_to_id t)) (delete id (at_id_to_entry t))
               (at_id_to_fake_ip t) (at_reclaimed t) (at_next_id t) (at_cap t)) id
      | None => t
      end
  | None => t
  end.

Definition advance_id (t : AssocTable) : AssocTable :=
  let n := wrapping_add_u16 (at_next_id t) 1 in
  mk_AssocTable (at_tuple_to_id t) (at_id_to_entry t) (at_id_to_fake_ip t) (at_reclaimed t)
    (if bool_decide (n = 0) then 1 else n) (at_cap t).

(** The [loop] of [alloc_id], with fuel; [None] when the fuel runs out. *)
Fixpoint alloc_id (fuel : nat) (t : AssocTable) : option (Z * AssocTable) :=
  match fuel with
  | O => None
  | S fuel =>
      let id := at_next_id t in
      let t := advance_id t in
      match at_id_to_entry t !! id with
      | None => Some (id, t)
      | Some _ => alloc_id fuel t
      end
  end.

(** One pass over the [u16] space: enough for every table the client can build. *)
Definition id_space : nat := Z.to_nat 65535.

Definition intern (t : AssocTable) (tuple : FourTuple) : option (Z * AssocTable) :=
  match at_tuple_to_id t !! tuple with
  | Some id => Some (id, t)
  | None =>
      let t := if bool_decide (at_cap t ≤ Z.of_nat (size (at_id_to_entry t)))
               then evict_lru t else t in
      '(id, t) ← alloc_id id_space t;
      Some (id, mk_AssocTable (<[tuple := id]> (at_tuple_to_id t))
                  (<[id := mk_FlowEntry tuple 0]> (at_id_to_entry t))
                  (at_id_to_fake_ip t) (at_reclaimed t) (at_next_id t) (at_cap t))
  end.

Definition assoc_resolve (t : AssocTable) (id : Z) : option FlowEntry := at_id_to_entry t !! id.
Definition assoc_contains (t : AssocTable) (tuple : FourTuple) : bool :=
  bool_decide (is_Some (at_tuple_to_id t !! tuple)).

Definition assoc_touch (t : AssocTable) (id now : Z) : AssocTable :=
  mk_AssocTable (at_tuple_to_id t) (alter (λ e, mk_FlowEntry (fe_tuple e) now) id (at_id_to_entry t))
    (at_id_to_fake_ip t) (at_reclaimed t) (at_next_id t) (at_cap t).

Definition entry_expired (now idle_secs : Z) (e : FlowEntry) : bool :=
  bool_decide (saturating_sub now (fe_last_activity e) > idle_secs).

(** One iteration of the [for (id, tuple) in expired] loop of [sweep]. *)
Definition assoc_sweep_one (st : list Z * AssocTable) (x : Z * FourTuple) : list Z * AssocTable :=
  let '(reclaimed, t) := st in
  let '(id, tuple) := x in
  (match at_id_to_fake_ip t !! id with Some ip => reclaimed ++ [ip] | None => reclaimed end,
   mk_AssocTable (delete tuple (at_tuple_to_id t)) (delete id (at_id_to_entry t))
     (delete id (at_id_to_fake_ip t)) (at_reclaimed t) (at_next_id t) (at_cap t)).

Definition assoc_expired (t : AssocTable) (now idle_secs : Z) : list (Z * FourTuple) :=
  (λ '(id, e), (id, fe_tuple e)) <$>
    map_to_list (filter (λ ie, entry_expired now idle_secs ie.2 = true) (at_id_to_entry t)).

Definition assoc_sweep (t : AssocTable) (now idle_secs : Z) : list Z * AssocTable :=
  fold_left assoc_sweep_one (assoc_expired t now idle_secs) ([], t).

(** ** Invariant *)

Record assoc_wf (t : AssocTable) : Prop := {
  aw_cap : 1 ≤ at_cap t ≤ 65535;
  aw_next : 1 ≤ at_next_id t ≤ 65535;
  aw_size : Z.of_nat (size (at_id_to_entry t)) ≤ at_cap t;
  aw_id : ∀ id e, at_id_to_entry t !! id = Some e → 1 ≤ id ≤ 65535;
  aw_t2i : ∀ tu id, at_tuple_to_id t !! tu = Some id →
             ∃ e, at_id_to_entry t !! id = Some e ∧ fe_tuple e = tu;
  aw_i2t : ∀ id e, at_id_to_entry t !! id = Some e → at_tuple_to_id t !! fe_tuple e = Some id;
  aw_fake : dom (at_id_to_fake_ip t) ⊆ dom (at_id_to_entry t)
}.

(** How many associations hold the fake IP [ip], and how often it waits to be released. *)
Definition fake_count (m : gmap Z Z) (ip : Z) : Z :=
  Z.of_nat (size (filter (λ kv, kv.2 = ip) m)).
Definition held (t : AssocTable) (ip : Z) : Z := fake_count (at_id_to_fake_ip t) ip.
Definition occurrences (l : list Z) (ip : Z) : Z := len (filter (λ x, x = ip) l).
Definition owed (t : AssocTable) (ip : Z) : Z := held t ip + occurrences (at_reclaimed t) ip.

(** The steps the client takes; a fake IP is recorded only for a live association. *)
Inductive assoc_step : AssocTable → AssocTable → Prop :=
| as_intern t tu id t' : intern t tu = Some (id, t') → assoc_step t t'
| as_set t id ip : is_Some (at_id_to_entry t !! id) → assoc_step t (set_fake_ip t id ip)
| as_take t : assoc_step t (snd (take_reclaimed_fake_ips t))
| as_touch t id now : assoc_step t (assoc_touch t id now)
| as_sweep t now idle : assoc_step t (snd (assoc_sweep t now idle)).

Inductive assoc_reachable : AssocTable → Prop :=
| ar_new cap : assoc_reachable (assoc_with_cap cap)
| ar_step t t' : assoc_reachable t → assoc_step t t' → assoc_reachable t'.

(** ** [alloc_id] *)

Lemma advance_id_next t :
  1 ≤ at_next_id t ≤ 65535 →
  at_next_id (advance_id t) = (if bool_decide (65535 < at_next_id t + 1) then 1 else at_next_id t + 1).
Proof.
  intros. cbn. unfold wrapping_add_u16.
  destruct (decide (at_next_id t = 65535)) as [->|]; [done|].
  rewrite Z.mod_small by lia. repeat case_bool_decide; lia.
Qed.

Lemma advance_id_wf t : assoc_wf t → assoc_wf (advance_id t).
Proof.
  intros Hwf. pose proof (advance_id_next t (aw_next _ Hwf)) as Hn. destruct Hwf.
  constructor; try done. rewrite Hn. case_bool_decide; lia.
Qed.

Lemma alloc_id_Some fuel t id t' :
  assoc_wf t → alloc_id fuel t = Some (id, t') →
  1 ≤ id ≤ 65535 ∧ at_id_to_entry t !! id = None ∧ assoc_wf t' ∧
  at_tuple_to_id t' = at_tuple_to_id t ∧ at_id_to_entry t' = at_id_to_entry t ∧
  at_id_to_fake_ip t' = at_id_to_fake_ip t ∧ at_reclaimed t' = at_reclaimed t ∧ at_cap t' = at_cap t.
Proof.
  revert t. induction fuel as [|fuel IH]; intros t Hwf; [done|]. cbn.
  destruct (at_id_to_entry t !! at_next_id t) eqn:E.
  - intros H. by destruct (IH _ (advance_id_wf _ Hwf) H) as (? & ? & ? & ? & ? & ? & ? & ?).
  - intros [= <- <-]. split_and!; try done; [apply Hwf..|by apply advance_id_wf].
Qed.

Lemma alloc_id_None fuel t :
  assoc_wf t → alloc_id fuel t = None →
  ∀ k, 0 ≤ k < Z.of_nat fuel → is_Some (at_id_to_entry t !! ring 1 65535 (at_next_id t) k).
Proof.
  revert t. induction fuel as [|fuel IH]; intros t Hwf; [lia|]. cbn.
  destruct (at_id_to_entry t !! at_next_id t) eqn:E; [|done].
  intros H k Hk. destruct (decide (k = 0)) as [->|].
  - rewrite ring_0 by apply Hwf. eauto.
  - specialize (IH _ (advance_id_wf _ Hwf) H (k - 1) ltac:(lia)).
    rewrite advance_id_next, ring_next in IH by apply Hwf.
    by replace (k - 1 + 1) with k in IH by lia.
Qed.

Lemma alloc_id_total t :
  assoc_wf t → Z.of_nat (size (at_id_to_entry t)) < at_cap t → ∃ id t', alloc_id id_space t = Some (id, t').
Proof.
  intros Hwf Hsz. destruct (alloc_id id_space t) as [[id t']|] eqn:E; [eauto|exfalso].
  pose proof (alloc_id_None _ _ Hwf E) as Hocc.
  pose proof (ring_cover_size (at_id_to_entry t) 1 65535 (at_next_id t) (aw_next _ Hwf)) as Hc.
  pose proof (aw_cap _ Hwf).
  enough (65535 - 1 + 1 ≤ Z.of_nat (size (at_id_to_entry t))) by lia.
  apply Hc. intros k Hk. apply Hocc. unfold id_space. lia.
Qed.

(** ** Counting fake IPs *)

Lemma fake_count_delete m id x ip :
  m !! id = Some x → fake_count m ip = fake_count (delete id m) ip + (if decide (x = ip) then 1 else 0).
Proof.
  intros Hx. unfold fake_count. rewrite map_filter_delete. case_decide as Hd.
  - assert (filter (λ kv, kv.2 = ip) m !! id = Some x) as Hf by (by apply map_lookup_filter_Some).
    rewrite (map_size_delete_Some id) by eauto.
    assert (size (filter (λ kv, kv.2 = ip) m) ≠ 0%nat); [|lia].
    intros E%map_size_empty_inv. by rewrite E, lookup_empty in Hf.
  - rewrite (delete_id (filter _ m)); [lia|]. apply map_lookup_filter_None. right.
    intros y Hy. cbn. congruence.
Qed.

Lemma fake_count_insert m id x ip :
  m !! id = None → fake_count (<[id := x]> m) ip = fake_count m ip + (if decide (x = ip) then 1 else 0).
Proof.
  intros Hn. rewrite (fake_count_delete _ id x) by apply lookup_insert_eq.
  by rewrite delete_insert_id.
Qed.

Lemma fake_count_nonneg m ip : 0 ≤ fake_count m ip.
Proof. unfold fake_count. lia. Qed.

Lemma occurrences_app l1 l2 ip : occurrences (l1 ++ l2) ip = occurrences l1 ip + occurrences l2 ip.
Proof. unfold occurrences. by rewrite filter_app, len_app. Qed.

Lemma occurrences_one x ip : occurrences [x] ip = if decide (x = ip) then 1 else 0.
Proof. unfold occurrences. rewrite filter_cons. by case_decide. Qed.

(** ** Removing an association *)

(** The part of the table that [evict_lru] and [sweep] change for the association [id]. *)
Definition assoc_drop (t : AssocTable) (id : Z) (e : FlowEntry) (rec : list Z) : AssocTable :=
  mk_AssocTable (delete (fe_tuple e) (at_tuple_to_id t)) (delete id (at_id_to_entry t))
    (delete id (at_id_to_fake_ip t)) rec (at_next_id t) (at_cap t).

Lemma assoc_drop_wf t id e rec :
  assoc_wf t → at_id_to_entry t !! id = Some e → assoc_wf (assoc_drop t id e rec).
Proof.
  intros Hwf He. pose proof (map_subseteq_size _ _ (delete_subseteq (at_id_to_entry t) id)).
  pose proof (aw_size _ Hwf). pose proof (aw_i2t _ Hwf _ _ He) as Ht.
  constructor; cbn; [apply Hwf|apply Hwf|lia| | | |].
  - intros i e' [_ Hi]%lookup_delete_Some. by eapply aw_id.
  - intros tu i [Hne Hi]%lookup_delete_Some.
    destruct (aw_t2i _ Hwf _ _ Hi) as (e' & He' & <-). exists e'. split; [|done].
    apply lookup_delete_Some. split; [|done]. intros <-. simplify_eq.
  - intros i e' [Hne Hi]%lookup_delete_Some. apply lookup_delete_Some.
    pose proof (aw_i2t _ Hwf _ _ Hi). split; [|done]. intros Heq. rewrite Heq in Ht. simplify_eq.
  - rewrite !dom_delete_L. pose proof (aw_fake _ Hwf). set_solver.
Qed.

(** [evict_lru] drops the least recently used association and queues its fake IP. *)
Lemma evict_lru_spec t :
  assoc_wf t → 0 < Z.of_nat (size (at_id_to_entry t)) →
  ∃ id e, at_id_to_entry t !! id = Some e ∧
    (∀ id' e', at_id_to_entry t !! id' = Some e' → fe_last_activity e ≤ fe_last_activity e') ∧
    evict_lru t = assoc_drop t id e
      (at_reclaimed t ++ match at_id_to_fake_ip t !! id with Some ip => [ip] | None => [] end).
Proof.
  intros Hwf Hsz. unfold evict_lru. destruct (min_by _ _) as [[id e0]|] eqn:Hmin.
  - pose proof (min_by_elem _ _ _ Hmin) as Hin%elem_of_map_to_list. exists id, e0.
    split; [done|]. split.
    + intros id' e' He'. eapply (min_by_least _ _ _) in Hmin; [| | | |by apply elem_of_map_to_list].
      * unfold entry_older in Hmin. cbn in Hmin. bdec. lia.
      * intros [i f]. unfold entry_older. cbn. repeat case_bool_decide; cbn; try done; lia.
      * intros [] [] [] ? ?. unfold entry_older in *. cbn in *.
        repeat case_bool_decide; cbn in *; try done; lia.
      * intros [] [] ?. unfold entry_older in *. cbn in *. repeat case_bool_decide; cbn in *; try done; lia.
    + rewrite Hin. unfold note_reclaimed, assoc_drop. cbn.
      destruct (at_id_to_fake_ip t !! id) eqn:E; [done|]. by rewrite (delete_id (at_id_to_fake_ip t) id E), app_nil_r.
  - apply min_by_None, map_to_list_empty_iff in Hmin. rewrite Hmin, map_size_empty in Hsz. lia.
Qed.

Lemma owed_drop t id e ip :
  owed (assoc_drop t id e
    (at_reclaimed t ++ match at_id_to_fake_ip t !! id with Some ip => [ip] | None => [] end)) ip = owed t ip.
Proof.
  unfold owed, held. cbn.
  rewrite occurrences_app. destruct (at_id_to_fake_ip t !! id) as [x|] eqn:E.
  - rewrite (fake_count_delete _ _ _ ip E), occurrences_one. lia.
  - rewrite delete_id by done. unfold occurrences. cbn. rewrite len_nil. lia.
Qed.

(** ** Every operation keeps the invariant *)

Lemma intern_spec t tu :
  assoc_wf t →
  ∃ id t', intern t tu = Some (id, t') ∧ assoc_wf t' ∧ 1 ≤ id ≤ 65535 ∧
    at_tuple_to_id t' !! tu = Some id ∧
    (∀ ip, owed t' ip = owed t ip) ∧
    match at_tuple_to_id t !! tu with
    | Some id0 => id = id0 ∧ t' = t
    | None =>
        at_id_to_entry t' !! id = Some (mk_FlowEntry tu 0) ∧ at_id_to_fake_ip t' !! id = None ∧
        ∃ m, at_id_to_entry t' = <[id := mk_FlowEntry tu 0]> m ∧ m !! id = None ∧
          ((Z.of_nat (size (at_id_to_entry t)) < at_cap t ∧
            m = at_id_to_entry t ∧ at_reclaimed t' = at_reclaimed t) ∨
           (at_cap t ≤ Z.of_nat (size (at_id_to_entry t)) ∧
            ∃ v e, at_id_to_entry t !! v = Some e ∧ m = delete v (at_id_to_entry t) ∧
              ∀ v' e', at_id_to_entry t !! v' = Some e' → fe_last_activity e ≤ fe_last_activity e'))
    end.
Proof.
  intros Hwf. unfold intern. destruct (at_tuple_to_id t !! tu) as [id|] eqn:Ht.
  { eexists _, _. split; [done|]. split_and!; try done;
    destruct (aw_t2i _ Hwf _ _ Ht) as (e & He & _); apply (aw_id _ Hwf) in He; lia. }
  set (t1 := if bool_decide _ then _ else _).
  assert (assoc_wf t1 ∧ Z.of_nat (size (at_id_to_entry t1)) < at_cap t1 ∧
          at_tuple_to_id t1 !! tu = None ∧ (∀ ip, owed t1 ip = owed t ip) ∧
          ((Z.of_nat (size (at_id_to_entry t)) < at_cap t ∧
            at_id_to_entry t1 = at_id_to_entry t ∧ at_reclaimed t1 = at_reclaimed t) ∨
           (at_cap t ≤ Z.of_nat (size (at_id_to_entry t)) ∧
            ∃ v e, at_id_to_entry t !! v = Some e ∧ at_id_to_entry t1 = delete v (at_id_to_entry t) ∧
              ∀ v' e', at_id_to_entry t !! v' = Some e' → fe_last_activity e ≤ fe_last_activity e')))
    as (Hwf1 & Hsz1 & Ht1 & Howed & Hcase).
  { unfold t1. case_bool_decide as Hfull; [|split_and!; try done; [lia|left; split; [lia|done]]].
    pose proof (aw_cap _ Hwf).
    destruct (evict_lru_spec t Hwf) as (v & e & He & Hold & ->); [lia|].
    split_and!; [by apply assoc_drop_wf| |by cbn; apply lookup_delete_None; right| |].
    - cbn. rewrite map_size_delete_Some by eauto.
      pose proof (aw_size _ Hwf). assert (size (at_id_to_entry t) ≠ 0%nat) by lia. lia.
    - apply owed_drop.
    - right. split; [done|]. by exists v, e. }
  destruct (alloc_id_total t1 Hwf1 Hsz1) as (id & t2 & E). rewrite E. cbn.
  destruct (alloc_id_Some _ _ _ _ Hwf1 E) as (Hid & Hfree & Hwf2 & HT & HE & HF & HR & HC).
  eexists id, _. split; [done|].
  assert (at_id_to_fake_ip t1 !! id = None) as Hfk.
  { apply not_elem_of_dom. intros Hin. apply (aw_fake _ Hwf1), elem_of_dom in Hin as [? ?]. simplify_eq. }
  assert (∀ i e', at_id_to_entry t1 !! i = Some e' → fe_tuple e' ≠ tu) as Hfresh.
  { intros i e' He' <-. by rewrite (aw_i2t _ Hwf1 _ _ He') in Ht1. }
  split_and!; cbn; rewrite ?HT, ?HE, ?HF, ?HR, ?HC in *; try done; try lia.
  - constructor; cbn; rewrite ?HT, ?HE, ?HF, ?HR, ?HC; try apply Hwf2.
    + apply Hwf1.
    + rewrite map_size_insert_None by done. lia.
    + intros i e' [[<- <-]|[_ Hi]]%lookup_insert_Some; [done|]. by eapply (aw_id _ Hwf1).
    + intros tu' i [[<- <-]|[Hne Hi]]%lookup_insert_Some.
      * rewrite lookup_insert_eq. eauto.
      * destruct (aw_t2i _ Hwf1 _ _ Hi) as (e' & He' & <-). exists e'. split; [|done].
        apply lookup_insert_Some. right. split; [congruence|done].
    + intros i e' [[<- <-]|[Hne Hi]]%lookup_insert_Some; cbn; [by rewrite lookup_insert_eq|].
      rewrite lookup_insert_ne by (intros Heq; by eapply Hfresh). by apply (aw_i2t _ Hwf1).
    + rewrite dom_insert_L. etrans; [apply (aw_fake _ Hwf1)|apply union_subseteq_r].
  - by rewrite lookup_insert_eq.
  - by rewrite lookup_insert_eq.
  - by exists (at_id_to_entry t1).
Qed.

Lemma set_fake_ip_wf t id ip :
  assoc_wf t → is_Some (at_id_to_entry t !! id) → assoc_wf (set_fake_ip t id ip).
Proof.
  intros Hwf [e He]. constructor; cbn; try apply Hwf.
  rewrite dom_insert_L. pose proof (aw_fake _ Hwf). apply elem_of_dom_2 in He. set_solver.
Qed.

Lemma assoc_touch_wf t id now : assoc_wf t → assoc_wf (assoc_touch t id now).
Proof.
  intros Hwf.
  assert (∀ i e, at_id_to_entry (assoc_touch t id now) !! i = Some e →
     ∃ e0, at_id_to_entry t !! i = Some e0 ∧ fe_tuple e = fe_tuple e0) as Halt.
  { intros i e. cbn. rewrite lookup_alter. case_decide; [subst|eauto].
    intros (e0 & ? & ->)%fmap_Some. eauto. }
  constructor; try apply Hwf.
  - cbn. rewrite <-(size_dom (D:=gset Z)), dom_alter_L, size_dom. apply Hwf.
  - intros i e (e0 & He0 & _)%Halt. by eapply aw_id.
  - cbn. intros tu i Hi. destruct (aw_t2i _ Hwf _ _ Hi) as (e & He & <-).
    rewrite lookup_alter. case_decide; [subst|eauto]. rewrite He. cbn. eauto.
  - intros i e (e0 & He0 & ->)%Halt. by apply (aw_i2t _ Hwf).
  - cbn. rewrite dom_alter_L. apply Hwf.
Qed.

Lemma take_reclaimed_wf t : assoc_wf t → assoc_wf (snd (take_reclaimed_fake_ips t)).
Proof. intros []. by constructor. Qed.

(** ** [sweep] *)

Lemma sweep_one_drop rec t id e :
  at_id_to_entry t !! id = Some e →
  assoc_sweep_one (rec, t) (id, fe_tuple e) =
  (rec ++ match at_id_to_fake_ip t !! id with Some ip => [ip] | None => [] end,
   assoc_drop t id e (at_reclaimed t)).
Proof. intros He. cbn. by destruct (at_id_to_fake_ip t !! id); rewrite ?app_nil_r. Qed.

(** The loop of [sweep] over any duplicate-free list of live associations. *)
Lemma sweep_loop l rec t :
  assoc_wf t → NoDup l.*1 →
  (∀ id e, (id, e) ∈ l → at_id_to_entry t !! id = Some e) →
  let '(out, t') := fold_left assoc_sweep_one ((λ '(id, e), (id, fe_tuple e)) <$> l) (rec, t) in
  assoc_wf t' ∧ at_reclaimed t' = at_reclaimed t ∧
  (∀ ip, occurrences out ip + held t' ip = occurrences rec ip + held t ip) ∧
  (∀ id, at_id_to_entry t' !! id = if decide (id ∈ l.*1) then None else at_id_to_entry t !! id).
Proof.
  revert rec t. induction l as [|[id e] l IH]; intros rec t Hwf Hnd Hl.
  - cbn. split_and!; try done. 
  - cbn [fmap list_fmap fold_left]. assert (at_id_to_entry t !! id = Some e) as He by (apply Hl; set_solver).
    cbn in Hnd. apply NoDup_cons in Hnd as [Hid Hnd].
    rewrite sweep_one_drop by done.
    specialize (IH (rec ++ match at_id_to_fake_ip t !! id with Some ip => [ip] | None => [] end)
                   (assoc_drop t id e (at_reclaimed t)) (assoc_drop_wf _ _ _ _ Hwf He) Hnd).
    destruct (fold_left _ _ _) as [out t'].
    destruct IH as (Hwf' & Hrec & Hocc & Hlk).
    { intros i e' Hin. cbn. apply lookup_delete_Some. split; [|apply Hl; set_solver].
      intros <-. apply Hid. by apply (list_elem_of_fmap_2 fst l (id, e')). }
    split_and!; [done|done| |].
    + intros ip. rewrite Hocc, occurrences_app. unfold held. cbn.
      destruct (at_id_to_fake_ip t !! id) as [x|] eqn:E.
      * rewrite (fake_count_delete _ _ _ ip E), occurrences_one. lia.
      * rewrite delete_id by done. unfold occurrences. cbn. rewrite len_nil. lia.
    + intros i. rewrite Hlk. cbn. rewrite lookup_delete. repeat case_decide; set_solver.
Qed.

Lemma assoc_sweep_spec t now idle out t' :
  assoc_wf t → assoc_sweep t now idle = (out, t') →
  assoc_wf t' ∧ at_reclaimed t' = at_reclaimed t ∧
  (∀ ip, occurrences out ip + held t' ip = held t ip) ∧
  (∀ id, at_id_to_entry t' !! id =
     e ← at_id_to_entry t !! id; if entry_expired now idle e then None else Some e).
Proof.
  intros Hwf E. unfold assoc_sweep, assoc_expired in E.
  set (l := map_to_list _) in E.
  assert (∀ id e, (id, e) ∈ l ↔ at_id_to_entry t !! id = Some e ∧ entry_expired now idle e = true) as Hl.
  { intros id e. unfold l. by rewrite elem_of_map_to_list, map_lookup_filter_Some. }
  pose proof (sweep_loop l [] t Hwf (NoDup_fst_map_to_list _)) as H. rewrite E in H.
  destruct H as (Hwf' & Hrec & Hocc & Hlk); [naive_solver|].
  split_and!; [done|done|by intros ip; rewrite Hocc|].
  intros id. rewrite Hlk. case_decide as Hin.
  - apply list_elem_of_fmap in Hin as ([i e] & -> & [He Hx]%Hl). cbn. rewrite He. cbn. by rewrite Hx.
  - destruct (at_id_to_entry t !! id) as [e|] eqn:He; [|done]. cbn.
    destruct (entry_expired now idle e) eqn:Hx; [|done]. destruct Hin.
    apply (list_elem_of_fmap_2 fst l (id, e)), Hl. done.
Qed.

Lemma assoc_with_cap_wf cap : assoc_wf (assoc_with_cap cap).
Proof.
  constructor; cbn; rewrite ?map_size_empty; try (intros *; rewrite lookup_empty; done); ulia || set_solver.
Qed.

Lemma assoc_step_wf t t' : assoc_step t t' → assoc_wf t → assoc_wf t'.
Proof.
  intros Hs Hwf. destruct Hs.
  - destruct (intern_spec t tu Hwf) as (? & ? & E & ? & _). by simplify_eq.
  - by apply set_fake_ip_wf.
  - by apply take_reclaimed_wf.
  - by apply assoc_touch_wf.
  - destruct (assoc_sweep t now idle) eqn:E. by apply assoc_sweep_spec in E as [? _].
Qed.

(** ** Properties *)

(** In every state of the association table the client can reach, the four-tuple and id
    tables are inverse to each other, ids are non-zero [u16]s, there are at most [cap]
    associations and only live associations hold a fake IP. *)
Theorem assoc_reachable_wf t : assoc_reachable t → assoc_wf t.
Proof. induction 1; eauto using assoc_with_cap_wf, assoc_step_wf. Qed.

Definition demo_tuple : FourTuple := mk_FourTuple (ipv4_new 10 0 0 1) 5000 (ipv4_new 198 18 0 2) 443.

Lemma assoc_reachable_wf_witness :
  assoc_wf (snd (assoc_sweep (assoc_touch assoc_new 1 5) 100 60)).
Proof.
  apply assoc_reachable_wf. eapply ar_step; [eapply ar_step|apply as_sweep];
    [apply (ar_new MAX_UDP_FLOWS)|apply as_touch].
Defined.

(** C25: [intern] always returns: the id search ends within one pass over the [u16] space because
    the table was just relieved of one entry when full.  A flow already in the table keeps its id
    and nothing changes.  A new flow gets a non-zero [u16] that no association uses, and exactly
    its entry is added: every other association survives, except that a table at its capacity
    first evicts one association of the oldest activity.  The next call returns the same id. *)
Theorem intern_correct t tu :
  assoc_wf t →
  ∃ id t', intern t tu = Some (id, t') ∧ 1 ≤ id ≤ 65535 ∧ assoc_wf t' ∧
    intern t' tu = Some (id, t') ∧
    match at_tuple_to_id t !! tu with
    | Some id0 => id = id0 ∧ t' = t ∧ ∃ e, assoc_resolve t id = Some e ∧ fe_tuple e = tu
    | None =>
        assoc_resolve t' id = Some (mk_FlowEntry tu 0) ∧
        if bool_decide (Z.of_nat (size (at_id_to_entry t)) < at_cap t) then
          assoc_resolve t id = None ∧ ∀ id', id' ≠ id → assoc_resolve t' id' = assoc_resolve t id'
        else
          ∃ v e, assoc_resolve t v = Some e ∧
            (∀ id' e', assoc_resolve t id' = Some e' → fe_last_activity e ≤ fe_last_activity e') ∧
            (id = v ∨ assoc_resolve t id = None ∧ assoc_resolve t' v = None) ∧
            ∀ id', id' ≠ id → id' ≠ v → assoc_resolve t' id' = assoc_resolve t id'
    end.
Proof.
  intros Hwf. destruct (intern_spec t tu Hwf) as (id & t' & E & Hwf' & Hid & Ht & _ & Hcase).
  exists id, t'. split_and!; try done; try lia; [by unfold intern; rewrite Ht|].
  unfold assoc_resolve. destruct (at_tuple_to_id t !! tu) eqn:Hknown.
  - destruct Hcase as [-> ->]. split_and!; try done. by apply aw_t2i.
  - destruct Hcase as (He & _ & m & Hm & Hfree & Hor). split; [done|]. rewrite Hm.
    destruct Hor as [(Hroom & -> & _)|(Hfull & v & ev & Hv & -> & Hold)].
    + rewrite bool_decide_true by done. split; [done|]. intros id' Hne. by rewrite lookup_insert_ne.
    + rewrite bool_decide_false by lia. exists v, ev. split_and!; try done.
      * destruct (decide (id = v)) as [|Hne]; [by left|right].
        rewrite lookup_delete_ne in Hfree by done.
        by rewrite lookup_insert_ne, lookup_delete_eq by done.
      * intros id' Hne Hv'. by rewrite lookup_insert_ne, lookup_delete_ne by done.
Qed.

Lemma intern_correct_witness :
  ∃ id t', intern (assoc_with_cap 1) demo_tuple = Some (id, t') ∧ 1 ≤ id ≤ 65535 ∧
    assoc_resolve t' id = Some (mk_FlowEntry demo_tuple 0) ∧
    ∀ id', id' ≠ id → assoc_resolve t' id' = None.
Proof.
  destruct (intern_correct _ demo_tuple (assoc_with_cap_wf 1))
    as (id & t' & ? & ? & _ & _ & ? & _ & ?).
  exists id, t'. split; [assumption|]. split; [assumption|]. split; assumption.
Defined.

(** No fake IP held by an association is lost or released twice: [intern] keeps, for each
    address, the number of associations holding it plus the number queued for release, and
    [sweep] returns exactly the addresses of the associations it removes, which are those idle
    for more than the limit. *)
Theorem assoc_fake_ip_accounting t tu now idle :
  assoc_wf t →
  (∀ id t' ip, intern t tu = Some (id, t') → owed t' ip = owed t ip) ∧
  (∀ out t', assoc_sweep t now idle = (out, t') →
     (∀ ip, occurrences out ip + held t' ip = held t ip) ∧
     (∀ id, at_id_to_entry t' !! id =
        e ← at_id_to_entry t !! id; if entry_expired now idle e then None else Some e)).
Proof.
  intros Hwf. split.
  - intros id t' ip E. destruct (intern_spec t tu Hwf) as (? & ? & E' & _ & _ & _ & H & _).
    rewrite E in E'. injection E' as <- <-. apply H.
  - intros out t' E. by apply (assoc_sweep_spec t now idle out t') in E as (_ & _ & ? & ?).
Qed.

Lemma assoc_fake_ip_accounting_witness :
  let t := set_fake_ip (default assoc_new (snd <$> intern (assoc_with_cap 1) demo_tuple)) 1 9 in
  held t 9 = 1 ∧
  occurrences (fst (assoc_sweep t 100 60)) 9 + held (snd (assoc_sweep t 100 60)) 9 = held t 9.
Proof.
  intros t. split; [vm_compute; reflexivity|].
  assert (assoc_wf t) as Hwf.
  { unfold t. destruct (intern_spec _ demo_tuple (assoc_with_cap_wf 1)) as (id & t1 & E & Hwf & _).
    apply set_fake_ip_wf; [rewrite E; exact Hwf|vm_compute; eauto]. }
  apply (assoc_fake_ip_accounting t demo_tuple 100 60 Hwf).
  by destruct (assoc_sweep t 100 60).
Defined.
