(* ===== verification/Metrics.v ===== *)
(** * Metrics: the data-plane counters of [src/metrics.rs]

    Counters are [AtomicU64]s incremented with [fetch_add] (which wraps), gauges are stored by
    the event loop's periodic tick; both data-plane tasks write to the same handle.  A snapshot
    reads every field. *)

From S2P Require Import Prelude Shared.

Definition NO_FAILOVER : Z := u8_max.

Record Metrics := mk_Metrics {
  me_dns_forged : Z;
  me_dns_dropped : Z;
  me_udp_drops_down : Z;
  me_datagram_pressure_events : Z;
  me_relays_spawned : Z;
  me_active_relays : Z;
  me_fake_ip_active : Z;
  me_fake_ip_total : Z;
  me_failover_leg : Z
}.

Definition metrics_new : Metrics := mk_Metrics 0 0 0 0 0 0 0 0 NO_FAILOVER.

(** [a.fetch_add(1, Relaxed)] *)
Definition fetch_add1 (a : Z) : Z := wrapping_add_u64 a 1.

Definition inc_dns_forged (m : Metrics) : Metrics :=
  mk_Metrics (fetch_add1 (me_dns_forged m)) (me_dns_dropped m) (me_udp_drops_down m)
    (me_datagram_pressure_events m) (me_relays_spawned m) (me_active_relays m)
    (me_fake_ip_active m) (me_fake_ip_total m) (me_failover_leg m).
Definition inc_dns_dropped (m : Metrics) : Metrics :=
  mk_Metrics (me_dns_forged m) (fetch_add1 (me_dns_dropped m)) (me_udp_drops_down m)
    (me_datagram_pressure_events m) (me_relays_spawned m) (me_active_relays m)
    (me_fake_ip_active m) (me_fake_ip_total m) (me_failover_leg m).
Definition inc_udp_drops_down (m : Metrics) : Metrics :=
  mk_Metrics (me_dns_forged m) (me_dns_dropped m) (fetch_add1 (me_udp_drops_down m))
    (me_datagram_pressure_events m) (me_relays_spawned m) (me_active_relays m)
    (me_fake_ip_active m) (me_fake_ip_total m) (me_failover_leg m).
Definition inc_datagram_pressure_events (m : Metrics) : Metrics :=
  mk_Metrics (me_dns_forged m) (me_dns_dropped m) (me_udp_drops_down m)
    (fetch_add1 (me_datagram_pressure_events m)) (me_relays_spawned m) (me_active_relays m)
    (me_fake_ip_active m) (me_fake_ip_total m) (me_failover_leg m).
Definition inc_relays_spawned (m : Metrics) : Metrics :=
  mk_Metrics (me_dns_forged m) (me_dns_dropped m) (me_udp_drops_down m)
    (me_datagram_pressure_events m) (fetch_add1 (me_relays_spawned m)) (me_active_relays m)
    (me_fake_ip_active m) (me_fake_ip_total m) (me_failover_leg m).

Definition set_active_relays (m : Metrics) (n : Z) : Metrics :=
  mk_Metrics (me_dns_forged m) (me_dns_dropped m) (me_udp_drops_down m)
    (me_datagram_pressure_events m) (me_relays_spawned m) n
    (me_fake_ip_active m) (me_fake_ip_total m) (me_failover_leg m).
Definition set_fake_ip_gauge (m : Metrics) (total active : Z) : Metrics :=
  mk_Metrics (me_dns_forged m) (me_dns_dropped m) (me_udp_drops_down m)
    (me_datagram_pressure_events m) (me_relays_spawned m) (me_active_relays m)
    active total (me_failover_leg m).
Definition set_failover_leg (m : Metrics) (leg : Z) : Metrics :=
  mk_Metrics (me_dns_forged m) (me_dns_dropped m) (me_udp_drops_down m)
    (me_datagram_pressure_events m) (me_relays_spawned m) (me_active_relays m)
    (me_fake_ip_active m) (me_fake_ip_total m) leg.

Inductive FailoverLegView := LegTuic | LegReality | LegNone.

Definition leg_view_from_u8 (v : Z) : FailoverLegView :=
  if bool_decide (v = 0) then LegTuic else if bool_decide (v = 1) then LegReality else LegNone.

Record MetricsSnapshot := mk_MetricsSnapshot {
  ms_dns_forged : Z;
  ms_dns_dropped : Z;
  ms_udp_drops_up : Z;
  ms_udp_drops_down : Z;
  ms_udp_stream_fallbacks : Z;
  ms_datagram_pressure_events : Z;
  ms_relays_spawned : Z;
  ms_active_relays : Z;
  ms_fake_ip_active : Z;
  ms_fake_ip_total : Z;
  ms_failover_leg : FailoverLegView
}.

Definition snapshot (m : Metrics) (udp_drops_up udp_stream_fallbacks : Z) : MetricsSnapshot :=
  {| ms_dns_forged := me_dns_forged m;
     ms_dns_dropped := me_dns_dropped m;
     ms_udp_drops_up := udp_drops_up;
     ms_udp_drops_down := me_udp_drops_down m;
     ms_udp_stream_fallbacks := udp_stream_fallbacks;
     ms_datagram_pressure_events := me_datagram_pressure_events m;
     ms_relays_spawned := me_relays_spawned m;
     ms_active_relays := me_active_relays m;
     ms_fake_ip_active := me_fake_ip_active m;
     ms_fake_ip_total := me_fake_ip_total m;
     ms_failover_leg := leg_view_from_u8 (me_failover_leg m) |}.

(** Returns whether this sample is a rising edge, and the new latch. *)
Definition note_pressure_edge (pressured prev : bool) : bool * bool :=
  (pressured && negb prev, pressured).

(** ** Lemmas *)

Lemma fetch_add1_small a : 0 ≤ a < 2 ^ 64 - 1 → fetch_add1 a = a + 1.
Proof. intros. unfold fetch_add1, wrapping_add_u64. rewrite Z.mod_small; lia. Qed.

(** The number of rising edges of a sequence of samples, counted with the latch. *)
Fixpoint edges (prev : bool) (l : list bool) : Z :=
  match l with
  | [] => 0
  | x :: l => let '(r, prev) := note_pressure_edge x prev in (if r then 1 else 0) + edges prev l
  end.

Lemma edges_same b n l : (n ≠ 0)%nat → edges (negb b) (replicate n b ++ l) = (if b then 1 else 0) + edges b l.
Proof.
  destruct n as [|n]; [done|]. intros _. cbn [replicate app edges note_pressure_edge].
  rewrite negb_involutive. f_equal; [by destruct b|].
  induction n as [|n IH]; [done|]. cbn. rewrite IH. by destruct b.
Qed.
