(* ===== verification/Show.v ===== *)
(** * Show: what the client prints

    [TargetAddr::to_wire_string] ([src/shared/target.rs]) with the formatters of [std] it uses, and the
    periodic lines [format_metrics_snapshot] ([src/metrics.rs]) and [format_udp_stats]
    ([src/tuic.rs]).  The theorems are about reading back: a printed target parses to itself, and a
    metrics line determines every counter in it. *)

From S2P Require Import Prelude Text Shared Addr Metrics.

Import (notations) Strings.String.

(** ** Numbers

    [{}] and [{:x}] of an unsigned integer: the digits without leading zeros. *)

Fixpoint digits_from (radix : Z) (fuel : nat) (n : Z) (acc : list Z) : list Z :=
  let acc := n mod radix :: acc in
  match fuel with
  | O => acc
  | S fuel => if bool_decide (n / radix = 0) then acc else digits_from radix fuel (n / radix) acc
  end.
Definition digits (radix n : Z) : list Z := digits_from radix (Z.to_nat (Z.log2 n)) n [].

Definition dec_char (d : Z) : byte := z2b (48 + d).
Definition hex_char (d : Z) : byte := z2b (if bool_decide (d < 10) then 48 + d else 87 + d).
Definition show_dec (n : Z) : list byte := dec_char <$> digits 10 n.
Definition show_hex (n : Z) : list byte := hex_char <$> digits 16 n.

(** ** Addresses *)

Definition dot : byte := x2e.
Definition colon : byte := x3a.

Definition ipv4_octets (ip : Z) : list Z := [ip / 2 ^ 24 mod 256; ip / 2 ^ 16 mod 256; ip / 2 ^ 8 mod 256; ip mod 256].
Definition show_ipv4 (ip : Z) : list byte := join [dot] (show_dec <$> ipv4_octets ip).

(** [ip.segments()] *)
Definition segments (ip : Z) : list Z := (λ i, ip / 2 ^ (16 * (7 - Z.of_nat i)) mod 2 ^ 16) <$> seq 0 8.

(** The first longest run of zero segments: its start and length. *)
Fixpoint longest_zeros (i : nat) (l : list Z) (cur longest : nat * nat) : nat * nat :=
  match l with
  | [] => longest
  | g :: l =>
      if bool_decide (g = 0) then
        let cur := ((if bool_decide (cur.2 = 0)%nat then i else cur.1), S cur.2) in
        longest_zeros (S i) l cur (if bool_decide (longest.2 < cur.2)%nat then cur else longest)
      else longest_zeros (S i) l (0%nat, 0%nat) longest
  end.

Definition show_groups (l : list Z) : list byte := join [colon] (show_hex <$> l).

(** [Display] of [Ipv6Addr]: an IPv4-mapped address keeps its dotted form; a run of at least two zero
    segments is written as two colons. *)
Definition show_ipv6 (ip : Z) : list byte :=
  if bool_decide (ip / 2 ^ 32 = 65535) then str "::ffff:" ++ show_ipv4 (ip mod 2 ^ 32)
  else
    let '(start, n) := longest_zeros 0 (segments ip) (0%nat, 0%nat) (0%nat, 0%nat) in
    if bool_decide (1 < n)%nat
    then show_groups (take start (segments ip)) ++ [colon; colon] ++ show_groups (drop (start + n) (segments ip))
    else show_groups (segments ip).

(** [Display] of [SocketAddr], without a scope. *)
Definition show_sockaddr (a : SocketAddr) : list byte :=
  match a with
  | V4 ip port => show_ipv4 ip ++ [colon] ++ show_dec port
  | V6 ip port => str "[" ++ show_ipv6 ip ++ str "]:" ++ show_dec port
  end.

Definition to_wire_string (t : TargetAddr) : list byte :=
  match t with
  | IpPort addr => show_sockaddr addr
  | DomainPort host port => host ++ [colon] ++ show_dec port
  end.

(** ** Lemmas: digits *)

Definition value (radix : Z) (l : list Z) : Z := fold_left (λ acc d, acc * radix + d) l 0.

Lemma value_from radix l acc : fold_left (λ acc d, acc * radix + d) l acc = acc * radix ^ len l + value radix l.
Proof.
  revert acc. induction l as [|d l IH]; intros acc; [rewrite len_nil, Z.pow_0_r; unfold value; cbn; lia|].
  unfold value. cbn [fold_left]. pose proof (len_nonneg l). rewrite IH, (IH (0 * radix + d)), len_cons, Z.pow_add_r by lia. lia.
Qed.

Lemma digits_from_app radix fuel n acc : digits_from radix fuel n acc = digits_from radix fuel n [] ++ acc.
Proof.
  revert n acc. induction fuel as [|fuel IH]; intros n acc; cbn; [done|]. case_bool_decide; [done|].
  rewrite IH, (IH _ [_]), <-(assoc_L (++)). done.
Qed.

Section digits.
Variable radix : Z.
Hypothesis Hradix : 2 ≤ radix.

(** Enough fuel: the digits have the value of the number, and no leading zero. *)
Lemma digits_from_ok fuel n :
  0 ≤ n < 2 ^ (Z.of_nat fuel + 1) →
  value radix (digits_from radix fuel n []) = n ∧ Forall (λ d, 0 ≤ d < radix) (digits_from radix fuel n []) ∧
  ∃ d l, digits_from radix fuel n [] = d :: l ∧ (l ≠ [] → d ≠ 0) ∧ radix ^ len l ≤ Z.max n 1.
Proof.
  revert n. induction fuel as [|fuel IH]; intros n Hn; cbn [digits_from].
  - assert (n mod radix = n) as -> by (apply Z.mod_small; cbn in Hn; lia).
    split_and!; [done|apply Forall_singleton; cbn in Hn; lia|]. exists n, []. split_and!; [done..|rewrite len_nil, Z.pow_0_r; lia].
  - pose proof (Z.mod_pos_bound n radix ltac:(lia)) as Hm. pose proof (Z.div_mod n radix ltac:(lia)) as Hdm.
    case_bool_decide as Hz.
    { assert (n mod radix = n) as E by lia. rewrite E. split_and!; [done|apply Forall_singleton; lia|].
      exists n, []. split_and!; [done..|rewrite len_nil, Z.pow_0_r; lia]. }
    assert (0 ≤ n / radix) by (apply Z.div_pos; lia).
    destruct (IH (n / radix)) as (Hv & Hf & d & l & E & Hd & Hl).
    { split; [done|]. apply Z.div_lt_upper_bound; [lia|]. rewrite Nat2Z.inj_succ, <-Z.add_1_r, Z.pow_add_r in Hn by lia.
      assert (0 < 2 ^ (Z.of_nat fuel + 1)) by (apply Z.pow_pos_nonneg; lia). nia. }
    rewrite digits_from_app. split_and!.
    + unfold value. rewrite fold_left_app. fold (value radix (digits_from radix fuel (n / radix) [])). rewrite Hv. cbn. lia.
    + apply Forall_app. split; [done|]. by apply Forall_singleton.
    + rewrite E. exists d, (l ++ [n mod radix]). split; [done|]. split.
      * intros _. destruct l as [|d' l]; [|by apply Hd]. rewrite E in Hv. unfold value in Hv. cbn in Hv. lia.
      * rewrite len_app, Z.pow_add_r by (pose proof (len_nonneg l); unfold len; lia). rewrite len_cons, len_nil. cbn. rewrite Z.pow_1_r.
        assert (1 ≤ n / radix) by lia. nia.
Qed.

Lemma digits_ok n :
  0 ≤ n →
  value radix (digits radix n) = n ∧ Forall (λ d, 0 ≤ d < radix) (digits radix n) ∧
  ∃ d l, digits radix n = d :: l ∧ (l ≠ [] → d ≠ 0) ∧ radix ^ len l ≤ Z.max n 1.
Proof.
  intros Hn. apply digits_from_ok. split; [done|]. pose proof (Z.log2_nonneg n). rewrite Z2Nat.id by lia.
  destruct (decide (n = 0)) as [->|]; [done|]. apply Z.log2_spec. lia.
Qed.
End digits.

(** ** Lemmas: reading numbers back *)

Lemma small_cases (n : nat) (P : Z → Prop) : Forall (λ i, P (Z.of_nat i)) (seq 0 n) → ∀ d, 0 ≤ d < Z.of_nat n → P d.
Proof.
  rewrite Forall_forall. intros H d Hd. specialize (H (Z.to_nat d)). rewrite Z2Nat.id in H by lia.
  apply H, elem_of_seq. lia.
Qed.

Lemma digit_dec_char d : 0 ≤ d < 10 → digit (dec_char d) = Some d ∧ (dec_char d = x30 → d = 0).
Proof. revert d. apply (small_cases 10). repeat constructor. all: try discriminate. Qed.
Lemma digit_hex_char d : 0 ≤ d < 16 → hex_digit (hex_char d) = Some d ∧ (hex_char d = x30 → d = 0).
Proof. revert d. apply (small_cases 16). repeat constructor. all: try discriminate. Qed.

(** What follows a number does not continue it. *)
Definition stops (dig : byte → option Z) (s : list byte) : Prop := match s with b :: _ => dig b = None | [] => True end.

Section read.
Variables (radix : Z) (dig : byte → option Z) (chr : Z → byte).
Hypothesis Hradix : 2 ≤ radix.
Hypothesis Hdig : ∀ d, 0 ≤ d < radix → dig (chr d) = Some d ∧ (chr d = x30 → d = 0).

Lemma value_ge l acc : Forall (λ d, 0 ≤ d < radix) l → 0 ≤ acc → acc ≤ fold_left (λ acc d, acc * radix + d) l acc.
Proof.
  intros Hl. revert acc. induction Hl as [|d l Hd _ IH]; intros acc Ha; cbn; [lia|].
  etrans; [|apply IH]; nia.
Qed.

Lemma read_digits_show l mx lim acc cnt rest :
  Forall (λ d, 0 ≤ d < radix) l → 0 ≤ acc → fold_left (λ acc d, acc * radix + d) l acc ≤ mx → cnt + len l ≤ lim →
  stops dig rest →
  read_digits dig radix mx lim acc cnt ((chr <$> l) ++ rest)
    = Some (fold_left (λ acc d, acc * radix + d) l acc, cnt + len l, rest).
Proof.
  intros Hl. revert acc cnt. induction Hl as [|d l Hd Hl IH]; intros acc cnt Ha Hm Hlim Hs; cbn [fmap list_fmap app].
  - rewrite len_nil, Z.add_0_r. destruct rest as [|b rest]; cbn; [done|]. cbn in Hs. by rewrite Hs.
  - cbn [read_digits fold_left]. destruct (Hdig d Hd) as [-> _]. rewrite len_cons in *. cbn [fold_left] in Hm.
    pose proof (value_ge l (acc * radix + d) Hl ltac:(nia)). pose proof (len_nonneg l).
    rewrite !bool_decide_false by lia. rewrite IH by (try done; nia). do 2 f_equal. f_equal. lia.
Qed.

Lemma read_number_show n mx lim zero_prefix rest :
  0 ≤ n ≤ mx → Z.max n 1 < radix ^ lim → 0 < lim → stops dig rest →
  read_number dig radix mx lim zero_prefix ((chr <$> digits radix n) ++ rest) = Some (n, rest).
Proof.
  intros Hn Hlim Hpos Hs. destruct (digits_ok radix Hradix n) as (Hv & Hf & d & l & E & Hd & Hl); [lia|].
  unfold read_number. unfold value in Hv.
  assert (len (digits radix n) ≤ lim) as Hlen.
  { rewrite E, len_cons. pose proof (len_nonneg l).
    assert (len l < lim) by (apply (Z.pow_lt_mono_r_iff radix); lia). lia. }
  rewrite read_digits_show by (try done; lia). rewrite Hv. cbn [mbind option_bind].
  assert (0 + len (digits radix n) = 1 + len l) as -> by (rewrite E, len_cons; lia).
  pose proof (len_nonneg l). rewrite bool_decide_false by lia. rewrite E. cbn [fmap list_fmap app head].
  destruct zero_prefix; [done|]. cbn [negb andb].
  destruct (bool_decide (Some (chr d) = Some x30)) eqn:E1; cbn [andb]; [|done]. rewrite bool_decide_false; [done|].
  apply bool_decide_eq_true_1 in E1. injection E1 as E1. rewrite E in Hf. apply Forall_cons in Hf as [Hd' _].
  apply (Hdig d Hd') in E1. destruct l; [rewrite len_nil; lia|]. by destruct (Hd ltac:(done)).
Qed.
End read.

(** [str::parse] of a printed number. *)
Lemma parse_digits_show l mx acc :
  Forall (λ d, 0 ≤ d < 10) l → 0 ≤ acc → fold_left (λ acc d, acc * 10 + d) l acc ≤ mx →
  parse_digits mx acc (dec_char <$> l) = Some (fold_left (λ acc d, acc * 10 + d) l acc).
Proof.
  intros Hl. revert acc. induction Hl as [|d l Hd Hl IH]; intros acc Ha Hm; cbn in *; [done|].
  destruct (digit_dec_char d Hd) as [-> _]. cbn. pose proof (value_ge 10 ltac:(lia) l (acc * 10 + d) Hl ltac:(lia)).
  rewrite bool_decide_true by lia. apply IH; [lia|done].
Qed.

Lemma parse_uint_show mx n : 0 ≤ n ≤ mx → parse_uint mx (show_dec n) = Some n.
Proof.
  intros Hn. destruct (digits_ok 10 ltac:(lia) n) as (Hv & Hf & d & l & E & _); [lia|].
  pose proof (parse_digits_show (digits 10 n) mx 0 Hf ltac:(lia)) as Hp. unfold value in Hv. rewrite Hv in Hp.
  specialize (Hp ltac:(lia)). unfold parse_uint, show_dec. rewrite E in Hp, Hf |- *. cbn [fmap list_fmap] in *.
  apply Forall_cons in Hf as [Hd _]. rewrite bool_decide_false; [done|].
  revert d Hd Hp E. intros d Hd _ _. revert d Hd. apply (small_cases 10). repeat constructor; discriminate.
Qed.

Lemma show_dec_chars n b : 0 ≤ n → b ∈ show_dec n → in_range 48 57 b = true.
Proof.
  intros Hn. destruct (digits_ok 10 ltac:(lia) n Hn) as (_ & Hf & _). unfold show_dec. rewrite list_elem_of_fmap.
  intros (d & -> & Hd). rewrite Forall_forall in Hf. specialize (Hf d Hd). clear Hd. revert d Hf.
  apply (small_cases 10). repeat constructor.
Qed.

(** ** Lemmas: reading addresses back *)

Lemma read_octet_show n rest : 0 ≤ n ≤ 255 → stops digit rest → read_octet (show_dec n ++ rest) = Some (n, rest).
Proof. intros Hn Hs. apply (read_number_show 10 digit dec_char ltac:(lia) digit_dec_char); (done || lia). Qed.

Lemma read_hex_show g rest :
  is_u16 g → stops hex_digit rest → read_number hex_digit 16 65535 4 true (show_hex g ++ rest) = Some (g, rest).
Proof. intros Hg Hs. apply (read_number_show 16 hex_digit hex_char ltac:(lia) digit_hex_char); (done || ulia). Qed.

Lemma read_port_show p rest : is_u16 p → stops digit rest → read_port (colon :: show_dec p ++ rest) = Some (p, rest).
Proof.
  intros Hp Hs. unfold read_port. cbn [read_char]. rewrite bool_decide_true by done. cbn [mbind option_bind].
  apply (read_number_show 10 digit dec_char ltac:(lia) digit_dec_char); [ulia| |by vm_compute|done].
  apply (Z.lt_le_trans _ (10 ^ 5)); [ulia|]. apply Z.pow_le_mono_r; [lia|]. by vm_compute.
Qed.

Lemma ipv4_octets_value ip : is_u32 ip →
  ipv4_new (ip / 2 ^ 24 mod 256) (ip / 2 ^ 16 mod 256) (ip / 2 ^ 8 mod 256) (ip mod 256) = ip.
Proof. unfold is_u32, ipv4_new. intros H. Z.div_mod_to_equations. lia. Qed.

Lemma read_ipv4_show ip rest : is_u32 ip → stops digit rest → read_ipv4_addr (show_ipv4 ip ++ rest) = Some (ip, rest).
Proof.
  intros Hip Hs. assert (∀ x, 0 ≤ x mod 256 ≤ 255) as Hb by (intros x; pose proof (Z.mod_pos_bound x 256); lia).
  unfold show_ipv4, ipv4_octets, read_ipv4_addr. cbn [fmap list_fmap join]. rewrite <-!(assoc_L (++)).
  rewrite read_octet_show by done. cbn [mbind option_bind read_sep app read_char].
  rewrite bool_decide_true by done. cbn [mbind option_bind]. rewrite read_octet_show by done.
  cbn [mbind option_bind read_sep app read_char]. rewrite bool_decide_true by done. cbn [mbind option_bind].
  rewrite read_octet_show by done. cbn [mbind option_bind read_sep app read_char]. rewrite bool_decide_true by done.
  cbn [mbind option_bind]. rewrite read_octet_show by done. cbn [mbind option_bind]. by rewrite ipv4_octets_value.
Qed.

(** The digits read are a prefix of the input. *)
Lemma read_digits_prefix dig radix mx lim acc cnt s v k r :
  read_digits dig radix mx lim acc cnt s = Some (v, k, r) → ∃ pre, s = pre ++ r ∧ Forall (λ b, dig b ≠ None) pre.
Proof.
  revert acc cnt. induction s as [|b s IH]; intros acc cnt; cbn; [intros [= <- <- <-]; by exists []|].
  destruct (dig b) eqn:E; [|intros [= <- <- <-]; by exists []]. repeat case_bool_decide; try done.
  intros Hr. destruct (IH _ _ Hr) as (pre & -> & Hp). exists (b :: pre). split; [done|]. apply Forall_cons. by rewrite E.
Qed.

(** A word that does not go on with a dot is no dotted address. *)
Lemma read_ipv4_None h c rest : dot ∉ h → c ≠ dot → digit c = None → read_ipv4_addr (h ++ c :: rest) = None.
Proof.
  intros Hh Hc Hd. unfold read_ipv4_addr, read_octet, read_number.
  destruct (read_digits digit 10 255 3 0 0 (h ++ c :: rest)) as [[[v k] r]|] eqn:E; cbn; [|done].
  case_bool_decide; cbn; [done|]. destruct (bool_decide _ && _); cbn; [done|].
  destruct r as [|b r]; cbn; [done|]. case_bool_decide as Hb; [|done]. exfalso. subst b.
  apply read_digits_prefix in E as (pre & E & Hp). assert (c ∉ pre) as Hcp.
  { intros Hin. rewrite Forall_forall in Hp. by apply (Hp c Hin). }
  apply app_eq_inv in E as [(k' & -> & E)|(k' & -> & E)].
  - destruct k' as [|b k']; cbn in E; simplify_eq. apply Hh. set_solver.
  - destruct k' as [|b k']; cbn in E; simplify_eq. apply Hcp. set_solver.
Qed.

Lemma show_hex_chars g b : 0 ≤ g → b ∈ show_hex g → b ≠ dot.
Proof.
  intros Hg. destruct (digits_ok 16 ltac:(lia) g Hg) as (_ & Hf & _). unfold show_hex. rewrite list_elem_of_fmap.
  intros (d & -> & Hd). rewrite Forall_forall in Hf. specialize (Hf d Hd). clear Hd. revert d Hf.
  apply (small_cases 16). repeat constructor; discriminate.
Qed.

(** What follows the groups of an address: two colons or the closing bracket. *)
Inductive ends : list byte → Prop :=
| ends_bracket r : ends (x5d :: r)
| ends_colons r : ends (colon :: colon :: r).

Definition tail_text (l : list Z) : list byte := concat ((λ g, colon :: show_hex g) <$> l).

Lemma show_groups_cons g l : show_groups (g :: l) = show_hex g ++ tail_text l.
Proof.
  unfold show_groups, tail_text. revert g. induction l as [|g' l IH]; intros g; cbn; [by rewrite app_nil_r|].
  by rewrite <-IH.
Qed.

(** The text after a group starts with a colon or a bracket. *)
Lemma tail_next l rest : ends rest → ∃ c r, tail_text l ++ rest = c :: r ∧ c ≠ dot ∧ digit c = None ∧ hex_digit c = None.
Proof. intros He. destruct l as [|g l]; cbn; [destruct He|]; eauto 10. Qed.

Lemma group_step g l rest :
  is_u16 g → ends rest →
  read_ipv4_addr (show_hex g ++ tail_text l ++ rest) = None ∧
  read_number hex_digit 16 65535 4 true (show_hex g ++ tail_text l ++ rest) = Some (g, tail_text l ++ rest).
Proof.
  intros Hg He. destruct (tail_next l rest He) as (c & r & -> & Hc & Hd & Hx). split.
  - apply read_ipv4_None; [|done|done]. intros Hin. apply show_hex_chars in Hin; [done|ulia].
  - by apply read_hex_show.
Qed.

(** Nothing more is read at the end. *)
Lemma no_group limit i rest : ends rest → read_groups limit i rest = ([], false, rest).
Proof. intros He. destruct limit as [|limit]; [done|]. cbn. destruct He, i; cbn; by destruct (bool_decide _). Qed.

Lemma read_groups_tail l limit i rest :
  Forall is_u16 l → (length l ≤ limit)%nat → ends rest → read_groups limit (S i) (tail_text l ++ rest) = (l, false, rest).
Proof.
  intros Hl. revert limit i. induction Hl as [|g l Hg Hl IH]; intros limit i Hlim He; [by apply no_group|].
  destruct limit as [|limit]; [cbn in Hlim; lia|]. cbn [length] in Hlim.
  change (tail_text (g :: l)) with ((colon :: show_hex g) ++ tail_text l). rewrite <-(assoc_L (++)). cbn [app].
  destruct (group_step g l rest Hg He) as [E1 E2]. cbn [read_groups read_sep read_char].
  rewrite (bool_decide_true (colon = x3a)) by done. cbn [mbind option_bind]. rewrite E1, E2. cbn [mbind option_bind].
  destruct (bool_decide (limit = 0)%nat); rewrite IH by (done || lia); done.
Qed.

Lemma read_groups_show l limit rest :
  Forall is_u16 l → (length l ≤ limit)%nat → ends rest → read_groups limit 0 (show_groups l ++ rest) = (l, false, rest).
Proof.
  intros Hl Hlim He. destruct Hl as [|g l Hg Hl]; [by apply no_group|]. rewrite show_groups_cons, <-(assoc_L (++)).
  destruct limit as [|limit]; [cbn in Hlim; lia|]. cbn [length] in Hlim. destruct (group_step g l rest Hg He) as [E1 E2].
  cbn [read_groups read_sep]. rewrite E1, E2. destruct (bool_decide (limit = 0)%nat); rewrite read_groups_tail by (done || lia); done.
Qed.

(** ** Lemmas: segments *)

Lemma segments_u16 ip : Forall is_u16 (segments ip).
Proof. apply Forall_fmap, Forall_true. intros i. apply Z.mod_pos_bound. lia. Qed.

Lemma segments_length ip : length (segments ip) = 8%nat.
Proof. done. Qed.

Lemma segs_value k ip :
  0 ≤ ip →
  value (2 ^ 16) ((λ i, ip / 2 ^ (16 * (Z.of_nat k - 1 - Z.of_nat i)) mod 2 ^ 16) <$> seq 0 k) = ip mod 2 ^ (16 * Z.of_nat k).
Proof.
  revert ip. induction k as [|k IH]; intros ip Hip; [by rewrite Z.mod_1_r|]. rewrite seq_S, fmap_app. unfold value.
  rewrite fold_left_app. cbn [fmap list_fmap fold_left Nat.add].
  rewrite (list_fmap_ext _ (λ i, (ip / 2 ^ 16) / 2 ^ (16 * (Z.of_nat k - 1 - Z.of_nat i)) mod 2 ^ 16)).
  2:{ intros j i Hi%lookup_seq. f_equal. rewrite Z.div_div by lia. f_equal.
      rewrite <-Z.pow_add_r by lia. f_equal. lia. }
  change (fold_left _ ?l 0) with (value (2 ^ 16) l). rewrite IH by (apply Z.div_pos; lia).
  replace (16 * (Z.of_nat (S k) - 1 - Z.of_nat k)) with 0 by lia. rewrite Z.pow_0_r, Z.div_1_r.
  replace (16 * Z.of_nat (S k)) with (16 + 16 * Z.of_nat k) by lia.
  rewrite Z.pow_add_r, Z.rem_mul_r by lia. lia.
Qed.

Lemma segments_value ip : 0 ≤ ip < 2 ^ 128 → value (2 ^ 16) (segments ip) = ip.
Proof. intros Hip. transitivity (ip mod 2 ^ (16 * Z.of_nat 8)); [apply (segs_value 8); lia|by apply Z.mod_small]. Qed.

(** The bytes of the segments have the value of the segments. *)
Lemma of_be_groups l : Forall is_u16 l → of_be (concat (be16 <$> l)) = value (2 ^ 16) l.
Proof.
  induction l as [|g l IH] using rev_ind; [done|]. intros [Hl Hg]%Forall_app. apply Forall_cons in Hg as [Hg _].
  rewrite fmap_app, concat_app. unfold value. rewrite fold_left_app. fold (value (2 ^ 16) l). rewrite <-IH by done.
  destruct (u16_of_be16 g) as (a & b & E & Hu); [done|]. cbn [fmap list_fmap concat fold_left]. rewrite app_nil_r, E.
  change [a; b] with ([a] ++ [b]). rewrite (assoc_L (++)), !of_be_app. unfold u16_of in Hu.
  change [a; b] with ([a] ++ [b]) in Hu. rewrite of_be_app in Hu. change [a] with ([] ++ [a]) in Hu. rewrite of_be_app in Hu.
  change (of_be []) with 0 in Hu. lia.
Qed.

(** ** The run of zeros *)

Definition zero_run (l : list Z) (r : nat * nat) : Prop := ∀ k, (r.1 ≤ k < r.1 + r.2)%nat → l !! k = Some 0.

Lemma longest_zeros_run pre l cur longest :
  zero_run (pre ++ l) cur → (0 < cur.2 → cur.1 + cur.2 = length pre)%nat → zero_run (pre ++ l) longest →
  zero_run (pre ++ l) (longest_zeros (length pre) l cur longest).
Proof.
  revert pre cur longest. induction l as [|g l IH]; intros pre [cs cn] [ls ln] Hc He Hl; cbn [longest_zeros]; [done|].
  assert (∀ cur longest, zero_run (pre ++ g :: l) cur → (0 < cur.2 → cur.1 + cur.2 = S (length pre))%nat →
    zero_run (pre ++ g :: l) longest → zero_run (pre ++ g :: l) (longest_zeros (S (length pre)) l cur longest)) as IH'.
  { intros cur longest. specialize (IH (pre ++ [g]) cur longest). rewrite length_app, <-(assoc_L (++)) in IH. cbn [length app] in IH.
    by rewrite Nat.add_1_r in IH. }
  case_bool_decide as Hg; [|apply IH'; [intros k; cbn; lia|cbn; lia|done]]. subst g. cbn [fst snd] in *.
  assert (zero_run (pre ++ 0 :: l) ((if bool_decide (cn = 0)%nat then length pre else cs), S cn)) as Hc'.
  { intros k. cbn [fst snd]. case_bool_decide; intros Hk.
    - assert (k = length pre) as -> by lia. by apply list_lookup_middle.
    - specialize (He ltac:(lia)). destruct (decide (k = length pre)) as [->|]; [by apply list_lookup_middle|].
      apply Hc. cbn. lia. }
  apply IH'; [done| |by destruct (bool_decide (ln < S cn)%nat)]. cbn [fst snd]. intros _. case_bool_decide; lia.
Qed.

Lemma zero_run_split l start n :
  zero_run l (start, n) → (0 < n)%nat → l = take start l ++ replicate n 0 ++ drop (start + n) l.
Proof.
  intros Hr Hn. assert (start + n ≤ length l)%nat as Hlen.
  { specialize (Hr (start + n - 1)%nat). cbn in Hr. specialize (Hr ltac:(lia)). apply lookup_lt_Some in Hr. lia. }
  rewrite <-(take_drop start l) at 1. f_equal. rewrite <-(take_drop n (drop start l)), drop_drop. f_equal.
  apply list_eq. intros k. destruct (decide (k < n)%nat).
  - rewrite lookup_take_lt, lookup_drop, lookup_replicate_2 by lia. apply Hr. cbn. lia.
  - rewrite !lookup_ge_None_2; [done|rewrite length_replicate; lia|rewrite length_take; lia].
Qed.

(** ** Addresses *)

Lemma read_groups_S limit i s :
  read_groups (S limit) i s =
  match (if bool_decide (limit = 0)%nat then None else read_sep x3a i read_ipv4_addr s) with
  | Some (ip, s) => ([ip / 2 ^ 16; ip mod 2 ^ 16], true, s)
  | None =>
      match read_sep x3a i (read_number hex_digit 16 65535 4 true) s with
      | Some (g, s) => let '(gs, v4, s) := read_groups limit (S i) s in (g :: gs, v4, s)
      | None => ([], false, s)
      end
  end.
Proof. done. Qed.

Lemma read_ipv6_show ip rest :
  0 ≤ ip < 2 ^ 128 → ∃ bytes, read_ipv6_addr (show_ipv6 ip ++ x5d :: rest) = Some (bytes, x5d :: rest) ∧ of_be bytes = ip.
Proof.
  intros Hip. pose proof (segments_u16 ip) as Hu. pose proof (segments_length ip) as Hlen. unfold show_ipv6, read_ipv6_addr.
  case_bool_decide as Hmap.
  - rewrite <-(assoc_L (++)). change (str "::ffff:") with (colon :: colon :: show_hex 65535 ++ [colon]). cbn [app].
    rewrite no_group by constructor. rewrite bool_decide_false by done. cbn [read_char]. rewrite !bool_decide_true by done.
    cbn [mbind option_bind length Nat.sub].
    pose proof (Z.mod_pos_bound ip (2 ^ 32) ltac:(lia)) as Hm.
    set (s := show_ipv4 (ip mod 2 ^ 32) ++ x5d :: rest).
    assert (read_groups 7 0 (show_hex 65535 ++ [colon] ++ s)
      = ([65535; ip mod 2 ^ 32 / 2 ^ 16; ip mod 2 ^ 32 mod 2 ^ 16], true, x5d :: rest)) as E.
    { rewrite read_groups_S. cbn [read_sep]. change ([colon] ++ s) with (colon :: s).
      rewrite read_ipv4_None by (done || by (intros Hd; apply show_hex_chars in Hd)). rewrite read_hex_show by done. rewrite (read_groups_S 5). cbn [read_sep read_char].
      rewrite (bool_decide_true (colon = x3a)) by done. cbn [mbind option_bind]. subst s. by rewrite read_ipv4_show. }
    rewrite <-(assoc_L (++)). cbn [read_char]. rewrite (bool_decide_true (colon = x3a)) by done.
    cbn [mbind option_bind]. rewrite E. eexists. split; [done|]. rewrite of_be_groups.
    + unfold value. cbn. Z.div_mod_to_equations. lia.
    + repeat constructor; unfold is_u16; Z.div_mod_to_equations; lia.
  - destruct (longest_zeros 0 (segments ip) (0%nat, 0%nat) (0%nat, 0%nat)) as [start n] eqn:Ez.
    case_bool_decide as Hn.
    + assert (zero_run (segments ip) (start, n)) as Hr.
      { rewrite <-Ez. apply (longest_zeros_run []); cbn; try lia; intros k; cbn; lia. }
      pose proof (zero_run_split _ _ _ Hr ltac:(lia)) as Hs.
      assert (length (take start (segments ip)) + n + length (drop (start + n) (segments ip)) = 8)%nat as Hcount.
      { pose proof (f_equal length Hs) as Hc. rewrite !length_app, length_replicate, Hlen in Hc. lia. }
      set (h := take start (segments ip)) in *. set (t := drop (start + n) (segments ip)) in *.
      assert (Forall is_u16 h ∧ Forall is_u16 t) as [Hh Ht] by (split; [by apply Forall_take|by apply Forall_drop]).
      rewrite <-!(assoc_L (++)). cbn [app]. rewrite read_groups_show by (done || lia || constructor).
      rewrite bool_decide_false by lia. do 2 (cbn [read_char]; rewrite (bool_decide_true (colon = x3a)) by done; cbn [mbind option_bind]).
      rewrite read_groups_show by (done || lia || constructor). eexists. split; [done|].
      replace (8 - length h - length t)%nat with n by lia. rewrite <-Hs, of_be_groups by done. by apply segments_value.
    + rewrite read_groups_show by (done || lia || constructor). rewrite bool_decide_true by done.
      eexists. split; [done|]. rewrite of_be_groups by done. by apply segments_value.
Qed.

(** The addresses a [SocketAddr] can hold. *)
Definition sockaddr_wf (a : SocketAddr) : Prop :=
  match a with V4 ip port => is_u32 ip ∧ is_u16 port | V6 ip port => 0 ≤ ip < 2 ^ 128 ∧ is_u16 port end.

Lemma parse_show_sockaddr a : sockaddr_wf a → parse_socket_addr (show_sockaddr a) = Some a.
Proof.
  intros Ha. unfold parse_socket_addr. rewrite <-(app_nil_r (show_sockaddr a)).
  destruct a as [ip port|ip port]; destruct Ha as [Hi Hp]; unfold show_sockaddr, read_socket_addr; rewrite <-!(assoc_L (++)).
  - rewrite read_ipv4_show by done. cbn [mbind option_bind app]. by rewrite read_port_show.
  - change (str "[") with [x5b]. change (str "]:") with [x5d; colon]. cbn [app].
    change (read_ipv4_addr (x5b :: _)) with (@None (Z * list byte)). cbn [mbind option_bind read_char].
    rewrite bool_decide_true by done. cbn [mbind option_bind].
    destruct (read_ipv6_show ip (colon :: show_dec port ++ []) Hi) as (bytes & -> & Hb). cbn [mbind option_bind skip_scope_id].
    change (skip_scope_id (x5d :: colon :: show_dec port ++ [])) with (x5d :: colon :: show_dec port ++ []).
    cbn [read_char]. rewrite bool_decide_true by done. cbn [mbind option_bind]. rewrite read_port_show by done. by rewrite Hb.
Qed.

Lemma colon_not_in_dec n : 0 ≤ n → x3a ∉ show_dec n.
Proof. intros Hn Hin. apply show_dec_chars in Hin; [|done]. by vm_compute in Hin. Qed.

Lemma parse_host_port h p :
  is_u16 p → h ≠ [] → parse_socket_addr (to_wire_string (DomainPort h p)) = None →
  target_parse (to_wire_string (DomainPort h p)) = Ok (DomainPort h p).
Proof.
  intros Hp Hh Hn. unfold target_parse. rewrite Hn. cbn [to_wire_string app].
  rewrite rsplit_once_last by (apply colon_not_in_dec; ulia). cbn [ok_or rbind].
  rewrite parse_uint_show by ulia. cbn [ok_or rbind]. by rewrite bool_decide_false.
Qed.

(** A printed target reads back as itself.  Every IPv4 and IPv6 socket address, compressed and mapped
    forms included, parses to the address it was printed from.  A domain and a port parse back too,
    unless the whole text is itself a socket address (the domain is then an address in disguise and
    becomes one), which no name does that starts with neither a digit nor a bracket. *)
Theorem target_roundtrip t :
  match t with
  | IpPort a => sockaddr_wf a → target_parse (to_wire_string t) = Ok t
  | DomainPort h p => is_u16 p → h ≠ [] →
      target_parse (to_wire_string t)
        = (match parse_socket_addr (to_wire_string t) with Some a => Ok (IpPort a) | None => Ok t end) ∧
      (∀ b r, h = b :: r → digit b = None → b ≠ x5b → target_parse (to_wire_string t) = Ok t)
  end.
Proof.
  destruct t as [a|h p].
  - intros Ha. cbn. unfold target_parse. by rewrite parse_show_sockaddr.
  - intros Hp Hh. split.
    + destruct (parse_socket_addr _) as [a|] eqn:E; [unfold target_parse; by rewrite E|by apply parse_host_port].
    + intros b r -> Hd Hb. apply parse_host_port; [done|done|]. unfold parse_socket_addr, read_socket_addr.
      assert (∀ s, read_ipv4_addr (b :: s) = None) as Hv by (intros s; unfold read_ipv4_addr, read_octet, read_number; cbn; by rewrite Hd).
      cbn [to_wire_string app]. rewrite Hv. cbn [mbind option_bind read_char]. by rewrite bool_decide_false.
Qed.

Lemma target_roundtrip_witness :
  let a := V6 (42540766411282592856903984951653826561 + 2 ^ 96) 8443 in
  let t := DomainPort (str "example.com") 443 in
  target_parse (to_wire_string (IpPort a)) = Ok (IpPort a) ∧ target_parse (to_wire_string t) = Ok t ∧
  to_wire_string (IpPort (V6 42540766411282592856903984951653826561 443)) = str "[2001:db8::1]:443" ∧
  to_wire_string (IpPort (V6 (65535 * 2 ^ 32 + ipv4_new 1 2 3 4) 80)) = str "[::ffff:1.2.3.4]:80".
Proof.
  intros a t. split; [|split; [|split; vm_compute; reflexivity]].
  - apply (target_roundtrip (IpPort a)). split; vm_compute; split; (discriminate || reflexivity).
  - apply (target_roundtrip (DomainPort (str "example.com") 443)) with (b := x65) (r := str "xample.com");
      vm_compute; first [split; (discriminate || reflexivity) | discriminate | reflexivity].
Defined.

(** ** The periodic lines *)

Definition leg_label (v : FailoverLegView) : list byte :=
  match v with LegTuic => str "TUIC" | LegReality => str "REALITY" | LegNone => str "-" end.

Definition format_metrics_snapshot (s : MetricsSnapshot) : list byte :=
  str "📊 数据面: DNS forge=" ++ show_dec (ms_dns_forged s) ++
  str "/drop=" ++ show_dec (ms_dns_dropped s) ++
  str " | TCP relay 活跃=" ++ show_dec (ms_active_relays s) ++
  str "/累计=" ++ show_dec (ms_relays_spawned s) ++
  str " | fake-IP 活跃=" ++ show_dec (ms_fake_ip_active s) ++
  str "/在册=" ++ show_dec (ms_fake_ip_total s) ++
  str " | UDP↓丢=" ++ show_dec (ms_udp_drops_down s) ++
  str " 背压=" ++ show_dec (ms_datagram_pressure_events s) ++
  str " | UDP↑丢=" ++ show_dec (ms_udp_drops_up s) ++
  str " stream兜底=" ++ show_dec (ms_udp_stream_fallbacks s) ++
  str " | leg=" ++ leg_label (ms_failover_leg s).

(** [{:?}] of an [Option<usize>]. *)
Definition show_option (o : option Z) : list byte :=
  match o with Some n => str "Some(" ++ show_dec n ++ str ")" | None => str "None" end.

Definition format_udp_stats (max_datagram : option Z) (fallbacks drops rtt_ms cwnd lost sent send_buffer_space : Z) : list byte :=
  str "📊 TUIC UDP↑: datagram 上限=" ++ show_option max_datagram ++
  str " stream 兜底=" ++ show_dec fallbacks ++ str " 丢弃=" ++ show_dec drops ++
  str " | RTT=" ++ show_dec rtt_ms ++ str "ms cwnd=" ++ show_dec cwnd ++
  str " 丢包=" ++ show_dec lost ++ str "/" ++ show_dec sent ++ str " send_buf 余=" ++ show_dec send_buffer_space ++ str "B".

(** A number and what follows it can be told apart. *)
Lemma show_dec_app_inj n m r r' :
  0 ≤ n → 0 ≤ m → stops digit r → stops digit r' → show_dec n ++ r = show_dec m ++ r' → n = m ∧ r = r'.
Proof.
  intros Hn Hm Hr Hr' E. set (k := Z.max (Z.max n m) 1).
  assert (k < 10 ^ k) as Hk by (apply Z.pow_gt_lin_r; lia).
  pose proof (read_number_show 10 digit dec_char ltac:(lia) digit_dec_char n k k true r ltac:(lia) ltac:(lia) ltac:(lia) Hr) as E1.
  pose proof (read_number_show 10 digit dec_char ltac:(lia) digit_dec_char m k k true r' ltac:(lia) ltac:(lia) ltac:(lia) Hr') as E2.
  unfold show_dec in E. rewrite E, E2 in E1. by injection E1.
Qed.

Definition counters_ok (s : MetricsSnapshot) : Prop :=
  Forall (λ n, 0 ≤ n) [ms_dns_forged s; ms_dns_dropped s; ms_udp_drops_up s; ms_udp_drops_down s; ms_udp_stream_fallbacks s;
    ms_datagram_pressure_events s; ms_relays_spawned s; ms_active_relays s; ms_fake_ip_active s; ms_fake_ip_total s].

(** A metrics line determines the snapshot it was printed from. *)
Lemma metrics_line_faithful s s' :
  counters_ok s → counters_ok s' → format_metrics_snapshot s = format_metrics_snapshot s' → s = s'.
Proof.
  unfold counters_ok, format_metrics_snapshot. intros H H' E. rewrite !Forall_cons in H, H'.
  destruct H as (?&?&?&?&?&?&?&?&?&?&_), H' as (?&?&?&?&?&?&?&?&?&?&_).
  repeat (apply app_inv_head in E; apply show_dec_app_inj in E as [? E]; [|done..]).
  apply app_inv_head in E. destruct s, s'; cbn in *. subst. f_equal. by destruct ms_failover_leg, ms_failover_leg0.
Qed.
