(* ===== verification/TuicUpstream.v ===== *)
(** * TuicUpstream: the TUIC client upstream of [src/tuic.rs]

    The QUIC library is a parameter: [QuicLib] lists what the client asks of a [quinn] endpoint
    and connection, as the answers one run of the library gives.  On top of it the file models
    the handshake with its 0-RTT fall-back, the token authentication, [live_conn] with its
    in-place reconnection, [send_udp] with the datagram path and the uni-stream fall-back,
    [open_tcp], and the UDP driver task of [start_udp] as a step function. *)

From S2P Require Import Prelude Shared TuicCodec Metrics.

Inductive send_result := DgOk | DgTooLarge | DgOther.
#[global] Instance send_result_eq_dec : EqDecision send_result.
Proof. solve_decision. Defined.

(** ** The QUIC library as the client sees it *)

Class QuicLib := {
  Conn : Type;
  (** [endpoint.connect(..)] then [into_0rtt()]: a connection when a ticket allows it. *)
  connect_0rtt : option Conn;
  (** [endpoint.connect(..).await]; [Err] is a failure, [Panic] is not used. *)
  connect_1rtt : option Conn;
  (** whether the whole handshake of [live_conn] completes before its timeout *)
  handshake_in_time : bool;
  close_reason : Conn → bool;
  export_keying_material : Conn → list byte → list byte → option (list byte);
  (** [open_uni], [write_all], [finish] on a fresh uni-stream: all succeed or one fails *)
  uni_open : Conn → bool;
  uni_write : Conn → list byte → bool;
  uni_finish : Conn → bool;
  (** [open_bi] and [write_all] on a fresh bidirectional stream *)
  bi_open : Conn → bool;
  bi_write : Conn → list byte → bool;
  open_in_time : bool;
  max_datagram_size : Conn → option Z;
  (** [stats().udp_rx.datagrams] *)
  udp_rx_datagrams : Conn → Z;
  send_datagram : Conn → list byte → send_result
}.

(** What reaches the wire. *)
Inductive wire_event {Q : QuicLib} :=
| SentUni (c : Conn) (bytes : list byte)
| SentBi (c : Conn) (bytes : list byte)
| SentDatagram (c : Conn) (bytes : list byte).

Record TuicUpstream := mk_TuicUpstream {
  tu_uuid : list byte;
  tu_password : list byte;
  tu_zero_rtt : bool;
  tu_mode : UdpRelayMode;
  tu_udp_drops : Z;
  tu_udp_stream_fallbacks : Z;
  tu_last_udp_activity : Z
}.

Definition tu_drop (u : TuicUpstream) : TuicUpstream :=
  mk_TuicUpstream (tu_uuid u) (tu_password u) (tu_zero_rtt u) (tu_mode u)
    (fetch_add1 (tu_udp_drops u)) (tu_udp_stream_fallbacks u) (tu_last_udp_activity u).
Definition tu_fallback (u : TuicUpstream) : TuicUpstream :=
  mk_TuicUpstream (tu_uuid u) (tu_password u) (tu_zero_rtt u) (tu_mode u)
    (tu_udp_drops u) (fetch_add1 (tu_udp_stream_fallbacks u)) (tu_last_udp_activity u).
Definition tu_active (u : TuicUpstream) (now : Z) : TuicUpstream :=
  mk_TuicUpstream (tu_uuid u) (tu_password u) (tu_zero_rtt u) (tu_mode u)
    (tu_udp_drops u) (tu_udp_stream_fallbacks u) now.

Section upstream.
Context {Q : QuicLib}.

(** A uni-stream carrying [bytes]: the result and what was sent. *)
Definition write_uni (c : Conn) (bytes : list byte) : res ClientError unit * list wire_event :=
  if uni_open c then
    if uni_write c bytes then
      if uni_finish c then (Ok tt, [SentUni c bytes]) else (Err (Io tuic_io), [])
    else (Err (Io tuic_io), [])
  else (Err (Io tuic_io), []).

Definition authenticate (c : Conn) (uuid password : list byte)
  : res ClientError unit * list wire_event :=
  match export_keying_material c uuid password with
  | None => (Err (InvalidTarget tuic_export_failed), [])
  | Some token => write_uni c (encode_authenticate uuid token)
  end.

Definition try_0rtt (uuid password : list byte) : option Conn * list wire_event :=
  match connect_0rtt with
  | None => (None, [])
  | Some c =>
      match authenticate c uuid password with
      | (Ok _, w) => (Some c, w)
      | (_, w) => (None, w)
      end
  end.

Definition handshake_1rtt (uuid password : list byte) : res ClientError Conn * list wire_event :=
  match connect_1rtt with
  | None => (Err (Io tuic_io), [])
  | Some c =>
      match authenticate c uuid password with
      | (Ok _, w) => (Ok c, w)
      | (Err e, w) => (Err e, w)
      | (Panic, w) => (Panic, w)
      end
  end.

Definition tuic_handshake (uuid password : list byte) (zero_rtt : bool)
  : res ClientError Conn * list wire_event :=
  if zero_rtt then
    match try_0rtt uuid password with
    | (Some c, w) => (Ok c, w)
    | (None, w) => let '(r, w') := handshake_1rtt uuid password in (r, w ++ w')
    end
  else handshake_1rtt uuid password.

(** [live_conn] under the connection lock: the result, the connection kept, what was sent. *)
Definition live_conn (u : TuicUpstream) (conn : Conn)
  : res ClientError Conn * Conn * list wire_event :=
  if close_reason conn then
    if handshake_in_time then
      match tuic_handshake (tu_uuid u) (tu_password u) (tu_zero_rtt u) with
      | (Ok c, w) => (Ok c, c, w)
      | (Err e, w) => (Err e, conn, w)
      | (Panic, w) => (Panic, conn, w)
      end
    else (Err (Io tuic_timeout), conn, [])
  else (Ok conn, conn, []).

(** [try_lock] then [close_reason]: never waits, never reconnects. *)
Definition current_conn (lock_free : bool) (conn : Conn) : option Conn :=
  if lock_free then if close_reason conn then None else Some conn else None.

Definition write_uni_packet (c : Conn) (packet : list byte)
  : res ClientError unit * list wire_event := write_uni c packet.

Definition send_udp_via_stream (u : TuicUpstream) (c : Conn) (datagram : list byte)
  : TuicUpstream * list wire_event :=
  match write_uni_packet c datagram with
  | (Ok _, w) => (u, w)
  | (_, w) => (tu_drop u, w)
  end.

Definition send_udp (u : TuicUpstream) (lock_free : bool) (conn : Conn) (now : Z)
    (datagram : list byte) : TuicUpstream * list wire_event :=
  let u := tu_active u now in
  match current_conn lock_free conn with
  | None => (tu_drop u, [])
  | Some c =>
      match udp_send_plan (tu_mode u) (max_datagram_size c) (len datagram) with
      | Datagram =>
          match send_datagram c datagram with
          | DgOk => (u, [SentDatagram c datagram])
          | DgTooLarge => send_udp_via_stream (tu_fallback u) c datagram
          | DgOther => (tu_drop u, [])
          end
      | Stream =>
          let u := if bool_decide (tu_mode u = Native) then tu_fallback u else u in
          send_udp_via_stream u c datagram
      end
  end.

(** [open_tcp]: the stream opened, or an error within the time limit. *)
Definition tuic_open_tcp (u : TuicUpstream) (conn : Conn) (target : TargetAddr)
  : res ClientError Conn * Conn * list wire_event :=
  match live_conn u conn with
  | (Ok c, conn, w) =>
      if open_in_time then
        if bi_open c then
          if bi_write c (encode_connect target)
          then (Ok c, conn, w ++ [SentBi c (encode_connect target)])
          else (Err (Io tuic_io), conn, w)
        else (Err (Io tuic_io), conn, w)
      else (Err (Io tuic_timeout), conn, w)
  | (Err e, conn, w) => (Err e, conn, w)
  | (Panic, conn, w) => (Panic, conn, w)
  end.

(** ** The UDP driver task of [start_udp]

    One value of [driver_event] per wake-up of the task or of a reader it spawned; [None] when
    the event cannot happen in the state.  [dr_inflight] counts the spawned readers, each of
    which holds a permit of the semaphore; [dr_receiver] tells whether the event loop still holds
    the receiving end of the downlink channel.  A [send().await] is one action, at the moment it
    resolves: [ActForward] when the packet is in the channel, [ActSendFailed] when the receiver
    is gone and [send] returns its error. *)

Definition MAX_CONCURRENT_DOWNLINK_STREAMS : Z := 256.
Definition MAX_TUIC_PACKET_BYTES : Z := 66 * 1024.
Definition TUIC_HB_IDLE_WINDOW_SECS : Z := 60.
Definition QUIC_INITIAL_MTU : Z := 1280.

Inductive driver_phase := Connecting | Pumping (c : Conn) | Stopped.

Record driver := mk_driver {
  dr_phase : driver_phase;
  dr_attempt : Z;
  dr_prev_pressured : bool;
  dr_permits : Z;
  dr_inflight : Z;
  dr_receiver : bool;
  dr_metrics : Metrics
}.

Definition driver_start (m : Metrics) : driver :=
  mk_driver Connecting 0 false MAX_CONCURRENT_DOWNLINK_STREAMS 0 true m.

Inductive driver_event :=
| EvLive (r : option Conn)
| EvDatagram (r : option (list byte))
| EvAcceptUni (ok : bool)
| EvUniRead (content : option (list byte))
| EvStats (send_buffer_space : Z)
| EvHeartbeat (now : Z)
| EvReceiverDropped.

Inductive driver_action :=
| ActForward (bytes : list byte)
| ActSendFailed (bytes : list byte)
| ActPressureEdge
| ActHeartbeat (bytes : list byte)
| ActSleep (ms : Z).

(** [recv.read_to_end(MAX)]: the whole stream, unless it is too long, reset or empty. *)
Definition read_uni_packet (content : option (list byte)) : option (list byte) :=
  match content with
  | Some buf =>
      if bool_decide (len buf ≤ MAX_TUIC_PACKET_BYTES) && negb (bool_decide (buf = []))
      then Some buf else None
  | None => None
  end.

Definition dr_metrics_map (f : Metrics → Metrics) (d : driver) : driver :=
  mk_driver (dr_phase d) (dr_attempt d) (dr_prev_pressured d) (dr_permits d) (dr_inflight d)
    (dr_receiver d) (f (dr_metrics d)).

(** [downlink_tx.send(pkt).await] *)
Definition channel_send (d : driver) (pkt : list byte) : driver_action :=
  if dr_receiver d then ActForward pkt else ActSendFailed pkt.

(** Leaving the pump: sleep for the back-off, then connect again. *)
Definition driver_break (d : driver) : driver * list driver_action :=
  (mk_driver Connecting (Z.min (dr_attempt d + 1) u32_max) (dr_prev_pressured d) (dr_permits d)
     (dr_inflight d) (dr_receiver d) (dr_metrics d),
   [ActSleep (udp_reconnect_backoff (dr_attempt d))]).

Definition driver_step (u : TuicUpstream) (d : driver) (e : driver_event)
  : option (driver * list driver_action) :=
  match e, dr_phase d with
  | EvLive (Some c), Connecting =>
      Some (mk_driver (Pumping c) 0 false (dr_permits d) (dr_inflight d)
              (dr_receiver d) (dr_metrics d), [])
  | EvLive None, Connecting => Some (driver_break d)
  | EvDatagram (Some bytes), Pumping _ =>
      if dr_receiver d then Some (d, [channel_send d bytes])
      else Some (mk_driver Stopped (dr_attempt d) (dr_prev_pressured d) (dr_permits d)
                   (dr_inflight d) (dr_receiver d) (dr_metrics d), [channel_send d bytes])
  | EvDatagram None, Pumping _ => Some (driver_break d)
  | EvAcceptUni true, Pumping _ =>
      if bool_decide (0 < dr_permits d) then
        Some (mk_driver (dr_phase d) (dr_attempt d) (dr_prev_pressured d) (dr_permits d - 1)
                (dr_inflight d + 1) (dr_receiver d) (dr_metrics d), [])
      else Some (dr_metrics_map inc_udp_drops_down d, [])
  | EvAcceptUni false, Pumping _ => Some (driver_break d)
  | EvUniRead content, _ =>
      if bool_decide (0 < dr_inflight d) then
        let d := mk_driver (dr_phase d) (dr_attempt d) (dr_prev_pressured d) (dr_permits d + 1)
                   (dr_inflight d - 1) (dr_receiver d) (dr_metrics d) in
        match read_uni_packet content with
        | Some pkt => Some (d, [channel_send d pkt])
        | None => Some (dr_metrics_map inc_udp_drops_down d, [])
        end
      else None
  | EvStats space, Pumping c =>
      let pressured := bool_decide (tu_mode u = Native) &&
        is_datagram_pressured space (default QUIC_INITIAL_MTU (max_datagram_size c)) in
      let '(rising, prev) := note_pressure_edge pressured (dr_prev_pressured d) in
      let d := mk_driver (dr_phase d) (dr_attempt d) prev (dr_permits d) (dr_inflight d)
                 (dr_receiver d) (dr_metrics d) in
      if rising then Some (dr_metrics_map inc_datagram_pressure_events d, [ActPressureEdge])
      else Some (d, [])
  | EvHeartbeat now, Pumping c =>
      if should_send_heartbeat (tu_last_udp_activity u) now TUIC_HB_IDLE_WINDOW_SECS then
        if bool_decide (send_datagram c encode_heartbeat = DgOk)
        then Some (d, [ActHeartbeat encode_heartbeat])
        else Some (driver_break d)
      else Some (d, [])
  | EvReceiverDropped, _ =>
      Some (mk_driver (dr_phase d) (dr_attempt d) (dr_prev_pressured d) (dr_permits d)
              (dr_inflight d) false (dr_metrics d), [])
  | _, _ => None
  end.

Fixpoint driver_run (u : TuicUpstream) (d : driver) (es : list driver_event)
  : option (driver * list driver_action) :=
  match es with
  | [] => Some (d, [])
  | e :: es =>
      '(d, acts) ← driver_step u d e;
      '(d, acts') ← driver_run u d es;
      Some (d, acts ++ acts')
  end.

(** What a trace brought in: the datagrams and uni-streams that arrived, and the packets that
    were read from them; and what the driver did with the packets. *)
Definition ev_received (e : driver_event) : Z :=
  match e with EvDatagram (Some _) => 1 | EvAcceptUni true => 1 | _ => 0 end.
Definition ev_packet (e : driver_event) : option (list byte) :=
  match e with EvDatagram r => r | EvUniRead content => read_uni_packet content | _ => None end.
Definition act_sent (a : driver_action) : option (list byte) :=
  match a with ActForward pkt => Some pkt | _ => None end.
Definition act_unsent (a : driver_action) : option (list byte) :=
  match a with ActSendFailed pkt => Some pkt | _ => None end.
Fixpoint zsum (l : list Z) : Z := match l with [] => 0 | x :: l => x + zsum l end.

(** ** Lemmas *)

Lemma zsum_app l k : zsum (l ++ k) = zsum l + zsum k.
Proof. induction l; cbn; lia. Qed.

Record driver_inv (d : driver) : Prop := {
  di_permits : dr_permits d + dr_inflight d = MAX_CONCURRENT_DOWNLINK_STREAMS;
  di_nonneg : 0 ≤ dr_permits d ∧ 0 ≤ dr_inflight d
}.

(** The drop counter after [n] more drops. *)
Definition drops_grow (n : Z) (d d' : driver) : Prop :=
  0 ≤ n ∧ me_udp_drops_down (dr_metrics d') mod 2 ^ 64 =
          (me_udp_drops_down (dr_metrics d) + n) mod 2 ^ 64.

Lemma drops_grow_0 d d' :
  me_udp_drops_down (dr_metrics d') = me_udp_drops_down (dr_metrics d) → drops_grow 0 d d'.
Proof. intros E. split; [lia|]. by rewrite E, Z.add_0_r. Qed.

Lemma drops_grow_1 d d' :
  me_udp_drops_down (dr_metrics d') = fetch_add1 (me_udp_drops_down (dr_metrics d)) →
  drops_grow 1 d d'.
Proof. intros E. split; [lia|]. rewrite E. unfold fetch_add1, wrapping_add_u64. by rewrite Zmod_mod. Qed.

Lemma drops_grow_trans n n' d d' d'' :
  drops_grow n d d' → drops_grow n' d' d'' → drops_grow (n + n') d d''.
Proof.
  intros [? E] [? E']. split; [lia|]. rewrite E', Z.add_assoc.
  by rewrite <- (Zplus_mod_idemp_l (me_udp_drops_down (dr_metrics d'))), E, Zplus_mod_idemp_l.
Qed.

Lemma driver_step_conserves u d e d' acts :
  driver_inv d → driver_step u d e = Some (d', acts) →
  driver_inv d' ∧ ∃ n, drops_grow n d d' ∧
    ev_received e + dr_inflight d =
      len (omap act_sent acts) + len (omap act_unsent acts) + n + dr_inflight d'.
Proof.
  intros [Hp [H1 H2]]. unfold driver_step, driver_break, channel_send.
  destruct e as [r|r|ok|content|space|now|], (dr_phase d) eqn:Hph; intros H; try discriminate H;
    repeat (case_bool_decide || case_match); simplify_eq;
    (split; [constructor; cbn; lia|]);
    first [ exists 0; split; [by apply drops_grow_0|cbn; unfold len; cbn; lia]
          | exists 1; split; [by apply drops_grow_1|cbn; unfold len; cbn; lia] ].
Qed.

(** Every packet read is offered to the channel, which takes it while the receiver is there. *)
Lemma driver_step_packets u d e d' acts :
  driver_step u d e = Some (d', acts) →
  omap act_sent acts = (if dr_receiver d then option_list (ev_packet e) else []) ∧
  omap act_unsent acts = (if dr_receiver d then [] else option_list (ev_packet e)) ∧
  (dr_receiver d' = false ↔ dr_receiver d = false ∨ e = EvReceiverDropped).
Proof.
  unfold driver_step, driver_break, channel_send.
  destruct e as [r|r|ok|content|space|now|], (dr_phase d) eqn:Hph; intros H; try discriminate H;
    repeat (case_bool_decide || case_match); simplify_eq; cbn;
    repeat match goal with H : read_uni_packet _ = _ |- _ => rewrite H end; cbn; naive_solver.
Qed.

Lemma driver_step_heartbeat u d e d' acts hb :
  driver_step u d e = Some (d', acts) → ActHeartbeat hb ∈ acts →
  ∃ now, e = EvHeartbeat now ∧ hb = encode_heartbeat ∧
    tu_last_udp_activity u ≠ 0 ∧ now - tu_last_udp_activity u ≤ TUIC_HB_IDLE_WINDOW_SECS.
Proof.
  unfold driver_step, driver_break, channel_send.
  destruct e as [r|r|ok|content|space|now|], (dr_phase d) eqn:Hph; intros H; try discriminate H;
    repeat (case_bool_decide || case_match); simplify_eq; try set_solver.
  intros Hin. exists now. assert (hb = encode_heartbeat) as -> by set_solver.
  match goal with H : should_send_heartbeat _ _ _ = true |- _ => unfold should_send_heartbeat in H end.
  bdec. split_and!; try done. ulia.
Qed.

Lemma omap_app {A B} (f : A → option B) l k : omap f (l ++ k) = omap f l ++ omap f k.
Proof. induction l as [|a l IH]; cbn; [done|]. destruct (f a); cbn; by rewrite IH. Qed.

Lemma driver_run_conserves u es d d' acts :
  driver_inv d → driver_run u d es = Some (d', acts) →
  driver_inv d' ∧ ∃ n, drops_grow n d d' ∧
    zsum (ev_received <$> es) + dr_inflight d =
      len (omap act_sent acts) + len (omap act_unsent acts) + n + dr_inflight d'.
Proof.
  revert d acts. induction es as [|e es IH]; intros d acts Hinv; cbn [driver_run].
  - intros [= <- <-]. split; [done|]. exists 0. split; [by apply drops_grow_0|done].
  - intros ([d1 a1] & Hs & ([d2 a2] & Hr & [= <- <-])%bind_Some)%bind_Some.
    destruct (driver_step_conserves _ _ _ _ _ Hinv Hs) as (Hinv1 & n & Hn & Hc).
    destruct (IH _ _ Hinv1 Hr) as (Hinv2 & n' & Hn' & Hc2). split; [done|].
    exists (n + n'). split; [by eapply drops_grow_trans|].
    rewrite !omap_app, !len_app. cbn in *. lia.
Qed.

Lemma driver_run_packets u es d d' acts :
  driver_run u d es = Some (d', acts) →
  (dr_receiver d = false →
     omap act_sent acts = [] ∧ omap act_unsent acts = omap ev_packet es) ∧
  (dr_receiver d = true → ∀ before after, es = before ++ after → EvReceiverDropped ∉ before →
     after = [] ∨ head after = Some EvReceiverDropped →
     omap act_sent acts = omap ev_packet before ∧ omap act_unsent acts = omap ev_packet after).
Proof.
  revert d acts. induction es as [|e es IH]; intros d acts; cbn [driver_run].
  - intros [= <- <-]. split; [done|]. by intros _ [] [].
  - intros ([d1 a1] & Hs & ([d2 a2] & Hr & [= <- <-])%bind_Some)%bind_Some.
    destruct (driver_step_packets _ _ _ _ _ Hs) as (Hsent & Hunsent & Hrx).
    destruct (IH _ _ Hr) as [IHgone IHheard]. rewrite !omap_app, Hsent, Hunsent.
    replace (omap ev_packet (e :: es)) with (option_list (ev_packet e) ++ omap ev_packet es)
      by (cbn; by destruct (ev_packet e)).
    split.
    + intros E. rewrite E. destruct IHgone as [-> ->]; [apply Hrx; auto|done].
    + intros E before after Hes Hb Ha. rewrite E. destruct before as [|e' before].
      * cbn in Hes. subst after. destruct Ha as [|[= ->]]; [done|].
        destruct IHgone as [-> ->]; [apply Hrx; auto|done].
      * injection Hes as <- ->. apply not_elem_of_cons in Hb as [Hne Hb].
        assert (dr_receiver d1 = true) as E1.
        { destruct (dr_receiver d1); [done|]. destruct Hrx as [[H|H] _]; congruence. }
        destruct (IHheard E1 before after) as [-> ->]; [done..|].
        cbn. by destruct (ev_packet e).
Qed.

Lemma driver_start_inv m : driver_inv (driver_start m).
Proof. constructor; cbn; unfold MAX_CONCURRENT_DOWNLINK_STREAMS; lia. Qed.

Lemma authenticate_Ok c uuid pw x w :
  authenticate c uuid pw = (Ok x, w) →
  ∃ token, export_keying_material c uuid pw = Some token ∧
    w = [SentUni c (encode_authenticate uuid token)].
Proof.
  unfold authenticate, write_uni. destruct (export_keying_material c uuid pw) as [token|]; [|done].
  repeat case_match; try done. intros [= <- <-]. eauto.
Qed.

Lemma authenticate_not_Panic c uuid pw w : authenticate c uuid pw ≠ (Panic, w).
Proof.
  unfold authenticate, write_uni. by repeat case_match.
Qed.

Lemma send_via_stream_cases u c d :
  (send_udp_via_stream u c d = (u, [SentUni c d])) ∨ (send_udp_via_stream u c d = (tu_drop u, [])).
Proof.
  unfold send_udp_via_stream, write_uni_packet, write_uni.
  destruct (uni_open c), (uni_write c d), (uni_finish c); eauto.
Qed.
End upstream.

(** ** Properties *)

(** A handshake that succeeds has authenticated: the connection it returns carries a TUIC
    [Authenticate] command whose token is the connection's exported keying material, and an
    attempt at 0-RTT that fails for any reason falls back to the 1-RTT handshake. *)
Theorem tuic_handshake_authenticates (Q : QuicLib) uuid pw zero_rtt r w :
  tuic_handshake uuid pw zero_rtt = (r, w) →
  (∀ c, r = Ok c → ∃ token, export_keying_material c uuid pw = Some token ∧
     SentUni c (encode_authenticate uuid token) ∈ w) ∧
  (fst (try_0rtt uuid pw) = None → r = fst (handshake_1rtt uuid pw)) ∧
  r ≠ Panic.
Proof.
  assert (∀ r1 w1, handshake_1rtt uuid pw = (r1, w1) →
    (∀ c, r1 = Ok c → ∃ token, export_keying_material c uuid pw = Some token ∧
       SentUni c (encode_authenticate uuid token) ∈ w1) ∧ r1 ≠ Panic) as H1.
  { intros r1 w1. unfold handshake_1rtt. destruct connect_1rtt as [c|]; [|by intros [= <- <-]].
    destruct (authenticate c uuid pw) as [[[]| |] w0] eqn:E; intros [= <- <-]; try done.
    - apply authenticate_Ok in E as (tok & ? & ->). split; [|done]. intros ? [= <-]. set_solver.
    - by apply authenticate_not_Panic in E. }
  unfold tuic_handshake, try_0rtt. destruct (handshake_1rtt uuid pw) as [r1 w1] eqn:E1.
  destruct (H1 _ _ eq_refl) as [Hok Hnp].
  destruct zero_rtt; [|intros [= <- <-]; by destruct connect_0rtt].
  destruct connect_0rtt as [c|].
  - destruct (authenticate c uuid pw) as [[[]|e|] w0] eqn:E; intros [= <- <-]; cbn.
    + apply authenticate_Ok in E as (tok & ? & ->). split_and!; try done. intros ? [= <-]. set_solver.
    + split_and!; try done. intros c' ->. destruct (Hok _ eq_refl) as (tok & ? & ?). set_solver.
    + by apply authenticate_not_Panic in E.
  - intros [= <- <-]. split_and!; try done.
Qed.

(** A library run in which the 0-RTT exporter fails and the 1-RTT handshake works. *)
Definition demo_quic : QuicLib := {|
  Conn := bool; connect_0rtt := Some true; connect_1rtt := Some false;
  handshake_in_time := true; close_reason := λ c, c;
  export_keying_material := λ c _ _, if c then None else Some [x2a];
  uni_open := λ _, true; uni_write := λ _ _, true; uni_finish := λ _, true;
  bi_open := λ _, true; bi_write := λ _ _, true; open_in_time := true;
  max_datagram_size := λ _, Some 3; udp_rx_datagrams := λ _, 0;
  send_datagram := λ _ _, DgOk |}.

Lemma tuic_handshake_authenticates_witness :
  ∃ token, @export_keying_material demo_quic false [x01] [x02] = Some token ∧
    @SentUni demo_quic false (encode_authenticate [x01] token)
      ∈ snd (@tuic_handshake demo_quic [x01] [x02] true).
Proof.
  apply (tuic_handshake_authenticates demo_quic [x01] [x02] true _ _ eq_refl). reflexivity.
Defined.

(** [send_udp] conserves packets: whatever the connection answers, the datagram is sent
    exactly once and unchanged on one transport, or the drop counter is incremented and nothing
    is sent.  In [Quic] mode it never uses a datagram and counts no fall-back; a closed or locked
    connection is never waited for. *)
Theorem send_udp_conserves (Q : QuicLib) u lock_free (conn : Conn) now d u' w :
  send_udp u lock_free conn now d = (u', w) →
  (((w = [SentDatagram conn d] ∧ tu_mode u = Native) ∨ w = [SentUni conn d]) ∧
     tu_udp_drops u' = tu_udp_drops u ∨
   w = [] ∧ tu_udp_drops u' = fetch_add1 (tu_udp_drops u)) ∧
  (tu_mode u = Quic → tu_udp_stream_fallbacks u' = tu_udp_stream_fallbacks u) ∧
  (w ≠ [] → lock_free = true ∧ close_reason conn = false) ∧
  tu_last_udp_activity u' = now.
Proof.
  unfold send_udp, current_conn, udp_send_plan.
  destruct lock_free; [|intros [= <- <-]; cbn; naive_solver].
  destruct (close_reason conn) eqn:Hc; [intros [= <- <-]; cbn; naive_solver|].
  assert (∀ v u1 w1, send_udp_via_stream v conn d = (u1, w1) →
    (w1 = [SentUni conn d] ∧ u1 = v) ∨ (w1 = [] ∧ u1 = tu_drop v)) as Hs.
  { intros v u1 w1 E. destruct (send_via_stream_cases v conn d) as [H|H]; rewrite H in E; naive_solver. }
  cbn [tu_mode tu_active]. destruct (tu_mode u) eqn:Hm; cbn.
  - destruct (max_datagram_size conn) as [mx|]; [case_bool_decide|].
    + destruct (send_datagram conn d).
      * intros [= <- <-]. cbn. naive_solver.
      * intros E. destruct (Hs _ _ _ E) as [[-> ->]|[-> ->]]; cbn; naive_solver.
      * intros [= <- <-]. cbn. naive_solver.
    + intros E. destruct (Hs _ _ _ E) as [[-> ->]|[-> ->]]; cbn; naive_solver.
    + intros E. destruct (Hs _ _ _ E) as [[-> ->]|[-> ->]]; cbn; naive_solver.
  - intros E. destruct (Hs _ _ _ E) as [[-> ->]|[-> ->]]; cbn; naive_solver.
Qed.

Lemma send_udp_conserves_witness :
  let u := mk_TuicUpstream [] [] false Native 0 0 0 in
  tu_last_udp_activity (fst (@send_udp demo_quic u true false 9 [x01; x02; x03; x04])) = 9.
Proof.
  intros u. apply (send_udp_conserves demo_quic u true false 9 [x01; x02; x03; x04] _ _ eq_refl).
Defined.

(** C31: the UDP driver loses no downlink packet silently while the event loop listens: over any
    run, every packet read (a datagram, or a uni-stream that was neither empty, too long nor
    reset) before the event loop dropped its receiver is in the channel, in the order read; the
    datagrams and uni-streams received are those, the ones the drop counter of the metrics grew
    by (streams refused at the limit, streams that failed to read), the readers still in flight,
    at most 256, and the packets read after the receiver was dropped, whose failed send nothing
    counts. *)
Theorem driver_conserves (Q : QuicLib) u m before after d acts :
  driver_run u (driver_start m) (before ++ after) = Some (d, acts) →
  EvReceiverDropped ∉ before → after = [] ∨ head after = Some EvReceiverDropped →
  omap act_sent acts = omap ev_packet before ∧
  omap act_unsent acts = omap ev_packet after ∧
  (∃ drops, 0 ≤ drops ∧
    me_udp_drops_down (dr_metrics d) mod 2 ^ 64 = (me_udp_drops_down m + drops) mod 2 ^ 64 ∧
    zsum (ev_received <$> before ++ after) =
      len (omap ev_packet before) + len (omap ev_packet after) + drops + dr_inflight d) ∧
  0 ≤ dr_inflight d ≤ 256.
Proof.
  intros H Hb Ha. destruct (driver_run_packets _ _ _ _ _ H) as [_ Hp].
  destruct (Hp eq_refl _ _ eq_refl Hb Ha) as [Hs Hu].
  destruct (driver_run_conserves _ _ _ _ _ (driver_start_inv m) H) as ([Hi Hi'] & n & [? Hn] & Hc).
  split_and!; [done|done| |unfold MAX_CONCURRENT_DOWNLINK_STREAMS in *; lia..].
  exists n. rewrite Hs, Hu in Hc. cbn in Hc. split_and!; [done|exact Hn|lia].
Qed.

(** A run that drops a stream, forwards two packets and loses two after the receiver left. *)
Definition demo_before : list (@driver_event demo_quic) :=
  [EvLive (Some (false : @Conn demo_quic)); EvAcceptUni true; EvDatagram (Some [x01]);
   EvAcceptUni true; EvUniRead (Some [x02]); EvUniRead None; EvAcceptUni true].
Definition demo_after : list (@driver_event demo_quic) :=
  [EvReceiverDropped; EvUniRead (Some [x03]); EvDatagram (Some [x04])].
Definition demo_stopped : @driver demo_quic :=
  mk_driver Stopped 0 false 256 0 false (mk_Metrics 0 0 1 0 0 0 0 0 NO_FAILOVER).

Lemma demo_driver_run :
  @driver_run demo_quic (mk_TuicUpstream [] [] false Native 0 0 0) (driver_start metrics_new)
    (demo_before ++ demo_after) =
  Some (demo_stopped, [ActForward [x01]; ActForward [x02]; ActSendFailed [x03]; ActSendFailed [x04]]).
Proof. vm_compute. reflexivity. Qed.

Lemma driver_conserves_witness :
  (∃ drops, 0 ≤ drops ∧ me_udp_drops_down (dr_metrics demo_stopped) mod 2 ^ 64 = (0 + drops) mod 2 ^ 64 ∧
    zsum (@ev_received demo_quic <$> demo_before ++ demo_after) = 2 + 2 + drops + 0) ∧
  zsum (@ev_received demo_quic <$> demo_before ++ demo_after) = 5.
Proof.
  split; [|reflexivity].
  refine (proj1 (proj2 (proj2 (driver_conserves demo_quic _ metrics_new demo_before demo_after _ _
    demo_driver_run _ _)))); [set_solver|by right].
Defined.

(** A heartbeat is sent only on a heartbeat tick that follows an uplink UDP packet by at
    most sixty seconds, and it is the two-byte command. *)
Theorem heartbeat_only_when_active (Q : QuicLib) u d e d' acts hb :
  driver_step u d e = Some (d', acts) → ActHeartbeat hb ∈ acts →
  ∃ now, e = EvHeartbeat now ∧ hb = [x05; x04] ∧ tu_last_udp_activity u ≠ 0 ∧
    now - tu_last_udp_activity u ≤ 60.
Proof.
  intros Hs Hin. exact (driver_step_heartbeat _ _ _ _ _ _ Hs Hin).
Qed.

Lemma heartbeat_only_when_active_witness :
  let u := mk_TuicUpstream [] [] false Native 0 0 5 in
  let d := @mk_driver demo_quic (Pumping (false : @Conn demo_quic)) 0 false 256 0 true metrics_new in
  @driver_step demo_quic u d (EvHeartbeat 65) = Some (d, [ActHeartbeat [x05; x04]]) ∧
  ∃ now, @EvHeartbeat demo_quic 65 = EvHeartbeat now ∧ [x05; x04] = [x05; x04] ∧ 5 ≠ 0 ∧ now - 5 ≤ 60.
Proof.
  intros u d.
  assert (@driver_step demo_quic u d (EvHeartbeat 65) = Some (d, [ActHeartbeat [x05; x04]])) as E
    by reflexivity.
  split; [exact E|].
  apply (heartbeat_only_when_active demo_quic u d (EvHeartbeat 65) d [ActHeartbeat [x05; x04]] [x05; x04]).
  - exact E.
  - set_solver.
Defined.
