(* ===== verification/Reconnect.v ===== *)
(** * Reconnect: concurrent users of the TUIC connection ([live_conn], [current_conn] of [src/tuic.rs])

    Many tasks share one [Mutex<Connection>]: every [open_tcp], the UDP driver and the health probe call
    [live_conn], which holds the lock while it checks the connection and, when it is closed, while it
    makes a new one.  This file runs the sequential [live_conn] of [TuicUpstream] under an explicit
    lock, with any interleaving of callers, closings and cancelled calls.

    Connections are numbered in the order they are made.  A handshake uses two numbers: one for its
    0-RTT attempt, one for its 1-RTT connection; a connection that is not kept is dropped, which closes
    it. *)

From S2P Require Import Prelude Shared TuicCodec Metrics TuicUpstream.

(** What the library answers during one handshake. *)
Record quic_run := mk_quic_run {
  qr_0rtt : bool;
  qr_1rtt : bool;
  qr_in_time : bool;
  qr_export : nat → option (list byte);
  qr_uni : nat → bool
}.

(** A caller that has the lock: it has not looked at the connection yet, or its handshake runs. *)
Inductive hold_phase : Type := Looking | Reconnecting.

Record shared_conn := mk_shared_conn {
  sc_conn : nat;
  sc_closed : gset nat;
  sc_next : nat;
  sc_holder : option (nat * hold_phase);
  sc_queue : list nat;
  sc_results : list (nat * res ClientError nat)
}.

Definition sc_start : shared_conn := mk_shared_conn 0 ∅ 1 None [] [].

Definition sc_lib (s : shared_conn) (q : quic_run) : QuicLib := {|
  Conn := nat;
  connect_0rtt := if qr_0rtt q then Some (sc_next s) else None;
  connect_1rtt := if qr_1rtt q then Some (S (sc_next s)) else None;
  handshake_in_time := qr_in_time q;
  close_reason := λ c, bool_decide (c ∈ sc_closed s);
  export_keying_material := λ c _ _, qr_export q c;
  uni_open := qr_uni q; uni_write := λ c _, qr_uni q c; uni_finish := qr_uni q;
  bi_open := λ _, true; bi_write := λ _ _, true; open_in_time := true;
  max_datagram_size := λ _, None; udp_rx_datagrams := λ _, 0;
  send_datagram := λ _ _, DgOther |}.

(** The lock goes to the first waiting caller. *)
Definition sc_release (s : shared_conn) : shared_conn :=
  match sc_queue s with
  | [] => mk_shared_conn (sc_conn s) (sc_closed s) (sc_next s) None [] (sc_results s)
  | t :: q => mk_shared_conn (sc_conn s) (sc_closed s) (sc_next s) (Some (t, Looking)) q (sc_results s)
  end.

(** A call ends with [r] and connection [conn] in the mutex; the connections in [dropped] were not kept. *)
Definition sc_return (t : nat) (r : res ClientError nat) (conn : nat) (dropped : gset nat) (next : nat)
    (s : shared_conn) : shared_conn :=
  sc_release (mk_shared_conn conn (dropped ∪ sc_closed s) next (sc_holder s) (sc_queue s) (sc_results s ++ [(t, r)])).

Definition sc_waiting (s : shared_conn) (t : nat) : bool :=
  bool_decide (t ∈ sc_queue s) || match sc_holder s with Some (t', _) => bool_decide (t = t') | None => false end.

Section reconnect.
Variable u : TuicUpstream.

Inductive conn_event : Type :=
| CallLive (t : nat)
| LookAt
| HandshakeEnds (q : quic_run)
| CancelCall (t : nat)
| ConnCloses (c : nat).

(** One step; [None] when the event cannot happen. *)
Definition sc_step (e : conn_event) (s : shared_conn) : option shared_conn :=
  match e with
  | CallLive t =>
      if sc_waiting s t then None
      else Some match sc_holder s with
                | None => mk_shared_conn (sc_conn s) (sc_closed s) (sc_next s) (Some (t, Looking)) (sc_queue s) (sc_results s)
                | Some _ => mk_shared_conn (sc_conn s) (sc_closed s) (sc_next s) (sc_holder s) (sc_queue s ++ [t]) (sc_results s)
                end
  | LookAt =>
      match sc_holder s with
      | Some (t, Looking) =>
          if bool_decide (sc_conn s ∈ sc_closed s)
          then Some (mk_shared_conn (sc_conn s) (sc_closed s) (sc_next s) (Some (t, Reconnecting)) (sc_queue s) (sc_results s))
          else Some (sc_return t (Ok (sc_conn s)) (sc_conn s) ∅ (sc_next s) s)
      | _ => None
      end
  | HandshakeEnds q =>
      match sc_holder s with
      | Some (t, Reconnecting) =>
          let '(r, conn, _) := live_conn (Q:=sc_lib s q) u (sc_conn s) in
          let made : gset nat := {[sc_next s; S (sc_next s)]} in
          Some (sc_return t r conn (made ∖ {[conn]}) (S (S (sc_next s))) s)
      | _ => None
      end
  | CancelCall t =>
      match sc_holder s with
      | Some (t', ph) =>
          if bool_decide (t = t') then
            Some (sc_release match ph with
                             | Looking => s
                             | Reconnecting =>
                                 mk_shared_conn (sc_conn s) ({[sc_next s; S (sc_next s)]} ∪ sc_closed s) (S (S (sc_next s)))
                                   (sc_holder s) (sc_queue s) (sc_results s)
                             end)
          else if bool_decide (t ∈ sc_queue s)
          then Some (mk_shared_conn (sc_conn s) (sc_closed s) (sc_next s) (sc_holder s) (filter (.≠ t) (sc_queue s)) (sc_results s))
          else None
      | None => None
      end
  | ConnCloses c =>
      if bool_decide (c < sc_next s)%nat
      then Some (mk_shared_conn (sc_conn s) ({[c]} ∪ sc_closed s) (sc_next s) (sc_holder s) (sc_queue s) (sc_results s))
      else None
  end.

Fixpoint sc_run (es : list conn_event) (s : shared_conn) : option shared_conn :=
  match es with
  | [] => Some s
  | e :: es => s' ← sc_step e s; sc_run es s'
  end.

(** [current_conn] of a task that does not wait. *)
Definition sc_current (s : shared_conn) : option nat :=
  current_conn (Q:=sc_lib s (mk_quic_run false false false (λ _, None) (λ _, false)))
    (bool_decide (sc_holder s = None)) (sc_conn s).

(** ** Lemmas *)

Record sc_inv (s : shared_conn) : Prop := {
  si_conn : (sc_conn s < sc_next s)%nat;
  si_old : ∀ c, c ∈ sc_closed s → (c < sc_next s)%nat;
  si_single : ∀ c, (c < sc_next s)%nat → c ≠ sc_conn s → c ∈ sc_closed s;
  si_idle : sc_holder s = None → sc_queue s = [];
  si_nodup : NoDup (sc_queue s);
  si_holder : ∀ t ph, sc_holder s = Some (t, ph) → t ∉ sc_queue s;
  si_dead : ∀ t, sc_holder s = Some (t, Reconnecting) → sc_conn s ∈ sc_closed s
}.

Lemma sc_start_inv : sc_inv sc_start.
Proof. split; cbn; try done; try lia; apply NoDup_nil_2. Qed.

Lemma sc_release_inv s : sc_inv s → sc_inv (sc_release s).
Proof.
  intros [H1 H2 H3 H4 H5 H6 H7]. unfold sc_release. destruct (sc_queue s) as [|t q] eqn:E; split; cbn; try done.
  - by apply NoDup_cons in H5 as [_ ?].
  - intros ? ? [= <- <-]. by apply NoDup_cons in H5 as [? _].
Qed.

Lemma sc_return_inv t r conn dropped next s :
  sc_inv s → (sc_next s ≤ next)%nat → (conn < next)%nat →
  (∀ c, c ∈ dropped → (c < next)%nat) →
  (∀ c, (c < next)%nat → c ≠ conn → c ∈ dropped ∪ sc_closed s) →
  (conn = sc_conn s ∨ sc_holder s ≠ None) →
  sc_inv (sc_return t r conn dropped next s).
Proof.
  intros [H1 H2 H3 H4 H5 H6 H7] Hn Hc Hd Hs Ho. unfold sc_return, sc_release. cbn.
  assert (∀ c, c ∈ dropped ∪ sc_closed s → (c < next)%nat) as Hold.
  { intros c [?|?]%elem_of_union; [by apply Hd|]. specialize (H2 c ltac:(done)). lia. }
  destruct (sc_queue s) as [|t' q] eqn:E; split; cbn; try done.
  - by apply NoDup_cons in H5 as [_ ?].
  - intros ? ? [= <- <-]. by apply NoDup_cons in H5 as [? _].
Qed.

(** The handshake keeps a connection it made, or keeps the closed one. *)
Lemma live_conn_reconnect s q r conn w :
  sc_conn s ∈ sc_closed s → live_conn (Q:=sc_lib s q) u (sc_conn s) = (r, conn, w) →
  (∃ e, r = Err e ∧ conn = sc_conn s) ∨ (r = Ok conn ∧ (conn = sc_next s ∨ conn = S (sc_next s))).
Proof.
  intros Hc. unfold live_conn, tuic_handshake, try_0rtt, handshake_1rtt. cbn [sc_lib close_reason].
  rewrite bool_decide_true by done. cbn [handshake_in_time connect_0rtt connect_1rtt sc_lib].
  destruct (qr_in_time q), (tu_zero_rtt u), (qr_0rtt q), (qr_1rtt q); intros H; repeat case_match; simplify_eq; eauto;
    exfalso; by eapply authenticate_not_Panic.
Qed.

Lemma sc_step_inv e s s' : sc_step e s = Some s' → sc_inv s → sc_inv s'.
Proof.
  intros E Hi. pose proof Hi as [H1 H2 H3 H4 H5 H6 H7].
  destruct e as [t| |q|t|c]; cbn in E.
  - destruct (sc_waiting s t) eqn:Ew; simplify_eq. unfold sc_waiting in Ew. apply orb_false_iff in Ew as [Eq%bool_decide_eq_false Eh].
    destruct (sc_holder s) as [[t' ph]|] eqn:Hh; split; cbn; try done.
    + apply NoDup_app. split_and!; [done|set_solver|apply NoDup_singleton].
    + intros t0 ph0 [= <- <-]. apply bool_decide_eq_false in Eh. specialize (H6 _ _ eq_refl). set_solver.
    + by intros ? ? [= <- <-].
  - destruct (sc_holder s) as [[t []]|] eqn:Hh; try done. case_bool_decide as Hc; simplify_eq.
    + split; cbn; try done. intros t0 ph0 [= <- <-]. by eapply H6.
    + apply sc_return_inv; try done; [set_solver|by left].
  - destruct (sc_holder s) as [[t []]|] eqn:Hh; try done.
    destruct (live_conn (Q:=sc_lib s q) u (sc_conn s)) as [[r conn] w] eqn:El. simplify_eq.
    specialize (H7 t eq_refl). pose proof (live_conn_reconnect _ _ _ _ _ H7 El) as Hn.
    apply sc_return_inv; try done; [lia| | | |right; congruence].
    + destruct Hn as [(e & _ & ->)|[_ [->| ->]]]; lia.
    + intros c [[->%elem_of_singleton| ->%elem_of_singleton]%elem_of_union _]%elem_of_difference; lia.
    + intros c Hc Hne. apply elem_of_union. destruct (decide (c < sc_next s)%nat) as [Hlt|Hge].
      * right. destruct (decide (c = sc_conn s)) as [->|]; [done|by apply H3].
      * left. assert (c = sc_next s ∨ c = S (sc_next s)) as [->| ->] by lia; set_solver.
  - destruct (sc_holder s) as [[t' ph]|] eqn:Hh; [|done]. case_bool_decide; simplify_eq.
    + apply sc_release_inv. destruct ph; [done|]. split; cbn; rewrite ?Hh; try done.
      * lia.
      * intros c Hc. assert (c = sc_next s ∨ c = S (sc_next s) ∨ c ∈ sc_closed s) as [->|[->|?%H2]] by set_solver; lia.
      * intros c Hc Hne. destruct (decide (c < sc_next s)%nat) as [Hlt|Hge]; [by apply elem_of_union_r, H3|].
        assert (c = sc_next s ∨ c = S (sc_next s)) as [->| ->] by lia; set_solver.
      * intros t0 _. apply elem_of_union_r. by eapply H7.
    + case_bool_decide; simplify_eq. split; cbn; try done.
      * by apply NoDup_filter.
      * intros t0 ph0 [= <- <-] [_ Hin]%list_elem_of_filter. by eapply H6.
  - case_bool_decide; simplify_eq. split; cbn; try done; [set_solver|set_solver|].
    intros t Ht. apply elem_of_union_r. by eapply H7.
Qed.

Lemma sc_run_inv es s s' : sc_run es s = Some s' → sc_inv s → sc_inv s'.
Proof.
  revert s. induction es as [|e es IH]; cbn; intros s H Hi; [by simplify_eq|].
  apply bind_Some in H as (s1 & E & H). eauto using sc_step_inv.
Qed.

Lemma sc_release_same s : sc_conn (sc_release s) = sc_conn s ∧ sc_results (sc_release s) = sc_results s.
Proof. unfold sc_release. by destruct (sc_queue s). Qed.

Lemma sc_return_result t r conn dropped next s :
  sc_conn (sc_return t r conn dropped next s) = conn ∧
  sc_results (sc_return t r conn dropped next s) = sc_results s ++ [(t, r)].
Proof. unfold sc_return. by destruct (sc_release_same (mk_shared_conn conn (dropped ∪ sc_closed s) next (sc_holder s) (sc_queue s) (sc_results s ++ [(t, r)]))) as [-> ->]. Qed.

(** What one uninterrupted call of the lock's holder returns and leaves in the mutex. *)
Definition returns_atomically (s s' : shared_conn) : Prop :=
  ∃ t ph r q w, sc_holder s = Some (t, ph) ∧ sc_results s' = sc_results s ++ [(t, r)] ∧
    live_conn (Q:=sc_lib s q) u (sc_conn s) = (r, sc_conn s', w).

Lemma sc_step_atomic e s s' :
  sc_inv s → sc_step e s = Some s' →
  (sc_results s' = sc_results s ∧ sc_conn s' = sc_conn s) ∨ returns_atomically s s'.
Proof.
  intros Hi E. destruct e as [t| |q|t|c]; cbn in E.
  - left. destruct (sc_waiting s t); [done|]. by destruct (sc_holder s); simplify_eq.
  - destruct (sc_holder s) as [[t []]|] eqn:Hh; try done. case_bool_decide as Hc; simplify_eq; [by left|right].
    exists t, Looking, (Ok (sc_conn s)), (mk_quic_run false false false (λ _, None) (λ _, false)), [].
    destruct (sc_return_result t (Ok (sc_conn s)) (sc_conn s) ∅ (sc_next s) s) as [-> ->].
    split; [done|]. split; [done|]. unfold live_conn. cbn. by rewrite bool_decide_false.
  - destruct (sc_holder s) as [[t []]|] eqn:Hh; try done. right.
    destruct (live_conn (Q:=sc_lib s q) u (sc_conn s)) as [[r conn] w] eqn:El. simplify_eq.
    exists t, Reconnecting, r, q, w.
    split; [done|]. split; [apply sc_return_result|]. rewrite El. do 2 f_equal. symmetry. apply sc_return_result.
  - left. destruct (sc_holder s) as [[t' ph]|] eqn:Hh; [|done]. repeat case_bool_decide; simplify_eq; [|done].
    destruct ph; [by destruct (sc_release_same s) as [-> ->]|].
    by match goal with |- context [sc_release ?x] => destruct (sc_release_same x) as [-> ->] end.
  - case_bool_decide; simplify_eq. by left.
Qed.

(** ** Waiting callers *)

(** The turns of the lock's holders before caller [t] has returned. *)
Definition phase_work (ph : hold_phase) : nat := match ph with Looking => 2 | Reconnecting => 1 end.

Fixpoint queue_work (t : nat) (q : list nat) : option nat :=
  match q with
  | [] => None
  | t' :: q => if bool_decide (t = t') then Some 2%nat else n ← queue_work t q; Some (2 + n)%nat
  end.

Definition call_work (s : shared_conn) (t : nat) : option nat :=
  match sc_holder s with
  | Some (t', ph) => if bool_decide (t = t') then Some (phase_work ph) else n ← queue_work t (sc_queue s); Some (phase_work ph + n)%nat
  | None => None
  end.

Definition is_turn (e : conn_event) : bool := match e with LookAt | HandshakeEnds _ => true | _ => false end.

Lemma release_work s t k : queue_work t (sc_queue s) = Some k → call_work (sc_release s) t = Some k.
Proof.
  unfold sc_release, call_work. destruct (sc_queue s) as [|t' q]; cbn; [done|]. by case_bool_decide.
Qed.

Lemma queue_work_app t q q' k : queue_work t q = Some k → queue_work t (q ++ q') = Some k.
Proof.
  revert k. induction q as [|t' q IH]; cbn; intros k; [done|]. case_bool_decide; [done|].
  intros (n & Hn & [= <-])%bind_Some. by rewrite (IH _ Hn).
Qed.

Lemma queue_work_filter t t0 q k :
  t ≠ t0 → queue_work t q = Some k → ∃ k', queue_work t (filter (.≠ t0) q) = Some k' ∧ (k' ≤ k)%nat.
Proof.
  intros Hne. revert k. induction q as [|t' q IH]; intros k; [done|]. rewrite filter_cons. cbn [queue_work]. case_bool_decide as Ht.
  - intros [= <-]. subst t'. rewrite decide_True by done. cbn. rewrite bool_decide_true by done. eauto.
  - intros (n & Hn & [= <-])%bind_Some. destruct (IH _ Hn) as (k' & Hk & Hle). case_decide.
    + cbn. rewrite bool_decide_false, Hk by done. cbn. eexists. split; [done|]. lia.
    + exists k'. split; [done|]. lia.
Qed.

(** The turn of a holder that returns. *)
Lemma return_work t t' ph r conn dropped next s n :
  sc_holder s = Some (t', ph) → call_work s t = Some n →
  (∃ m, call_work (sc_return t' r conn dropped next s) t = Some m ∧ (m + 1 ≤ n)%nat) ∨
  sc_results (sc_return t' r conn dropped next s) = sc_results s ++ [(t, r)].
Proof.
  intros Hh. unfold call_work. rewrite Hh. case_bool_decide as Ht.
  - intros [= <-]. subst t'. right. apply sc_return_result.
  - intros (k & Hk & [= <-])%bind_Some. left. exists k. split; [by apply release_work|destruct ph; cbn; lia].
Qed.

Lemma work_step t e s s' n :
  sc_step e s = Some s' → e ≠ CancelCall t → call_work s t = Some n →
  (∃ m, call_work s' t = Some m ∧ (m + (if is_turn e then 1 else 0) ≤ n)%nat) ∨
  (is_turn e = true ∧ ∃ r, sc_results s' = sc_results s ++ [(t, r)]).
Proof.
  intros E Hne Hw. destruct e as [t0| |q|t0|c]; cbn in E |- *.
  - left. destruct (sc_waiting s t0); [done|]. revert Hw. unfold call_work.
    destruct (sc_holder s) as [[t' ph]|]; [|done]. simplify_eq/=. case_bool_decide; [intros [= <-]; eexists; split; [done|lia]|].
    intros (k & Hk & [= <-])%bind_Some. rewrite (queue_work_app _ _ _ _ Hk). cbn. eexists. split; [done|lia].
  - destruct (sc_holder s) as [[t' []]|] eqn:Hh; try done. case_bool_decide; simplify_eq.
    + left. revert Hw. unfold call_work. rewrite Hh. cbn. case_bool_decide; [intros [= <-]; eexists; split; [done|lia]|].
      intros (k & Hk & [= <-])%bind_Some. rewrite Hk. cbn. eexists. split; [done|lia].
    + destruct (return_work t t' Looking (Ok (sc_conn s)) (sc_conn s) ∅ (sc_next s) s n Hh Hw); [by left|right; eauto].
  - destruct (sc_holder s) as [[t' []]|] eqn:Hh; try done.
    destruct (live_conn (Q:=sc_lib s q) u (sc_conn s)) as [[r conn] w] eqn:El. simplify_eq.
    destruct (return_work t t' Reconnecting r conn ({[sc_next s; S (sc_next s)]} ∖ {[conn]}) (S (S (sc_next s))) s n Hh Hw);
      [by left|right; eauto].
  - left. destruct (sc_holder s) as [[t' ph]|] eqn:Hh; [|done]. assert (t ≠ t0) as Ht by congruence. revert Hw.
    unfold call_work at 1. rewrite Hh. case_bool_decide as H0; simplify_eq.
    + rewrite bool_decide_false by done. intros (k & Hk & [= <-])%bind_Some. exists k.
      split; [by apply release_work; destruct ph|lia].
    + case_bool_decide; simplify_eq. unfold call_work. cbn. case_bool_decide; [intros [= <-]; eexists; split; [done|lia]|].
      intros (k & Hk & [= <-])%bind_Some. destruct (queue_work_filter t t0 _ _ Ht Hk) as (k' & -> & Hle).
      cbn. eexists. split; [done|lia].
  - left. case_bool_decide; simplify_eq. exists n. split; [done|lia].
Qed.

Lemma step_results e s s' : sc_step e s = Some s' → sc_inv s → sc_results s `prefix_of` sc_results s'.
Proof.
  intros E Hi. destruct (sc_step_atomic e s s' Hi E) as [[-> _]|(t & ph & r & q & w & _ & -> & _)]; [done|by apply prefix_app_r].
Qed.

Lemma run_results es s s' : sc_run es s = Some s' → sc_inv s → sc_results s `prefix_of` sc_results s'.
Proof.
  revert s. induction es as [|e es IH]; cbn; intros s H Hi; [by simplify_eq|].
  apply bind_Some in H as (s1 & E & H). etrans; [by eapply step_results|]. eauto using sc_step_inv.
Qed.

Definition turns (es : list conn_event) : nat := length (filter (λ e, is_turn e = true) es).

Lemma call_work_pos s t n : call_work s t = Some n → (1 ≤ n)%nat.
Proof.
  unfold call_work. destruct (sc_holder s) as [[t' ph]|]; [|done]. assert (1 ≤ phase_work ph)%nat by (destruct ph; cbn; lia).
  case_bool_decide; [intros [= <-]; done|]. intros (k & _ & [= <-])%bind_Some. lia.
Qed.

Lemma work_run t es s s' n :
  sc_inv s → sc_run es s = Some s' → (∀ e, e ∈ es → e ≠ CancelCall t) → call_work s t = Some n → (n ≤ turns es)%nat →
  ∃ returned r, sc_results s' = sc_results s ++ returned ∧ (t, r) ∈ returned.
Proof.
  revert s n. induction es as [|e es IH]; intros s n Hi H Hc Hw Hn; cbn in H.
  { apply call_work_pos in Hw. cbn in Hn. lia. }
  apply bind_Some in H as (s1 & E & H). pose proof (sc_step_inv e s s1 E Hi) as Hi1.
  destruct (work_step t e s s1 n E ltac:(apply Hc; left) Hw) as [(m & Hm & Hle)|[_ [r Hr]]].
  - destruct (IH s1 m Hi1 H) as (l & r & Hr & Hin); [intros; apply Hc; by right|done| |].
    + unfold turns in *. rewrite filter_cons in Hn. case_decide as Ht; cbn in Hn; [rewrite Ht in Hle; lia|].
      apply not_true_is_false in Ht. rewrite Ht in Hle. lia.
    + destruct (step_results e s s1 E Hi) as [l1 E1]. exists (l1 ++ l), r. rewrite Hr, E1, app_assoc. split; [done|].
      apply elem_of_app. by right.
  - destruct (run_results es s1 s' H Hi1) as [l El]. exists ((t, r) :: l), r. rewrite El, Hr, <-app_assoc. split; [done|left].
Qed.

(** While the connection is open, the holder and everyone behind it return it, one turn each. *)
Lemma serve_queue s t :
  sc_holder s = Some (t, Looking) → sc_conn s ∉ sc_closed s →
  ∃ s', sc_run (replicate (S (length (sc_queue s))) LookAt) s = Some s' ∧ sc_holder s' = None ∧
    sc_conn s' = sc_conn s ∧ sc_next s' = sc_next s ∧
    sc_results s' = sc_results s ++ ((λ t, (t, Ok (sc_conn s))) <$> (t :: sc_queue s)).
Proof.
  remember (sc_queue s) as q eqn:Eq. revert s t Eq. induction q as [|t' q IH]; intros s t Eq Hh Ho; cbn [replicate sc_run].
  - cbn [sc_step]. rewrite Hh, bool_decide_false by done. cbn. unfold sc_return, sc_release. cbn. rewrite <-Eq.
    eexists. split; [done|]. done.
  - cbn [sc_step]. rewrite Hh, bool_decide_false by done. cbn [mbind option_bind].
    unfold sc_return, sc_release. cbn [sc_queue]. rewrite <-Eq.
    match goal with |- context [sc_run _ ?x] => set (s1 := x) end.
    destruct (IH s1 t' eq_refl eq_refl) as (s' & E & ? & ? & ? & Hr); [cbn; set_solver|].
    exists s'. split_and!; try done. rewrite Hr. cbn. by rewrite <-app_assoc.
Qed.

End reconnect.

(** C16: The connection lock makes reconnection single-flight.  However the callers of [live_conn], the
    closings of connections and the cancelled calls interleave, at most one connection is open: every
    connection but the one in the mutex is closed, and while a handshake runs that one is closed too;
    [current_conn], which does not wait, gives that one when it is open and nobody holds the lock.
    And the calls are atomic: each returns, and leaves in the mutex, what one uninterrupted [live_conn]
    on the state at its return would. *)
Theorem reconnect_single_flight u es s :
  sc_run u es sc_start = Some s →
  (∀ c, (c < sc_next s)%nat → c ≠ sc_conn s → c ∈ sc_closed s) ∧
  (∀ t, sc_holder s = Some (t, Reconnecting) → sc_conn s ∈ sc_closed s) ∧
  (∀ c, sc_current s = Some c → c = sc_conn s ∧ c ∉ sc_closed s ∧ sc_holder s = None) ∧
  (∀ e s', sc_step u e s = Some s' →
     (sc_results s' = sc_results s ∧ sc_conn s' = sc_conn s) ∨
     ∃ t ph r q w, sc_holder s = Some (t, ph) ∧ sc_results s' = sc_results s ++ [(t, r)] ∧
       live_conn (Q:=sc_lib s q) u (sc_conn s) = (r, sc_conn s', w)).
Proof.
  intros H. pose proof (sc_run_inv u es _ _ H sc_start_inv) as Hi. split; [apply Hi|]. split; [apply Hi|]. split.
  - intros c. unfold sc_current, current_conn. cbn. repeat case_bool_decide; try done. by intros [= <-].
  - intros e s' E. by apply (sc_step_atomic u e).
Qed.

(** C19: One reconnection serves every caller that waited for it, and nobody starves.  When a handshake
    succeeds, the caller that made it and all those queued behind the lock return the new connection, in
    order, without another handshake as long as it stays open; and whatever happens, a caller that is
    not cancelled returns after a number of turns of the lock's holders that is known when it calls. *)
Theorem reconnect_serves_all u es s :
  sc_run u es sc_start = Some s →
  (∀ t q c w, sc_holder s = Some (t, Reconnecting) → live_conn (Q:=sc_lib s q) u (sc_conn s) = (Ok c, c, w) →
     ∃ s', sc_run u (HandshakeEnds q :: replicate (length (sc_queue s)) LookAt) s = Some s' ∧
       sc_holder s' = None ∧ sc_conn s' = c ∧
       sc_results s' = sc_results s ++ ((λ t, (t, Ok c)) <$> (t :: sc_queue s))) ∧
  (∀ t n es' s', call_work s t = Some n → (n ≤ turns es')%nat → (∀ e, e ∈ es' → e ≠ CancelCall t) →
     sc_run u es' s = Some s' → ∃ returned r, sc_results s' = sc_results s ++ returned ∧ (t, r) ∈ returned).
Proof.
  intros H. pose proof (sc_run_inv u es _ _ H sc_start_inv) as Hi. split.
  - intros t q c w Hh El. cbn [sc_run sc_step]. rewrite Hh, El. cbn [mbind option_bind].
    destruct (live_conn_reconnect _ _ _ _ _ _ (si_dead _ Hi _ Hh) El) as [(e & [=] & _)|[_ Hc]].
    unfold sc_return, sc_release. cbn [sc_queue]. destruct (sc_queue s) as [|t' q'] eqn:Eq.
    { cbn. eexists. done. }
    cbn [length]. match goal with |- context [sc_run _ _ ?x] => set (s1 := x) end.
    destruct (serve_queue u s1 t' eq_refl) as (s' & E & ? & ? & ? & Hr).
    + cbn. intros Hin. assert (c ∈ sc_closed s) as Hold%(si_old _ Hi) by set_solver. lia.
    + exists s'. split_and!; try done. rewrite Hr. cbn. by rewrite <-app_assoc.
  - intros t n es' s' Hw Hn Hc Hr. by eapply work_run.
Qed.

(** The connection dies; an open, the UDP driver and the probe all ask for it. *)
Definition demo_tuic : TuicUpstream := mk_TuicUpstream [x01] [x02] true Native 0 0 0.
Definition good_run : quic_run := mk_quic_run false true true (λ _, Some [x2a]) (λ _, true).
Definition demo_calls : list conn_event := [ConnCloses 0; CallLive 7; CallLive 8; LookAt; CallLive 9].
Definition demo_waiting : shared_conn := default sc_start (sc_run demo_tuic demo_calls sc_start).

Lemma demo_waiting_run : sc_run demo_tuic demo_calls sc_start = Some demo_waiting.
Proof. vm_compute. reflexivity. Qed.

Lemma reconnect_single_flight_witness :
  sc_conn demo_waiting = 0%nat ∧ (0%nat ∈ sc_closed demo_waiting).
Proof.
  split; [reflexivity|].
  apply (proj1 (proj2 (reconnect_single_flight demo_tuic demo_calls demo_waiting demo_waiting_run)) 7%nat). reflexivity.
Defined.

Lemma reconnect_serves_all_witness :
  ∃ s', sc_run demo_tuic [HandshakeEnds good_run; LookAt; LookAt] demo_waiting = Some s' ∧
    sc_results s' = [(7%nat, Ok 2%nat); (8%nat, Ok 2%nat); (9%nat, Ok 2%nat)].
Proof.
  destruct (proj1 (reconnect_serves_all demo_tuic demo_calls demo_waiting demo_waiting_run) 7%nat good_run 2%nat
    (live_conn (Q:=sc_lib demo_waiting good_run) demo_tuic (sc_conn demo_waiting)).2 eq_refl) as (s' & E & _ & _ & Hr).
  { vm_compute. reflexivity. }
  exists s'. split; [exact E|]. rewrite Hr. reflexivity.
Defined.
