(* ===== verification/Vless.v ===== *)
(** * Vless: the VLESS framing of [src/reality/vless.rs]

    The request header a client puts in front of its first payload, and the stripper of the
    response header, which may arrive in pieces of any size. *)

From S2P Require Import Prelude Shared TuicCodec.

Definition VLESS_VERSION : byte := x00.
Definition VLESS_CMD_TCP : byte := x01.
Definition VLESS_ATYP_IPV4 : byte := x01.
Definition VLESS_ATYP_DOMAIN : byte := x02.
Definition VLESS_ATYP_IPV6 : byte := x03.

Definition encode_vless_request (uuid : list byte) (command : byte) (target : TargetAddr)
  : list byte :=
  VLESS_VERSION :: uuid ++ z2b 0 :: command ::
  match target with
  | IpPort (V4 ip port) => be16 port ++ VLESS_ATYP_IPV4 :: octets ip
  | IpPort (V6 ip port) => be16 port ++ VLESS_ATYP_IPV6 :: octets6 ip
  | DomainPort host port =>
      let n := Z.min (len host) u8_max in
      be16 port ++ VLESS_ATYP_DOMAIN :: z2b n :: ztake n host
  end.

(** [VlessResponseStripper]: the flag [stripped]. *)
Definition stripper := bool.
Definition stripper_new : stripper := false.

(** [strip(&mut buf)]: the result, the new flag and what is left in the buffer. *)
Definition strip (s : stripper) (buf : list byte) : res unit (bool * stripper * list byte) :=
  if (s : bool) then Ok (true, s, buf)
  else if bool_decide (len buf < 2) then Ok (false, s, buf)
  else
    let? b1 := idx buf 1 in
    let header_len := 2 + b2z b1 in
    if bool_decide (len buf < header_len) then Ok (false, s, buf)
    else
      let? rest := slice buf header_len (len buf) in
      Ok (true, true, rest).

(** Feeding the stripper one chunk at a time: the unread bytes are kept until the header is
    complete, then everything passes; the bytes released so far. *)
Fixpoint strip_feed (s : stripper) (pending : list byte) (chunks : list (list byte))
  : res unit (list byte) :=
  match chunks with
  | [] => Ok []
  | c :: cs =>
      let? ' (done, s, buf) := strip s (pending ++ c) in
      if (done : bool) then
        let? rest := strip_feed s [] cs in Ok (buf ++ rest)
      else strip_feed s buf cs
  end.

(** ** The server's view of the request *)

Definition decode_vless_request (buf : list byte)
  : option (list byte * byte * TargetAddr * list byte) :=
  match buf with
  | v :: rest =>
      let uuid := ztake 16 rest in
      match zdrop 16 rest with
      | addons :: cmd :: p :: q :: t :: body =>
          if bool_decide (addons = x00 ∧ v = VLESS_VERSION) then
            let port := u16_of p q in
            if bool_decide (t = VLESS_ATYP_IPV4) then
              match body with
              | a :: b :: c :: d :: r => Some (uuid, cmd, IpPort (V4 (of_be [a; b; c; d]) port), r)
              | _ => None
              end
            else if bool_decide (t = VLESS_ATYP_IPV6) then
              if bool_decide (16 ≤ len body)
              then Some (uuid, cmd, IpPort (V6 (of_be (ztake 16 body)) port), zdrop 16 body) else None
            else if bool_decide (t = VLESS_ATYP_DOMAIN) then
              match body with
              | l :: r =>
                  if bool_decide (b2z l ≤ len r)
                  then Some (uuid, cmd, DomainPort (ztake (b2z l) r) port, zdrop (b2z l) r) else None
              | [] => None
              end
            else None
          else None
      | _ => None
      end
  | [] => None
  end.

(** ** Lemmas *)

Lemma ztake_all {A} (l : list A) : ztake (len l) l = l.
Proof. unfold ztake, len. rewrite Nat2Z.id. by rewrite firstn_all. Qed.

Lemma strip_spec s buf :
  strip s buf =
  if (s : bool) then Ok (true, true, buf)
  else match buf with
       | v :: n :: rest =>
           if bool_decide (b2z n ≤ len rest) then Ok (true, true, zdrop (b2z n) rest)
           else Ok (false, false, buf)
       | _ => Ok (false, false, buf)
       end.
Proof.
  unfold strip. destruct s; [done|].
  destruct buf as [|v [|n rest]]; [done..|].
  pose proof (len_nonneg rest). pose proof (b2z_range n).
  rewrite bool_decide_eq_false_2 by llia.
  change (idx (v :: n :: rest) 1) with (Ok (E:=unit) n). cbn [rbind]. case_bool_decide as Hlt.
  - rewrite bool_decide_eq_false_2 by llia. done.
  - rewrite bool_decide_eq_true_2 by llia.
    destruct (slice_no_panic (E:=unit) (v :: n :: rest) (2 + b2z n) (len (v :: n :: rest))) as [t Ht]; [llia..|].
    rewrite Ht. cbn. f_equal. f_equal. unfold slice in Ht.
    destruct (get_range _ _ _) eqn:Hr; [|done]. injection Ht as <-.
    apply get_range_Some in Hr as (_ & _ & ->). unfold zdrop.
    replace (Z.to_nat (2 + b2z n)) with (S (S (Z.to_nat (b2z n)))) by lia. cbn [drop].
    apply take_ge. rewrite length_drop. unfold len. cbn. lia.
Qed.

Lemma strip_feed_done cs : strip_feed true [] cs = Ok (concat cs).
Proof. induction cs as [|c cs IH]; [done|]. cbn. by rewrite IH. Qed.

Lemma vless_decode_encode uuid cmd t rest :
  len uuid = 16 → target_wf t → host_fits t →
  decode_vless_request (encode_vless_request uuid cmd t ++ rest) = Some (uuid, cmd, t, rest).
Proof.
  intros Hu Hwf Hfit. unfold encode_vless_request. cbn. rewrite <-app_assoc. cbn.
  rewrite ztake_app, zdrop_app by lia.
  destruct t as [[ip p|ip p]|h p]; cbn in *.
  - destruct Hwf as [Hip Hp]. pose proof (octets_inj ip Hip) as Ho. unfold octets in *.
    destruct (be32_explode ip) as (a & b & c & d & E). rewrite E in *.
    destruct (u16_of_be16 p Hp) as (x & y & -> & Hu'). cbn. rewrite Ho, Hu'. done.
  - destruct Hwf as [Hip Hp]. destruct (u16_of_be16 p Hp) as (x & y & -> & Hu'). cbn.
    pose proof (len_nonneg rest). pose proof (octets6_len ip). rewrite ztake_app, zdrop_app by done.
    rewrite (bool_decide_eq_true_2 (16 ≤ _)) by llia. by rewrite octets6_inj, Hu'.
  - destruct (u16_of_be16 p Hwf) as (x & y & -> & Hu'). cbn.
    rewrite Z.min_l by (unfold u8_max; lia). rewrite ztake_all.
    pose proof (len_nonneg rest). pose proof (len_nonneg h).
    rewrite b2z_z2b, Z.mod_small by lia.
    rewrite ztake_app, zdrop_app by lia.
    rewrite (bool_decide_eq_true_2 (len h ≤ _)) by llia. by rewrite Hu'.
Qed.

(** ** Properties *)

(** The server parses the VLESS request back to the user id, the command and the target, and
    what follows the header is left untouched. *)
Theorem vless_request_roundtrip uuid cmd t rest :
  len uuid = 16 → target_wf t → host_fits t →
  decode_vless_request (encode_vless_request uuid cmd t ++ rest) = Some (uuid, cmd, t, rest).
Proof. apply vless_decode_encode. Qed.

Lemma vless_request_roundtrip_witness :
  decode_vless_request
    (encode_vless_request (replicate 16 x11) VLESS_CMD_TCP (DomainPort [x61; x62] 443) ++ [x07])
  = Some (replicate 16 x11, VLESS_CMD_TCP, DomainPort [x61; x62] 443, [x07]).
Proof. apply vless_request_roundtrip; [reflexivity | cbn; ulia | cbn; done]. Defined.

(** However the response is cut into chunks, the stripper releases exactly the bytes behind
    the [2 + N] bytes of the response header: no header byte leaks into the stream and no payload
    byte is lost. *)
Theorem vless_strip_any_chunking ver addons payload chunks :
  len addons ≤ 255 →
  concat chunks = ver :: z2b (len addons) :: addons ++ payload →
  strip_feed stripper_new [] chunks = Ok payload.
Proof.
  intros Hadd Hc. unfold stripper_new.
  set (n := len addons) in *. assert (0 ≤ n) by apply len_nonneg.
  assert (∀ pending cs, pending ++ concat cs = ver :: z2b n :: addons ++ payload →
            len pending < 2 + n → strip_feed false pending cs = Ok payload) as Hgen; [|apply Hgen; llia || done].
  intros pending cs. revert pending. induction cs as [|c cs IH]; intros pending Heq Hlen.
  - apply (f_equal len) in Heq. cbn in Heq. pose proof (len_nonneg payload). len_norm. lia.
  - cbn [strip_feed]. rewrite strip_spec. cbn [concat] in Heq. rewrite app_assoc in Heq.
    assert (∀ k, pending ++ c = k → len k < 2 + n → strip_feed false k cs = Ok payload) as Hshort.
    { intros k <- ?. by apply IH. }
    destruct (pending ++ c) as [|v [|m rest]] eqn:Hb.
    + apply Hshort; [done|]. unfold len. cbn. lia.
    + apply Hshort; [done|]. unfold len. cbn. lia.
    + cbn [app] in Heq. injection Heq as -> -> Heq.
      rewrite b2z_z2b, Z.mod_small by lia. case_bool_decide as Hle.
      * cbn [rbind]. rewrite strip_feed_done. cbn [rbind]. f_equal.
        assert (rest = addons ++ zdrop n rest) as Hrest.
        { rewrite <-(ztake_zdrop n rest) at 1. f_equal.
          rewrite <-(ztake_zdrop n rest), <-app_assoc in Heq.
          apply app_inj_1 in Heq as [? _]; [done|].
          pose proof (len_ztake n rest ltac:(lia)) as Hl. unfold n, len in *. lia. }
        rewrite Hrest, <-app_assoc in Heq. by apply app_inv_head in Heq.
      * cbn [rbind]. apply Hshort; [done|]. llia.
Qed.

Lemma vless_strip_any_chunking_witness :
  strip_feed stripper_new [] [[x00]; [x02; x0a]; []; [x0b; x68]; [x69]] = Ok [x68; x69].
Proof.
  apply (vless_strip_any_chunking x00 [x0a; x0b]); [unfold len; cbn; lia | reflexivity].
Defined.
