(* ===== verification/Dns.v ===== *)
(** * Dns: the DNS parser and response builder of [src/dns.rs], the block list of
    [src/dns_block.rs]

    [parse_query] reads a query off an untrusted packet; [build_response] answers it with a fake
    IP or with no data; the block list recognises encrypted-DNS endpoints. *)

From S2P Require Import Prelude Text Shared.
Import (notations) Strings.String.

Definition QTYPE_A : Z := 1.
Definition QTYPE_AAAA : Z := 28.

Record DnsQuery := mk_DnsQuery {
  dq_id : Z;
  dq_qname : list byte;
  dq_qtype : Z;
  dq_rd : bool;
  dq_question : list byte
}.

Inductive Answer := AnswerA (ip ttl : Z) | NoData.

(** The [loop] that reads the labels from [pos]; the labels and the position behind the name.
    The fuel is the packet length, which bounds the number of labels; running out of it is
    reported as [Panic], which [parse_query_total] excludes. *)
Fixpoint read_labels (fuel : nat) (data : list byte) (pos : Z) (labels : list (list byte))
  : res unit (list (list byte) * Z) :=
  match fuel with
  | O => Panic
  | S fuel =>
      let? b := ok_or tt (get data pos) in
      let n := b2z b in
      if bool_decide (n = 0) then Ok (labels, pos + 1)
      else if bool_decide (Z.land n 192 ≠ 0) then Err tt
      else
        let pos := pos + 1 in
        let? label := ok_or tt (get_range data pos (pos + n)) in
        require utf8_valid label else tt in
        read_labels fuel data (pos + n) (labels ++ [label])
  end.

Definition parse_query (data : list byte) : res unit DnsQuery :=
  if bool_decide (len data < 12) then Err tt else
  let? b0 := idx data 0 in
  let? b1 := idx data 1 in
  let id := u16_of b0 b1 in
  let? b2 := idx data 2 in
  let? b3 := idx data 3 in
  let flags := u16_of b2 b3 in
  let rd := bool_decide (Z.land flags 256 ≠ 0) in
  let? b4 := idx data 4 in
  let? b5 := idx data 5 in
  let qdcount := u16_of b4 b5 in
  if bool_decide (qdcount ≠ 1) then Err tt else
  let? ' (labels, pos) := read_labels (S (length data)) data 12 [] in
  let? t0 := ok_or tt (get data pos) in
  let? t1 := ok_or tt (get data (pos + 1)) in
  let qtype := u16_of t0 t1 in
  let? question := ok_or tt (get_range data 12 (pos + 4)) in
  Ok (mk_DnsQuery id (join (str ".") labels) qtype rd question).

Definition build_response (q : DnsQuery) (answer : Answer) : list byte :=
  let rd_bit := if dq_rd q then 256 else 0 in
  let flags := Z.lor 32768 rd_bit in
  let ancount := match answer with AnswerA _ _ => 1 | NoData => 0 end in
  be16 (dq_id q) ++ be16 flags ++ be16 1 ++ be16 ancount ++ be16 0 ++ be16 0 ++ dq_question q ++
  match answer with
  | AnswerA ip ttl => [xc0; x0c] ++ be16 QTYPE_A ++ be16 1 ++ be32 ttl ++ be16 4 ++ octets ip
  | NoData => []
  end.

(** ** Encrypted-DNS endpoints, [src/dns_block.rs] *)

Definition is_encrypted_dns_port (port : Z) : bool := bool_decide (port = 853).
Definition is_dns_relay_port (port : Z) : bool :=
  bool_decide (port = 53) || is_encrypted_dns_port port.

Definition DOH_DOMAINS : list (list byte) :=
  [str "dns.google"; str "dns.google.com"; str "dns64.dns.google"; str "cloudflare-dns.com";
   str "mozilla.cloudflare-dns.com"; str "chrome.cloudflare-dns.com"; str "one.one.one.one";
   str "dns.quad9.net"; str "dns11.quad9.net"; str "dns10.quad9.net"; str "doh.opendns.com";
   str "dns.adguard-dns.com"; str "dns.adguard.com"; str "doh.cleanbrowsing.org";
   str "doh.dns.sb"; str "dns.nextdns.io"].

Definition DOH_IPS : list Z :=
  [ipv4_new 1 1 1 1; ipv4_new 1 0 0 1; ipv4_new 8 8 8 8; ipv4_new 8 8 4 4; ipv4_new 9 9 9 9;
   ipv4_new 149 112 112 112; ipv4_new 208 67 222 222; ipv4_new 208 67 220 220;
   ipv4_new 94 140 14 14; ipv4_new 94 140 15 15].

Definition is_doh_domain (domain : list byte) : bool :=
  let d := to_ascii_lowercase (trim_end_matches x2e domain) in
  existsb (λ doh, bool_decide (d = doh) ||
                  match strip_suffix d doh with Some p => ends_with x2e p | None => false end)
    DOH_DOMAINS.

Definition is_doh_ip (ip : Z) : bool := bool_decide (ip ∈ DOH_IPS).

(** ** The wire format of a query, as a resolver library writes it *)

Definition wire_label (l : list byte) : list byte := z2b (len l) :: l.
Definition wire_name (labels : list (list byte)) : list byte :=
  concat (wire_label <$> labels) ++ [x00].
Definition wire_question (labels : list (list byte)) (qtype qclass : Z) : list byte :=
  wire_name labels ++ be16 qtype ++ be16 qclass.
Definition wire_query (id flags : Z) (counts : list byte) (labels : list (list byte))
    (qtype qclass : Z) (rest : list byte) : list byte :=
  be16 id ++ be16 flags ++ be16 1 ++ counts ++ wire_question labels qtype qclass ++ rest.

Definition label_ok (l : list byte) : Prop := 1 ≤ len l ≤ 63 ∧ utf8_valid l = true.

(** ** Lemmas *)

Lemma land_192_small n : 0 ≤ n < 256 → Z.land n 192 = 0 ↔ n < 64.
Proof.
  intros Hn. assert (Forall (λ n, Z.land n 192 = 0 ↔ n < 64) (seqZ 0 256)) as H.
  { apply Forall_forall. intros x Hx.
    assert (bool_decide (Z.land x 192 = 0) = bool_decide (x < 64)) as Hb.
    { apply elem_of_seqZ in Hx. 
      assert (forallb (λ x, eqb (bool_decide (Z.land x 192 = 0)) (bool_decide (x < 64))) (seqZ 0 256) = true)
        as Hall by (vm_compute; reflexivity).
      rewrite forallb_forall in Hall. apply eqb_prop, Hall, list_elem_of_In, elem_of_seqZ. lia. }
    rewrite <-(bool_decide_eq_true (Z.land x 192 = 0)), Hb. apply bool_decide_eq_true. }
  rewrite Forall_forall in H. apply H, elem_of_seqZ. lia.
Qed.

Lemma wire_name_cons l ls : wire_name (l :: ls) = z2b (len l) :: l ++ wire_name ls.
Proof. unfold wire_name. cbn. by rewrite <-app_assoc. Qed.

(** Reading labels: what a successful read says about the packet, and that it never panics. *)
Lemma read_labels_sound fuel data pos acc :
  0 ≤ pos ≤ len data → len data - pos < Z.of_nat fuel →
  read_labels fuel data pos acc = Err tt ∨
  ∃ ls pre rest, read_labels fuel data pos acc = Ok (acc ++ ls, pos + len (wire_name ls)) ∧
    Forall label_ok ls ∧ data = pre ++ wire_name ls ++ rest ∧ len pre = pos.
Proof.
  revert pos acc. induction fuel as [|fuel IH]; intros pos acc Hpos Hfuel.
  - lia.
  - cbn [read_labels]. destruct (get data pos) as [b|] eqn:Hb; [|by left]. cbn [ok_or rbind].
    pose proof (get_Some_lt _ _ _ Hb). pose proof (b2z_range b) as Hr.
    assert (∃ pre rest, data = pre ++ b :: rest ∧ len pre = pos) as (pre & rest & Hd & Hpre).
    { unfold get in Hb. rewrite bool_decide_eq_true_2 in Hb by lia.
      exists (take (Z.to_nat pos) data), (drop (S (Z.to_nat pos)) data).
      rewrite take_drop_middle by done. split; [done|]. unfold len in *. rewrite length_take. lia. }
    case_bool_decide as H0.
    + right. exists [], pre, rest. rewrite app_nil_r. split_and!; try done.
      rewrite Hd. assert (b = x00) as -> by (apply b2z_inj; rewrite H0; reflexivity). done.
    + case_bool_decide as H192; [by left|].
      assert (b2z b < 64) as Hlt.
      { apply land_192_small; lia. }
      destruct (get_range data (pos + 1) (pos + 1 + b2z b)) as [label|] eqn:Hl; [|by left].
      cbn [ok_or rbind]. destruct (utf8_valid label) eqn:Hutf; [|by left].
      pose proof (get_range_len _ _ _ _ Hl) as Hll.
      pose proof (proj1 (get_range_Some _ _ _ _) Hl) as (_ & Hin & _).
      apply get_range_decompose in Hl as (p2 & q2 & Hd2 & Hp2 & _).
      destruct (app_split_len p2 (label ++ q2) (pre ++ [b]) rest) as [-> <-].
      { by rewrite <-Hd2, Hd, <-app_assoc. }
      { llia. }
      destruct (IH (pos + 1 + b2z b) (acc ++ [label])) as [->|(ls & pre' & rest' & -> & Hok & Hd' & Hp')];
        [lia|lia|by left|right].
      exists (label :: ls), pre, rest'. rewrite <-app_assoc.
      assert (len (wire_name (label :: ls)) = 1 + b2z b + len (wire_name ls)) as Hlen.
      { rewrite wire_name_cons. llia. }
      split_and!.
      * f_equal. f_equal. rewrite Hlen. lia.
      * constructor; [|done]. split; [lia|done].
      * destruct (app_split_len pre' (wire_name ls ++ rest') (pre ++ b :: label) q2) as [-> <-].
        { by rewrite <-Hd', Hd, <-app_assoc. }
        { llia. }
        rewrite Hd, wire_name_cons, Hll. f_equal.
        replace (pos + 1 + b2z b - (pos + 1)) with (b2z b) by lia.
        rewrite z2b_b2z. cbn. by rewrite <-!app_assoc.
      * done.
Qed.

Lemma read_labels_complete ls fuel pre rest acc :
  Forall label_ok ls → (length ls < fuel)%nat →
  read_labels fuel (pre ++ wire_name ls ++ rest) (len pre) acc
  = Ok (acc ++ ls, len pre + len (wire_name ls)).
Proof.
  intros Hok. revert fuel pre acc. induction Hok as [|l ls [Hl Hutf] Hok IH]; intros fuel pre acc Hf;
    (destruct fuel as [|fuel]; [cbn in Hf; lia|]); cbn [read_labels].
  - cbn. rewrite get_app_mid by done. cbn. by rewrite app_nil_r.
  - rewrite wire_name_cons. cbn [app]. rewrite get_app_mid by done. cbn [ok_or rbind].
    rewrite b2z_z2b, Z.mod_small by lia.
    rewrite bool_decide_eq_false_2 by lia.
    rewrite bool_decide_eq_false_2 by (intros H; apply H, land_192_small; lia).
    replace (pre ++ z2b (len l) :: (l ++ wire_name ls) ++ rest)
      with ((pre ++ [z2b (len l)]) ++ l ++ wire_name ls ++ rest) by (by rewrite <-!app_assoc).
    rewrite get_range_app by llia. cbn [ok_or rbind]. rewrite Hutf.
    replace ((pre ++ [z2b (len l)]) ++ l ++ wire_name ls ++ rest)
      with ((pre ++ z2b (len l) :: l) ++ wire_name ls ++ rest) by (by rewrite <-!app_assoc).
    replace (len pre + 1 + len l) with (len (pre ++ z2b (len l) :: l)) by llia.
    rewrite IH by (cbn in Hf; lia). rewrite <-app_assoc. cbn [app]. f_equal. f_equal. llia.
Qed.

Lemma wire_name_labels ls : Z.of_nat (length ls) < len (wire_name ls).
Proof.
  induction ls as [|l ls IH]; [unfold len; cbn; lia|]. rewrite wire_name_cons. cbn [length].
  pose proof (len_nonneg l). llia.
Qed.

Lemma explode12 (l : list byte) : len l = 12 →
  ∃ a b c d e f, ∃ cs, l = [a; b; c; d; e; f] ++ cs ∧ len cs = 6.
Proof.
  intros H. do 6 (destruct l as [|? l]; [unfold len in H; cbn in H; lia|]).
  do 6 eexists. exists l. split; [reflexivity|]. unfold len in *. cbn in H. lia.
Qed.

Lemma be16_u16_of a b : be16 (u16_of a b) = [a; b].
Proof. exact (to_be_of_be [a; b]). Qed.

(** [parse_query] once the twelve header bytes are known to be there. *)
Lemma parse_query_header a b c d e f cs body :
  len cs = 6 →
  let data := ([a; b; c; d; e; f] ++ cs) ++ body in
  parse_query data =
  if bool_decide (u16_of e f ≠ 1) then Err tt else
  let? ' (labels, pos) := read_labels (S (length data)) data 12 [] in
  let? t0 := ok_or tt (get data pos) in
  let? t1 := ok_or tt (get data (pos + 1)) in
  let? question := ok_or tt (get_range data 12 (pos + 4)) in
  Ok (mk_DnsQuery (u16_of a b) (join (str ".") labels) (u16_of t0 t1)
        (bool_decide (Z.land (u16_of c d) 256 ≠ 0)) question).
Proof.
  intros Hcs data. unfold parse_query. pose proof (len_nonneg body).
  rewrite bool_decide_eq_false_2 by (unfold data; llia).
  assert (∀ i x, get [a; b; c; d; e; f] i = Some x → (idx data i : res unit byte) = Ok x) as Hi.
  { intros i x Hx. unfold data. rewrite <-app_assoc. by apply idx_app_l. }
  rewrite (Hi 0 a), (Hi 1 b), (Hi 2 c), (Hi 3 d), (Hi 4 e), (Hi 5 f) by reflexivity. done.
Qed.

Lemma parse_query_wire id flags counts labels qtype qclass rest :
  is_u16 id → is_u16 flags → is_u16 qtype → is_u16 qclass → len counts = 6 →
  Forall label_ok labels →
  parse_query (wire_query id flags counts labels qtype qclass rest)
  = Ok (mk_DnsQuery id (join (str ".") labels) qtype (bool_decide (Z.land flags 256 ≠ 0))
          (wire_question labels qtype qclass)).
Proof.
  intros Hid Hfl Hqt Hqc Hc Hok. unfold wire_query.
  destruct (u16_of_be16 _ Hid) as (a & b & -> & Ha).
  destruct (u16_of_be16 _ Hfl) as (c & d & -> & Hf).
  change (be16 1) with [x00; x01].
  set (hdr := [a; b; c; d; x00; x01] ++ counts).
  assert (len hdr = 12) as Hh by (unfold hdr; llia).
  replace ([a; b] ++ [c; d] ++ [x00; x01] ++ counts ++ wire_question labels qtype qclass ++ rest)
    with (hdr ++ wire_question labels qtype qclass ++ rest) by (unfold hdr; by rewrite <-app_assoc).
  unfold hdr at 1. rewrite parse_query_header by done. fold hdr.
  rewrite bool_decide_eq_false_2 by (intros H; by apply H).
  unfold wire_question at 1 2 3 4 5. rewrite <-!app_assoc.
  rewrite <-Hh at 1. rewrite read_labels_complete; [|done|].
  2:{ pose proof (wire_name_labels labels). rewrite !length_app. unfold len in *. lia. }
  cbn [rbind app].
  destruct (u16_of_be16 _ Hqt) as (x & y & Eqt & Hq). rewrite !Eqt. cbn [app].
  replace (hdr ++ wire_name labels ++ x :: y :: be16 qclass ++ rest)
    with ((hdr ++ wire_name labels) ++ x :: y :: be16 qclass ++ rest) by (by rewrite <-app_assoc).
  rewrite get_app_mid by llia. cbn [ok_or rbind].
  replace ((hdr ++ wire_name labels) ++ x :: y :: be16 qclass ++ rest)
    with (((hdr ++ wire_name labels) ++ [x]) ++ y :: be16 qclass ++ rest) by (by rewrite <-!app_assoc).
  rewrite get_app_mid by llia. cbn [ok_or rbind].
  replace (((hdr ++ wire_name labels) ++ [x]) ++ y :: be16 qclass ++ rest)
    with (hdr ++ wire_question labels qtype qclass ++ rest)
    by (unfold wire_question; rewrite Eqt; by rewrite <-!app_assoc).
  rewrite get_range_app; [|lia|unfold wire_question; rewrite Eqt; llia].
  cbn [ok_or rbind]. by rewrite Ha, Hf, Hq.
Qed.

Lemma parse_query_inv data :
  parse_query data = Err tt ∨
  ∃ id flags counts labels qtype qclass rest,
    data = wire_query id flags counts labels qtype qclass rest ∧
    is_u16 id ∧ is_u16 flags ∧ is_u16 qtype ∧ is_u16 qclass ∧ len counts = 6 ∧
    Forall label_ok labels.
Proof.
  destruct (decide (len data < 12)) as [Hlt|Hge].
  { left. unfold parse_query. by rewrite bool_decide_eq_true_2. }
  destruct (explode12 (ztake 12 data)) as (a & b & c & d & e & f & cs & Hhdr & Hcs).
  { apply len_ztake. lia. }
  pose proof (ztake_zdrop 12 data) as Hd. rewrite Hhdr in Hd. revert Hd.
  generalize (zdrop 12 data). intros body <-. clear Hhdr Hge.
  rewrite parse_query_header by done. set (hdr := [a; b; c; d; e; f] ++ cs).
  assert (len hdr = 12) as Hh by (unfold hdr; llia).
  case_bool_decide as Hqd; [by left|].
  destruct (read_labels_sound (S (length (hdr ++ body))) (hdr ++ body) 12 [])
    as [->|(ls & pre & rest & -> & Hok & Hd & Hpre)]; [unfold hdr; pose proof (len_nonneg body); llia|unfold len; lia|by left|].
  destruct (app_split_len hdr body pre (wire_name ls ++ rest)) as [<- ->]; [done|lia|].
  cbn [rbind app]. destruct (get _ (12 + _)) as [t0|] eqn:H0; [|by left]. cbn [ok_or rbind].
  destruct (get _ (12 + _ + 1)) as [t1|] eqn:H1; [|by left]. cbn [ok_or rbind].
  destruct (get_range _ 12 _) as [qs|] eqn:Hq; [|by left]. right.
  apply get_range_Some in Hq as (_ & Hle & _).
  assert (∃ u0 u1 u2 u3 rest', rest = [u0; u1; u2; u3] ++ rest') as (u0 & u1 & u2 & u3 & rest' & ->).
  { assert (4 ≤ len rest) as Hr by llia.
    do 4 (destruct rest as [|? rest]; [unfold len in Hr; cbn in Hr; lia|]). by do 5 eexists. }
  exists (u16_of a b), (u16_of c d), cs, ls, (u16_of u0 u1), (u16_of u2 u3), rest'.
  split_and!; try apply u16_of_range; try done.
  unfold wire_query, wire_question. rewrite !be16_u16_of.
  assert (be16 1 = [e; f]) as -> by (by rewrite <-Hqd, be16_u16_of).
  unfold hdr. by rewrite <-!app_assoc.
Qed.

(** ** Properties *)

(** [parse_query] accepts exactly the well-formed queries: packets with one question whose
    name is a sequence of labels of 1 to 63 bytes of valid UTF-8, and it reports their id, RD
    flag, dotted name, type and the question section verbatim. *)
Theorem parse_query_exact data q :
  parse_query data = Ok q ↔
  ∃ id flags counts labels qtype qclass rest,
    data = wire_query id flags counts labels qtype qclass rest ∧
    is_u16 id ∧ is_u16 flags ∧ is_u16 qtype ∧ is_u16 qclass ∧ len counts = 6 ∧
    Forall label_ok labels ∧
    q = mk_DnsQuery id (join (str ".") labels) qtype (bool_decide (Z.land flags 256 ≠ 0))
          (wire_question labels qtype qclass).
Proof.
  split.
  - intros H. destruct (parse_query_inv data) as [E|(id & fl & cs & ls & qt & qc & rest & -> & H')];
      [congruence|]. destruct H' as (? & ? & ? & ? & ? & ?).
    rewrite parse_query_wire in H by done. injection H as <-. by do 7 eexists.
  - intros (id & fl & cs & ls & qt & qc & rest & -> & ? & ? & ? & ? & ? & ? & ->).
    by apply parse_query_wire.
Qed.

(** [parse_query] returns on every packet and never panics. *)
Theorem parse_query_total data : parse_query data ≠ Panic.
Proof.
  destruct (parse_query_inv data) as [->|(id & fl & cs & ls & qt & qc & rest & -> & H)]; [done|].
  destruct H as (? & ? & ? & ? & ? & ?). by rewrite parse_query_wire.
Qed.

(** The answer to a query is a response with the query's id and RD flag, no error, the
    question echoed, and for an [A] answer one record that points at the question's name and
    carries the fake IP and the TTL. *)
Theorem build_response_correct id rd qname qtype question ip ttl :
  is_u16 id → is_u32 ip → is_u32 ttl →
  ∃ flags rr,
    build_response (mk_DnsQuery id qname qtype rd question) (AnswerA ip ttl)
      = be16 id ++ be16 flags ++ [x00; x01; x00; x01; x00; x00; x00; x00] ++ question ++ rr ∧
    build_response (mk_DnsQuery id qname qtype rd question) NoData
      = be16 id ++ be16 flags ++ [x00; x01; x00; x00; x00; x00; x00; x00] ++ question ∧
    Z.testbit flags 15 = true ∧ Z.testbit flags 8 = rd ∧ Z.land flags 15 = 0 ∧
    rr = [xc0; x0c; x00; x01; x00; x01] ++ be32 ttl ++ [x00; x04] ++ be32 ip ∧
    of_be (be32 ip) = ip ∧ of_be (be32 ttl) = ttl.
Proof.
  intros Hid Hip Httl. exists (Z.lor 32768 (if rd then 256 else 0)), ([xc0; x0c; x00; x01; x00; x01] ++ be32 ttl ++ [x00; x04] ++ be32 ip).
  split_and!; try (by destruct rd).
  - unfold build_response. cbn. by rewrite app_nil_r.
  - by apply octets_inj.
  - by apply octets_inj.
Qed.

Lemma build_response_correct_witness :
  ∃ flags rr,
    build_response (mk_DnsQuery 4660 [x61] 1 true [x01; x61; x00; x00; x01; x00; x01])
      (AnswerA (ipv4_new 198 18 0 2) 1)
      = be16 4660 ++ be16 flags ++ [x00; x01; x00; x01; x00; x00; x00; x00]
        ++ [x01; x61; x00; x00; x01; x00; x01] ++ rr.
Proof.
  destruct (build_response_correct 4660 true [x61] 1 [x01; x61; x00; x00; x01; x00; x01]
              (ipv4_new 198 18 0 2) 1 ltac:(ulia) ltac:(unfold ipv4_new; ulia) ltac:(ulia))
    as (fl & rr & E & _).
  exists fl, rr. exact E.
Defined.

(** A domain is blocked exactly when, case-insensitively and up to trailing dots, it is a
    DoH endpoint of the list or a subdomain of one: a name that merely ends with the letters of
    an endpoint is not. *)
Theorem is_doh_domain_exact d :
  is_doh_domain d = true ↔
  ∃ base k doh sub, d = base ++ replicate k x2e ∧ last base ≠ Some x2e ∧ doh ∈ DOH_DOMAINS ∧
    to_ascii_lowercase base = sub ++ doh ∧ (sub = [] ∨ last sub = Some x2e).
Proof.
  unfold is_doh_domain. destruct (trim_end_matches_spec x2e d) as (k & Hd & Hl).
  set (base := trim_end_matches x2e d) in *. rewrite existsb_exists. split.
  - intros (doh & Hin & H). exists base, k, doh. apply list_elem_of_In in Hin.
    apply orb_true_iff in H as [H|H].
    + bdec. exists []. split_and!; try done. by left.
    + destruct (strip_suffix _ doh) as [sub|] eqn:E; [|done]. apply strip_suffix_Some in E.
      unfold ends_with in H. bdec. exists sub. split_and!; try done. by right.
  - intros (base' & k' & doh & sub & Hd' & Hl' & Hin & Hlow & Hsub).
    assert (base = base') as <- by (eapply trim_end_unique; [by rewrite <-Hd, <-Hd'|done..]).
    exists doh. split; [by apply list_elem_of_In|]. apply orb_true_iff.
    destruct Hsub as [->|Hsub]; [left; by apply bool_decide_eq_true_2|right].
    rewrite (proj2 (strip_suffix_Some _ _ _) Hlow). by apply bool_decide_eq_true_2.
Qed.

Example doh_subdomain : is_doh_domain (str "X.Cloudflare-DNS.com.") = true.
Proof. vm_compute. reflexivity. Qed.
Example doh_not_suffix : is_doh_domain (str "notdns.google") = false.
Proof. vm_compute. reflexivity. Qed.
