(* ===== verification/Crypto.v ===== *)
(** * Crypto: the cryptographic libraries the REALITY transport calls

    The crates [aes-gcm], [x25519-dalek], [hkdf], [hmac] and [sha2] are not part of the
    repository.  [Crypto] lists the operations the client uses, [CryptoLaws] the documented
    behaviour it relies on: decryption inverts encryption under the same key, nonce and
    associated data, the ciphertext is sixteen bytes longer, digests and expansions have their
    lengths, and the two ends of a Diffie-Hellman exchange agree.  Nothing is assumed about
    secrecy.  [demo_crypto] is a concrete instance (an insecure one) that satisfies the laws. *)

From S2P Require Import Prelude.

Class Crypto := {
  aes128_encrypt : list byte → list byte → list byte → list byte → option (list byte);
  aes128_decrypt : list byte → list byte → list byte → list byte → option (list byte);
  aes256_encrypt : list byte → list byte → list byte → list byte → option (list byte);
  aes256_decrypt : list byte → list byte → list byte → list byte → option (list byte);
  x25519 : list byte → list byte → list byte;
  hkdf_extract : list byte → list byte → list byte;
  hkdf_expand : list byte → list byte → Z → option (list byte);
  sha256 : list byte → list byte;
  hmac_sha256 : list byte → list byte → list byte;
  hmac_sha512 : list byte → list byte → list byte
}.

(** The base point of the curve. *)
Definition x25519_base : list byte := z2b 9 :: replicate 31 x00.

(** The largest plaintext the [aes-gcm] crate accepts. *)
Definition GCM_P_MAX : Z := 2 ^ 36.

Class CryptoLaws (C : Crypto) : Prop := {
  aes128_seal key nonce aad msg :
    len msg ≤ GCM_P_MAX →
    ∃ ct, aes128_encrypt key nonce aad msg = Some ct ∧ len ct = len msg + 16 ∧
      aes128_decrypt key nonce aad ct = Some msg;
  aes256_seal key nonce aad msg :
    len msg ≤ GCM_P_MAX →
    ∃ ct, aes256_encrypt key nonce aad msg = Some ct ∧ len ct = len msg + 16 ∧
      aes256_decrypt key nonce aad ct = Some msg;
  x25519_len a b : len (x25519 a b) = 32;
  x25519_agree a b : x25519 a (x25519 b x25519_base) = x25519 b (x25519 a x25519_base);
  hkdf_extract_len salt ikm : len (hkdf_extract salt ikm) = 32;
  hkdf_expand_len prk info n :
    0 ≤ n ≤ 255 * 32 → ∃ okm, hkdf_expand prk info n = Some okm ∧ len okm = n;
  sha256_len m : len (sha256 m) = 32;
  hmac_sha256_len k m : len (hmac_sha256 k m) = 32;
  hmac_sha512_len k m : len (hmac_sha512 k m) = 64
}.

(** ** A concrete instance *)

(** Appends a tag that repeats the first byte of the key; opening checks it. *)
Definition demo_tag (key : list byte) : list byte := replicate 16 (default x00 (head key)).
Definition demo_encrypt (key nonce aad msg : list byte) : option (list byte) :=
  Some (msg ++ demo_tag key).
Definition demo_decrypt (key nonce aad ct : list byte) : option (list byte) :=
  if bool_decide (16 ≤ len ct) && bool_decide (zdrop (len ct - 16) ct = demo_tag key)
  then Some (ztake (len ct - 16) ct) else None.
Definition demo_digest (n : Z) (m : list byte) : list byte :=
  replicate (Z.to_nat n) (z2b (1 + fold_left Z.add (b2z <$> m) 0)).

#[export] Instance demo_crypto : Crypto := {|
  aes128_encrypt := demo_encrypt;
  aes128_decrypt := demo_decrypt;
  aes256_encrypt := demo_encrypt;
  aes256_decrypt := demo_decrypt;
  x25519 := λ _ _, replicate 32 x2a;
  hkdf_extract := λ salt ikm, demo_digest 32 (salt ++ ikm);
  hkdf_expand := λ prk info n,
    if bool_decide (0 ≤ n ≤ 255 * 32) then Some (demo_digest n (prk ++ info)) else None;
  sha256 := demo_digest 32;
  hmac_sha256 := λ k m, demo_digest 32 (k ++ m);
  hmac_sha512 := λ k m, demo_digest 64 (k ++ m) |}.

Lemma demo_seal key nonce aad msg :
  ∃ ct, demo_encrypt key nonce aad msg = Some ct ∧ len ct = len msg + 16 ∧
    demo_decrypt key nonce aad ct = Some msg.
Proof.
  eexists. split; [done|]. pose proof (len_nonneg msg).
  assert (len (msg ++ demo_tag key) = len msg + 16) as Hl by (by rewrite len_app).
  split; [done|]. unfold demo_decrypt. rewrite Hl.
  replace (len msg + 16 - 16) with (len msg) by lia.
  rewrite zdrop_app, ztake_app, !bool_decide_eq_true_2 by (done || lia). done.
Qed.

Lemma demo_digest_len n m : 0 ≤ n → len (demo_digest n m) = n.
Proof. intros. unfold demo_digest, len. rewrite length_replicate. lia. Qed.

#[export] Instance demo_crypto_laws : CryptoLaws demo_crypto.
Proof.
  split; cbn; intros; try apply demo_seal; try (by apply demo_digest_len); try done.
  rewrite bool_decide_eq_true_2 by done. eexists. split; [done|]. apply demo_digest_len. lia.
Qed.
