(* ===== verification/Record.v ===== *)
(** * Record: the TLS 1.3 record layer of [src/reality/record.rs]

    One [RecordKeys] per direction: a key, an IV and a sequence number that counts the records.
    [seal] and [open] build the per-record nonce, authenticate the five-byte header and encode
    the content type behind the content. *)

From S2P Require Import Prelude Shared Crypto.

Definition MAX_TLS_PLAINTEXT : Z := 16384.
Definition MAX_TLS_RECORD : Z := 16640.

(** [a ^ b] on bytes. *)
Definition xorb_byte (a b : byte) : byte := z2b (Z.lxor (b2z a) (b2z b)).

Definition per_record_nonce (iv : list byte) (seq : Z) : list byte :=
  ztake 4 iv ++ zip_with xorb_byte (zdrop 4 iv) (be64 seq).

Definition record_header (enc_len : Z) : list byte := [x17; x03; x03] ++ be16 enc_len.

Record RecordKeys := mk_RecordKeys {
  rk_key : list byte;
  rk_iv : list byte;
  rk_seq : Z
}.

Definition record_keys_new (key iv : list byte) : RecordKeys := mk_RecordKeys key iv 0.

(** [self.seq.checked_add(1).expect(..)] *)
Definition bump_seq (k : RecordKeys) : res ClientError RecordKeys :=
  let? s := expect (checked_add_u64 (rk_seq k) 1) in
  Ok (mk_RecordKeys (rk_key k) (rk_iv k) s).

(** [while inner.last() == Some(&0) { inner.pop(); }] on the reversed plaintext. *)
Fixpoint drop_zeros (l : list byte) : list byte :=
  match l with
  | b :: r => if bool_decide (b = x00) then drop_zeros r else l
  | [] => []
  end.

Section record.
Context `{C : Crypto}.

Definition seal (k : RecordKeys) (content_type : byte) (content : list byte)
  : res ClientError (list byte * RecordKeys) :=
  let inner := content ++ [content_type] in
  let enc_len := as_u16 (len inner + 16) in
  let header := record_header enc_len in
  let nonce := per_record_nonce (rk_iv k) (rk_seq k) in
  let? ct := expect (aes128_encrypt (rk_key k) nonce header inner) in
  let? k := bump_seq k in
  Ok (header ++ ct, k).

Definition open (k : RecordKeys) (header encrypted_record : list byte)
  : res ClientError (byte * list byte * RecordKeys) :=
  let nonce := per_record_nonce (rk_iv k) (rk_seq k) in
  let? inner := ok_or (Reality record_auth_failed)
                  (aes128_decrypt (rk_key k) nonce header encrypted_record) in
  let? k := bump_seq k in
  match drop_zeros (rev inner) with
  | [] => Err (Reality record_all_zero)
  | content_type :: content => Ok (content_type, rev content, k)
  end.

(** Sealing a sequence of contents, one record each. *)
Fixpoint seal_all (k : RecordKeys) (l : list (byte * list byte))
  : res ClientError (list (list byte) * RecordKeys) :=
  match l with
  | [] => Ok ([], k)
  | (t, c) :: l =>
      let? ' (r, k) := seal k t c in
      let? ' (rs, k) := seal_all k l in
      Ok (r :: rs, k)
  end.

(** Opening a sequence of records: the five header bytes, then the ciphertext. *)
Fixpoint open_all (k : RecordKeys) (l : list (list byte))
  : res ClientError (list (byte * list byte) * RecordKeys) :=
  match l with
  | [] => Ok ([], k)
  | r :: l =>
      let? ' (t, c, k) := open k (ztake 5 r) (zdrop 5 r) in
      let? ' (cs, k) := open_all k l in
      Ok ((t, c) :: cs, k)
  end.

Context `{!CryptoLaws C}.

(** ** Lemmas *)

Lemma drop_zeros_content t content : t ≠ x00 → drop_zeros (rev (content ++ [t])) = t :: rev content.
Proof. intros Ht. rewrite rev_app_distr. cbn. by rewrite bool_decide_eq_false_2. Qed.

Lemma drop_zeros_padding n l : drop_zeros (replicate n x00 ++ l) = drop_zeros l.
Proof. by induction n. Qed.

Lemma seal_Ok k t content :
  len content + 17 < 2 ^ 16 → 0 ≤ rk_seq k < 2 ^ 64 - 1 →
  ∃ ct, seal k t content
        = Ok (record_header (len content + 17) ++ ct,
              mk_RecordKeys (rk_key k) (rk_iv k) (rk_seq k + 1)) ∧
    len ct = len content + 17 ∧
    aes128_decrypt (rk_key k) (per_record_nonce (rk_iv k) (rk_seq k))
      (record_header (len content + 17)) ct = Some (content ++ [t]).
Proof.
  intros Hlen Hseq. pose proof (len_nonneg content).
  assert (len (content ++ [t]) + 16 = len content + 17) as Hl by (rewrite len_app; unfold len; cbn; lia).
  assert (as_u16 (len content + 17) = len content + 17) as Hu by (unfold as_u16; rewrite Z.mod_small; lia).
  destruct (aes128_seal (rk_key k) (per_record_nonce (rk_iv k) (rk_seq k))
             (record_header (len content + 17)) (content ++ [t])) as (ct & E & Hct & D).
  { unfold GCM_P_MAX. lia. }
  exists ct. unfold seal. rewrite Hl, Hu, E. cbn [expect rbind]. unfold bump_seq, checked_add_u64.
  rewrite bool_decide_eq_true_2 by lia. cbn. split_and!; [done|lia|done].
Qed.

Lemma record_header_len n : len (record_header n) = 5.
Proof. unfold record_header. len_norm. lia. Qed.

Lemma seal_open k t content :
  t ≠ x00 → len content + 17 < 2 ^ 16 → 0 ≤ rk_seq k < 2 ^ 64 - 1 →
  ∃ r, seal k t content = Ok (r, mk_RecordKeys (rk_key k) (rk_iv k) (rk_seq k + 1)) ∧
    len r = len content + 22 ∧ ztake 5 r = record_header (len content + 17) ∧
    open k (ztake 5 r) (zdrop 5 r)
      = Ok (t, content, mk_RecordKeys (rk_key k) (rk_iv k) (rk_seq k + 1)).
Proof.
  intros Ht Hlen Hseq. destruct (seal_Ok k t content Hlen Hseq) as (ct & -> & Hct & D).
  eexists. split; [done|]. pose proof (record_header_len (len content + 17)) as Hh.
  rewrite ztake_app, zdrop_app by lia. split_and!; [llia|done|].
  unfold open. rewrite D. cbn [ok_or rbind]. unfold bump_seq, checked_add_u64.
  rewrite bool_decide_eq_true_2 by lia. cbn [expect rbind].
  rewrite drop_zeros_content by done. by rewrite rev_involutive.
Qed.

Lemma seal_all_open_all l k :
  Forall (λ tc, tc.1 ≠ x00 ∧ len tc.2 + 17 < 2 ^ 16) l →
  0 ≤ rk_seq k → rk_seq k + len l < 2 ^ 64 →
  ∃ rs k', seal_all k l = Ok (rs, k') ∧ open_all k rs = Ok (l, k') ∧ rk_seq k' = rk_seq k + len l.
Proof.
  intros Hl. revert k. induction Hl as [|[t c] l [Ht Hc] Hl IH]; intros k Hseq Hmax.
  - eexists _, _. split; [done|]. split; [done|]. unfold len. cbn. lia.
  - cbn in Ht, Hc. rewrite len_cons in Hmax. pose proof (len_nonneg l).
    destruct (seal_open k t c Ht Hc) as (r & Es & _ & _ & Eo); [lia|].
    destruct (IH (mk_RecordKeys (rk_key k) (rk_iv k) (rk_seq k + 1))) as (rs & k' & Es' & Eo' & Hs);
      [cbn; lia..|].
    exists (r :: rs), k'. cbn [seal_all open_all]. rewrite Es, Eo. cbn [rbind]. rewrite Es', Eo'.
    cbn [rbind]. split_and!; [done..|]. cbn in Hs. rewrite len_cons. lia.
Qed.

End record.

Lemma xorb_byte_inj a b c : xorb_byte a b = xorb_byte a c → b = c.
Proof.
  intros H. apply (f_equal b2z) in H. unfold xorb_byte in H. rewrite !b2z_z2b in H.
  assert (∀ x y, 0 ≤ Z.lxor (b2z x) (b2z y) < 256) as Hr.
  { intros x y. pose proof (b2z_range x). pose proof (b2z_range y). split; [apply Z.lxor_nonneg; lia|].
    destruct (decide (Z.lxor (b2z x) (b2z y) = 0)); [lia|].
    apply (Z.log2_lt_pow2 _ 8); [pose proof (Z.lxor_nonneg (b2z x) (b2z y)); lia|].
    eapply Z.le_lt_trans; [apply Z.log2_lxor; lia|].
    assert (∀ z, 0 ≤ z < 256 → Z.log2 z < 8) as Hlog.
    { intros z Hz. destruct (decide (z = 0)) as [->|]; [done|]. apply Z.log2_lt_pow2; lia. }
    pose proof (Hlog (b2z x)). pose proof (Hlog (b2z y)). lia. }
  rewrite !Z.mod_small in H by apply Hr. apply b2z_inj.
  apply (f_equal (Z.lxor (b2z a))) in H. by rewrite <-!Z.lxor_assoc, Z.lxor_nilpotent, !Z.lxor_0_l in H.
Qed.

Lemma zip_xor_inj l k1 k2 :
  length k1 = length l → length k2 = length l →
  zip_with xorb_byte l k1 = zip_with xorb_byte l k2 → k1 = k2.
Proof.
  revert k1 k2. induction l as [|x l IH]; intros [|y1 k1] [|y2 k2] H1 H2; cbn in *; try done.
  intros [= Hx Hr]. f_equal; [by eapply xorb_byte_inj|]. apply IH; [lia|lia|].
  by rewrite Hr.
Qed.

(** ** Properties *)

(** Records sealed in sequence and opened in sequence under the same key come back with the
    same types and contents, in order, and both sides end at the same sequence number, for any
    non-zero content types and contents that fit the length field. *)
Theorem record_stream_roundtrip `{C : Crypto, !CryptoLaws C} key iv l :
  Forall (λ tc, tc.1 ≠ x00 ∧ len tc.2 + 17 < 2 ^ 16) l → len l < 2 ^ 64 →
  ∃ rs k', seal_all (record_keys_new key iv) l = Ok (rs, k') ∧
    open_all (record_keys_new key iv) rs = Ok (l, k') ∧ rk_seq k' = len l.
Proof.
  intros Hl Hmax. destruct (seal_all_open_all l (record_keys_new key iv) Hl) as (rs & k' & ? & ? & Hs);
    [cbn; lia..|]. exists rs, k'. split_and!; [done..|]. cbn in Hs. lia.
Qed.

Lemma record_stream_roundtrip_witness :
  ∃ rs k', seal_all (record_keys_new [x01] (replicate 12 x02)) [(x17, [x68; x69]); (x16, [])]
    = Ok (rs, k') ∧
    open_all (record_keys_new [x01] (replicate 12 x02)) rs = Ok ([(x17, [x68; x69]); (x16, [])], k') ∧
    rk_seq k' = 2.
Proof.
  apply (record_stream_roundtrip (C:=demo_crypto) [x01] (replicate 12 x02) [(x17, [x68; x69]); (x16, [])]).
  - repeat constructor; cbn; try discriminate; unfold len; cbn; lia.
  - unfold len. cbn. lia.
Defined.

(** No nonce is ever used twice under one key: distinct sequence numbers give distinct
    nonces, the first nonce is the IV itself, and the counter stops with a panic rather than wrap
    around. *)
Theorem record_nonce_unique `{C : Crypto} iv s1 s2 k t content :
  len iv = 12 → is_u64 s1 → is_u64 s2 →
  (per_record_nonce iv s1 = per_record_nonce iv s2 → s1 = s2) ∧
  per_record_nonce iv 0 = iv ∧
  (rk_seq k = u64_max → ∀ r k', seal k t content ≠ Ok (r, k')).
Proof.
  intros Hiv H1 H2. split_and!.
  - unfold per_record_nonce. intros H. apply app_inv_head, zip_xor_inj in H.
    + apply (f_equal of_be) in H. unfold be64 in H. rewrite !of_be_to_be, !Z.mod_small in H by ulia. done.
    + unfold be64. rewrite length_to_be. unfold zdrop. rewrite length_drop. unfold len in Hiv. lia.
    + unfold be64. rewrite length_to_be. unfold zdrop. rewrite length_drop. unfold len in Hiv. lia.
  - do 12 (destruct iv as [|? iv]; [unfold len in Hiv; cbn in Hiv; lia|]).
    destruct iv; [|unfold len in Hiv; cbn in Hiv; lia].
    assert (∀ b, xorb_byte b x00 = b) as Hx.
    { intros b'. unfold xorb_byte. change (b2z x00) with 0. rewrite Z.lxor_0_r. apply z2b_b2z. }
    unfold per_record_nonce, zdrop, ztake. change (be64 0) with (replicate 8 x00).
    change (Z.to_nat 4) with 4%nat. cbn -[xorb_byte]. by rewrite !Hx.
  - intros Hseq r k'. unfold seal. destruct (aes128_encrypt _ _ _ _); [|done]. cbn [expect rbind].
    unfold bump_seq, checked_add_u64. rewrite Hseq, bool_decide_eq_false_2 by ulia. done.
Qed.

Lemma record_nonce_unique_witness :
  per_record_nonce (replicate 12 x05) 0 = replicate 12 x05.
Proof.
  apply (record_nonce_unique (C:=demo_crypto) (replicate 12 x05) 1 2
           (record_keys_new [] []) x17 []); [reflexivity | ulia | ulia].
Defined.
