(* ===== verification/Auth.v ===== *)
(** * Auth: the REALITY authentication primitives of [src/reality/auth.rs]

    Fixed-size arrays are byte lists; [try_into().expect(..)] is a [Panic] when the length is
    wrong. *)

From S2P Require Import Prelude Text Shared Crypto.
Import (notations) Strings.String.

Definition REALITY_VERSION : list byte := [x01; x08; x00; x00].

(** [v.try_into().expect(..)] into an array of [n] bytes. *)
Definition to_array {E} (n : Z) (v : list byte) : res E (list byte) :=
  if bool_decide (len v = n) then Ok v else Panic.

Record SessionIdPlaintext := mk_SessionIdPlaintext {
  sp_version : list byte;
  sp_timestamp : Z;
  sp_short_id : list byte
}.

Definition session_id_to_bytes (p : SessionIdPlaintext) : list byte :=
  sp_version p ++ be32 (sp_timestamp p) ++ sp_short_id p.

(** [chunks(2)] of a list of even length. *)
Fixpoint pairs (l : list byte) : list (list byte) :=
  match l with
  | a :: b :: r => [a; b] :: pairs r
  | [a] => [[a]]
  | [] => []
  end.

(** The [for] loop of [parse_short_id] over the pairs. *)
Fixpoint short_id_bytes (ps : list (list byte)) : res ClientError (list byte) :=
  match ps with
  | [] => Ok []
  | p :: ps =>
      require utf8_valid p else Reality short_id_bad_byte in
      let? v := ok_or (Reality short_id_not_hex) (u8_from_hex p) in
      let? vs := short_id_bytes ps in
      Ok (z2b v :: vs)
  end.

Definition parse_short_id (hex : list byte) : res ClientError (list byte) :=
  if bool_decide (len hex mod 2 ≠ 0) then Err (Reality short_id_odd)
  else if bool_decide (len hex > 16) then Err (Reality short_id_too_long)
  else
    let? bs := short_id_bytes (pairs hex) in
    Ok (bs ++ replicate (Z.to_nat (8 - len bs)) x00).

Section auth.
Context `{C : Crypto}.

Definition x25519_shared_secret (my_secret peer_public : list byte) : list byte :=
  x25519 my_secret peer_public.

(** The key pair of the random scalar [secret]. *)
Definition generate_ephemeral_keypair (secret : list byte) : list byte * list byte :=
  (secret, x25519 secret x25519_base).

Definition derive_auth_key (shared_secret client_random : list byte) : res ClientError (list byte) :=
  let? salt := slice client_random 0 20 in
  expect (hkdf_expand (hkdf_extract salt shared_secret) (str "REALITY") 32).

Definition seal_session_id (auth_key plaintext nonce aad : list byte)
  : res ClientError (list byte) :=
  let? out := expect (aes256_encrypt auth_key nonce aad plaintext) in
  to_array 32 out.

Definition open_session_id (auth_key sealed nonce aad : list byte) : option (list byte) :=
  pt ← aes256_decrypt auth_key nonce aad sealed;
  if bool_decide (len pt = 16) then Some pt else None.

(** [verify_slice]: equality of the tags. *)
Definition verify_server_cert (auth_key ed25519_pubkey signature : list byte) : bool :=
  bool_decide (hmac_sha512 auth_key ed25519_pubkey = signature).

Context `{!CryptoLaws C}.

(** ** Lemmas *)

Lemma derive_auth_key_Ok ss random :
  len random = 32 → ∃ k, derive_auth_key ss random = Ok k ∧ len k = 32.
Proof.
  intros Hr. unfold derive_auth_key.
  destruct (slice_no_panic (E:=ClientError) random 0 20) as [salt ->]; [lia..|]. cbn [rbind].
  destruct (hkdf_expand_len (hkdf_extract salt ss) (str "REALITY") 32) as (okm & -> & Hl); [lia|].
  by exists okm.
Qed.

Lemma seal_open_session_id key pt nonce aad :
  len pt = 16 →
  ∃ sealed, seal_session_id key pt nonce aad = Ok sealed ∧ len sealed = 32 ∧
    open_session_id key sealed nonce aad = Some pt.
Proof.
  intros Hp. destruct (aes256_seal key nonce aad pt) as (ct & E & Hl & D).
  { unfold GCM_P_MAX. lia. }
  exists ct. unfold seal_session_id, open_session_id. rewrite E, D. cbn.
  unfold to_array. rewrite !bool_decide_eq_true_2 by lia. split_and!; [done|lia|done].
Qed.
End auth.

Lemma pairs_len l : len (pairs l) * 2 = len l + len l mod 2.
Proof.
  assert (∀ n l, (length l ≤ n)%nat → len (pairs l) * 2 = len l + len l mod 2) as H; [|by apply (H (length l))].
  clear l. induction n as [|n IH]; intros [|a [|b l]] Hl; cbn [length] in Hl; try (cbn; done || lia).
  cbn [pairs]. rewrite !len_cons. specialize (IH l ltac:(lia)).
  replace (len l + 1 + 1) with (len l + 1 * 2) by lia. rewrite Z.mod_add by lia. lia.
Qed.

Lemma short_id_bytes_len ps bs : short_id_bytes ps = Ok bs → len bs = len ps.
Proof.
  revert bs. induction ps as [|p ps IH]; intros bs; cbn.
  - by intros [= <-].
  - intros H. inv_res. rewrite !len_cons. by erewrite IH.
Qed.

Lemma parse_short_id_len hex sid : parse_short_id hex = Ok sid → len sid = 8.
Proof.
  unfold parse_short_id. case_bool_decide as H2; [done|]. case_bool_decide as H16; [done|].
  intros H. inv_res. apply short_id_bytes_len in Heqr. pose proof (pairs_len hex).
  rewrite len_app. unfold len at 2. rewrite length_replicate. pose proof (len_nonneg a). lia.
Qed.
