(* ===== verification/ClientHello.v ===== *)
(** * ClientHello: the hand-written ClientHello of [src/reality/client_hello.rs]

    [build_client_hello] writes the handshake message byte by byte; [build_authed_client_hello]
    seals the REALITY session id over the message with a zeroed session id and writes it back at
    offset 39. *)

From S2P Require Import Prelude Text Shared Crypto Auth.
Import (notations) Strings.String.

Definition GREASE : Z := 2570.          (* 0x0a0a *)
Definition GREASE_EXT2 : Z := 6682.     (* 0x1a1a *)
Definition SESSION_ID_OFFSET : Z := 39.
Definition SESSION_ID_LEN : Z := 32.

(** [&client_hello[39..71]] *)
Definition authed_session_id (client_hello : list byte) : res ClientError (list byte) :=
  slice client_hello SESSION_ID_OFFSET (SESSION_ID_OFFSET + SESSION_ID_LEN).

(** GREASE, 0x1301, then the TLS 1.2 suites kept for the fingerprint. *)
Definition CIPHERS : list Z :=
  [GREASE; 4865; 49195; 49199; 49196; 49200; 52393; 52392; 49171; 49172; 156; 157; 47; 53].

Record ClientHelloParams := mk_ClientHelloParams {
  ch_server_name : list byte;
  ch_key_share : list byte;
  ch_random : list byte;
  ch_session_id : list byte
}.

Definition ext (typ : Z) (body : list byte) : list byte :=
  be16 typ ++ be16 (as_u16 (len body)) ++ body.

Definition u16_vec (body : list byte) : list byte := be16 (as_u16 (len body)) ++ body.

Definition u16s (values : list Z) : list byte := concat (be16 <$> values).

Definition build_extensions (p : ClientHelloParams) : list byte :=
  ext GREASE [] ++
  ext 0 (u16_vec (z2b 0 :: u16_vec (ch_server_name p))) ++
  ext 23 [] ++
  ext 65281 [z2b 0] ++
  ext 10 (u16_vec (u16s [GREASE; 29; 23; 24])) ++
  ext 11 [z2b 1; z2b 0] ++
  ext 16 (u16_vec (concat ((λ proto : list byte, z2b (len proto) :: proto) <$> [str "h2"; str "http/1.1"]))) ++
  ext 13 (u16_vec (u16s [1027; 2052; 1025; 1283; 2053; 1281; 2054; 1537])) ++
  ext 51 (u16_vec (be16 29 ++ u16_vec (ch_key_share p))) ++
  ext 45 [z2b 1; z2b 1] ++
  (let vers := u16s [GREASE; 772] in ext 43 (z2b (len vers) :: vers)) ++
  ext GREASE_EXT2 [].

Definition client_hello_body (p : ClientHelloParams) : list byte :=
  [x03; x03] ++ ch_random p ++ z2b 32 :: ch_session_id p ++ u16_vec (u16s CIPHERS) ++
  [z2b 1; z2b 0] ++ u16_vec (build_extensions p).

(** [(len >> 16) as u8, (len >> 8) as u8, len as u8] *)
Definition be24 (n : Z) : list byte := [z2b (Z.shiftr n 16); z2b (Z.shiftr n 8); z2b n].

Definition build_client_hello (p : ClientHelloParams) : list byte :=
  let body := client_hello_body p in
  x01 :: be24 (len body) ++ body.

Record AuthedClientHelloParams := mk_AuthedClientHelloParams {
  ac_server_name : list byte;
  ac_key_share : list byte;
  ac_random : list byte;
  ac_auth_key : list byte;
  ac_short_id : list byte;
  ac_timestamp : Z
}.

(** [dst[a..b].copy_from_slice(src)]: aborts out of range or on a length mismatch. *)
Definition copy_at {E} (dst : list byte) (a b : Z) (src : list byte) : res E (list byte) :=
  if bool_decide (0 ≤ a ≤ b ∧ b ≤ len dst ∧ len src = b - a)
  then Ok (ztake a dst ++ src ++ zdrop b dst) else Panic.

Section client_hello.
Context `{C : Crypto}.

Definition build_authed_client_hello (p : AuthedClientHelloParams) : res ClientError (list byte) :=
  let msg := build_client_hello
    (mk_ClientHelloParams (ac_server_name p) (ac_key_share p) (ac_random p) (replicate 32 x00)) in
  let pt := session_id_to_bytes
    (mk_SessionIdPlaintext REALITY_VERSION (ac_timestamp p) (ac_short_id p)) in
  let? nonce_slice := slice (ac_random p) 20 32 in
  let? nonce := to_array 12 nonce_slice in
  let? sealed := seal_session_id (ac_auth_key p) pt nonce msg in
  copy_at msg SESSION_ID_OFFSET (SESSION_ID_OFFSET + SESSION_ID_LEN) sealed.

(** ** The peer's view

    A TLS parser's extension list, and what a REALITY server does with a ClientHello: take the
    X25519 key share, derive the auth key with its static secret, and open the session id with
    the message whose session id is zeroed as associated data. *)

Fixpoint parse_exts (fuel : nat) (l : list byte) : option (list (Z * list byte)) :=
  match fuel with
  | O => None
  | S fuel =>
      match l with
      | [] => Some []
      | a :: b :: c :: d :: r =>
          body ← get_range r 0 (u16_of c d);
          rest ← parse_exts fuel (zdrop (u16_of c d) r);
          Some ((u16_of a b, body) :: rest)
      | _ => None
      end
  end.

Definition lookup_ext (t : Z) (l : list (Z * list byte)) : option (list byte) :=
  snd <$> head (filter (λ tb, tb.1 = t) l).

Definition hello_extensions (msg : list byte) : option (list (Z * list byte)) :=
  slen ← get msg 38;
  let p := 39 + b2z slen in
  c0 ← get msg p; c1 ← get msg (p + 1);
  let p := p + 2 + u16_of c0 c1 in
  clen ← get msg p;
  let p := p + 1 + b2z clen in
  e0 ← get msg p; e1 ← get msg (p + 1);
  exts ← get_from msg (p + 2);
  if bool_decide (len exts = u16_of e0 e1) then parse_exts (S (length exts)) exts else None.

(** The X25519 entry of a key-share extension that offers only X25519. *)
Definition x25519_share (body : list byte) : option (list byte) :=
  get_range body 6 38.

Definition zero_session_id (msg : list byte) : list byte :=
  ztake 39 msg ++ replicate 32 x00 ++ zdrop 71 msg.

Definition reality_server_open (static_secret msg : list byte) : option (list byte) :=
  exts ← hello_extensions msg;
  ks_body ← lookup_ext 51 exts;
  ks ← x25519_share ks_body;
  random ← get_range msg 6 38;
  sid ← get_range msg 39 71;
  salt ← get_range random 0 20;
  nonce ← get_range random 20 32;
  key ← hkdf_expand (hkdf_extract salt (x25519 static_secret ks)) (str "REALITY") 32;
  open_session_id key sid nonce (zero_session_id msg).

End client_hello.

(** ** Lemmas *)

Lemma u16_vec_len b : len (u16_vec b) = len b + 2.
Proof. unfold u16_vec. llia. Qed.

Lemma be16_as_u16 (b : list byte) : len b < 2 ^ 16 → be16 (as_u16 (len b)) = be16 (len b).
Proof. intros. unfold as_u16. rewrite Z.mod_small; [done|]. pose proof (len_nonneg b). lia. Qed.

Lemma parse_ext_cons fuel typ body rest l :
  is_u16 typ → len body < 2 ^ 16 → parse_exts fuel rest = Some l →
  parse_exts (S fuel) (ext typ body ++ rest) = Some ((typ, body) :: l).
Proof.
  intros Ht Hb Hr. unfold ext. rewrite be16_as_u16 by done.
  destruct (u16_of_be16 typ Ht) as (a & b & -> & Hab).
  destruct (u16_of_be16 (len body)) as (c & d & -> & Hcd); [pose proof (len_nonneg body); ulia|].
  cbn [app parse_exts]. rewrite Hcd, Hab.
  rewrite (get_range_app [] body rest) by (cbn; lia || done). cbn [mbind option_bind].
  rewrite zdrop_app by done. rewrite Hr. done.
Qed.

(** The extensions of the ClientHello, with their bodies. *)
Definition hello_ext_list (p : ClientHelloParams) : list (Z * list byte) :=
  [(GREASE, []); (0, u16_vec (z2b 0 :: u16_vec (ch_server_name p))); (23, []); (65281, [z2b 0]);
   (10, u16_vec (u16s [GREASE; 29; 23; 24])); (11, [z2b 1; z2b 0]);
   (16, u16_vec (concat ((λ proto : list byte, z2b (len proto) :: proto) <$> [str "h2"; str "http/1.1"])));
   (13, u16_vec (u16s [1027; 2052; 1025; 1283; 2053; 1281; 2054; 1537]));
   (51, u16_vec (be16 29 ++ u16_vec (ch_key_share p))); (45, [z2b 1; z2b 1]);
   (43, z2b (len (u16s [GREASE; 772])) :: u16s [GREASE; 772]); (GREASE_EXT2, [])].

Record hello_wf (p : ClientHelloParams) : Prop := {
  hw_name : len (ch_server_name p) ≤ 60000;
  hw_share : len (ch_key_share p) = 32;
  hw_random : len (ch_random p) = 32;
  hw_sid : len (ch_session_id p) = 32
}.

Lemma parse_build_extensions p :
  hello_wf p → parse_exts 13 (build_extensions p) = Some (hello_ext_list p).
Proof.
  intros [Hn Hk _ _]. unfold build_extensions, hello_ext_list.
  pose proof (len_nonneg (ch_server_name p)).
  assert (len (u16_vec (z2b 0 :: u16_vec (ch_server_name p))) < 2 ^ 16) as H1.
  { rewrite u16_vec_len, len_cons, u16_vec_len. lia. }
  assert (len (u16_vec (be16 29 ++ u16_vec (ch_key_share p))) < 2 ^ 16) as H2.
  { rewrite u16_vec_len, len_app, u16_vec_len. unfold be16. rewrite len_to_be. lia. }
  do 11 (apply parse_ext_cons; [unfold GREASE; ulia|first [done|vm_compute; reflexivity]|]).
  rewrite <-(app_nil_r (ext GREASE_EXT2 [])).
  apply parse_ext_cons; [unfold GREASE_EXT2; ulia|done|done].
Qed.

Lemma parse_exts_mono fuel fuel' l r :
  (fuel ≤ fuel')%nat → parse_exts fuel l = Some r → parse_exts fuel' l = Some r.
Proof.
  revert fuel' l r. induction fuel as [|fuel IH]; intros fuel' l r Hle; [done|].
  destruct fuel' as [|fuel']; [lia|]. cbn.
  destruct l as [|a [|b [|c [|d l]]]]; try done.
  destruct (get_range l 0 _); [|done]. cbn. intros H.
  destruct (parse_exts fuel _) eqn:E; [|done]. erewrite IH by (done || lia). done.
Qed.

(** The message around its session id. *)
Definition hello_front (p : ClientHelloParams) : list byte :=
  x01 :: be24 (len (client_hello_body p)) ++ [x03; x03] ++ ch_random p ++ [z2b 32].
Definition hello_back (p : ClientHelloParams) : list byte :=
  u16_vec (u16s CIPHERS) ++ [z2b 1; z2b 0] ++ u16_vec (build_extensions p).

Lemma hello_split p : build_client_hello p = hello_front p ++ ch_session_id p ++ hello_back p.
Proof.
  unfold build_client_hello, hello_front, hello_back. unfold client_hello_body at 2.
  cbn. rewrite <-!app_assoc. done.
Qed.

Lemma hello_front_len p : len (ch_random p) = 32 → len (hello_front p) = 39.
Proof. intros H. unfold hello_front, be24. cbn. len_norm. lia. Qed.

Definition with_sid (p : ClientHelloParams) (sid : list byte) : ClientHelloParams :=
  mk_ClientHelloParams (ch_server_name p) (ch_key_share p) (ch_random p) sid.

Lemma with_sid_parts p sid :
  len sid = len (ch_session_id p) →
  hello_front (with_sid p sid) = hello_front p ∧ hello_back (with_sid p sid) = hello_back p.
Proof.
  intros Hl. split; [|done]. unfold hello_front.
  assert (len (client_hello_body (with_sid p sid)) = len (client_hello_body p)) as ->; [|done].
  unfold client_hello_body. change (build_extensions (with_sid p sid)) with (build_extensions p). cbn. len_norm. lia.
Qed.

Lemma copy_session_id {E} p sid :
  len (ch_random p) = 32 → len (ch_session_id p) = 32 → len sid = 32 →
  (copy_at (build_client_hello p) 39 71 sid : res E _) = Ok (build_client_hello (with_sid p sid)).
Proof.
  intros Hr Hs Hl. pose proof (hello_front_len p Hr) as Hf. pose proof (len_nonneg (hello_back p)).
  rewrite !hello_split. destruct (with_sid_parts p sid) as [-> ->]; [lia|]. cbn [ch_session_id with_sid].
  unfold copy_at. rewrite bool_decide_eq_true_2 by (len_norm; lia).
  rewrite ztake_app by lia. rewrite (app_assoc (hello_front p) (ch_session_id p)), zdrop_app by llia. done.
Qed.

Lemma zero_session_id_hello p :
  len (ch_random p) = 32 → len (ch_session_id p) = 32 →
  zero_session_id (build_client_hello p) = build_client_hello (with_sid p (replicate 32 x00)).
Proof.
  intros Hr Hs. pose proof (hello_front_len p Hr) as Hf. rewrite !hello_split.
  destruct (with_sid_parts p (replicate 32 x00)) as [-> ->]; [rewrite Hs; done|].
  cbn [ch_session_id with_sid]. unfold zero_session_id. rewrite ztake_app by lia.
  rewrite (app_assoc (hello_front p) (ch_session_id p)), zdrop_app by llia. done.
Qed.

(** The fields of the message at their offsets. *)
Lemma hello_random p : hello_wf p → get_range (build_client_hello p) 6 38 = Some (ch_random p).
Proof.
  intros [_ _ Hr _]. unfold build_client_hello. unfold client_hello_body at 2.
  set (hd := x01 :: be24 (len (client_hello_body p)) ++ [x03; x03]).
  match goal with |- get_range ?l _ _ = _ =>
    replace l with (hd ++ ch_random p ++ z2b 32 :: ch_session_id p ++ u16_vec (u16s CIPHERS) ++
      [z2b 1; z2b 0] ++ u16_vec (build_extensions p)) by (unfold hd; cbn; by rewrite <-?app_assoc) end.
  apply get_range_app; [done|]. change (len hd) with 6. lia.
Qed.

Lemma hello_sid p :
  len (ch_random p) = 32 → len (ch_session_id p) = 32 →
  get_range (build_client_hello p) 39 71 = Some (ch_session_id p).
Proof.
  intros Hr Hs. rewrite hello_split. pose proof (hello_front_len p Hr).
  apply get_range_app; lia.
Qed.

Lemma build_extensions_len p : hello_wf p → len (build_extensions p) = len (ch_server_name p) + 143.
Proof.
  intros [Hn Hk _ _]. unfold build_extensions, ext, u16_vec. cbn. len_norm.
  change (len (str "h2")) with 2. change (len (str "http/1.1")) with 8.
  unfold u16s. cbn. len_norm. lia.
Qed.

(** Bytes of the middle part of a message. *)
Lemma get_mid {A} (a k r : list A) i x :
  get k i = Some x → get (a ++ k ++ r) (len a + i) = Some x.
Proof.
  intros Hk. pose proof (get_Some_lt _ _ _ Hk). pose proof (len_nonneg a).
  unfold get in *. rewrite bool_decide_eq_true_2 in * by lia.
  rewrite lookup_app_r by (unfold len in *; lia).
  replace (Z.to_nat (len a + i) - length a)%nat with (Z.to_nat i) by (unfold len; lia).
  by apply lookup_app_l_Some.
Qed.

(** The cipher-suite and compression fields are constant. *)
Definition hello_mid : list byte := u16_vec (u16s CIPHERS) ++ [z2b 1; z2b 0].

Lemma hello_exts_parse p :
  hello_wf p → hello_extensions (build_client_hello p) = Some (hello_ext_list p).
Proof.
  intros Hwf. pose proof Hwf as [Hn Hk Hr Hs]. rewrite hello_split.
  pose proof (hello_front_len p Hr) as Hf. pose proof (len_nonneg (ch_server_name p)).
  pose proof (build_extensions_len p Hwf) as He.
  set (A := hello_front p ++ ch_session_id p).
  assert (len A = 71) as HA by (unfold A; llia).
  set (X := build_extensions p) in *.
  destruct (u16_of_be16 (len X)) as (e0 & e1 & Ebe & Hu); [ulia|].
  assert (hello_front p ++ ch_session_id p ++ hello_back p = A ++ hello_mid ++ [e0; e1] ++ X) as ->.
  { unfold A, hello_back, hello_mid. fold X. unfold u16_vec at 2. rewrite be16_as_u16 by lia.
    rewrite Ebe. by rewrite <-!app_assoc. }
  assert (get (A ++ hello_mid ++ [e0; e1] ++ X) 38 = Some (z2b 32)) as H38.
  { apply get_app_l. unfold A. apply get_app_l. unfold hello_front.
    replace (x01 :: be24 (len (client_hello_body p)) ++ [x03; x03] ++ ch_random p ++ [z2b 32])
      with ((x01 :: be24 (len (client_hello_body p)) ++ [x03; x03] ++ ch_random p) ++ [z2b 32])
      by (cbn; by rewrite <-?app_assoc).
    apply get_app_mid. unfold be24. cbn. len_norm. lia. }
  assert (∀ i x, get hello_mid i = Some x → get (A ++ hello_mid ++ [e0; e1] ++ X) (71 + i) = Some x) as Hmid.
  { intros i x Hx. rewrite <-HA. by apply get_mid. }
  assert (∀ i x, get [e0; e1] i = Some x → get (A ++ hello_mid ++ [e0; e1] ++ X) (103 + i) = Some x) as Hel.
  { intros i x Hx. rewrite app_assoc. replace 103 with (len (A ++ hello_mid)).
    - by apply get_mid.
    - rewrite len_app, HA. done. }
  unfold hello_extensions. rewrite H38. cbn [mbind option_bind]. rewrite b2z_z2b.
  change (39 + 32 mod 256) with (71 + 0). rewrite (Hmid 0 x00) by reflexivity. cbn [mbind option_bind].
  change (71 + 0 + 1) with (71 + 1). rewrite (Hmid 1 x1c) by reflexivity. cbn [mbind option_bind].
  change (u16_of x00 x1c) with 28. change (71 + 0 + 2 + 28) with (71 + 30).
  rewrite (Hmid 30 x01) by reflexivity. cbn [mbind option_bind]. change (b2z x01) with 1.
  change (71 + 30 + 1 + 1) with (103 + 0). rewrite (Hel 0 e0) by reflexivity. cbn [mbind option_bind].
  change (103 + 0 + 1) with (103 + 1). rewrite (Hel 1 e1) by reflexivity. cbn [mbind option_bind].
  change (103 + 0 + 2) with 105. rewrite !app_assoc.
  rewrite get_from_app by (rewrite !len_app, HA; done). cbn [mbind option_bind].
  rewrite Hu, bool_decide_eq_true_2 by done.
  apply (parse_exts_mono 13); [unfold len in *; lia|]. by apply parse_build_extensions.
Qed.

Lemma share_of_list p :
  len (ch_key_share p) = 32 →
  (body ← lookup_ext 51 (hello_ext_list p); x25519_share body) = Some (ch_key_share p).
Proof.
  intros Hk. change (lookup_ext 51 (hello_ext_list p)) with (Some (u16_vec (be16 29 ++ u16_vec (ch_key_share p)))).
  cbn [mbind option_bind]. unfold x25519_share, u16_vec.
  set (n1 := as_u16 (len (be16 29 ++ _))). set (n2 := as_u16 (len (ch_key_share p))).
  replace (be16 n1 ++ be16 29 ++ be16 n2 ++ ch_key_share p)
    with ((be16 n1 ++ be16 29 ++ be16 n2) ++ ch_key_share p ++ []) by (by rewrite app_nil_r, <-!app_assoc).
  apply get_range_app; llia.
Qed.

(** ** Properties *)

(** The ClientHello is a well-formed handshake message: its 24-bit length is the length of
    its body, a TLS parser finds exactly the twelve extensions written, no extension type occurs
    twice, and the X25519 key share and the random are where a server looks for them. *)
Theorem client_hello_wellformed p :
  hello_wf p →
  ∃ body a b c, build_client_hello p = x01 :: [a; b; c] ++ body ∧ u24 a b c = len body ∧
    hello_extensions (build_client_hello p) = Some (hello_ext_list p) ∧
    NoDup (hello_ext_list p).*1 ∧
    (body ← lookup_ext 51 (hello_ext_list p); x25519_share body) = Some (ch_key_share p) ∧
    get_range (build_client_hello p) 6 38 = Some (ch_random p) ∧
    get_range (build_client_hello p) 39 71 = Some (ch_session_id p).
Proof.
  intros Hwf. exists (client_hello_body p). do 3 eexists. split; [reflexivity|].
  assert (len (client_hello_body p) < 2 ^ 24) as Hlt.
  { pose proof (build_extensions_len p Hwf). destruct Hwf as [Hn Hk Hr Hs].
    unfold client_hello_body. rewrite !len_app, !len_cons, !len_app, !u16_vec_len, len_nil.
    change (len (u16s CIPHERS)) with 28. change (len [z2b 1; z2b 0]) with 2. lia. }
  split_and!.
  - rewrite u24_of_be. change [_; _; _] with (to_be 3 (len (client_hello_body p))).
    rewrite of_be_to_be. apply Z.mod_small. pose proof (len_nonneg (client_hello_body p)). lia.
  - by apply hello_exts_parse.
  - cbn. repeat (apply NoDup_cons; split; [set_solver|]). apply NoDup_nil. done.
  - by apply share_of_list, Hwf.
  - by apply hello_random.
  - apply hello_sid; apply Hwf.
Qed.

Lemma client_hello_wellformed_witness :
  let p := mk_ClientHelloParams (str "www.example.com") (replicate 32 x07) (replicate 32 x08)
             (replicate 32 x09) in
  NoDup (hello_ext_list p).*1.
Proof.
  intros p. destruct (client_hello_wellformed p) as (? & ? & ? & ? & _ & _ & _ & Hnd & _).
  - constructor; vm_compute; congruence.
  - exact Hnd.
Defined.

(** The authenticated ClientHello is the plain one with the sealed session id in its place. *)
Lemma build_authed_Ok `{C : Crypto, !CryptoLaws C} sni pk random auth_key short_id ts :
  len random = 32 → len short_id = 8 →
  let p := mk_ClientHelloParams sni pk random (replicate 32 x00) in
  ∃ nonce sealed,
    get_range random 20 32 = Some nonce ∧
    build_authed_client_hello (mk_AuthedClientHelloParams sni pk random auth_key short_id ts)
      = Ok (build_client_hello (with_sid p sealed)) ∧
    authed_session_id (build_client_hello (with_sid p sealed)) = Ok sealed ∧ len sealed = 32 ∧
    open_session_id auth_key sealed nonce (build_client_hello p)
      = Some (REALITY_VERSION ++ be32 ts ++ short_id).
Proof.
  intros Hr Hsid p0.
  destruct (slice_no_panic (E:=ClientError) random 20 32) as [nonce Hnonce]; [lia..|].
  assert (get_range random 20 32 = Some nonce) as Hn.
  { unfold slice in Hnonce. by destruct (get_range random 20 32); simplify_eq/=. }
  pose proof (get_range_len _ _ _ _ Hn) as Hnl.
  set (pt := REALITY_VERSION ++ be32 ts ++ short_id).
  assert (len pt = 16) as Hpt by (unfold pt; rewrite !len_app; unfold be32; rewrite len_to_be, Hsid; done).
  destruct (seal_open_session_id auth_key pt nonce (build_client_hello p0) Hpt) as (sealed & Hseal & Hlen & Hopen).
  exists nonce, sealed. split_and!; [done| | |done|done].
  - unfold build_authed_client_hello. cbn [ac_random ac_server_name ac_key_share ac_auth_key ac_short_id ac_timestamp].
    fold p0. rewrite Hnonce. cbn [rbind]. unfold to_array. rewrite bool_decide_eq_true_2 by lia. cbn [rbind].
    change (session_id_to_bytes _) with pt. rewrite Hseal. cbn [rbind]. by apply copy_session_id.
  - unfold authed_session_id, slice. change (SESSION_ID_OFFSET + SESSION_ID_LEN) with 71.
    unfold SESSION_ID_OFFSET. by rewrite hello_sid.
Qed.

(** C29: REALITY authentication end to end: a server that holds the static secret matching the
    client's configured public key recovers, from the bytes of the ClientHello alone, the version,
    the timestamp and the short id the client sealed, for every ephemeral secret and random. *)
Theorem reality_auth_end_to_end `{C : Crypto, !CryptoLaws C} srv_secret eph_secret random sni short_id ts :
  len random = 32 → len short_id = 8 → is_u32 ts → len sni ≤ 60000 →
  let pbk := x25519 srv_secret x25519_base in
  let '(sk, pk) := generate_ephemeral_keypair eph_secret in
  ∃ auth_key msg sid,
    derive_auth_key (x25519_shared_secret sk pbk) random = Ok auth_key ∧
    build_authed_client_hello (mk_AuthedClientHelloParams sni pk random auth_key short_id ts) = Ok msg ∧
    authed_session_id msg = Ok sid ∧ len sid = 32 ∧
    reality_server_open srv_secret msg = Some (REALITY_VERSION ++ be32 ts ++ short_id).
Proof.
  intros Hr Hsid Hts Hsni pbk. cbn [generate_ephemeral_keypair].
  set (pk := x25519 eph_secret x25519_base).
  assert (len pk = 32) as Hpk by apply x25519_len.
  unfold x25519_shared_secret, pbk. rewrite (x25519_agree eph_secret srv_secret). fold pk.
  destruct (derive_auth_key_Ok (x25519 srv_secret pk) random Hr) as (auth_key & Hkey & _).
  destruct (build_authed_Ok sni pk random auth_key short_id ts Hr Hsid) as (nonce & sealed & Hn & Hb & Hsess & Hlen & Hopen).
  set (p0 := mk_ClientHelloParams sni pk random (replicate 32 x00)) in *.
  exists auth_key, (build_client_hello (with_sid p0 sealed)), sealed.
  assert (hello_wf (with_sid p0 sealed)) as Hwf by (constructor; cbn; lia).
  split_and!; [done..|].
  - unfold reality_server_open. rewrite hello_exts_parse by done. cbn [mbind option_bind].
    pose proof (share_of_list (with_sid p0 sealed) Hpk) as Hs.
    destruct (lookup_ext 51 _) as [ksb|] eqn:El; [|done]. cbn [mbind option_bind] in Hs |- *. rewrite Hs.
    cbn [mbind option_bind]. rewrite hello_random, hello_sid by done. cbn [mbind option_bind ch_random ch_session_id ch_key_share with_sid p0].
    unfold derive_auth_key in Hkey. unfold slice in Hkey.
    destruct (get_range random 0 20) as [salt|]; [|done]. cbn [expect rbind mbind option_bind] in Hkey |- *.
    rewrite Hn. cbn [mbind option_bind]. destruct (hkdf_expand _ _ _) as [k|]; [|done].
    injection Hkey as ->. cbn [mbind option_bind]. rewrite zero_session_id_hello by done. exact Hopen.
Qed.

Lemma reality_auth_end_to_end_witness :
  ∃ msg, @reality_server_open demo_crypto (replicate 32 x03) msg
    = Some (REALITY_VERSION ++ be32 1700000000 ++ replicate 8 xab).
Proof.
  destruct (reality_auth_end_to_end (C:=demo_crypto) (replicate 32 x03) (replicate 32 x04)
              (replicate 32 x05) (str "www.example.com") (replicate 8 xab) 1700000000
              eq_refl eq_refl ltac:(ulia) ltac:(vm_compute; congruence))
    as (k & msg & sid & _ & _ & _ & _ & Hopen).
  exists msg. exact Hopen.
Defined.
