(* ===== verification/KeySchedule.v ===== *)
(** * KeySchedule: the TLS 1.3 key schedule of [src/reality/key_schedule.rs]

    Every [expect] of the source is kept: a function that may abort returns [res]; with the laws
    of [Crypto] the theorems show that none of them does. *)

From S2P Require Import Prelude Text Shared Crypto Auth.
Import (notations) Strings.String.

Record HsKeys := mk_HsKeys {
  hk_handshake_secret : list byte;
  hk_c_hs_secret : list byte;
  hk_s_hs_secret : list byte;
  hk_client_key : list byte;
  hk_server_key : list byte;
  hk_client_iv : list byte;
  hk_server_iv : list byte
}.

Record AppKeys := mk_AppKeys {
  ak_c_ap_secret : list byte;
  ak_s_ap_secret : list byte;
  ak_client_key : list byte;
  ak_server_key : list byte;
  ak_client_iv : list byte;
  ak_server_iv : list byte
}.

Definition hkdf_label (length : Z) (label context : list byte) : list byte :=
  let full_label := str "tls13 " ++ label in
  be16 length ++ z2b (len full_label) :: full_label ++ z2b (len context) :: context.

Section key_schedule.
Context `{C : Crypto}.

Definition expand_label (secret label context : list byte) (length : Z) : res ClientError (list byte) :=
  let info := hkdf_label (as_u16 length) label context in
  expect (hkdf_expand secret info length).

Definition derive_secret (secret label transcript_hash : list byte) : res ClientError (list byte) :=
  let? s := expand_label secret label transcript_hash 32 in to_array 32 s.

Definition extract (salt ikm : list byte) : list byte := hkdf_extract salt ikm.

Definition transcript_hash (msgs : list (list byte)) : list byte := sha256 (concat msgs).

(** [to16(expand_label(secret, "key", b"", 16))] and [to12(expand_label(secret, "iv", b"", 12))] *)
Definition traffic_key (secret : list byte) : res ClientError (list byte) :=
  let? k := expand_label secret (str "key") [] 16 in to_array 16 k.
Definition traffic_iv (secret : list byte) : res ClientError (list byte) :=
  let? k := expand_label secret (str "iv") [] 12 in to_array 12 k.

Definition derive_handshake_keys (ecdhe client_hello server_hello : list byte)
  : res ClientError HsKeys :=
  if bool_decide (ecdhe = replicate 32 x00) then Err (Reality ecdhe_all_zero) else
  let early := extract (replicate 32 x00) (replicate 32 x00) in
  let? derived1 := derive_secret early (str "derived") (transcript_hash []) in
  let handshake := extract derived1 ecdhe in
  let th := transcript_hash [client_hello; server_hello] in
  let? c_hs := derive_secret handshake (str "c hs traffic") th in
  let? s_hs := derive_secret handshake (str "s hs traffic") th in
  let? ck := traffic_key c_hs in
  let? sk := traffic_key s_hs in
  let? civ := traffic_iv c_hs in
  let? siv := traffic_iv s_hs in
  Ok (mk_HsKeys handshake c_hs s_hs ck sk civ siv).

Definition derive_application_keys (handshake_secret transcript_ch_sfin : list byte)
  : res ClientError AppKeys :=
  let? derived2 := derive_secret handshake_secret (str "derived") (transcript_hash []) in
  let master := extract derived2 (replicate 32 x00) in
  let? c_ap := derive_secret master (str "c ap traffic") transcript_ch_sfin in
  let? s_ap := derive_secret master (str "s ap traffic") transcript_ch_sfin in
  let? ck := traffic_key c_ap in
  let? sk := traffic_key s_ap in
  let? civ := traffic_iv c_ap in
  let? siv := traffic_iv s_ap in
  Ok (mk_AppKeys c_ap s_ap ck sk civ siv).

Definition next_application_traffic_secret (secret : list byte) : res ClientError (list byte) :=
  let? s := expand_label secret (str "traffic upd") [] 32 in to_array 32 s.

Definition compute_finished_verify_data (base_secret transcript_hash : list byte)
  : res ClientError (list byte) :=
  let? finished_key := expand_label base_secret (str "finished") [] 32 in
  Ok (hmac_sha256 finished_key transcript_hash).

Context `{!CryptoLaws C}.

(** ** Lemmas: nothing aborts *)

Lemma expand_label_Ok secret label ctx n :
  0 ≤ n ≤ 255 * 32 → ∃ okm, expand_label secret label ctx n = Ok okm ∧ len okm = n.
Proof.
  intros Hn. unfold expand_label.
  destruct (hkdf_expand_len secret (hkdf_label (as_u16 n) label ctx) n Hn) as (okm & -> & Hl). by exists okm.
Qed.

Lemma to_array_Ok {E} n v : len v = n → (to_array n v : res E _) = Ok v.
Proof. intros H. unfold to_array. by rewrite bool_decide_eq_true_2. Qed.

(** Expanding a label to [n] bytes and converting the result to an array cannot abort. *)
Lemma expand_array_Ok secret label ctx n :
  0 ≤ n ≤ 255 * 32 →
  ∃ s, (let? s := expand_label secret label ctx n in to_array n s) = Ok s ∧ len s = n.
Proof.
  intros Hn. destruct (expand_label_Ok secret label ctx n Hn) as (s & -> & Hl). exists s. cbn.
  by rewrite to_array_Ok.
Qed.

Lemma derive_secret_Ok secret label th : ∃ s, derive_secret secret label th = Ok s ∧ len s = 32.
Proof. apply expand_array_Ok. lia. Qed.
Lemma traffic_key_Ok secret : ∃ s, traffic_key secret = Ok s ∧ len s = 16.
Proof. apply expand_array_Ok. lia. Qed.
Lemma traffic_iv_Ok secret : ∃ s, traffic_iv secret = Ok s ∧ len s = 12.
Proof. apply expand_array_Ok. lia. Qed.
Lemma next_secret_Ok secret : ∃ s, next_application_traffic_secret secret = Ok s ∧ len s = 32.
Proof. apply expand_array_Ok. lia. Qed.

Lemma finished_Ok secret th : ∃ v, compute_finished_verify_data secret th = Ok v ∧ len v = 32.
Proof.
  unfold compute_finished_verify_data.
  destruct (expand_label_Ok secret (str "finished") [] 32) as (k & -> & _); [lia|].
  eexists. split; [done|]. apply hmac_sha256_len.
Qed.

(** Run the next step of a derivation with the lemma that says it succeeds. *)
Ltac ks_step :=
  match goal with
  | |- context [rbind (derive_secret ?a ?b ?c) _] => destruct (derive_secret_Ok a b c) as (? & -> & ?)
  | |- context [rbind (traffic_key ?a) _] => destruct (traffic_key_Ok a) as (? & -> & ?)
  | |- context [rbind (traffic_iv ?a) _] => destruct (traffic_iv_Ok a) as (? & -> & ?)
  end; cbn [rbind].

Lemma derive_handshake_keys_Ok ecdhe ch sh :
  ecdhe ≠ replicate 32 x00 →
  ∃ k, derive_handshake_keys ecdhe ch sh = Ok k ∧
    len (hk_handshake_secret k) = 32 ∧ len (hk_c_hs_secret k) = 32 ∧ len (hk_s_hs_secret k) = 32 ∧
    len (hk_client_key k) = 16 ∧ len (hk_server_key k) = 16 ∧
    len (hk_client_iv k) = 12 ∧ len (hk_server_iv k) = 12.
Proof.
  intros He. unfold derive_handshake_keys. rewrite bool_decide_eq_false_2 by done.
  repeat ks_step. eexists. split; [done|]. cbn. split_and!; try done. apply hkdf_extract_len.
Qed.

Lemma derive_application_keys_Ok hs th :
  ∃ k, derive_application_keys hs th = Ok k ∧
    len (ak_c_ap_secret k) = 32 ∧ len (ak_s_ap_secret k) = 32 ∧
    len (ak_client_key k) = 16 ∧ len (ak_server_key k) = 16 ∧
    len (ak_client_iv k) = 12 ∧ len (ak_server_iv k) = 12.
Proof.
  unfold derive_application_keys. repeat ks_step. eexists. split; [done|]. cbn. by split_and!.
Qed.
End key_schedule.

(** ** Properties *)

(** The key schedule accepts every non-zero shared secret and no zero one, never aborts, and
    every secret, key and IV it yields has its length. *)
Theorem key_schedule_total `{C : Crypto, !CryptoLaws C} ecdhe ch sh th :
  (ecdhe = replicate 32 x00 → derive_handshake_keys ecdhe ch sh = Err (Reality ecdhe_all_zero)) ∧
  (ecdhe ≠ replicate 32 x00 →
   ∃ hs app, derive_handshake_keys ecdhe ch sh = Ok hs ∧
     derive_application_keys (hk_handshake_secret hs) th = Ok app ∧
     len (hk_c_hs_secret hs) = 32 ∧ len (hk_s_hs_secret hs) = 32 ∧
     len (hk_client_key hs) = 16 ∧ len (hk_server_key hs) = 16 ∧
     len (hk_client_iv hs) = 12 ∧ len (hk_server_iv hs) = 12 ∧
     len (ak_client_key app) = 16 ∧ len (ak_server_key app) = 16 ∧
     len (ak_client_iv app) = 12 ∧ len (ak_server_iv app) = 12).
Proof.
  split.
  - intros ->. unfold derive_handshake_keys. by rewrite bool_decide_eq_true_2.
  - intros He. destruct (derive_handshake_keys_Ok ecdhe ch sh He) as (hs & Eh & Hh).
    destruct (derive_application_keys_Ok (hk_handshake_secret hs) th) as (app & Ea & Ha).
    exists hs, app. split_and!; try done; apply Hh || apply Ha.
Qed.

Lemma key_schedule_total_witness :
  ∃ hs app, @derive_handshake_keys demo_crypto [x01] [] [] = Ok hs ∧
    @derive_application_keys demo_crypto (hk_handshake_secret hs) [] = Ok app.
Proof.
  destruct (proj2 (key_schedule_total (C:=demo_crypto) [x01] [] [] []) ltac:(discriminate))
    as (hs & app & Eh & Ea & _).
  exists hs, app. split; [exact Eh|exact Ea].
Defined.

(** The HKDF label encoding is injective, so derivations with different lengths, labels or
    contexts never use the same [info] string. *)
Theorem hkdf_label_inj n1 n2 l1 l2 c1 c2 :
  is_u16 n1 → is_u16 n2 → len l1 ≤ 249 → len l2 ≤ 249 → len c1 ≤ 255 → len c2 ≤ 255 →
  hkdf_label n1 l1 c1 = hkdf_label n2 l2 c2 → n1 = n2 ∧ l1 = l2 ∧ c1 = c2.
Proof.
  intros Hn1 Hn2 Hl1 Hl2 Hc1 Hc2. unfold hkdf_label. intros H.
  pose proof (len_nonneg l1). pose proof (len_nonneg l2).
  apply app_split_len in H as [Hn H]; [|llia].
  apply (f_equal of_be) in Hn. unfold be16 in Hn. rewrite !of_be_to_be, !Z.mod_small in Hn by ulia.
  assert (∀ l, len (str "tls13 " ++ l) = 6 + len l) as Hf by (intros l; by rewrite len_app).
  pose proof (Hf l1). pose proof (Hf l2).
  remember (str "tls13 " ++ l1) as f1 eqn:E1. remember (str "tls13 " ++ l2) as f2 eqn:E2.
  injection H as Hlen H. apply (f_equal b2z) in Hlen. rewrite !b2z_z2b, !Z.mod_small in Hlen by lia.
  apply app_split_len in H as [Hl H]; [|lia]. rewrite E1, E2 in Hl.
  apply app_inv_head in Hl. injection H as _ Hc. done.
Qed.

Lemma hkdf_label_inj_witness :
  hkdf_label 16 (str "key") [] = hkdf_label 16 (str "key") [] ∧ str "key" = str "key".
Proof.
  split; [reflexivity|].
  apply (hkdf_label_inj 16 16 (str "key") (str "key") [] []); try ulia; try (vm_compute; congruence).
Defined.
