(* ===== verification/ServerHello.v ===== *)
(** * ServerHello: the ServerHello parser of [src/reality/server_hello.rs]

    The input comes from the network: every index and slice of the source is kept, with its
    [Panic]. *)

From S2P Require Import Prelude Text Shared Crypto Auth ClientHello.
Import (notations) Strings.String.

(** SHA-256 of "HelloRetryRequest". *)
Definition HRR_RANDOM : list byte :=
  [xcf; x21; xad; x74; xe5; x9a; x61; x11; xbe; x1d; x8c; x02; x1e; x65; xb8; x91;
   xc2; xa2; x11; x67; x7a; xbb; x8c; x5e; x07; x9e; x09; xe2; xc8; xa8; x33; x9c].

Record ParsedServerHello := mk_ParsedServerHello {
  ps_cipher_suite : Z;
  ps_server_key_share : list byte
}.

(** The [while] loop of [find_ext]; [Err tt] is its [None].  Four bytes or more are consumed per
    turn, so the length of the block is enough fuel (running out is a [Panic]). *)
Fixpoint find_ext_from (fuel : nat) (exts : list byte) (want i : Z) : res unit (list byte) :=
  match fuel with
  | O => Panic
  | S fuel =>
      if bool_decide (i + 4 ≤ len exts) then
        let? b0 := idx exts i in
        let? b1 := idx exts (i + 1) in
        let t := u16_of b0 b1 in
        let? b2 := idx exts (i + 2) in
        let? b3 := idx exts (i + 3) in
        let l := u16_of b2 b3 in
        let? body := ok_or tt (get_range exts (i + 4) (i + 4 + l)) in
        if bool_decide (t = want) then Ok body
        else find_ext_from fuel exts want (i + (4 + l))
      else Err tt
  end.

Definition find_ext (exts : list byte) (want : Z) : res unit (list byte) :=
  find_ext_from (S (length exts)) exts want 0.

(** [o.ok_or_else(|| e)] on a result whose error is [None]. *)
Definition or_err {A} (e : ClientError) (m : res unit A) : res ClientError A :=
  match m with Ok a => Ok a | Err _ => Err e | Panic => Panic end.

Definition extract_selected_version (exts : list byte) : res ClientError Z :=
  let? b := or_err (Reality sh_no_supported_versions) (find_ext exts 43) in
  if bool_decide (len b ≠ 2) then Err (Reality sh_supported_versions_len) else
  let? b0 := idx b 0 in
  let? b1 := idx b 1 in
  Ok (u16_of b0 b1).

Definition extract_key_share_x25519 (exts : list byte) : res ClientError (list byte) :=
  let? b := or_err (Reality sh_no_key_share) (find_ext exts 51) in
  if bool_decide (len b < 4) then Err (Reality sh_key_share_truncated) else
  let? b0 := idx b 0 in
  let? b1 := idx b 1 in
  if bool_decide (u16_of b0 b1 ≠ 29) then Err (Reality sh_key_share_group) else
  let? b2 := idx b 2 in
  let? b3 := idx b 3 in
  if bool_decide (u16_of b2 b3 ≠ 32) then Err (Reality sh_key_share_len) else
  let? key := ok_or (Reality sh_key_share_truncated) (get_range b 4 36) in
  to_array 32 key.

Definition parse_server_hello (bytes expected_session_id : list byte)
  : res ClientError ParsedServerHello :=
  if bool_decide (get bytes 0 ≠ Some x02) then Err (Reality sh_not_server_hello) else
  let? len_field := ok_or (Reality sh_header_truncated) (get_range bytes 1 4) in
  let? body := ok_or (Reality sh_header_truncated) (get_from bytes 4) in
  let? l0 := idx len_field 0 in
  let? l1 := idx len_field 1 in
  let? l2 := idx len_field 2 in
  let claimed := u24 l0 l1 l2 in
  if bool_decide (claimed ≠ len body) then Err (Reality sh_bad_length) else
  let p := 0 in
  if bool_decide (get_range body p (p + 2) ≠ Some [x03; x03]) then Err (Reality sh_legacy_version) else
  let p := p + 2 in
  let? random_slice := ok_or (Reality sh_random_truncated) (get_range body p (p + 32)) in
  let? random := to_array 32 random_slice in
  let p := p + 32 in
  if bool_decide (random = HRR_RANDOM) then Err (Reality sh_hello_retry) else
  let? tail := slice random 24 32 in
  if bool_decide (tail = str "DOWNGRD" ++ [x01]) || bool_decide (tail = str "DOWNGRD" ++ [x00])
  then Err (Reality sh_downgrade) else
  let? sid_len_b := ok_or (Reality sh_sid_len_truncated) (get body p) in
  let sid_len := b2z sid_len_b in
  let p := p + 1 in
  let? sid := ok_or (Reality sh_sid_truncated) (get_range body p (p + sid_len)) in
  let p := p + sid_len in
  if bool_decide (sid ≠ expected_session_id) then Err (Reality sh_sid_mismatch) else
  let? cs := ok_or (Reality sh_cipher_truncated) (get_range body p (p + 2)) in
  let? c0 := idx cs 0 in
  let? c1 := idx cs 1 in
  let cipher_suite := u16_of c0 c1 in
  let p := p + 2 in
  if bool_decide (cipher_suite ≠ 4865) then Err (Reality sh_cipher_unsupported) else
  let? comp := ok_or (Reality sh_compression_truncated) (get body p) in
  if bool_decide (b2z comp ≠ 0) then Err (Reality sh_compression) else
  let p := p + 1 in
  let? el := ok_or (Reality sh_ext_len_truncated) (get_range body p (p + 2)) in
  let? e0 := idx el 0 in
  let? e1 := idx el 1 in
  let ext_len := u16_of e0 e1 in
  let p := p + 2 in
  let? exts := ok_or (Reality sh_ext_truncated) (get_range body p (p + ext_len)) in
  let? ver := extract_selected_version exts in
  if bool_decide (ver ≠ 772) then Err (Reality sh_version_not_13) else
  let? server_key_share := extract_key_share_x25519 exts in
  Ok (mk_ParsedServerHello cipher_suite server_key_share).

(** ** What a server writes *)

Definition wire_exts (l : list (Z * list byte)) : list byte :=
  concat ((λ tb, ext tb.1 tb.2) <$> l).

Definition server_hello_body (random sid : list byte) (suite : Z) (exts : list byte) : list byte :=
  [x03; x03] ++ random ++ z2b (len sid) :: sid ++ be16 suite ++ x00 :: be16 (len exts) ++ exts.

Definition wire_server_hello (random sid : list byte) (suite : Z) (exts : list (Z * list byte))
  : list byte :=
  let body := server_hello_body random sid suite (wire_exts exts) in
  x02 :: be24 (len body) ++ body.

Definition key_share_body (key : list byte) : list byte := be16 29 ++ be16 32 ++ key.

(** ** Lemmas *)

(** Case analysis on the next step of a parser whose result is known not to be an error of
    interest: closes the error branches, keeps the equations of the successful one. *)
Ltac np_step :=
  match goal with
  | |- context [rbind (ok_or _ ?o) _] => destruct o eqn:?; cbn [ok_or rbind]; [|done]
  | |- (if ?b then Err _ else _) ≠ Panic => destruct b eqn:?; [done|]
  end.

Lemma idx_Ok {E A} (l : list A) i : 0 ≤ i < len l → ∃ x, (idx l i : res E A) = Ok x ∧ get l i = Some x.
Proof.
  intros Hi. destruct (get_is_Some l i Hi) as [x Hx]. exists x. unfold idx. by rewrite Hx.
Qed.

(** Discharge an in-range index. *)
Ltac idx_step :=
  match goal with
  | |- context [rbind (idx ?l ?i) _] =>
      let Hx := fresh "Hx" in
      destruct (idx_Ok (E:=ClientError) l i) as (? & -> & Hx) ||
      destruct (idx_Ok (E:=unit) l i) as (? & -> & Hx);
      [repeat match goal with H : get_range _ _ _ = Some _ |- _ => apply get_range_len in H end; lia
      |cbn [rbind]]
  end.

Lemma find_ext_from_total fuel exts want i :
  0 ≤ i → len exts - i < Z.of_nat fuel → (len exts < i → (0 < fuel)%nat) →
  find_ext_from fuel exts want i ≠ Panic.
Proof.
  revert i. induction fuel as [|fuel IH]; intros i Hi Hf H0; [lia|]. cbn [find_ext_from].
  case_bool_decide as H4; [|done]. do 4 idx_step.
  destruct (get_range exts _ _) eqn:Hr; [|done]. cbn [ok_or rbind].
  case_bool_decide; [done|]. apply get_range_Some in Hr as (_ & Hle & _).
  pose proof (u16_of_range x1 x2). apply IH; [ulia|ulia|ulia].
Qed.

Lemma find_ext_total exts want : find_ext exts want ≠ Panic.
Proof. apply find_ext_from_total; unfold len; lia. Qed.

Lemma or_err_total {A} e (m : res unit A) : m ≠ Panic → or_err e m ≠ Panic.
Proof. by destruct m. Qed.

Lemma selected_version_total exts : extract_selected_version exts ≠ Panic.
Proof.
  unfold extract_selected_version. pose proof (find_ext_total exts 43).
  destruct (find_ext exts 43) as [b| |]; cbn; [|done|done]. case_bool_decide; [done|]. by do 2 idx_step.
Qed.

Lemma key_share_total exts : extract_key_share_x25519 exts ≠ Panic.
Proof.
  unfold extract_key_share_x25519. pose proof (find_ext_total exts 51).
  destruct (find_ext exts 51) as [b| |]; cbn [or_err rbind]; [|done|done].
  case_bool_decide; [done|]. do 2 idx_step. case_bool_decide; [done|]. do 2 idx_step.
  case_bool_decide; [done|]. destruct (get_range b 4 36) eqn:Hr; [|done]. cbn [ok_or rbind].
  apply get_range_len in Hr. unfold to_array. by rewrite bool_decide_eq_true_2 by lia.
Qed.

Lemma parse_server_hello_no_panic bytes sid : parse_server_hello bytes sid ≠ Panic.
Proof.
  unfold parse_server_hello. np_step. np_step. np_step. do 3 idx_step. np_step. np_step. np_step.
  match goal with H : get_range _ (0 + 2) _ = Some ?r |- _ => pose proof (get_range_len _ _ _ _ H) as Hr end.
  unfold to_array. rewrite bool_decide_eq_true_2 by lia. cbn [rbind]. np_step.
  match goal with |- context [slice ?r 24 32] =>
    destruct (slice_no_panic (E:=ClientError) r 24 32) as [tl ->]; [lia..|] end.
  cbn [rbind]. np_step. np_step. np_step. np_step. np_step. do 2 idx_step. np_step. np_step. np_step. np_step.
  do 2 idx_step. np_step.
  match goal with |- context [extract_selected_version ?e] =>
    pose proof (selected_version_total e); pose proof (key_share_total e);
    destruct (extract_selected_version e) as [v| |]; cbn [rbind]; [|done|done] end.
  np_step. by destruct (extract_key_share_x25519 _).
Qed.

Lemma ext_len t b : len (ext t b) = len b + 4.
Proof. unfold ext. llia. Qed.

Lemma lookup_ext_cons want t b l :
  lookup_ext want ((t, b) :: l) = if decide (t = want) then Some b else lookup_ext want l.
Proof. unfold lookup_ext. rewrite filter_cons. cbn [fst]. by case_decide. Qed.

Lemma find_ext_from_wire l fuel pre want :
  Forall (λ tb, is_u16 tb.1 ∧ len tb.2 < 2 ^ 16) l → (length l < fuel)%nat →
  find_ext_from fuel (pre ++ wire_exts l) want (len pre) =
  match lookup_ext want l with Some b => Ok b | None => Err tt end.
Proof.
  intros Hl. revert fuel pre. induction Hl as [|[t b] l [Ht Hb] Hl IH]; intros fuel pre Hf;
    (destruct fuel as [|fuel]; [cbn in Hf; lia|]); cbn [find_ext_from].
  - rewrite bool_decide_eq_false_2; [done|]. cbn. rewrite app_nil_r. lia.
  - cbn in Ht, Hb. assert (wire_exts ((t, b) :: l) = ext t b ++ wire_exts l) as -> by done.
    pose proof (len_nonneg b). pose proof (len_nonneg pre). pose proof (len_nonneg (wire_exts l)).
    destruct (u16_of_be16 t Ht) as (t0 & t1 & Et & Hut).
    destruct (u16_of_be16 (len b)) as (l0 & l1 & El & Hul); [ulia|].
    assert (ext t b = [t0; t1; l0; l1] ++ b) as Hext.
    { unfold ext. rewrite be16_as_u16, Et, El by done. done. }
    assert (∀ i x, get [t0; t1; l0; l1] i = Some x →
              (idx (pre ++ ext t b ++ wire_exts l) (len pre + i) : res unit byte) = Ok x) as Hidx.
    { intros i x Hx. unfold idx. rewrite Hext. rewrite <-app_assoc.
      by rewrite (get_mid pre [t0; t1; l0; l1] (b ++ wire_exts l) i x Hx). }
    rewrite bool_decide_eq_true_2 by (rewrite !len_app, ext_len; lia).
    pose proof (Hidx 0 t0 eq_refl) as Hi0. rewrite Z.add_0_r in Hi0.
    rewrite Hi0, (Hidx 1 t1), (Hidx 2 l0), (Hidx 3 l1) by reflexivity. cbn [rbind].
    rewrite Hut, Hul. rewrite Hext at 1. rewrite <-app_assoc. rewrite (app_assoc pre).
    rewrite (get_range_app (pre ++ [t0; t1; l0; l1]) b (wire_exts l)) by llia. cbn [ok_or rbind].
    rewrite lookup_ext_cons.
    destruct (decide (t = want)) as [->|Hne].
    + by rewrite bool_decide_eq_true_2.
    + rewrite bool_decide_eq_false_2 by done. specialize (IH fuel (pre ++ ext t b)).
      rewrite <-app_assoc in IH.
      replace (len pre + (4 + len b)) with (len (pre ++ ext t b)) by (rewrite len_app, ext_len; lia).
      apply IH. cbn in Hf. lia.
Qed.

Lemma find_ext_wire l want :
  Forall (λ tb, is_u16 tb.1 ∧ len tb.2 < 2 ^ 16) l →
  find_ext (wire_exts l) want = match lookup_ext want l with Some b => Ok b | None => Err tt end.
Proof.
  intros Hl. apply (find_ext_from_wire l _ []); [done|].
  assert (Z.of_nat (length l) ≤ len (wire_exts l)); [|unfold len in *; lia].
  clear Hl. induction l as [|[t b] l IH]; [done|].
  assert (wire_exts ((t, b) :: l) = ext t b ++ wire_exts l) as -> by done.
  rewrite len_app, ext_len. cbn [length]. pose proof (len_nonneg b). lia.
Qed.

Lemma selected_version_wire l :
  Forall (λ tb, is_u16 tb.1 ∧ len tb.2 < 2 ^ 16) l → lookup_ext 43 l = Some [x03; x04] →
  extract_selected_version (wire_exts l) = Ok 772.
Proof. intros Hl Hk. unfold extract_selected_version. by rewrite find_ext_wire, Hk. Qed.

Lemma key_share_wire l key :
  Forall (λ tb, is_u16 tb.1 ∧ len tb.2 < 2 ^ 16) l → lookup_ext 51 l = Some (key_share_body key) →
  len key = 32 → extract_key_share_x25519 (wire_exts l) = Ok key.
Proof.
  intros Hl Hk Hlen. unfold extract_key_share_x25519. rewrite find_ext_wire, Hk by done.
  cbn [or_err rbind]. unfold key_share_body. change (be16 29) with [x00; x1d]. change (be16 32) with [x00; x20].
  rewrite bool_decide_eq_false_2 by (rewrite !len_app; change (len [x00; x1d]) with 2; change (len [x00; x20]) with 2; lia).
  change (idx ([x00; x1d] ++ ?r) 0) with (Ok (E:=ClientError) x00).
  change (idx ([x00; x1d] ++ ?r) 1) with (Ok (E:=ClientError) x1d). cbn [rbind].
  change (bool_decide (u16_of x00 x1d ≠ 29)) with false. cbv iota.
  change (idx ([x00; x1d] ++ [x00; x20] ++ ?r) 2) with (Ok (E:=ClientError) x00).
  change (idx ([x00; x1d] ++ [x00; x20] ++ ?r) 3) with (Ok (E:=ClientError) x20). cbn [rbind].
  change (bool_decide (u16_of x00 x20 ≠ 32)) with false. cbv iota.
  rewrite <-(app_nil_r key) at 1. rewrite app_assoc.
  rewrite get_range_app by (done || (change (len ([x00; x1d] ++ [x00; x20])) with 4; lia)).
  cbn [ok_or rbind]. unfold to_array. by rewrite bool_decide_eq_true_2.
Qed.

(** The parser on a message with a well-formed fixed part. *)
(** Where the fields of a ServerHello body are. *)
Lemma server_hello_fields random sid exts :
  len random = 32 → len sid ≤ 255 → len exts < 2 ^ 16 →
  let body := server_hello_body random sid 4865 exts in
  let n := len sid in
  ∃ e0 e1, u16_of e0 e1 = len exts ∧ len body = 40 + n + len exts ∧
    get_range body 0 2 = Some [x03; x03] ∧ get_range body 2 34 = Some random ∧ get body 34 = Some (z2b n) ∧
    get_range body 35 (35 + n) = Some sid ∧ get_range body (35 + n) (35 + n + 2) = Some [x13; x01] ∧
    get body (35 + n + 2) = Some x00 ∧ get_range body (35 + n + 2 + 1) (35 + n + 2 + 1 + 2) = Some [e0; e1] ∧
    get_range body (35 + n + 2 + 1 + 2) (35 + n + 2 + 1 + 2 + len exts) = Some exts.
Proof.
  intros Hr Hs Hx body n. pose proof (len_nonneg sid). pose proof (len_nonneg exts).
  destruct (u16_of_be16 (len exts)) as (e0 & e1 & Ee & Hue); [ulia|].
  assert (body = [x03; x03] ++ random ++ [z2b n] ++ sid ++ [x13; x01] ++ [x00] ++ [e0; e1] ++ exts) as Hb.
  { unfold body, server_hello_body. rewrite Ee. done. }
  assert (∀ pre s post i j, body = pre ++ s ++ post → i = len pre → j = len pre + len s →
            get_range body i j = Some s) as Hseg.
  { intros pre s post i j -> -> ->. by apply get_range_app. }
  assert (∀ pre x post i, body = pre ++ x :: post → i = len pre → get body i = Some x) as Hget.
  { intros pre x post i -> ->. by apply get_app_mid. }
  exists e0, e1. split; [done|]. split; [rewrite Hb; unfold n; len_norm; lia|]. unfold n in *. split_and!.
  - by apply (Hseg [] [x03; x03] _ 0 2 Hb).
  - apply (Hseg [x03; x03] random _ 2 34 Hb); [done|by rewrite Hr].
  - eapply (Hget ([x03; x03] ++ random)); [rewrite Hb; by rewrite <-!app_assoc|llia].
  - eapply (Hseg ([x03; x03] ++ random ++ [_])); [rewrite Hb; by rewrite <-!app_assoc|llia..].
  - eapply (Hseg ([x03; x03] ++ random ++ [_] ++ sid)); [rewrite Hb; by rewrite <-!app_assoc|llia..].
  - eapply (Hget ([x03; x03] ++ random ++ [_] ++ sid ++ [x13; x01])); [rewrite Hb; by rewrite <-!app_assoc|llia].
  - eapply (Hseg ([x03; x03] ++ random ++ [_] ++ sid ++ [x13; x01] ++ [x00])); [rewrite Hb; by rewrite <-!app_assoc|llia..].
  - eapply (Hseg ([x03; x03] ++ random ++ [_] ++ sid ++ [x13; x01] ++ [x00] ++ [e0; e1]) exts []);
      [rewrite Hb, app_nil_r; by rewrite <-!app_assoc|llia..].
Qed.

(** The length in the header. *)
Lemma be24_bytes n : 0 ≤ n < 2 ^ 24 → ∃ l0 l1 l2, be24 n = [l0; l1; l2] ∧ u24 l0 l1 l2 = n.
Proof.
  intros Hn. do 3 eexists. split; [reflexivity|]. rewrite u24_of_be. change [_; _; _] with (to_be 3 n).
  rewrite of_be_to_be. by apply Z.mod_small.
Qed.

Lemma random_tail {E} (random : list byte) : len random = 32 → slice (E:=E) random 24 32 = Ok (zdrop 24 random).
Proof.
  intros Hr. unfold slice. rewrite <-(ztake_zdrop 24 random) at 1. rewrite <-(app_nil_r (zdrop 24 random)) at 1.
  rewrite get_range_app; [done| |]; rewrite ?len_zdrop, ?len_ztake by lia; lia.
Qed.

(** A test for inequality of a value with itself. *)
Ltac same := rewrite bool_decide_eq_false_2 by (intros Hn; by apply Hn).

Lemma parse_server_hello_fixed random sid exts :
  len random = 32 → len sid ≤ 255 → len exts < 2 ^ 16 →
  random ≠ HRR_RANDOM → zdrop 24 random ≠ str "DOWNGRD" ++ [x01] →
  zdrop 24 random ≠ str "DOWNGRD" ++ [x00] →
  let body := server_hello_body random sid 4865 exts in
  parse_server_hello (x02 :: be24 (len body) ++ body) sid =
  (let? ver := extract_selected_version exts in
   if bool_decide (ver ≠ 772) then Err (Reality sh_version_not_13) else
   let? ks := extract_key_share_x25519 exts in
   Ok (mk_ParsedServerHello 4865 ks)).
Proof.
  intros Hr Hs Hx Hhrr Hd1 Hd0 body. pose proof (len_nonneg sid). pose proof (len_nonneg exts).
  destruct (server_hello_fields random sid exts Hr Hs Hx) as (e0 & e1 & Hue & Hbl & F1 & F2 & F3 & F4 & F5 & F6 & F7 & F8).
  fold body in Hbl, F1, F2, F3, F4, F5, F6, F7, F8.
  destruct (be24_bytes (len body)) as (l0 & l1 & l2 & E24 & H24); [lia|].
  assert (∀ E (x y z : byte), idx (E:=E) [x; y; z] 0 = Ok x ∧ idx (E:=E) [x; y; z] 1 = Ok y ∧ idx (E:=E) [x; y; z] 2 = Ok z) as Hi3 by done.
  assert (∀ E (x y : byte), idx (E:=E) [x; y] 0 = Ok x ∧ idx (E:=E) [x; y] 1 = Ok y) as Hi2 by done.
  unfold parse_server_hello. rewrite E24. same.
  change (get_range (x02 :: [l0; l1; l2] ++ body) 1 4) with (get_range ([x02] ++ [l0; l1; l2] ++ body) 1 4).
  rewrite (get_range_app [x02]) by done. change (x02 :: [l0; l1; l2] ++ body) with ([x02; l0; l1; l2] ++ body).
  cbn [ok_or rbind]. rewrite get_from_app by done. cbn [ok_or rbind].
  destruct (Hi3 ClientError l0 l1 l2) as (-> & -> & ->). cbn [rbind]. rewrite H24. same.
  change (0 + 2) with 2. change (2 + 32) with 34. change (34 + 1) with 35. rewrite F1. same. rewrite F2. cbn [ok_or rbind].
  unfold to_array. rewrite bool_decide_eq_true_2 by done. cbn [rbind]. rewrite bool_decide_eq_false_2 by done.
  rewrite random_tail by done. cbn [rbind]. rewrite !bool_decide_eq_false_2 by done. cbn [orb].
  rewrite F3. cbn [ok_or rbind]. rewrite b2z_z2b, Z.mod_small by lia. rewrite F4. cbn [ok_or rbind]. same.
  rewrite F5. cbn [ok_or rbind]. destruct (Hi2 ClientError x13 x01) as [-> ->]. cbn [rbind].
  change (u16_of x13 x01) with 4865. same. rewrite F6. cbn [ok_or rbind]. change (b2z x00) with 0. same.
  rewrite F7. cbn [ok_or rbind]. destruct (Hi2 ClientError e0 e1) as [-> ->]. cbn [rbind]. rewrite Hue, F8. done.
Qed.

(** Reading the next field of a buffer whose read part is [pre]. *)
Lemma peel {A} (l pre rest s : list A) a b :
  l = pre ++ rest → get_range l a b = Some s → a = len pre →
  ∃ rest', l = (pre ++ s) ++ rest' ∧ len s = b - a.
Proof.
  intros -> Hr ->. apply get_range_decompose in Hr as (p & q & Hl & Hp & Hs).
  apply app_split_len in Hl as [<- ->]; [|done]. exists q. by rewrite <-app_assoc.
Qed.

Lemma peel_byte {A} (l pre rest : list A) a x :
  l = pre ++ rest → get l a = Some x → a = len pre → ∃ rest', l = (pre ++ [x]) ++ rest'.
Proof.
  intros -> Hg ->. pose proof (get_Some_lt _ _ _ Hg) as Hlt. rewrite len_app in Hlt.
  destruct rest as [|y rest]; [unfold len in *; cbn in *; lia|].
  rewrite get_app_mid in Hg by done. injection Hg as ->. exists rest. by rewrite <-app_assoc.
Qed.

Lemma len2 {A} (l : list A) (x y : A) :
  len l = 2 → get l 0 = Some x → get l 1 = Some y → l = [x; y].
Proof.
  destruct l as [|a [|b [|]]]; unfold len; cbn; try lia. intros _ [= ->] [= ->]. done.
Qed.
Lemma len3 {A} (l : list A) (x y z : A) :
  len l = 3 → get l 0 = Some x → get l 1 = Some y → get l 2 = Some z → l = [x; y; z].
Proof.
  destruct l as [|a [|b [|c [|]]]]; unfold len; cbn; try lia. intros _ [= ->] [= ->] [= ->]. done.
Qed.

Lemma idx_get {E A} (l : list A) i x : (idx l i : res E A) = Ok x → get l i = Some x.
Proof. unfold idx. destruct (get l i); [|done]. by intros [= ->]. Qed.

(** The fields the parser reads, put back together. *)
Lemma server_hello_layout body random sid sl cs c0 c1 cp el e0 e1 exts :
  get_range body 0 2 = Some [x03; x03] → get_range body 2 34 = Some random →
  get body 34 = Some sl → get_range body 35 (35 + b2z sl) = Some sid →
  get_range body (35 + b2z sl) (35 + b2z sl + 2) = Some cs →
  get cs 0 = Some c0 → get cs 1 = Some c1 → u16_of c0 c1 = 4865 →
  get body (35 + b2z sl + 2) = Some cp → b2z cp = 0 →
  get_range body (35 + b2z sl + 2 + 1) (35 + b2z sl + 2 + 1 + 2) = Some el →
  get el 0 = Some e0 → get el 1 = Some e1 →
  get_range body (35 + b2z sl + 2 + 1 + 2) (35 + b2z sl + 2 + 1 + 2 + u16_of e0 e1) = Some exts →
  ∃ trailing, body = server_hello_body random sid 4865 exts ++ trailing ∧ len random = 32 ∧ len sid ≤ 255.
Proof.
  intros H1 H2 H3 H4 H5 C0 C1 Hc H6 Hcp H7 E0 E1 H8. pose proof (b2z_range sl).
  destruct (peel body [] body _ _ _ eq_refl H1 eq_refl) as (r1 & B1 & _).
  destruct (peel _ _ _ _ _ _ B1 H2 eq_refl) as (r2 & B2 & L2).
  destruct (peel_byte _ _ _ _ _ B2 H3) as (r3 & B3); [llia|].
  destruct (peel _ _ _ _ _ _ B3 H4) as (r4 & B4 & L4); [llia|].
  destruct (peel _ _ _ _ _ _ B4 H5) as (r5 & B5 & L5); [llia|].
  destruct (peel_byte _ _ _ _ _ B5 H6) as (r6 & B6); [llia|].
  destruct (peel _ _ _ _ _ _ B6 H7) as (r7 & B7 & L7); [llia|].
  destruct (peel _ _ _ _ _ _ B7 H8) as (r8 & B8 & L8); [llia|].
  exists r8. split_and!; [|lia|lia].
  rewrite B8. unfold server_hello_body.
  assert (z2b (len sid) = sl) as -> by (replace (len sid) with (b2z sl) by lia; apply z2b_b2z).
  assert (be16 4865 = cs) as ->.
  { rewrite (len2 cs c0 c1) by (done || lia). rewrite <-Hc. exact (to_be_of_be [c0; c1]). }
  assert (x00 = cp) as <- by (apply b2z_inj; rewrite Hcp; reflexivity).
  assert (be16 (len exts) = el) as ->.
  { rewrite (len2 el e0 e1) by (done || lia). replace (len exts) with (u16_of e0 e1) by lia.
    exact (to_be_of_be [e0; e1]). }
  app_norm. done.
Qed.

Lemma slice_tail {E} (l t : list byte) : len l = 32 → (slice l 24 32 : res E _) = Ok t → t = zdrop 24 l.
Proof.
  intros Hl. unfold slice. destruct (get_range l 24 32) eqn:Hg; [|done]. intros [= ->].
  apply get_range_Some in Hg as (_ & _ & ->). unfold zdrop. apply take_ge.
  rewrite length_drop. unfold len in Hl. lia.
Qed.

Lemma to_array_inv {E} n v w : (to_array n v : res E _) = Ok w → w = v ∧ len v = n.
Proof. unfold to_array. case_bool_decide; [|done]. by intros [= ->]. Qed.

(** The handshake header in front of the body. *)
Lemma hello_bytes (bytes lf body : list byte) t :
  get bytes 0 = Some t → get_range bytes 1 4 = Some lf → get_from bytes 4 = Some body →
  bytes = t :: lf ++ body ∧ len lf = 3.
Proof.
  intros H0 H1 H4.
  destruct (peel_byte bytes [] bytes 0 t eq_refl H0 eq_refl) as (r1 & B1).
  destruct (peel _ _ _ _ _ _ B1 H1 eq_refl) as (r2 & B2 & L2).
  unfold get_from in H4. destruct (peel _ _ _ _ _ _ B2 H4) as (r3 & B3 & L3); [llia|].
  split; [|lia]. rewrite B3 in L3. assert (r3 = []) as ->.
  { destruct r3; [done|]. len_norm. pose proof (len_nonneg r3). lia. }
  rewrite B3. app_norm. by rewrite app_nil_r.
Qed.

Lemma parse_server_hello_sound bytes sid r :
  parse_server_hello bytes sid = Ok r →
  ∃ random exts trailing a b c,
    let body := server_hello_body random sid 4865 exts ++ trailing in
    bytes = x02 :: [a; b; c] ++ body ∧ u24 a b c = len body ∧ len random = 32 ∧ len sid ≤ 255 ∧
    random ≠ HRR_RANDOM ∧ zdrop 24 random ≠ str "DOWNGRD" ++ [x01] ∧
    zdrop 24 random ≠ str "DOWNGRD" ++ [x00] ∧
    extract_selected_version exts = Ok 772 ∧
    extract_key_share_x25519 exts = Ok (ps_server_key_share r) ∧ ps_cipher_suite r = 4865.
Proof.
  unfold parse_server_hello. intros H.
  repeat first [res_step | case_bool_decide; [discriminate H|] | case_bool_decide; [|discriminate H]].
  repeat match goal with
  | H : idx _ _ = Ok _ |- _ => apply idx_get in H
  | H : (_ || _) = false |- _ => apply orb_false_iff in H as [? ?]
  | H : ¬ (_ ≠ _) |- _ => apply dec_stable in H
  | H : to_array 32 _ = Ok _ |- _ => apply to_array_inv in H as [-> ?]
  end. bdec.
  repeat match goal with H : ¬ (_ ≠ _) |- _ => apply dec_stable in H end. subst.
  match goal with Hs : slice _ 24 32 = Ok _ |- _ => apply slice_tail in Hs; [subst|done] end.
  match goal with Hb : get bytes 0 = _, Hl : get_range bytes 1 4 = Some ?lf, Hf : get_from bytes 4 = Some ?body |- _ =>
    destruct (hello_bytes bytes lf body _ Hb Hl Hf) as [-> Hlf];
    edestruct (server_hello_layout body) as (tr & Hbody & ? & ?); [eassumption..|]
  end.
  do 6 eexists. rewrite (len3 _ _ _ _ Hlf ltac:(eassumption) ltac:(eassumption) ltac:(eassumption)).
  rewrite <-Hbody.
  split_and!; try done.
Qed.

(** What the client requires of a ServerHello with key share [key]. *)
Record server_hello_ok (random sid : list byte) (exts : list (Z * list byte)) (key : list byte) : Prop := {
  sho_random : len random = 32;
  sho_not_hrr : random ≠ HRR_RANDOM;
  sho_no_downgrade12 : zdrop 24 random ≠ str "DOWNGRD" ++ [x01];
  sho_no_downgrade11 : zdrop 24 random ≠ str "DOWNGRD" ++ [x00];
  sho_sid : len sid ≤ 255;
  sho_key : len key = 32;
  sho_exts : Forall (λ tb, is_u16 tb.1 ∧ len tb.2 < 2 ^ 16) exts;
  sho_exts_len : len (wire_exts exts) < 2 ^ 16;
  sho_version : lookup_ext 43 exts = Some [x03; x04];
  sho_key_share : lookup_ext 51 exts = Some (key_share_body key)
}.

Lemma parse_server_hello_ok random sid exts key :
  server_hello_ok random sid exts key →
  parse_server_hello (wire_server_hello random sid 4865 exts) sid = Ok (mk_ParsedServerHello 4865 key).
Proof.
  intros [Hr Hh Hd1 Hd0 Hs Hk Hw Hl Hv Hks]. unfold wire_server_hello.
  rewrite parse_server_hello_fixed by done.
  rewrite selected_version_wire, (key_share_wire _ key) by done. done.
Qed.

(** ** Properties *)

(** C30: on any bytes from the network [parse_server_hello] returns without a panic, and what it
    accepts is a TLS 1.3 ServerHello with a correct length field, the session id the client sent,
    suite 0x1301, null compression, version 1.3 and an X25519 key share, that is neither a
    HelloRetryRequest nor marked as a downgrade. *)
Theorem server_hello_safe bytes sid :
  parse_server_hello bytes sid ≠ Panic ∧
  ∀ r, parse_server_hello bytes sid = Ok r →
    ∃ random exts trailing a b c,
      let body := server_hello_body random sid 4865 exts ++ trailing in
      bytes = x02 :: [a; b; c] ++ body ∧ u24 a b c = len body ∧ len random = 32 ∧ len sid ≤ 255 ∧
      random ≠ HRR_RANDOM ∧ zdrop 24 random ≠ str "DOWNGRD" ++ [x01] ∧
      zdrop 24 random ≠ str "DOWNGRD" ++ [x00] ∧
      extract_selected_version exts = Ok 772 ∧
      extract_key_share_x25519 exts = Ok (ps_server_key_share r) ∧ ps_cipher_suite r = 4865.
Proof.
  split; [apply parse_server_hello_no_panic|]. intros r. apply parse_server_hello_sound.
Qed.

(** Every well-formed ServerHello is accepted and its key share returned, wherever the two
    required extensions stand among others. *)
Theorem server_hello_accepts random sid exts key :
  server_hello_ok random sid exts key →
  parse_server_hello (wire_server_hello random sid 4865 exts) sid
  = Ok (mk_ParsedServerHello 4865 key).
Proof. apply parse_server_hello_ok. Qed.

Lemma server_hello_accepts_witness :
  parse_server_hello
    (wire_server_hello (replicate 32 x01) [x0a] 4865
       [(43, [x03; x04]); (51, key_share_body (replicate 32 x02))]) [x0a]
  = Ok (mk_ParsedServerHello 4865 (replicate 32 x02)).
Proof.
  apply server_hello_accepts. split; try (vm_compute; congruence); try reflexivity.
  repeat constructor; cbn; unfold key_share_body; rewrite ?len_app; vm_compute; congruence.
Defined.
