(* ===== verification/Cert.v ===== *)
(** * Cert: the certificate fields of [src/reality/cert.rs]

    The REALITY server's temporary certificate is not parsed as X.509: the client looks for the
    Ed25519 public key behind a fixed marker and takes the last 64 bytes as the signature.  The
    message comes from the network, so every index keeps its [Panic]. *)

From S2P Require Import Prelude Text Shared Crypto Auth ClientHello ServerHello.

Definition REALITY_SIG_LEN : Z := 64.
Definition ED25519_PUBKEY_LEN : Z := 32.
Definition ED25519_SPKI_MARKER : list byte := [x06; x03; x2b; x65; x70; x03; x21; x00].

(** [u24(b)] of a slice. *)
Definition u24_slice (b : list byte) : res ClientError Z :=
  let? b0 := idx b 0 in
  let? b1 := idx b 1 in
  let? b2 := idx b 2 in
  Ok (u24 b0 b1 b2).

(** [l.windows(m.len()).position(|w| w == m)] *)
Fixpoint position_of (m l : list byte) : option Z :=
  if bool_decide (take (length m) l = m) then Some 0
  else match l with
       | [] => None
       | _ :: r => Z.succ <$> position_of m r
       end.

Definition extract_ed25519_pubkey_and_sig (cert_msg : list byte)
  : res ClientError (list byte * list byte) :=
  if bool_decide (get cert_msg 0 ≠ Some x0b) then Err (Reality cert_not_certificate) else
  let? hs_field := ok_or (Reality cert_header_truncated) (get_range cert_msg 1 4) in
  let? hs_len := u24_slice hs_field in
  let? body := ok_or (Reality cert_header_truncated) (get_from cert_msg 4) in
  if bool_decide (hs_len ≠ len body) then Err (Reality cert_bad_length) else
  let? ctx_b := ok_or (Reality cert_ctx_truncated) (get body 0) in
  let p := 1 + b2z ctx_b in
  let? ll := ok_or (Reality cert_list_len_truncated) (get_range body p (p + 3)) in
  let? list_len := u24_slice ll in
  let p := p + 3 in
  let? lst := ok_or (Reality cert_list_truncated) (get_range body p (p + list_len)) in
  let? cl := ok_or (Reality cert_data_len_truncated) (get_range lst 0 3) in
  let? cert_len := u24_slice cl in
  let? der := ok_or (Reality cert_der_truncated) (get_range lst 3 (3 + cert_len)) in
  let? pos := ok_or (Reality cert_no_ed25519) (position_of ED25519_SPKI_MARKER der) in
  let key_start := pos + len ED25519_SPKI_MARKER in
  let? pk := ok_or (Reality cert_pubkey_truncated)
               (get_range der key_start (key_start + ED25519_PUBKEY_LEN)) in
  let? pubkey := to_array ED25519_PUBKEY_LEN pk in
  if bool_decide (len der < REALITY_SIG_LEN) then Err (Reality cert_no_signature) else
  let? sig := slice der (len der - REALITY_SIG_LEN) (len der) in
  Ok (pubkey, sig).

(** ** A certificate message as the server writes it *)

Definition wire_certificate (ctx der rest : list byte) : list byte :=
  let lst := be24 (len der) ++ der ++ rest in
  let body := z2b (len ctx) :: ctx ++ be24 (len lst) ++ lst in
  x0b :: be24 (len body) ++ body.

(** ** Lemmas *)

Lemma position_of_Some m l i :
  position_of m l = Some i → ∃ pre post, l = pre ++ m ++ post ∧ len pre = i.
Proof.
  revert i. induction l as [|x l IH]; intros i; cbn.
  - case_bool_decide as H; [|done]. intros [= <-]. exists [], []. rewrite take_nil in H. by rewrite <-H.
  - case_bool_decide as H.
    + intros [= <-]. exists [], (drop (length m) (x :: l)). split; [|done].
      transitivity (take (length m) (x :: l) ++ drop (length m) (x :: l)); [by rewrite take_drop|].
      cbn [app]. by rewrite H.
    + intros (j & Hj & ->)%fmap_Some. destruct (IH j Hj) as (pre & post & -> & Hl).
      exists (x :: pre), post. split; [done|]. rewrite len_cons. lia.
Qed.

Lemma position_of_app m pre post :
  (∀ i, (i < length pre)%nat → take (length m) (drop i (pre ++ m ++ post)) ≠ m) →
  position_of m (pre ++ m ++ post) = Some (len pre).
Proof.
  induction pre as [|x pre IH]; intros Hfirst.
  - cbn [app]. assert (take (length m) (m ++ post) = m) as Ht by apply take_app_length.
    destruct (m ++ post) eqn:E; cbn [position_of]; rewrite bool_decide_eq_true_2 by done; done.
  - cbn [app position_of]. rewrite bool_decide_eq_false_2 by (apply (Hfirst 0%nat); cbn; lia).
    rewrite IH; [cbn; f_equal; rewrite len_cons; lia|].
    intros i Hi. apply (Hfirst (S i)). cbn. lia.
Qed.

Lemma u24_slice_Ok b : len b = 3 → ∃ n, u24_slice b = Ok n ∧ 0 ≤ n < 2 ^ 24.
Proof.
  intros Hb. unfold u24_slice. do 3 idx_step. eexists. split; [done|]. apply u24_range.
Qed.

Lemma u24_slice_be24 n : 0 ≤ n < 2 ^ 24 → u24_slice (be24 n) = Ok n.
Proof.
  intros Hn. unfold u24_slice, be24.
  change (idx [?a; ?b; ?c] 0) with (Ok (E:=ClientError) a). cbn [rbind].
  change (idx [?a; ?b; ?c] 1) with (Ok (E:=ClientError) b). cbn [rbind].
  change (idx [?a; ?b; ?c] 2) with (Ok (E:=ClientError) c). cbn [rbind].
  rewrite u24_of_be. change [_; _; _] with (to_be 3 n). rewrite of_be_to_be, Z.mod_small by lia. done.
Qed.

Lemma extract_cases msg :
  extract_ed25519_pubkey_and_sig msg ≠ Panic ∧
  ∀ pk sig, extract_ed25519_pubkey_and_sig msg = Ok (pk, sig) →
    ∃ der pre mid, len pk = 32 ∧ len sig = 64 ∧ der = pre ++ ED25519_SPKI_MARKER ++ pk ++ mid ∧
      sig = zdrop (len der - 64) der ∧ ∃ before after, msg = before ++ der ++ after.
Proof.
  unfold extract_ed25519_pubkey_and_sig. case_bool_decide as H0; [done|].
  destruct (get_range msg 1 4) as [hf|] eqn:E1; [|done]. cbn [ok_or rbind].
  destruct (u24_slice_Ok hf) as (hl & -> & _); [apply get_range_len in E1; lia|]. cbn [rbind].
  destruct (get_from msg 4) as [body|] eqn:E2; [|done]. cbn [ok_or rbind].
  case_bool_decide as Hhl; [done|]. destruct (get body 0) as [cb|] eqn:E3; [|done]. cbn [ok_or rbind].
  destruct (get_range body (1 + b2z cb) _) as [ll|] eqn:E4; [|done]. cbn [ok_or rbind].
  destruct (u24_slice_Ok ll) as (lln & -> & _); [apply get_range_len in E4; lia|]. cbn [rbind].
  destruct (get_range body (1 + b2z cb + 3) _) as [lst|] eqn:E5; [|done]. cbn [ok_or rbind].
  destruct (get_range lst 0 3) as [cl|] eqn:E6; [|done]. cbn [ok_or rbind].
  destruct (u24_slice_Ok cl) as (cln & -> & _); [apply get_range_len in E6; lia|]. cbn [rbind].
  destruct (get_range lst 3 _) as [der|] eqn:E7; [|done]. cbn [ok_or rbind].
  destruct (position_of _ der) as [pos|] eqn:E8; [|done]. cbn [ok_or rbind].
  destruct (get_range der _ _) as [pk|] eqn:E9; [|done]. cbn [ok_or rbind].
  pose proof (get_range_len _ _ _ _ E9) as Hpk. unfold to_array.
  unfold ED25519_PUBKEY_LEN in *. rewrite bool_decide_eq_true_2 by lia. cbn [rbind].
  unfold REALITY_SIG_LEN. case_bool_decide as Hsl; [done|].
  destruct (slice_no_panic (E:=ClientError) der (len der - 64) (len der)) as [sig Hsig]; [lia..|].
  rewrite Hsig. cbn [rbind]. split; [done|]. intros ? ? [= <- <-].
  apply position_of_Some in E8 as (pre & post & Hder & Hpre).
  edestruct (peel der (pre ++ ED25519_SPKI_MARKER) post pk) as (mid & Hd & _);
    [by rewrite Hder, <-app_assoc|exact E9|rewrite len_app; lia|].
  assert (sig = zdrop (len der - 64) der ∧ len sig = 64) as [Hsg Hsl'].
  { unfold slice in Hsig. destruct (get_range der (len der - 64) _) eqn:Hg; [|done]. injection Hsig as <-.
    pose proof (get_range_len _ _ _ _ Hg). apply get_range_Some in Hg as (_ & _ & Hg). split; [|lia].
    rewrite Hg. unfold zdrop. apply take_ge. rewrite length_drop. unfold len in *. lia. }
  exists der, pre, mid. split_and!; [lia|done|by rewrite Hd; app_norm|done|].
  apply get_range_decompose in E7 as (a1 & b1 & H7 & _). apply get_range_decompose in E5 as (a2 & b2 & H5 & _).
  unfold get_from in E2. apply get_range_decompose in E2 as (a3 & b3 & H2 & _).
  exists (a3 ++ a2 ++ a1), (b1 ++ b2 ++ b3). rewrite H2, H5, H7. by app_norm.
Qed.

(** ** Properties *)

(** On any certificate message from the network the extraction returns without a panic, and
    what it returns are 32 bytes behind an Ed25519 key marker and the last 64 bytes of one and the
    same slice of the message. *)
Theorem cert_extract_safe msg :
  extract_ed25519_pubkey_and_sig msg ≠ Panic ∧
  ∀ pk sig, extract_ed25519_pubkey_and_sig msg = Ok (pk, sig) →
    ∃ der pre mid, len pk = 32 ∧ len sig = 64 ∧ der = pre ++ ED25519_SPKI_MARKER ++ pk ++ mid ∧
      sig = zdrop (len der - 64) der ∧ ∃ before after, msg = before ++ der ++ after.
Proof. apply extract_cases. Qed.

(** Every certificate with an Ed25519 key and a signature of 64 bytes is accepted, with the key
    behind the first marker. *)
Lemma cert_extract_accepts ctx pre pk mid sig rest :
  len pk = 32 → len sig = 64 → len ctx ≤ 255 →
  let der := pre ++ ED25519_SPKI_MARKER ++ pk ++ mid ++ sig in
  (∀ i, (i < length pre)%nat → take 8 (drop i der) ≠ ED25519_SPKI_MARKER) →
  len der + len rest + 262 < 2 ^ 24 →
  extract_ed25519_pubkey_and_sig (wire_certificate ctx der rest) = Ok (pk, sig).
Proof.
  intros Hpk Hsig Hctx der Hfirst Hsmall. unfold wire_certificate.
  assert (∀ n, len (be24 n) = 3) as Hb24 by done.
  set (lst := be24 (len der) ++ der ++ rest).
  assert (len lst = 3 + len der + len rest) as Hlst by (unfold lst; rewrite !len_app, Hb24; lia).
  set (body := z2b (len ctx) :: ctx ++ be24 (len lst) ++ lst).
  assert (len body = 4 + len ctx + len lst) as Hbody.
  { unfold body. rewrite len_cons, !len_app, Hb24. lia. }
  pose proof (len_nonneg ctx). pose proof (len_nonneg der). pose proof (len_nonneg rest).
  unfold extract_ed25519_pubkey_and_sig.
  change (x0b :: be24 (len body) ++ body) with ([x0b] ++ be24 (len body) ++ body).
  rewrite bool_decide_eq_false_2 by (intros Hn; by apply Hn).
  rewrite (get_range_app [x0b]) by done. cbn [ok_or rbind].
  rewrite u24_slice_be24 by lia. cbn [rbind].
  rewrite (app_assoc [x0b]), get_from_app by done. cbn [ok_or rbind].
  rewrite bool_decide_eq_false_2 by (intros Hn; by apply Hn).
  change (get body 0) with (Some (z2b (len ctx))). cbn [ok_or rbind].
  rewrite b2z_z2b, Z.mod_small by lia.
  replace (get_range body (1 + len ctx) _) with (Some (be24 (len lst))).
  2:{ symmetry. apply (get_range_app (z2b (len ctx) :: ctx)); rewrite len_cons, ?Hb24; lia. }
  cbn [ok_or rbind]. rewrite u24_slice_be24 by lia. cbn [rbind].
  replace (get_range body (1 + len ctx + 3) _) with (Some lst).
  2:{ symmetry. replace body with (((z2b (len ctx) :: ctx) ++ be24 (len lst)) ++ lst ++ [])
        by (unfold body; rewrite app_nil_r; by app_norm).
      apply get_range_app; rewrite len_app, len_cons, Hb24; lia. }
  cbn [ok_or rbind]. rewrite (get_range_app [] (be24 (len der)) (der ++ rest)) by done.
  cbn [ok_or rbind]. rewrite u24_slice_be24 by lia. cbn [rbind].
  rewrite (get_range_app (be24 (len der)) der rest) by (rewrite ?Hb24; done).
  cbn [ok_or rbind]. unfold der at 1. rewrite position_of_app by exact Hfirst. cbn [ok_or rbind].
  replace (get_range der _ _) with (Some pk).
  2:{ symmetry. unfold der. rewrite app_assoc. apply get_range_app; rewrite len_app; [done|].
      rewrite Hpk. done. }
  cbn [ok_or rbind]. unfold to_array, ED25519_PUBKEY_LEN. rewrite bool_decide_eq_true_2 by done. cbn [rbind].
  assert (len der = len (pre ++ ED25519_SPKI_MARKER ++ pk ++ mid) + 64) as Hd.
  { unfold der. rewrite !len_app. lia. }
  pose proof (len_nonneg (pre ++ ED25519_SPKI_MARKER ++ pk ++ mid)).
  unfold REALITY_SIG_LEN. rewrite bool_decide_eq_false_2 by lia. unfold slice.
  replace (get_range der (len der - 64) _) with (Some sig); [done|].
  symmetry. replace der with ((pre ++ ED25519_SPKI_MARKER ++ pk ++ mid) ++ sig ++ []) at 1
    by (unfold der; rewrite app_nil_r; by app_norm).
  apply get_range_app; lia.
Qed.
