(* ===== verification/Reassembly.v ===== *)
(** * Reassembly: byte streams cut into records and messages, [src/reality/handshake.rs]

    [HandshakeReassembler] cuts decrypted handshake bytes into messages, [RecordReader] cuts the
    TCP stream into TLS records.  A stream is the list of what its reads return: [Some chunk] for
    bytes ([Some []] is end of file), [None] for an I/O error; a read beyond the list is end of
    file. *)

From S2P Require Import Prelude Shared Record.

(** ** [HandshakeReassembler] *)

(** The loop of [push]: the complete messages at the front of the buffer and the rest.  Each
    message is at least four bytes long, so the length of the buffer is enough fuel; what is left
    when fuel runs out stays in the buffer. *)
Fixpoint cut_messages (fuel : nat) (buf : list byte) : list (list byte) * list byte :=
  match fuel with
  | O => ([], buf)
  | S fuel =>
      match buf with
      | _ :: a :: b :: c :: _ =>
          let total := 4 + u24 a b c in
          if bool_decide (len buf < total) then ([], buf)
          else let '(out, rest) := cut_messages fuel (zdrop total buf) in
               (ztake total buf :: out, rest)
      | _ => ([], buf)
      end
  end.

Definition reasm_push (buf data : list byte) : list (list byte) * list byte :=
  let buf := buf ++ data in
  cut_messages (length buf) buf.

Definition reasm_is_empty (buf : list byte) : bool := bool_decide (buf = []).

(** Pushing a sequence of chunks: all messages cut, in order, and the final buffer. *)
Fixpoint reasm_push_all (buf : list byte) (chunks : list (list byte)) : list (list byte) * list byte :=
  match chunks with
  | [] => ([], buf)
  | c :: cs =>
      let '(out, buf) := reasm_push buf c in
      let '(out', buf) := reasm_push_all buf cs in
      (out ++ out', buf)
  end.

(** ** [RecordReader] *)

Definition input := list (option (list byte)).

(** [while self.buf.len() < need { read_buf .. }] *)
Fixpoint fill (need : Z) (eof : reason) (buf : list byte) (inp : input)
  : res ClientError (list byte * input) :=
  if bool_decide (len buf < need) then
    match inp with
    | [] => Err (Reality eof)
    | None :: _ => Err (Reality hs_io)
    | Some [] :: _ => Err (Reality eof)
    | Some c :: inp => fill need eof (buf ++ c) inp
    end
  else Ok (buf, inp).

(** One record: content type, header, payload, what is left in the buffer and in the stream. *)
Definition reader_next (buf : list byte) (inp : input)
  : res ClientError (byte * list byte * list byte * list byte * input) :=
  let? ' (buf, inp) := fill 5 hs_eof_header buf inp in
  let? header := slice buf 0 5 in
  let? h3 := idx header 3 in
  let? h4 := idx header 4 in
  let n := u16_of h3 h4 in
  if bool_decide (n > MAX_TLS_RECORD) then Err (Reality hs_record_too_long) else
  let? ' (buf, inp) := fill (5 + n) hs_eof_body buf inp in
  let? payload := slice buf 5 (5 + n) in
  let? rest := slice buf (5 + n) (len buf) in
  let? ct := idx header 0 in
  Ok (ct, header, payload, rest, inp).

(** ** A handshake message on the wire *)

Definition is_message (m : list byte) : Prop :=
  ∃ t a b c body, m = t :: a :: b :: c :: body ∧ u24 a b c = len body.

(** The bytes a stream delivers before its first error or end of file. *)
Fixpoint avail (inp : input) : list byte :=
  match inp with
  | Some [] :: _ | None :: _ | [] => []
  | Some c :: inp => c ++ avail inp
  end.

(** ** Lemmas: messages *)

Lemma message_len m : is_message m → 4 ≤ len m.
Proof. intros (t & a & b & c & body & -> & _). pose proof (len_nonneg body). llia. Qed.

(** Cutting gives back everything, as messages followed by an incomplete rest. *)
Lemma cut_sound fuel buf out rest :
  cut_messages fuel buf = (out, rest) → concat out ++ rest = buf ∧ Forall is_message out.
Proof.
  revert buf out rest. induction fuel as [|fuel IH]; intros buf out rest; cbn.
  - by intros [= <- <-].
  - destruct buf as [|t [|a [|b [|c body]]]]; try by intros [= <- <-].
    set (buf := t :: a :: b :: c :: body). pose proof (u24_range a b c).
    case_bool_decide as Hlt; [by intros [= <- <-]|].
    destruct (cut_messages fuel _) as [o r] eqn:E. intros [= <- <-].
    destruct (IH _ _ _ E) as [Hc Hf]. split.
    + cbn. rewrite <-app_assoc, Hc. apply ztake_zdrop.
    + constructor; [|done]. pose proof (len_ztake (4 + u24 a b c) buf) as Hl.
      specialize (Hl ltac:(pose proof (len_nonneg buf); lia)).
      unfold ztake in *. replace (Z.to_nat (4 + u24 a b c)) with (S (S (S (S (Z.to_nat (u24 a b c)))))) in * by lia.
      unfold buf in *. cbn [take] in *. do 5 eexists. split; [reflexivity|]. llia.
Qed.

Lemma cut_message_app fuel m l :
  is_message m → cut_messages (S fuel) (m ++ l) =
  (let '(out, rest) := cut_messages fuel l in (m :: out, rest)).
Proof.
  intros (t & a & b & c & body & -> & Hu). cbn. pose proof (len_nonneg l). pose proof (len_nonneg body).
  rewrite bool_decide_eq_false_2 by llia.
  change (t :: a :: b :: c :: body ++ l) with ((t :: a :: b :: c :: body) ++ l).
  rewrite zdrop_app, ztake_app by llia. done.
Qed.

(** Enough fuel. *)
Lemma cut_fuel fuel buf : (length buf ≤ fuel)%nat → cut_messages fuel buf = cut_messages (length buf) buf.
Proof.
  remember (length buf) as n eqn:Hn. revert fuel buf Hn.
  induction n as [n IH] using lt_wf_ind. intros fuel buf Hn Hle.
  destruct n as [|n].
  - destruct buf; [|done]. by destruct fuel.
  - destruct fuel as [|fuel]; [lia|]. cbn.
    destruct buf as [|t [|a [|b [|c body]]]]; try done. set (buf := t :: a :: b :: c :: body) in *.
    pose proof (u24_range a b c). case_bool_decide as Hlt; [done|].
    assert (length (zdrop (4 + u24 a b c) buf) < S n)%nat as Hsh.
    { unfold zdrop. rewrite length_drop. unfold len in *. lia. }
    rewrite (IH _ Hsh fuel _ eq_refl) by (unfold len in *; lia).
    rewrite (IH _ Hsh n _ eq_refl) by (unfold len in *; lia). done.
Qed.

(** A rest that cutting leaves is itself not cut. *)
Definition incomplete (l : list byte) : Prop := cut_messages (length l) l = ([], l).

Lemma cut_rest_incomplete fuel buf out rest :
  (length buf ≤ fuel)%nat → cut_messages fuel buf = (out, rest) → incomplete rest.
Proof.
  revert buf out rest. induction fuel as [|fuel IH]; intros buf out rest Hle.
  - destruct buf; [|cbn in Hle; lia]. cbn. by intros [= <- <-].
  - cbn. destruct buf as [|t [|a [|b [|c body]]]]; try (by intros [= <- <-]).
    set (buf := t :: a :: b :: c :: body) in *. pose proof (u24_range a b c).
    case_bool_decide as Hlt.
    + intros [= <- <-]. unfold incomplete, buf. cbn. by rewrite bool_decide_eq_true_2.
    + destruct (cut_messages fuel _) as [o r] eqn:E. intros [= <- <-]. eapply IH; [|done].
      unfold zdrop. rewrite length_drop. unfold len in *. lia.
Qed.

(** The cut is determined by the bytes: messages, then an incomplete rest. *)
Lemma cut_unique msgs rest :
  Forall is_message msgs → incomplete rest →
  cut_messages (length (concat msgs ++ rest)) (concat msgs ++ rest) = (msgs, rest).
Proof.
  intros Hm Hr. induction Hm as [|m msgs Hm Hms IH]; [exact Hr|]. cbn [concat].
  rewrite <-app_assoc. pose proof (message_len m Hm) as Hl.
  destruct (length (m ++ concat msgs ++ rest)) as [|k] eqn:Hk; rewrite length_app in Hk; [unfold len in Hl; lia|].
  rewrite cut_message_app by done. rewrite cut_fuel by (unfold len in Hl; lia). by rewrite IH.
Qed.

Lemma push_all_cut buf chunks :
  incomplete buf →
  reasm_push_all buf chunks = cut_messages (length (buf ++ concat chunks)) (buf ++ concat chunks).
Proof.
  revert buf. induction chunks as [|c cs IH]; intros buf Hinc; cbn [reasm_push_all concat].
  - by rewrite app_nil_r, Hinc.
  - destruct (reasm_push buf c) as [o r] eqn:E. unfold reasm_push in E.
    destruct (cut_sound _ _ _ _ E) as [Hc Ho].
    assert (incomplete r) as Hr by (eapply cut_rest_incomplete; [|exact E]; done).
    rewrite IH by done. destruct (cut_messages _ (r ++ concat cs)) as [o' r'] eqn:E'.
    destruct (cut_sound _ _ _ _ E') as [Hc' Ho'].
    assert (incomplete r') as Hr' by (eapply cut_rest_incomplete; [|exact E']; done).
    assert (buf ++ c ++ concat cs = concat (o ++ o') ++ r') as ->.
    { rewrite concat_app, <-app_assoc, Hc', (app_assoc (concat o)), Hc. by rewrite <-app_assoc. }
    rewrite cut_unique; [done| |done]. by apply Forall_app.
Qed.

Lemma incomplete_nil : incomplete [].
Proof. done. Qed.

(** ** Lemmas: records *)

Lemma peel_front {A} (l s : list A) n : get_range l 0 n = Some s → ∃ r, l = s ++ r ∧ len s = n.
Proof.
  intros (p & q & -> & Hp & Hs)%get_range_decompose. exists q.
  destruct p; [|pose proof (len_nonneg p); len_norm; lia]. split; [done|lia].
Qed.

Lemma fill_spec need eof buf inp :
  (need ≤ len (buf ++ avail inp) →
   ∃ buf' inp', fill need eof buf inp = Ok (buf', inp') ∧ need ≤ len buf' ∧
     buf' ++ avail inp' = buf ++ avail inp) ∧
  (len (buf ++ avail inp) < need → fill need eof buf inp = Err (Reality eof) ∨
     fill need eof buf inp = Err (Reality hs_io)).
Proof.
  revert buf. induction inp as [|[c|] inp IH]; intros buf; cbn [fill avail].
  - rewrite app_nil_r. case_bool_decide; split; intros; try lia; eauto.
    eexists _, _. split; [done|]. cbn. split; [lia|]. by rewrite app_nil_r.
  - destruct c as [|x c].
    + rewrite app_nil_r. case_bool_decide; split; intros; try lia; eauto.
      eexists _, _. split; [done|]. cbn. split; [lia|]. by rewrite app_nil_r.
    + case_bool_decide as Hlt.
      * destruct (IH (buf ++ x :: c)) as [IH1 IH2]. rewrite <-app_assoc in IH1, IH2.
        cbn [app] in *. done.
      * split; [|intros H; rewrite len_app in H; pose proof (len_nonneg ((x :: c) ++ avail inp)); lia].
        intros _. eexists _, _. split; [done|]. split; [lia|]. done.
  - rewrite app_nil_r. case_bool_decide; split; intros; try lia; eauto.
    eexists _, _. split; [done|]. cbn. split; [lia|]. by rewrite app_nil_r.
Qed.

(** The five header bytes, once the buffer holds them. *)
Lemma header_of (b1 rest : list byte) ct v0 v1 h3 h4 data :
  5 ≤ len b1 → b1 ++ rest = ct :: v0 :: v1 :: h3 :: h4 :: data →
  slice (E:=ClientError) b1 0 5 = Ok [ct; v0; v1; h3; h4].
Proof.
  intros L1 D1. unfold slice. destruct (get_range b1 0 5) as [h|] eqn:Hg.
  - destruct (peel_front b1 h 5 Hg) as (r & -> & Hl). rewrite <-app_assoc in D1.
    change (ct :: v0 :: v1 :: h3 :: h4 :: data) with ([ct; v0; v1; h3; h4] ++ data) in D1.
    by apply app_split_len in D1 as [-> _]; [|rewrite Hl].
  - unfold get_range in Hg. rewrite bool_decide_eq_true_2 in Hg by lia. done.
Qed.

(** A record at the front of the stream is read, however the bytes are chunked. *)
Lemma reader_next_record buf inp ct v0 v1 h3 h4 payload more :
  buf ++ avail inp = [ct; v0; v1; h3; h4] ++ payload ++ more →
  u16_of h3 h4 = len payload → len payload ≤ MAX_TLS_RECORD →
  ∃ buf' inp', reader_next buf inp = Ok (ct, [ct; v0; v1; h3; h4], payload, buf', inp') ∧
    buf' ++ avail inp' = more.
Proof.
  intros Hd Hu Hmax. set (hdr := [ct; v0; v1; h3; h4]) in *.
  pose proof (len_nonneg payload). pose proof (len_nonneg more).
  unfold reader_next. destruct (fill_spec 5 hs_eof_header buf inp) as [F _].
  destruct F as (b1 & i1 & -> & L1 & D1); [rewrite Hd, !len_app; change (len hdr) with 5; lia|]. cbn [rbind].
  unfold hdr in Hd. rewrite (header_of b1 (avail i1) ct v0 v1 h3 h4 (payload ++ more) L1) by (rewrite D1, Hd; done).
  fold hdr in Hd |- *. cbn [rbind]. change (idx hdr 3) with (Ok (E:=ClientError) h3). change (idx hdr 4) with (Ok (E:=ClientError) h4).
  change (idx hdr 0) with (Ok (E:=ClientError) ct). cbn [rbind]. rewrite Hu, bool_decide_eq_false_2 by lia.
  destruct (fill_spec (5 + len payload) hs_eof_body b1 i1) as [F _].
  destruct F as (b2 & i2 & -> & L2 & D2); [rewrite D1, Hd, !len_app; change (len hdr) with 5; lia|]. cbn [rbind].
  rewrite D1, Hd in D2. rewrite app_assoc in D2.
  set (m := 5 + len payload) in *.
  assert (∃ z, b2 = hdr ++ payload ++ z ∧ z ++ avail i2 = more) as (z & -> & Hr).
  { exists (zdrop m b2). rewrite <-(ztake_zdrop m b2), <-app_assoc in D2.
    apply app_split_len in D2 as [Ht Hr].
    - split; [|done]. rewrite <-(ztake_zdrop m b2) at 1. rewrite Ht. by rewrite <-app_assoc.
    - rewrite len_ztake by lia. rewrite len_app. change (len hdr) with 5. unfold m. lia. }
  unfold slice. rewrite (get_range_app hdr payload z) by done. cbn [expect rbind].
  replace (get_range (hdr ++ payload ++ z) m _) with (get_from ((hdr ++ payload) ++ z) m)
    by (unfold get_from; by rewrite <-!app_assoc).
  rewrite get_from_app by (rewrite len_app; done). cbn [expect rbind]. eauto.
Qed.

(** What a record read says about the stream. *)
Lemma reader_next_sound buf inp r :
  reader_next buf inp = r →
  match r with
  | Ok (ct, hdr, payload, buf', inp') =>
      ∃ v0 v1 h3 h4, hdr = [ct; v0; v1; h3; h4] ∧ u16_of h3 h4 = len payload ∧
        len payload ≤ MAX_TLS_RECORD ∧
        buf ++ avail inp = hdr ++ payload ++ buf' ++ avail inp'
  | Err _ => True
  | Panic => False
  end.
Proof.
  intros <-. destruct (decide (5 ≤ len (buf ++ avail inp))) as [H5|H5].
  2:{ unfold reader_next. destruct (fill_spec 5 hs_eof_header buf inp) as [_ F].
      by destruct F as [->| ->]; [lia|..]. }
  remember (buf ++ avail inp) as data eqn:Hd.
  do 5 (destruct data as [|? data]; [unfold len in H5; cbn in H5; lia|]).
  rename b into ct, b0 into v0, b1 into v1, b2 into h3, b3 into h4.
  pose proof (u16_of_range h3 h4) as Hr16.
  destruct (decide (u16_of h3 h4 ≤ MAX_TLS_RECORD)) as [Hm|Hm].
  - destruct (decide (u16_of h3 h4 ≤ len data)) as [Hl|Hl].
    + destruct (reader_next_record buf inp ct v0 v1 h3 h4 (ztake (u16_of h3 h4) data) (zdrop (u16_of h3 h4) data))
        as (b' & i' & -> & Hrest).
      * rewrite ztake_zdrop, <-Hd. done.
      * rewrite len_ztake; ulia.
      * rewrite len_ztake; ulia.
      * exists v0, v1, h3, h4. rewrite Hrest, ztake_zdrop, len_ztake by ulia. done.
    + unfold reader_next. destruct (fill_spec 5 hs_eof_header buf inp) as [F _].
      destruct F as (b1 & i1 & -> & L1 & D1); [by rewrite <-Hd|]. cbn [rbind].
      rewrite (header_of b1 (avail i1) ct v0 v1 h3 h4 data L1) by (rewrite D1, <-Hd; done). cbn [rbind].
      change (idx [ct; v0; v1; h3; h4] 3) with (Ok (E:=ClientError) h3).
      change (idx [ct; v0; v1; h3; h4] 4) with (Ok (E:=ClientError) h4). cbn [rbind].
      rewrite bool_decide_eq_false_2 by lia.
      destruct (fill_spec (5 + u16_of h3 h4) hs_eof_body b1 i1) as [_ F2].
      destruct F2 as [->| ->]; [rewrite D1, <-Hd; llia|done..].
  - unfold reader_next. destruct (fill_spec 5 hs_eof_header buf inp) as [F _].
    destruct F as (b1 & i1 & -> & L1 & D1); [by rewrite <-Hd|]. cbn [rbind].
    rewrite (header_of b1 (avail i1) ct v0 v1 h3 h4 data L1) by (rewrite D1, <-Hd; done). cbn [rbind].
    change (idx [ct; v0; v1; h3; h4] 3) with (Ok (E:=ClientError) h3).
    change (idx [ct; v0; v1; h3; h4] 4) with (Ok (E:=ClientError) h4). cbn [rbind].
    rewrite bool_decide_eq_true_2 by lia. done.
Qed.

(** ** Streams of records *)

(** [k] calls of [next] in a row. *)
Fixpoint reader_nexts (k : nat) (buf : list byte) (inp : input)
  : res ClientError (list (byte * list byte * list byte) * list byte * input) :=
  match k with
  | O => Ok ([], buf, inp)
  | S k =>
      let? ' (ct, header, payload, buf, inp) := reader_next buf inp in
      let? ' (rs, buf, inp) := reader_nexts k buf inp in
      Ok ((ct, header, payload) :: rs, buf, inp)
  end.

(** A record as [next] returns it: its type is the header's first byte, its length the header's
    length field. *)
Definition is_record (r : byte * list byte * list byte) : Prop :=
  let '(ct, header, payload) := r in
  ∃ v0 v1 h3 h4, header = [ct; v0; v1; h3; h4] ∧ u16_of h3 h4 = len payload ∧
    len payload ≤ MAX_TLS_RECORD.

Definition record_bytes (r : byte * list byte * list byte) : list byte :=
  let '(_, header, payload) := r in header ++ payload.

Lemma reader_nexts_spec rs buf inp more :
  Forall is_record rs → buf ++ avail inp = concat (record_bytes <$> rs) ++ more →
  ∃ buf' inp', reader_nexts (length rs) buf inp = Ok (rs, buf', inp') ∧ buf' ++ avail inp' = more.
Proof.
  intros Hrs. revert buf inp. induction Hrs as [|[[ct header] payload] rs Hr Hrs IH]; intros buf inp Hd.
  - exists buf, inp. done.
  - destruct Hr as (v0 & v1 & h3 & h4 & -> & Hu & Hm).
    destruct (reader_next_record buf inp ct v0 v1 h3 h4 payload (concat (record_bytes <$> rs) ++ more))
      as (b1 & i1 & E1 & D1); [by rewrite Hd; cbn; rewrite <-!app_assoc|done..|].
    destruct (IH b1 i1 D1) as (b2 & i2 & E2 & D2). exists b2, i2. cbn [length reader_nexts].
    rewrite E1. cbn [rbind]. rewrite E2. done.
Qed.

(** ** Properties *)

(** The handshake reassembler does not depend on how the bytes arrive: whatever chunks a
    sequence of messages followed by an unfinished one is cut into, pushing the chunks yields
    exactly the messages, in order, and keeps exactly the unfinished tail; and whatever chunks are
    pushed, the messages and the buffer together are all the bytes pushed. *)
Theorem reassembly_any_chunking chunks out rest :
  reasm_push_all [] chunks = (out, rest) ↔
  concat out ++ rest = concat chunks ∧ Forall is_message out ∧ incomplete rest.
Proof.
  rewrite push_all_cut by apply incomplete_nil. cbn [app]. split.
  - intros E. destruct (cut_sound _ _ _ _ E) as [Hc Hf].
    split_and!; [done..|]. by eapply cut_rest_incomplete; [|exact E].
  - intros (Hc & Hf & Hr). rewrite <-Hc. by apply cut_unique.
Qed.

(** The record reader does not depend on how the TCP stream is split into reads: a stream
    that carries well-formed records is read back record by record, and every byte behind the
    records is still there, in the buffer or in the stream. *)
Theorem reader_any_chunking rs inp more :
  Forall is_record rs → avail inp = concat (record_bytes <$> rs) ++ more →
  ∃ buf' inp', reader_nexts (length rs) [] inp = Ok (rs, buf', inp') ∧ buf' ++ avail inp' = more.
Proof. intros Hrs Hd. by apply reader_nexts_spec. Qed.

Lemma reader_any_chunking_witness :
  ∃ buf' inp',
    reader_nexts 2 [] [Some [x16; x03]; Some [x03; x00; x01; xaa; x14]; Some [x03; x03; x00; x00; xff]]
    = Ok ([(x16, [x16; x03; x03; x00; x01], [xaa]); (x14, [x14; x03; x03; x00; x00], [])], buf', inp') ∧
    buf' ++ avail inp' = [xff].
Proof.
  apply (reader_any_chunking
    [(x16, [x16; x03; x03; x00; x01], [xaa]); (x14, [x14; x03; x03; x00; x00], [])]
    [Some [x16; x03]; Some [x03; x00; x01; xaa; x14]; Some [x03; x03; x00; x00; xff]] [xff]).
  - repeat constructor; do 4 eexists; (split; [reflexivity|]); split; vm_compute; congruence.
  - reflexivity.
Defined.
