(* ===== verification/Handshake.v ===== *)
(** * Handshake: the TLS 1.3 handshake driver [drive] of [src/reality/handshake.rs]

    The stream is the input of [Reassembly] together with a write side: [io_writes] says which of
    the coming writes and flushes succeed (a missing entry is a success), [io_out] is everything
    written.  The certificate check [verify_cert] is the parameter it is in the source.  The flight
    loop runs on fuel; each turn consumes a record of at least five bytes, so one more than the
    number of bytes the stream holds is enough.  Running out of fuel is [Panic], which
    [drive_total] excludes. *)

From S2P Require Import Prelude Shared Crypto Record Auth KeySchedule ServerHello Reassembly.

(** ** I/O as explicit state *)

Record io := mk_io {
  io_in : input;
  io_writes : list bool;
  io_out : list byte
}.

Definition M (A : Type) : Type := sm io ClientError A.

(** [stream.write_all(data)] and [stream.flush()] with their errors mapped by [io_err]. *)
Definition write_all (data : list byte) : M unit := λ s,
  match io_writes s with
  | false :: w => (mk_io (io_in s) w (io_out s), Err (Reality hs_io))
  | true :: w => (mk_io (io_in s) w (io_out s ++ data), Ok tt)
  | [] => (mk_io (io_in s) [] (io_out s ++ data), Ok tt)
  end.
Definition flush : M unit := write_all [].

(** [reader.next(stream)] *)
Definition next (buf : list byte) : M (byte * list byte * list byte * list byte) := λ s,
  match reader_next buf (io_in s) with
  | Ok (ct, header, payload, buf, inp) =>
      (mk_io inp (io_writes s) (io_out s), Ok (ct, header, payload, buf))
  | Err e => (s, Err e)
  | Panic => (s, Panic)
  end.

Definition plain_record (content_type : byte) (version : Z) (body : list byte) : list byte :=
  content_type :: be16 version ++ be16 (as_u16 (len body)) ++ body.

Definition write_record (content_type : byte) (version : Z) (body : list byte) : M unit :=
  if bool_decide (len body > MAX_TLS_PLAINTEXT) then mlift (Err (Reality hs_plaintext_too_long))
  else write_all (plain_record content_type version body).

(** ** The driver *)

Record HandshakeInput := mk_HandshakeInput {
  hi_client_hello : list byte;
  hi_client_eph_secret : list byte;
  hi_expected_session_id : list byte
}.

Record HandshakeOutput := mk_HandshakeOutput {
  ho_recv_keys : RecordKeys;
  ho_send_keys : RecordKeys;
  ho_leftover : list byte;
  ho_s_ap_secret : list byte;
  ho_c_ap_secret : list byte
}.

Definition CLIENT_CCS : list byte := [x14; x03; x03; x00; x01; x01].

(** What one batch of reassembled messages does to the flight: go on, or leave the loop with the
    transcript up to and including the server's Finished. *)
Inductive flight_flow : Type :=
| FlightGo (transcript : list byte) (cert_verified : bool)
| FlightDone (transcript : list byte).

Section drive.
Context `{C : Crypto}.
Context (verify_cert : list byte → res ClientError unit).

(** The [match msg[0]] of the flight loop. *)
Definition flight_message (s_hs transcript : list byte) (cert_verified : bool) (msg : list byte)
  : res ClientError flight_flow :=
  let? t := idx msg 0 in
  match t with
  | x08 => Ok (FlightGo (transcript ++ msg) cert_verified)
  | x0b => let? _ := verify_cert msg in Ok (FlightGo (transcript ++ msg) true)
  | x0f => Ok (FlightGo (transcript ++ msg) cert_verified)
  | x14 =>
      require cert_verified else Reality hs_no_verified_cert in
      let th := transcript_hash [transcript] in
      let? expected := compute_finished_verify_data s_hs th in
      let? got := ok_or (Reality hs_finished_truncated) (get_from msg 4) in
      if bool_decide (got ≠ expected) then Err (Reality hs_finished_mac)
      else Ok (FlightDone (transcript ++ msg))
  | _ => Err (Reality hs_unexpected_message)
  end.

Fixpoint flight_messages (s_hs transcript : list byte) (cert_verified : bool) (msgs : list (list byte))
  : res ClientError flight_flow :=
  match msgs with
  | [] => Ok (FlightGo transcript cert_verified)
  | msg :: msgs =>
      let? f := flight_message s_hs transcript cert_verified msg in
      match f with
      | FlightGo transcript cert_verified => flight_messages s_hs transcript cert_verified msgs
      | FlightDone transcript => Ok (FlightDone transcript)
      end
  end.

(** ['outer: loop]: returns the transcript and the reader's buffer. *)
Fixpoint flight_loop (fuel : nat) (s_hs : list byte) (buf reasm : list byte) (recv : RecordKeys)
    (transcript : list byte) (cert_verified : bool) : M (list byte * list byte) :=
  match fuel with
  | O => mlift Panic
  | S fuel =>
      let! ' (ct, hdr, payload, buf) := next buf in
      match ct with
      | x14 => flight_loop fuel s_hs buf reasm recv transcript cert_verified
      | x17 =>
          let! ' (inner_type, content, recv) := mlift (open recv hdr payload) in
          if bool_decide (inner_type ≠ x16) then mlift (Err (Reality hs_inner_not_handshake)) else
          let '(msgs, reasm) := reasm_push reasm content in
          let! f := mlift (flight_messages s_hs transcript cert_verified msgs) in
          match f with
          | FlightGo transcript cert_verified =>
              flight_loop fuel s_hs buf reasm recv transcript cert_verified
          | FlightDone transcript => mlift (Ok (transcript, buf))
          end
      | _ => mlift (Err (Reality hs_unexpected_record))
      end
  end.

(** Fuel for the flight loop: the bytes still to come, and one. *)
Definition flight_fuel (buf : list byte) : M nat := λ s, (s, Ok (S (length (buf ++ avail (io_in s))))).

Definition drive (i : HandshakeInput) : M HandshakeOutput :=
  let! _ := write_record x16 769 (hi_client_hello i) in
  let! _ := write_all CLIENT_CCS in
  let! _ := flush in
  let transcript := hi_client_hello i in
  let! ' (ct, _, sh_msg, buf) := next [] in
  if bool_decide (ct ≠ x16) then mlift (Err (Reality hs_first_not_handshake)) else
  let! sh := mlift (parse_server_hello sh_msg (hi_expected_session_id i)) in
  let transcript := transcript ++ sh_msg in
  let ecdhe := x25519_shared_secret (hi_client_eph_secret i) (ps_server_key_share sh) in
  let! hs := mlift (derive_handshake_keys ecdhe (hi_client_hello i) sh_msg) in
  let recv := record_keys_new (hk_server_key hs) (hk_server_iv hs) in
  let send_hs := record_keys_new (hk_client_key hs) (hk_client_iv hs) in
  let! fuel := flight_fuel buf in
  let! ' (transcript, buf) := flight_loop fuel (hk_s_hs_secret hs) buf [] recv transcript false in
  let th_sfin := transcript_hash [transcript] in
  let! cfin := mlift (compute_finished_verify_data (hk_c_hs_secret hs) th_sfin) in
  let fin_msg := [x14; x00; x00; x20] ++ cfin in
  let! ' (fin_record, _) := mlift (seal send_hs x16 fin_msg) in
  let! _ := write_all fin_record in
  let! _ := flush in
  let! app := mlift (derive_application_keys (hk_handshake_secret hs) th_sfin) in
  mlift (Ok (mk_HandshakeOutput
    (record_keys_new (ak_server_key app) (ak_server_iv app))
    (record_keys_new (ak_client_key app) (ak_client_iv app))
    buf (ak_s_ap_secret app) (ak_c_ap_secret app))).

(** ** The flight as a whole *)

(** A message the flight may carry before Finished; a Certificate must pass the check. *)
Definition flight_ok (msg : list byte) : Prop :=
  head msg = Some x08 ∨ head msg = Some x0f ∨ (head msg = Some x0b ∧ verify_cert msg = Ok tt).

Definition is_cert (msg : list byte) : Prop := head msg = Some x0b ∧ verify_cert msg = Ok tt.

(** The handshake bytes that a sequence of records carries: ChangeCipherSpec records are skipped,
    the others are opened in sequence and carry handshake content. *)
Fixpoint flight_contents (recv : RecordKeys) (recs : list (byte * list byte * list byte))
  : res ClientError (list (list byte)) :=
  match recs with
  | [] => Ok []
  | (ct, hdr, payload) :: recs =>
      if bool_decide (ct = x14) then flight_contents recv recs else
      if bool_decide (ct ≠ x17) then Err (Reality hs_unexpected_record) else
      let? ' (inner_type, content, recv) := open recv hdr payload in
      if bool_decide (inner_type ≠ x16) then Err (Reality hs_inner_not_handshake) else
      let? cs := flight_contents recv recs in
      Ok (content :: cs)
  end.

(** [fin] is the server's Finished over the transcript [tr]. *)
Definition finished_ok (s_hs tr fin : list byte) : Prop :=
  head fin = Some x14 ∧ compute_finished_verify_data s_hs (transcript_hash [tr]) = Ok (zdrop 4 fin).

(** ** Lemmas on messages *)

Lemma flight_message_cases s_hs tr cv msg f :
  flight_message s_hs tr cv msg = Ok f →
  (flight_ok msg ∧ ∃ cv', f = FlightGo (tr ++ msg) cv' ∧ (cv' = true → cv = true ∨ is_cert msg)) ∨
  (cv = true ∧ finished_ok s_hs tr msg ∧ f = FlightDone (tr ++ msg)).
Proof.
  unfold flight_message. destruct msg as [|t body]; [done|].
  change (idx (t :: body) 0) with (Ok (E:=ClientError) t). cbn [rbind].
  destruct t; try discriminate; intros H.
  - injection H as <-. left. split; [by left|]. eexists. split; [done|]. by left.
  - destruct (verify_cert _) as [[]| |] eqn:Ev; try discriminate. injection H as <-. left.
    split; [by right; right|]. eexists. split; [done|]. intros _. by right.
  - injection H as <-. left. split; [by right; left|]. eexists. split; [done|]. by left.
  - destruct cv; [|done]. right. inv_res. case_bool_decide as Hm; [done|]. inv_res.
    split_and!; [done| |done]. split; [done|]. rewrite Heqr. f_equal.
    unfold get_from in Heqo. apply get_range_Some in Heqo as (? & ? & ->). rewrite <-Hm.
    unfold zdrop. rewrite take_ge; [done|]. rewrite length_drop. unfold len. lia.
Qed.

Lemma flight_messages_sound s_hs tr cv msgs f :
  flight_messages s_hs tr cv msgs = Ok f →
  match f with
  | FlightGo tr' cv' => tr' = tr ++ concat msgs ∧ Forall flight_ok msgs ∧
      (cv' = true → cv = true ∨ Exists is_cert msgs)
  | FlightDone tr' => ∃ m1 fin m2, msgs = m1 ++ fin :: m2 ∧ Forall flight_ok m1 ∧
      (cv = true ∨ Exists is_cert m1) ∧ finished_ok s_hs (tr ++ concat m1) fin ∧
      tr' = tr ++ concat m1 ++ fin
  end.
Proof.
  revert tr cv. induction msgs as [|msg msgs IH]; intros tr cv; cbn [flight_messages].
  - intros [= <-]. rewrite app_nil_r. split_and!; [done|constructor|by left].
  - destruct (flight_message s_hs tr cv msg) as [g| |] eqn:Em; try discriminate. cbn [rbind].
    apply flight_message_cases in Em as [(Hok & cv' & -> & Hcv)|(-> & Hfin & ->)]; intros Hm.
    + specialize (IH _ _ Hm). destruct f as [tr' cv2|tr'].
      * destruct IH as (-> & Hall & Hc). cbn. rewrite <-app_assoc.
        split_and!; [done|by constructor|]. intros H2. destruct (Hc H2) as [H3|H3]; [|by right; right].
        destruct (Hcv H3); [by left|by right; left].
      * destruct IH as (m1 & fin & m2 & -> & Hall & Hc & Hf & ->). rewrite <-app_assoc in Hf.
        exists (msg :: m1), fin, m2. cbn. rewrite <-!app_assoc. split_and!; [done|by constructor| |done|done].
        destruct Hc as [H3|H3]; [|by right; right]. destruct (Hcv H3); [by left|by right; left].
    + injection Hm as <-. exists [], msg, msgs. cbn. rewrite app_nil_r.
      split_and!; [done|constructor|by left|done..].
Qed.

Lemma flight_messages_Go s_hs tr cv msgs :
  Forall flight_ok msgs →
  ∃ cv', flight_messages s_hs tr cv msgs = Ok (FlightGo (tr ++ concat msgs) cv') ∧
    (cv = true ∨ Exists is_cert msgs → cv' = true).
Proof.
  intros Hall. revert tr cv. induction Hall as [|msg msgs Hm Hall IH]; intros tr cv.
  - exists cv. cbn. rewrite app_nil_r. split; [done|]. intros [?|H]; [done|by inversion H].
  - cbn [flight_messages concat].
    assert (∃ cv1, flight_message s_hs tr cv msg = Ok (FlightGo (tr ++ msg) cv1) ∧
      (cv = true ∨ is_cert msg → cv1 = true)) as (cv1 & -> & H1).
    { destruct msg as [|t body]; [by destruct Hm as [?|[?|[? _]]]|]. unfold flight_message, is_cert.
      change (idx (t :: body) 0) with (Ok (E:=ClientError) t). cbn [rbind head].
      destruct Hm as [[= ->]|[[= ->]|[[= ->] Hv]]].
      - exists cv. split; [done|]. intros [?|[? _]]; done.
      - exists cv. split; [done|]. intros [?|[? _]]; done.
      - rewrite Hv. by exists true. }
    cbn [rbind]. destruct (IH (tr ++ msg) cv1) as (cv2 & -> & H2). exists cv2.
    rewrite <-app_assoc. split; [done|]. intros [?|[?|?]%Exists_cons]; apply H2; auto.
Qed.

Lemma flight_messages_app s_hs tr cv m1 m2 tr1 cv1 :
  flight_messages s_hs tr cv m1 = Ok (FlightGo tr1 cv1) →
  flight_messages s_hs tr cv (m1 ++ m2) = flight_messages s_hs tr1 cv1 m2.
Proof.
  revert tr cv. induction m1 as [|m m1 IH]; intros tr cv; cbn [app flight_messages].
  - by intros [= -> ->].
  - destruct (flight_message s_hs tr cv m) as [[tr2 cv2|tr2]| |]; try discriminate. cbn [rbind]. apply IH.
Qed.

Lemma flight_messages_Done s_hs tr cv msgs fin :
  Forall flight_ok msgs → cv = true ∨ Exists is_cert msgs → is_message fin →
  finished_ok s_hs (tr ++ concat msgs) fin →
  flight_messages s_hs tr cv (msgs ++ [fin]) = Ok (FlightDone (tr ++ concat msgs ++ fin)).
Proof.
  intros Hall Hcert Hmsg [Hh Hf]. destruct (flight_messages_Go s_hs tr cv msgs Hall) as (cv' & E & Hcv).
  rewrite (flight_messages_app _ _ _ _ _ _ _ E), Hcv by done.
  destruct Hmsg as (t & a & b & c & body & -> & _). injection Hh as ->.
  cbn [flight_messages]. unfold flight_message.
  change (idx (x14 :: a :: b :: c :: body) 0) with (Ok (E:=ClientError) x14). cbn [rbind].
  rewrite Hf. cbn [rbind].
  change (x14 :: a :: b :: c :: body) with ([x14; a; b; c] ++ body).
  rewrite get_from_app by done. cbn [ok_or rbind]. rewrite zdrop_app by done.
  rewrite bool_decide_eq_false_2 by (intros H; by apply H). by rewrite <-app_assoc.
Qed.

(** ** Lemmas on the loop *)

Lemma next_Ok buf s s' ct hdr payload buf' :
  next buf s = (s', Ok (ct, hdr, payload, buf')) →
  is_record (ct, hdr, payload) ∧ io_out s' = io_out s ∧ io_writes s' = io_writes s ∧
  buf ++ avail (io_in s) = record_bytes (ct, hdr, payload) ++ buf' ++ avail (io_in s').
Proof.
  unfold next. intros H. pose proof (reader_next_sound buf (io_in s) _ eq_refl) as Hs.
  destruct (reader_next buf (io_in s)) as [[[[[ct' hdr'] p'] b'] inp']| |]; try discriminate.
  injection H as <- <- <- <- <-. destruct Hs as (v0 & v1 & h3 & h4 & -> & Hu & Hm & Hd).
  split_and!; [by exists v0, v1, h3, h4|done|done|]. rewrite Hd. cbn [record_bytes]. by rewrite <-app_assoc.
Qed.

Lemma next_record ct hdr payload more buf s :
  is_record (ct, hdr, payload) → buf ++ avail (io_in s) = record_bytes (ct, hdr, payload) ++ more →
  ∃ buf' inp', next buf s = (mk_io inp' (io_writes s) (io_out s), Ok (ct, hdr, payload, buf')) ∧
    buf' ++ avail inp' = more.
Proof.
  intros (v0 & v1 & h3 & h4 & -> & Hu & Hm) Hd. cbn [record_bytes] in Hd. rewrite <-app_assoc in Hd.
  destruct (reader_next_record buf (io_in s) ct v0 v1 h3 h4 payload more Hd Hu Hm) as (b' & i' & E & Hr).
  exists b', i'. unfold next. by rewrite E.
Qed.

(** What the loop has seen when it ends in success. *)
Definition flight_seen (s_hs tr : list byte) (cv : bool) (reasm : list byte) (recv : RecordKeys)
    (recs : list (byte * list byte * list byte)) (tr' : list byte) : Prop :=
  ∃ contents msgs fin tail,
    flight_contents recv recs = Ok contents ∧
    reasm ++ concat contents = concat msgs ++ fin ++ tail ∧
    Forall is_message (msgs ++ [fin]) ∧ Forall flight_ok msgs ∧
    (cv = true ∨ Exists is_cert msgs) ∧ finished_ok s_hs (tr ++ concat msgs) fin ∧
    tr' = tr ++ concat msgs ++ fin.

Lemma flight_contents_cons recv ct hdr payload recs content recv' :
  ct = x17 → open recv hdr payload = Ok (x16, content, recv') →
  flight_contents recv ((ct, hdr, payload) :: recs)
  = (let? cs := flight_contents recv' recs in Ok (content :: cs)).
Proof. intros -> E. cbn [flight_contents]. rewrite !bool_decide_eq_false_2 by congruence. by rewrite E. Qed.

(** The loop's three outcomes for one record. *)
Lemma flight_turn fuel s_hs buf reasm recv tr cv s s' r :
  flight_loop (S fuel) s_hs buf reasm recv tr cv s = (s', Ok r) →
  ∃ s1 ct hdr payload buf1, next buf s = (s1, Ok (ct, hdr, payload, buf1)) ∧
    ((ct = x14 ∧ flight_loop fuel s_hs buf1 reasm recv tr cv s1 = (s', Ok r)) ∨
     (ct = x17 ∧ ∃ content recv1 msgs reasm1 f, open recv hdr payload = Ok (x16, content, recv1) ∧
       reasm_push reasm content = (msgs, reasm1) ∧ flight_messages s_hs tr cv msgs = Ok f ∧
       match f with
       | FlightGo tr1 cv1 => flight_loop fuel s_hs buf1 reasm1 recv1 tr1 cv1 s1 = (s', Ok r)
       | FlightDone tr1 => s' = s1 ∧ r = (tr1, buf1)
       end)).
Proof.
  cbn [flight_loop]. unfold mthen at 1. destruct (next buf s) as [s1 [[[[ct hdr] payload] buf1]| |]]; try discriminate.
  intros H. exists s1, ct, hdr, payload, buf1. split; [done|].
  destruct ct; try discriminate; [by left|]. right. split; [done|]. unfold mthen, mlift in H.
  destruct (open recv hdr payload) as [[[it content] recv1]| |]; try discriminate.
  case_bool_decide as Hit; [discriminate|]. subst it.
  destruct (reasm_push reasm content) as [msgs reasm1] eqn:Ep.
  destruct (flight_messages s_hs tr cv msgs) as [f| |] eqn:Ef; try discriminate.
  exists content, recv1, msgs, reasm1, f. split_and!; [done..|]. destruct f; [done|].
  by injection H as <- <-.
Qed.

Lemma flight_loop_sound fuel s_hs buf reasm recv tr cv s s' tr' buf' :
  flight_loop fuel s_hs buf reasm recv tr cv s = (s', Ok (tr', buf')) → incomplete reasm →
  io_out s' = io_out s ∧ io_writes s' = io_writes s ∧
  ∃ recs, Forall is_record recs ∧
    buf ++ avail (io_in s) = concat (record_bytes <$> recs) ++ buf' ++ avail (io_in s') ∧
    flight_seen s_hs tr cv reasm recv recs tr'.
Proof.
  revert buf reasm recv tr cv s. induction fuel as [|fuel IH]; intros buf reasm recv tr cv s; [done|].
  intros (s1 & ct & hdr & payload & buf1 & En & Hturn)%flight_turn Hinc.
  apply next_Ok in En as (Hrec & Ho & Hw & Hd).
  destruct Hturn as [[-> Hloop]|(-> & content & recv1 & msgs & reasm1 & f & Eo & Ep & Ef & Hf)].
  - destruct (IH _ _ _ _ _ _ Hloop Hinc) as (Ho' & Hw' & recs & Hrs & Hd' & Hseen).
    split_and!; [congruence..|]. exists ((x14, hdr, payload) :: recs).
    split_and!; [by constructor| |done]. rewrite Hd, Hd'. cbn [fmap list_fmap concat]. by rewrite <-app_assoc.
  - unfold reasm_push in Ep. destruct (cut_sound _ _ _ _ Ep) as [Hc Hmsg].
    assert (incomplete reasm1) as Hinc1 by (eapply cut_rest_incomplete; [|exact Ep]; done).
    apply flight_messages_sound in Ef. destruct f as [tr1 cv1|tr1].
    + destruct Ef as (-> & Hall & Hcv).
      destruct (IH _ _ _ _ _ _ Hf Hinc1) as (Ho' & Hw' & recs & Hrs & Hd' & Hseen).
      split_and!; [congruence..|]. exists ((x17, hdr, payload) :: recs). split_and!; [by constructor| |].
      { rewrite Hd, Hd'. cbn [fmap list_fmap concat]. by rewrite <-app_assoc. }
      destruct Hseen as (cs & m2 & fin & tail & Ec & Hb & Hm2 & Hok2 & Hc2 & Hfin & ->).
      exists (content :: cs), (msgs ++ m2), fin, tail.
      rewrite (flight_contents_cons _ _ _ _ _ content recv1), Ec by done.
      rewrite concat_app, !Forall_app in *. cbn [concat]. split_and!; try done.
      * rewrite app_assoc, <-Hc, <-!app_assoc, Hb. done.
      * apply Hm2.
      * apply Hm2.
      * rewrite Exists_app. destruct Hc2 as [H|H]; [|by auto]. destruct (Hcv H); auto.
      * by rewrite app_assoc.
      * by rewrite <-!app_assoc.
    + destruct Hf as [-> [= -> ->]]. destruct Ef as (m1 & fin & m2 & -> & Hall & Hcv & Hfin & ->).
      split_and!; [done..|]. exists [(x17, hdr, payload)]. split_and!; [by constructor| |].
      { rewrite Hd. cbn. by rewrite app_nil_r. }
      exists [content], m1, fin, (concat m2 ++ reasm1).
      rewrite (flight_contents_cons _ _ _ _ _ content recv1) by done. cbn [concat rbind].
      rewrite app_nil_r, <-Hc, !concat_app. cbn [concat]. rewrite <-!app_assoc.
      apply Forall_app in Hmsg as [? Hm2]. apply Forall_cons in Hm2 as [? _].
      split_and!; try done. apply Forall_app. split; [done|]. by constructor.
Qed.

Lemma push_all_nil buf chunks out : incomplete buf → reasm_push_all buf chunks = (out, []) → concat out = buf ++ concat chunks.
Proof.
  intros Hinc. rewrite push_all_cut by done. intros [Hc _]%cut_sound. by rewrite app_nil_r in Hc.
Qed.

(** The last record is a sealed one. *)
Definition ends_sealed (recs : list (byte * list byte * list byte)) : Prop := last (recs.*1.*1) = Some x17.

Lemma ends_sealed_contents recv recs contents :
  ends_sealed recs → flight_contents recv recs = Ok contents → contents ≠ [].
Proof.
  unfold ends_sealed. revert recv contents. induction recs as [|[[ct hdr] p] recs IH]; intros recv contents; [done|].
  cbn [fmap list_fmap fst flight_contents]. rewrite last_cons. intros Hl.
  case_bool_decide as H14.
  - apply IH. destruct (last (recs.*1.*1)) eqn:E; [congruence|]. subst. discriminate.
  - case_bool_decide; [done|]. intros E.
    destruct (open recv hdr p) as [[[it c] k]| |]; try discriminate. cbn [rbind] in E.
    case_bool_decide; [done|]. inv_res. done.
Qed.

Lemma flight_loop_complete recs fuel s_hs buf reasm recv tr cv s contents c msgs fin more :
  (length recs ≤ fuel)%nat → Forall is_record recs →
  buf ++ avail (io_in s) = concat (record_bytes <$> recs) ++ more →
  flight_contents recv recs = Ok contents → ends_sealed recs → last contents = Some c → c ≠ [] →
  incomplete reasm → reasm_push_all reasm contents = (msgs ++ [fin], []) →
  Forall flight_ok msgs → cv = true ∨ Exists is_cert msgs → is_message fin →
  finished_ok s_hs (tr ++ concat msgs) fin →
  ∃ buf' inp', flight_loop fuel s_hs buf reasm recv tr cv s
    = (mk_io inp' (io_writes s) (io_out s), Ok (tr ++ concat msgs ++ fin, buf')) ∧ buf' ++ avail inp' = more.
Proof.
  intros Hfuel Hrs. revert fuel buf reasm recv tr cv s contents msgs Hfuel.
  induction Hrs as [|[[ct hdr] payload] recs Hr Hrs IH];
    intros fuel buf reasm recv tr cv s contents msgs Hfuel Hd Ec Hend Hlast Hne Hinc Hpush Hok Hcert Hmf Hfin; [done|].
  destruct fuel as [|fuel]; [cbn in Hfuel; lia|]. cbn in Hfuel.
  cbn [fmap list_fmap concat] in Hd. rewrite <-app_assoc in Hd.
  destruct (next_record _ _ _ _ _ _ Hr Hd) as (b1 & i1 & En & D1). cbn [flight_loop]. unfold mthen at 1. rewrite En.
  set (s1 := mk_io i1 (io_writes s) (io_out s)).
  unfold ends_sealed in Hend. cbn [fmap list_fmap fst] in Hend. rewrite last_cons in Hend.
  cbn [flight_contents] in Ec. case_bool_decide as H14.
  { subst ct. destruct (last (recs.*1.*1)) as [y|] eqn:El; [|discriminate].
    eapply (IH fuel b1 reasm recv tr cv s1); eauto; [lia|]. unfold ends_sealed. congruence. }
  case_bool_decide as H17; [done|]. subst ct. cbv iota.
  destruct (open recv hdr payload) as [[[it content] recv1]| |] eqn:Eo; try discriminate. cbn [rbind] in Ec.
  case_bool_decide as Hit; [done|]. subst it. unfold mthen, mlift. rewrite bool_decide_eq_false_2 by (intros H; by apply H).
  destruct (flight_contents recv1 recs) as [cs| |] eqn:Ecs; try discriminate. injection Ec as <-.
  cbn [reasm_push_all] in Hpush. destruct (reasm_push reasm content) as [out reasm1] eqn:Ep.
  destruct (reasm_push_all reasm1 cs) as [out' r'] eqn:Epa. injection Hpush as Hout ->.
  assert (incomplete reasm1) as Hinc1.
  { unfold reasm_push in Ep. eapply cut_rest_incomplete; [|exact Ep]. done. }
  destruct recs as [|r2 recs'].
  - injection Ecs as <-. injection Epa as <- ->. rewrite app_nil_r in Hout. subst out.
    rewrite flight_messages_Done by done. by exists b1, i1.
  - remember (r2 :: recs') as recs eqn:Hrecs.
    assert (ends_sealed recs) as Hend2.
    { unfold ends_sealed. destruct (last (recs.*1.*1)) eqn:El; [done|]. apply last_None in El. by rewrite Hrecs in El. }
    pose proof (ends_sealed_contents _ _ _ Hend2 Ecs) as Hcs.
    assert (last cs = Some c) as Hlast2.
    { rewrite last_cons in Hlast. destruct (last cs) eqn:El; [done|]. by apply last_None in El. }
    assert (∃ out'', out' = out'' ++ [fin] ∧ msgs = out ++ out'') as (out'' & -> & ->).
    { destruct out' as [|o out' _] using rev_ind.
      - apply push_all_nil in Epa; [|done]. symmetry in Epa. apply app_nil in Epa as [_ Hcc].
        apply last_Some in Hlast2 as [cs' ->]. rewrite concat_app in Hcc. apply app_nil in Hcc as [_ Hcc].
        cbn in Hcc. rewrite app_nil_r in Hcc. done.
      - exists out'. rewrite app_assoc in Hout. apply app_inj_tail in Hout as [<- <-]. done. }
    apply Forall_app in Hok as [Hok1 Hok2]. rewrite Exists_app in Hcert.
    destruct (flight_messages_Go s_hs tr cv out Hok1) as (cv' & -> & Hcv).
    rewrite concat_app, app_assoc in Hfin. rewrite concat_app, <-app_assoc, (app_assoc tr).
    eapply (IH fuel b1 reasm1 recv1 (tr ++ concat out) cv' s1); eauto; [lia|].
    destruct cv'; [by left|]. right. destruct Hcert as [H|[H|H]]; [..|done]; discriminate Hcv; auto.
Qed.

End drive.

(** ** Lemmas on the monad *)

Lemma write_all_Ok d s s' u :
  write_all d s = (s', Ok u) → io_in s' = io_in s ∧ io_out s' = io_out s ++ d.
Proof. unfold write_all. destruct (io_writes s) as [|[] ?]; by intros [= <- _]. Qed.

Lemma write_all_nil d inp out : write_all d (mk_io inp [] out) = (mk_io inp [] (out ++ d), Ok tt).
Proof. done. Qed.

Lemma write_all_no_panic d s : (write_all d s).2 ≠ Panic.
Proof. unfold write_all. by destruct (io_writes s) as [|[] ?]. Qed.

Lemma write_record_Ok t v body s s' u :
  write_record t v body s = (s', Ok u) →
  len body ≤ MAX_TLS_PLAINTEXT ∧ io_in s' = io_in s ∧ io_out s' = io_out s ++ plain_record t v body.
Proof.
  unfold write_record. case_bool_decide; [by intros [_ ?]%mlift_Ok|].
  intros H'%write_all_Ok. split; [lia|done].
Qed.

(** Take the next step of a successful run apart. *)
Tactic Notation "m_step" ident(H) "as" ident(s) ident(a) ident(E) :=
  apply mthen_Ok in H as (s & a & E & H);
  first [apply mlift_Ok in E as [-> E] | apply write_record_Ok in E as (? & ? & E)
        | apply write_all_Ok in E as (? & E) | idtac].

Section drive_facts.
Context `{C : Crypto, !CryptoLaws C}.
Context (verify_cert : list byte → res ClientError unit).

Lemma flight_message_no_panic s_hs tr cv msg :
  (∀ m, verify_cert m ≠ Panic) → msg ≠ [] → flight_message verify_cert s_hs tr cv msg ≠ Panic.
Proof.
  intros Hv Hne. unfold flight_message. destruct msg as [|t body]; [done|].
  change (idx (t :: body) 0) with (Ok (E:=ClientError) t). cbn [rbind].
  destruct t; try discriminate.
  - specialize (Hv (x0b :: body)). by destruct (verify_cert _).
  - destruct cv; [|done]. destruct (finished_Ok s_hs (transcript_hash [tr])) as (v & -> & _). cbn [rbind].
    destruct (get_from _ 4); [|done]. cbn. by case_bool_decide.
Qed.

Lemma flight_messages_no_panic s_hs tr cv msgs :
  (∀ m, verify_cert m ≠ Panic) → Forall is_message msgs → flight_messages verify_cert s_hs tr cv msgs ≠ Panic.
Proof.
  intros Hv Hall. revert tr cv. induction Hall as [|msg msgs Hm Hall IH]; intros tr cv; [done|].
  cbn [flight_messages]. pose proof (flight_message_no_panic s_hs tr cv msg Hv) as Hn.
  destruct (flight_message verify_cert s_hs tr cv msg) as [[]| |]; cbn; auto.
  destruct Hn; [|done]. destruct Hm as (t & a & b & c & body & -> & _). done.
Qed.

Lemma open_no_panic k hdr payload : rk_seq k + 1 < 2 ^ 64 →
  match open k hdr payload with
  | Ok (_, _, k') => rk_seq k' = rk_seq k + 1
  | Err _ => True
  | Panic => False
  end.
Proof.
  intros Hs. unfold open. destruct (aes128_decrypt _ _ _ _); [|done]. cbn [ok_or rbind].
  unfold bump_seq, checked_add_u64. rewrite bool_decide_eq_true_2 by done. cbn [expect rbind].
  by destruct (drop_zeros _).
Qed.

Lemma next_no_panic buf s : (next buf s).2 ≠ Panic.
Proof.
  unfold next. pose proof (reader_next_sound buf (io_in s) _ eq_refl) as Hs.
  by destruct (reader_next buf (io_in s)) as [[[[[]]]]| |].
Qed.

Lemma flight_loop_no_panic fuel s_hs buf reasm recv tr cv s :
  (∀ m, verify_cert m ≠ Panic) →
  len (buf ++ avail (io_in s)) < Z.of_nat fuel → rk_seq recv + Z.of_nat fuel < 2 ^ 64 →
  (flight_loop verify_cert fuel s_hs buf reasm recv tr cv s).2 ≠ Panic.
Proof.
  intros Hv. revert buf reasm recv tr cv s.
  induction fuel as [|fuel IH]; intros buf reasm recv tr cv s Hlen Hseq.
  { pose proof (len_nonneg (buf ++ avail (io_in s))). lia. }
  cbn [flight_loop]. apply mthen_no_panic; [apply next_no_panic|].
  intros s1 [[[ct hdr] payload] buf1] (Hr & _ & _ & Hd)%next_Ok.
  assert (len (buf1 ++ avail (io_in s1)) < Z.of_nat fuel) as Hlen1.
  { destruct Hr as (v0 & v1 & h3 & h4 & -> & _). cbn [record_bytes] in Hd.
    apply (f_equal len) in Hd. rewrite !len_app, !len_cons, len_nil in Hd. pose proof (len_nonneg payload).
    rewrite !len_app in *. lia. }
  destruct ct; try done; [apply IH; lia|]. cbv beta iota.
  pose proof (open_no_panic recv hdr payload ltac:(lia)) as Ho.
  apply mthen_no_panic; cbn; [by destruct (open recv hdr payload)|].
  intros s2 [[it content] recv1] [-> Eo]%mlift_Ok. rewrite Eo in Ho. case_bool_decide; [done|].
  destruct (reasm_push reasm content) as [msgs reasm1] eqn:Ep. apply cut_sound in Ep as [_ Hmsg].
  apply mthen_no_panic; cbn; [by apply flight_messages_no_panic|].
  intros s3 [tr1 cv1|tr1] [-> _]%mlift_Ok; [|done]. apply IH; lia.
Qed.
End drive_facts.

Section drive_theorems.
Context `{C : Crypto, !CryptoLaws C}.
Context (verify_cert : list byte → res ClientError unit).

(** The parts of a successful run. *)
Lemma drive_Ok i s s' out :
  drive verify_cert i s = (s', Ok out) →
  ∃ hdr sh_msg sh hs recs tr v fin_record k app,
    Forall is_record ((x16, hdr, sh_msg) :: recs) ∧
    parse_server_hello sh_msg (hi_expected_session_id i) = Ok sh ∧
    derive_handshake_keys (x25519 (hi_client_eph_secret i) (ps_server_key_share sh))
      (hi_client_hello i) sh_msg = Ok hs ∧
    avail (io_in s) = record_bytes (x16, hdr, sh_msg) ++ concat (record_bytes <$> recs)
      ++ ho_leftover out ++ avail (io_in s') ∧
    flight_seen verify_cert (hk_s_hs_secret hs) (hi_client_hello i ++ sh_msg) false []
      (record_keys_new (hk_server_key hs) (hk_server_iv hs)) recs tr ∧
    compute_finished_verify_data (hk_c_hs_secret hs) (transcript_hash [tr]) = Ok v ∧
    seal (record_keys_new (hk_client_key hs) (hk_client_iv hs)) x16 ([x14; x00; x00; x20] ++ v)
      = Ok (fin_record, k) ∧
    io_out s' = io_out s ++ plain_record x16 769 (hi_client_hello i) ++ CLIENT_CCS ++ fin_record ∧
    derive_application_keys (hk_handshake_secret hs) (transcript_hash [tr]) = Ok app ∧
    out = mk_HandshakeOutput
      (record_keys_new (ak_server_key app) (ak_server_iv app))
      (record_keys_new (ak_client_key app) (ak_client_iv app))
      (ho_leftover out) (ak_s_ap_secret app) (ak_c_ap_secret app).
Proof.
  unfold drive. intros H. m_step H as s1 u1 O1. m_step H as s2 u2 O2. m_step H as s3 u3 O3.
  m_step H as s4 rd En. destruct rd as [[[ct hdr] sh_msg] buf]. apply next_Ok in En as (Hrec & O4 & _ & D4).
  case_bool_decide as Hct; [by apply mlift_Ok in H as [_ ?]|]. subst ct.
  m_step H as s5 sh Esh. m_step H as s5 hs Ehs. m_step H as s5 fuel Ef.
  apply mthen_Ok in H as (s5 & [tr buf'] & El & H).
  apply flight_loop_sound in El as (O5 & _ & recs & Hrecs & D5 & Hseen); [|apply incomplete_nil].
  m_step H as s6 v Ev. m_step H as s6 fr Er. destruct fr as [fin_record k].
  m_step H as s6 u6 O6. m_step H as s7 u7 O7. m_step H as s8 app Ea.
  apply mlift_Ok in H as [-> [= <-]]. cbn [ho_leftover].
  exists hdr, sh_msg, sh, hs, recs, tr, v, fin_record, k, app. split_and!; try done; [by constructor| |].
  - replace (io_in s) with (io_in s3) by congruence. replace (io_in s7) with (io_in s5) by congruence.
    by rewrite <-D5.
  - rewrite O7, O6, O5, O4, O3, O2, O1, !app_nil_r. by rewrite <-!app_assoc.
Qed.

(** What a successful handshake read: [inp] is a ServerHello record that parsed, then records that
    open in sequence under the handshake keys [hs] of the exchange and carry exactly the messages
    [msgs] and the server's Finished [fin], whose MAC is correct over the transcript [tr] of all
    of them, then [rest].  Records and messages carry their own length ([is_record],
    [is_message]), so the cut is the one the bytes dictate. *)
Definition server_side (i : HandshakeInput) (inp rest : list byte) (hs : HsKeys) (tr : list byte)
    (msgs : list (list byte)) (fin : list byte) : Prop :=
  ∃ hdr sh_msg sh recs contents tail,
    inp = record_bytes (x16, hdr, sh_msg) ++ concat (record_bytes <$> recs) ++ rest ∧
    Forall is_record ((x16, hdr, sh_msg) :: recs) ∧
    parse_server_hello sh_msg (hi_expected_session_id i) = Ok sh ∧
    derive_handshake_keys (x25519 (hi_client_eph_secret i) (ps_server_key_share sh))
      (hi_client_hello i) sh_msg = Ok hs ∧
    flight_contents (record_keys_new (hk_server_key hs) (hk_server_iv hs)) recs = Ok contents ∧
    concat contents = concat msgs ++ fin ++ tail ∧ Forall is_message (msgs ++ [fin]) ∧
    tr = (hi_client_hello i ++ sh_msg) ++ concat msgs ∧
    finished_ok (hk_s_hs_secret hs) tr fin.

(** What it sent: ClientHello, ChangeCipherSpec, and the record sealed under the client's
    handshake keys of the Finished over the transcript, the server's Finished included. *)
Definition client_side (i : HandshakeInput) (hs : HsKeys) (tr fin sent : list byte) : Prop :=
  ∃ v fin_record k,
    compute_finished_verify_data (hk_c_hs_secret hs) (transcript_hash [tr ++ fin]) = Ok v ∧
    seal (record_keys_new (hk_client_key hs) (hk_client_iv hs)) x16 ([x14; x00; x00; x20] ++ v)
      = Ok (fin_record, k) ∧
    sent = plain_record x16 769 (hi_client_hello i) ++ CLIENT_CCS ++ fin_record.

Lemma drive_sides i s s' out :
  drive verify_cert i s = (s', Ok out) →
  ∃ hs tr msgs fin sent app,
    server_side i (avail (io_in s)) (ho_leftover out ++ avail (io_in s')) hs tr msgs fin ∧
    (∃ cert, cert ∈ msgs ∧ head cert = Some x0b) ∧
    (∀ cert, cert ∈ msgs → head cert = Some x0b → verify_cert cert = Ok tt) ∧
    client_side i hs tr fin sent ∧ io_out s' = io_out s ++ sent ∧
    derive_application_keys (hk_handshake_secret hs) (transcript_hash [tr ++ fin]) = Ok app ∧
    out = mk_HandshakeOutput
      (record_keys_new (ak_server_key app) (ak_server_iv app))
      (record_keys_new (ak_client_key app) (ak_client_iv app))
      (ho_leftover out) (ak_s_ap_secret app) (ak_c_ap_secret app).
Proof.
  intros (hdr & sh_msg & sh & hs & recs & tr & v & fin_record & k & app & Hrec & Esh & Ehs & Hd & Hseen
    & Ev & Es & Hout & Ea & Ho)%drive_Ok.
  destruct Hseen as (contents & msgs & fin & tail & Ec & Hb & Hm & Hok & Hcert & Hfin & ->).
  exists hs, ((hi_client_hello i ++ sh_msg) ++ concat msgs), msgs, fin,
    (plain_record x16 769 (hi_client_hello i) ++ CLIENT_CCS ++ fin_record), app.
  rewrite (app_assoc _ (concat msgs) fin) in *. split_and!.
  - exists hdr, sh_msg, sh, recs, contents, tail. by split_and!.
  - destruct Hcert as [H|H]; [done|]. apply Exists_exists in H as (cert & Hin & Hc & _). eauto.
  - intros cert Hin Hc. rewrite Forall_forall in Hok.
    destruct (Hok cert Hin) as [H|[H|[_ H]]]; [congruence..|done].
  - by exists v, fin_record, k.
  - exact Hout.
  - done.
  - done.
Qed.

(** ** A server that plays by the rules *)

(** The records a server sends as its flight: [None] is a ChangeCipherSpec record, [Some content]
    a record sealed under the server's handshake keys. *)
Fixpoint server_flight (k : RecordKeys) (items : list (option (list byte)))
  : res ClientError (list (byte * list byte * list byte)) :=
  match items with
  | [] => Ok []
  | None :: items =>
      let? rs := server_flight k items in
      Ok ((x14, [x14; x03; x03; x00; x01], [x01]) :: rs)
  | Some content :: items =>
      let? ' (r, k) := seal k x16 content in
      let? rs := server_flight k items in
      Ok ((x17, ztake 5 r, zdrop 5 r) :: rs)
  end.

Lemma server_flight_spec k items :
  Forall (λ c, len c ≤ MAX_TLS_PLAINTEXT) (omap id items) → 0 ≤ rk_seq k →
  rk_seq k + len items < 2 ^ 64 →
  ∃ recs, server_flight k items = Ok recs ∧ Forall is_record recs ∧
    flight_contents k recs = Ok (omap id items) ∧
    recs.*1.*1 = (λ o, if o is Some _ then x17 else x14) <$> items.
Proof.
  revert k. induction items as [|[c|] items IH]; intros k Hc Hs Hm.
  - by exists [].
  - cbn in Hc. apply Forall_cons in Hc as [Hc Hcs]. rewrite len_cons in Hm. unfold MAX_TLS_PLAINTEXT in Hc.
    pose proof (len_nonneg items).
    destruct (seal_Ok k x16 c) as (ct & Es & Hl & Hdec); [lia..|].
    destruct (seal_open k x16 c) as (r & Es' & _ & Hh & Eo); [done|lia..|].
    assert (r = record_header (len c + 17) ++ ct) as -> by congruence.
    destruct (IH (mk_RecordKeys (rk_key k) (rk_iv k) (rk_seq k + 1))) as (recs & Er & Hr & Ec & Hk); [done|cbn; lia..|].
    eexists. cbn [server_flight]. rewrite Es. cbn [rbind]. rewrite Er. cbn [rbind]. split; [done|].
    pose proof (record_header_len (len c + 17)) as Hhl. pose proof (len_nonneg c).
    split_and!.
    + constructor; [|done]. rewrite Hh, zdrop_app by lia. unfold record_header.
      destruct (u16_of_be16 (len c + 17)) as (a & b & Hab & Hu); [ulia|]. rewrite Hab.
      eexists _, _, _, _. split; [reflexivity|]. unfold MAX_TLS_RECORD. split; lia.
    + erewrite flight_contents_cons by done. by rewrite Ec.
    + cbn. by rewrite Hk.
  - cbn in Hc. rewrite len_cons in Hm. pose proof (len_nonneg items).
    destruct (IH k) as (recs & Er & Hr & Ec & Hk); [done|lia..|].
    eexists. cbn [server_flight]. rewrite Er. cbn [rbind]. split; [done|]. split_and!.
    + constructor; [|done]. eexists _, _, _, _. split; [reflexivity|]. split; [done|]. by vm_compute.
    + cbn [flight_contents omap list_omap id]. by rewrite bool_decide_eq_true_2.
    + cbn. by rewrite Hk.
Qed.

Lemma last_omap (items : list (option (list byte))) c :
  last items = Some (Some c) → last (omap id items) = Some c.
Proof.
  intros [l ->]%last_Some. rewrite omap_app. cbn. by rewrite last_snoc.
Qed.

(** What the server's side of the exchange consists of: a ServerHello that the client accepts, a
    flight of messages the client allows with a certificate that passes the check, closed by the
    server's Finished, cut into records in any way that ends with Finished. *)
Record honest_server (i : HandshakeInput) (srv random : list byte) (exts : list (Z * list byte))
    (hs : HsKeys) (msgs : list (list byte)) (v : list byte) (items : list (option (list byte))) : Prop := {
  hv_hello : server_hello_ok random (hi_expected_session_id i) exts (x25519 srv x25519_base);
  hv_hello_len : len (wire_server_hello random (hi_expected_session_id i) 4865 exts) ≤ MAX_TLS_PLAINTEXT;
  hv_keys : derive_handshake_keys (x25519 srv (x25519 (hi_client_eph_secret i) x25519_base))
    (hi_client_hello i) (wire_server_hello random (hi_expected_session_id i) 4865 exts) = Ok hs;
  hv_msgs : Forall is_message msgs;
  hv_ok : Forall (flight_ok verify_cert) msgs;
  hv_cert : Exists (is_cert verify_cert) msgs;
  hv_fin : compute_finished_verify_data (hk_s_hs_secret hs)
    (transcript_hash [(hi_client_hello i ++ wire_server_hello random (hi_expected_session_id i) 4865 exts)
                      ++ concat msgs]) = Ok v;
  hv_bytes : concat (omap id items) = concat msgs ++ [x14; x00; x00; x20] ++ v;
  hv_last : ∃ c, last items = Some (Some c) ∧ c ≠ [];
  hv_sizes : Forall (λ c, len c ≤ MAX_TLS_PLAINTEXT) (omap id items);
  hv_count : len items < 2 ^ 64
}.

Lemma finished_message v : len v = 32 → is_message ([x14; x00; x00; x20] ++ v).
Proof. intros Hv. do 5 eexists. split; [reflexivity|]. rewrite Hv. done. Qed.

Lemma plain_record_record t (ver : Z) body :
  len body ≤ MAX_TLS_PLAINTEXT →
  ∃ hdr, plain_record t ver body = record_bytes (t, hdr, body) ∧ is_record (t, hdr, body).
Proof.
  intros Hl. pose proof (len_nonneg body). unfold MAX_TLS_PLAINTEXT in *.
  assert (as_u16 (len body) = len body) as Hu by (unfold as_u16; rewrite Z.mod_small; lia).
  destruct (u16_of_be16 (len body)) as (a & b & Hab & Hab2); [ulia|].
  exists (t :: be16 ver ++ [a; b]). unfold plain_record. rewrite Hu, Hab. split.
  - cbn [record_bytes]. cbn. by rewrite <-app_assoc.
  - eexists _, _, a, b. split; [reflexivity|]. unfold MAX_TLS_RECORD. split; [done|lia].
Qed.

(** The flight loop accepts the flight of such a server. *)
Lemma honest_flight i srv random exts hs msgs v items flight tr0 buf more s :
  honest_server i srv random exts hs msgs v items →
  server_flight (record_keys_new (hk_server_key hs) (hk_server_iv hs)) items = Ok flight →
  tr0 = hi_client_hello i ++ wire_server_hello random (hi_expected_session_id i) 4865 exts →
  buf ++ avail (io_in s) = concat (record_bytes <$> flight) ++ more →
  ∃ buf' inp', flight_loop verify_cert (S (length (buf ++ avail (io_in s)))) (hk_s_hs_secret hs) buf []
      (record_keys_new (hk_server_key hs) (hk_server_iv hs)) tr0 false s
    = (mk_io inp' (io_writes s) (io_out s), Ok (tr0 ++ concat msgs ++ [x14; x00; x00; x20] ++ v, buf')) ∧
    buf' ++ avail inp' = more.
Proof.
  intros [_ _ _ Hm Hok Hcert Hfin Hb (c & Hl & Hc) Hsz Hcnt] Ef -> Hd.
  destruct (server_flight_spec (record_keys_new (hk_server_key hs) (hk_server_iv hs)) items Hsz)
    as (recs & E & Hrec & Ec & Hk); [cbn; lia..|]. rewrite Ef in E. injection E as <-.
  destruct (finished_Ok (hk_s_hs_secret hs) (transcript_hash
    [(hi_client_hello i ++ wire_server_hello random (hi_expected_session_id i) 4865 exts) ++ concat msgs]))
    as (v' & Ev & Hlv). rewrite Hfin in Ev. injection Ev as <-.
  eapply (flight_loop_complete verify_cert flight); try done.
  - rewrite Hd, length_app. clear -Hrec. induction Hrec as [|[[ct h] p] rs Hr _ IH]; [cbn; lia|].
    destruct Hr as (v0 & v1 & h3 & h4 & -> & _). cbn. rewrite length_app. cbn in *. lia.
  - unfold ends_sealed. rewrite Hk, fmap_last, Hl. done.
  - by apply last_omap.
  - rewrite push_all_cut by apply incomplete_nil. cbn [app]. rewrite Hb.
    assert (concat msgs ++ [x14; x00; x00; x20] ++ v = concat (msgs ++ [[x14; x00; x00; x20] ++ v]) ++ []) as ->.
    + rewrite concat_app. cbn. by rewrite !app_nil_r.
    + apply cut_unique; [|apply incomplete_nil]. apply Forall_app. split; [done|].
      constructor; [|constructor]. by apply finished_message.
  - by right.
  - by apply finished_message.
Qed.

End drive_theorems.

(** ** Properties *)

(** C9: authentication cannot be bypassed.  When [drive] succeeds, the bytes it read are a
    ServerHello record that parsed, then records that open in sequence under the handshake keys of
    the exchange and carry messages of which at least one is a Certificate, every Certificate
    among them passed [verify_cert], then a Finished whose MAC is correct over the transcript of
    all of them; the client sent exactly ClientHello, ChangeCipherSpec and the sealed record of
    its own Finished over that transcript, and the application keys are those of the transcript. *)
Theorem drive_authenticates `{C : Crypto} verify_cert i s s' out :
  drive verify_cert i s = (s', Ok out) →
  ∃ hs tr msgs fin sent app,
    server_side i (avail (io_in s)) (ho_leftover out ++ avail (io_in s')) hs tr msgs fin ∧
    (∃ cert, cert ∈ msgs ∧ head cert = Some x0b) ∧
    (∀ cert, cert ∈ msgs → head cert = Some x0b → verify_cert cert = Ok tt) ∧
    client_side i hs tr fin sent ∧ io_out s' = io_out s ++ sent ∧
    derive_application_keys (hk_handshake_secret hs) (transcript_hash [tr ++ fin]) = Ok app ∧
    ho_recv_keys out = record_keys_new (ak_server_key app) (ak_server_iv app) ∧
    ho_send_keys out = record_keys_new (ak_client_key app) (ak_client_iv app).
Proof.
  intros (hs & tr & msgs & fin & sent & app & Hs & Hex & Hall & Hc & Ho & Ea & Hout)%drive_sides.
  exists hs, tr, msgs, fin, sent, app. rewrite Hout at 2 3. by split_and!.
Qed.

(** [drive] never panics and never runs out of fuel, whatever the server sends, as long as the
    certificate check does not panic and fewer than 2^64 bytes arrive. *)
Theorem drive_total `{C : Crypto, !CryptoLaws C} verify_cert i s :
  (∀ m, verify_cert m ≠ Panic) → len (avail (io_in s)) < 2 ^ 64 - 2 →
  (drive verify_cert i s).2 ≠ Panic.
Proof.
  intros Hv Hlen. unfold drive.
  apply mthen_no_panic; [unfold write_record; case_bool_decide; [done|apply write_all_no_panic]|].
  intros s1 u1 (_ & I1 & _)%write_record_Ok. apply mthen_no_panic; [apply write_all_no_panic|].
  intros s2 u2 (I2 & _)%write_all_Ok. apply mthen_no_panic; [apply write_all_no_panic|].
  intros s3 u3 (I3 & _)%write_all_Ok. apply mthen_no_panic; [apply next_no_panic|].
  intros s4 [[[ct hdr] sh_msg] buf] (_ & _ & _ & D4)%next_Ok. cbv beta iota. case_bool_decide; [done|].
  apply mthen_no_panic; [apply parse_server_hello_no_panic|]. intros ? sh [-> _]%mlift_Ok.
  apply mthen_no_panic.
  { cbn. destruct (decide (x25519_shared_secret (hi_client_eph_secret i) (ps_server_key_share sh) = replicate 32 x00)) as [He|He].
    - unfold derive_handshake_keys. by rewrite bool_decide_eq_true_2.
    - by destruct (derive_handshake_keys_Ok _ (hi_client_hello i) sh_msg He) as (k & -> & _). }
  intros ? hs [-> _]%mlift_Ok. apply mthen_no_panic; [done|]. intros ? fuel [= <- <-].
  apply mthen_no_panic.
  { assert (len (buf ++ avail (io_in s4)) ≤ len (avail (io_in s))) as Hle.
    { replace (io_in s) with (io_in s3) by congruence. cbn [app] in D4. rewrite D4, !len_app.
      pose proof (len_nonneg (record_bytes (ct, hdr, sh_msg))). lia. }
    apply flight_loop_no_panic; [done|unfold len; lia|]. unfold len in *. cbn [rk_seq record_keys_new]. lia. }
  intros s5 [tr buf'] _. cbv beta iota zeta.
  destruct (finished_Ok (hk_c_hs_secret hs) (transcript_hash [tr])) as (v & Ev & Hl).
  apply mthen_no_panic; [cbn; by rewrite Ev|]. intros ? cfin [-> Ec]%mlift_Ok. rewrite Ev in Ec. injection Ec as <-.
  destruct (seal_Ok (record_keys_new (hk_client_key hs) (hk_client_iv hs)) x16 ([x14; x00; x00; x20] ++ v))
    as (ct' & Es & _); [llia|cbn; lia|].
  apply mthen_no_panic; [unfold mlift; by rewrite Es|]. intros ? [fr k] _.
  apply mthen_no_panic; [apply write_all_no_panic|]. intros ? ? _.
  apply mthen_no_panic; [apply write_all_no_panic|]. intros ? ? _.
  destruct (derive_application_keys_Ok (hk_handshake_secret hs) (transcript_hash [tr])) as (app & Ea & _).
  apply mthen_no_panic; [cbn; by rewrite Ea|]. done.
Qed.

(** C18: the handshake works with every server that follows the protocol: whatever allowed messages
    it sends, however it cuts them into records, wherever it puts ChangeCipherSpec records and
    however TCP splits the bytes, [drive] succeeds, both sides hold the same application keys, the
    server can open and check the client's Finished, and every byte the server sent behind its
    Finished is kept for the application stream. *)
Theorem drive_completes `{C : Crypto, !CryptoLaws C} verify_cert i srv random exts hs msgs v items
    flight inp more :
  let sh_msg := wire_server_hello random (hi_expected_session_id i) 4865 exts in
  let tr := (hi_client_hello i ++ sh_msg) ++ concat msgs ++ [x14; x00; x00; x20] ++ v in
  honest_server verify_cert i srv random exts hs msgs v items →
  server_flight (record_keys_new (hk_server_key hs) (hk_server_iv hs)) items = Ok flight →
  len (hi_client_hello i) ≤ MAX_TLS_PLAINTEXT →
  avail inp = plain_record x16 771 sh_msg ++ concat (record_bytes <$> flight) ++ more →
  ∃ s' out fin_record app cv k,
    drive verify_cert i (mk_io inp [] []) = (s', Ok out) ∧
    ho_leftover out ++ avail (io_in s') = more ∧
    io_out s' = plain_record x16 769 (hi_client_hello i) ++ CLIENT_CCS ++ fin_record ∧
    open (record_keys_new (hk_client_key hs) (hk_client_iv hs)) (ztake 5 fin_record) (zdrop 5 fin_record)
      = Ok (x16, [x14; x00; x00; x20] ++ cv, k) ∧
    compute_finished_verify_data (hk_c_hs_secret hs) (transcript_hash [tr]) = Ok cv ∧
    derive_application_keys (hk_handshake_secret hs) (transcript_hash [tr]) = Ok app ∧
    ho_recv_keys out = record_keys_new (ak_server_key app) (ak_server_iv app) ∧
    ho_send_keys out = record_keys_new (ak_client_key app) (ak_client_iv app).
Proof.
  intros sh_msg tr Hhs Ef Hch Hd. pose proof Hhs as [Hhello Hhl Hkeys _ _ _ _ _ _ _ _].
  destruct (plain_record_record x16 771 sh_msg Hhl) as (hdr & Hp & Hr). rewrite Hp in Hd.
  pose proof (parse_server_hello_ok _ _ _ _ Hhello) as Eparse. fold sh_msg in Eparse, Hkeys.
  set (s3 := mk_io inp [] (plain_record x16 769 (hi_client_hello i) ++ CLIENT_CCS ++ [])).
  destruct (next_record x16 hdr sh_msg (concat (record_bytes <$> flight) ++ more) [] s3 Hr Hd)
    as (buf & i4 & En & D4).
  set (s4 := mk_io i4 [] (io_out s3)) in *.
  destruct (honest_flight verify_cert i srv random exts hs msgs v items flight _ buf more s4 Hhs Ef eq_refl D4)
    as (buf' & i5 & El & D5). fold sh_msg tr in El.
  destruct (finished_Ok (hk_c_hs_secret hs) (transcript_hash [tr])) as (cv & Ev & Hl).
  destruct (derive_application_keys_Ok (hk_handshake_secret hs) (transcript_hash [tr])) as (app & Ea & _).
  destruct (seal_open (record_keys_new (hk_client_key hs) (hk_client_iv hs)) x16 ([x14; x00; x00; x20] ++ cv))
    as (fin_record & Es & _ & _ & Eo); [done|llia|cbn; lia|].
  assert (write_record x16 769 (hi_client_hello i) (mk_io inp [] [])
    = (mk_io inp [] (plain_record x16 769 (hi_client_hello i)), Ok tt)) as Ew.
  { unfold write_record. by rewrite bool_decide_eq_false_2 by lia. }
  eexists _, _, fin_record, app, cv, _. split.
  { unfold drive, flush. unfold mthen at 1. rewrite Ew. unfold mthen at 1. rewrite write_all_nil.
    unfold mthen at 1. rewrite write_all_nil, <-app_assoc. fold s3. unfold mthen at 1. rewrite En.
    cbv beta iota. rewrite bool_decide_eq_false_2 by (intros H; by apply H).
    unfold mthen at 1, mlift at 1. rewrite Eparse.
    cbn [ps_server_key_share]. unfold mthen at 1, mlift at 1, x25519_shared_secret.
    rewrite x25519_agree, Hkeys. unfold mthen at 1, flight_fuel. unfold mthen at 1.
    change (io_in (mk_io i4 (io_writes s3) (io_out s3))) with (io_in s4).
    change (mk_io i4 (io_writes s3) (io_out s3)) with s4. rewrite El. cbv beta iota zeta.
    unfold mthen at 1, mlift at 1. rewrite Ev. unfold mthen at 1, mlift at 1. rewrite Es.
    unfold mthen at 1. rewrite write_all_nil. unfold mthen at 1. rewrite write_all_nil.
    unfold mthen at 1, mlift at 1. rewrite Ea. done. }
  cbn [ho_leftover ho_recv_keys ho_send_keys io_in io_out]. split_and!; try done.
  cbn [s4 s3 io_out]. by rewrite !app_nil_r, <-!app_assoc.
Qed.

(** ** A concrete exchange *)

Definition demo_input : HandshakeInput := mk_HandshakeInput [x01; x00; x00; x01; xff] [x07] [x0a].
Definition demo_hello : list byte :=
  wire_server_hello (replicate 32 x01) [x0a] 4865 [(43, [x03; x04]); (51, key_share_body (replicate 32 x2a))].
Definition demo_verify (m : list byte) : res ClientError unit :=
  if bool_decide (m = [x0b; x00; x00; x01; xcc]) then Ok tt else Err (Reality cert_hmac_failed).
Definition demo_hs : HsKeys :=
  match @derive_handshake_keys demo_crypto (replicate 32 x2a) (hi_client_hello demo_input) demo_hello with
  | Ok hs => hs
  | _ => mk_HsKeys [] [] [] [] [] [] []
  end.
Definition demo_msgs : list (list byte) := [[x08; x00; x00; x00]; [x0b; x00; x00; x01; xcc]].
Definition demo_v : list byte :=
  match @compute_finished_verify_data demo_crypto (hk_s_hs_secret demo_hs)
    (@transcript_hash demo_crypto [(hi_client_hello demo_input ++ demo_hello) ++ concat demo_msgs]) with
  | Ok v => v
  | _ => []
  end.
Definition demo_items : list (option (list byte)) :=
  [None; Some [x08; x00; x00; x00; x0b]; None; Some ([x00; x00; x01; xcc; x14; x00; x00; x20] ++ demo_v)].
Definition demo_flight : list (byte * list byte * list byte) :=
  match @server_flight demo_crypto (record_keys_new (hk_server_key demo_hs) (hk_server_iv demo_hs)) demo_items with
  | Ok l => l
  | _ => []
  end.
Definition demo_stream : input :=
  [Some (plain_record x16 771 demo_hello ++ [x14]);
   Some (zdrop 1 (concat (record_bytes <$> demo_flight)) ++ [xbe]); Some [xef]].

Lemma drive_authenticates_witness :
  ∃ s' out cert, @drive demo_crypto demo_verify demo_input (mk_io demo_stream [] []) = (s', Ok out) ∧
    demo_verify cert = Ok tt.
Proof.
  destruct (@drive demo_crypto demo_verify demo_input (mk_io demo_stream [] [])) as [s' [out|e|]] eqn:E;
    [|vm_compute in E; discriminate E..].
  destruct (drive_authenticates (C:=demo_crypto) demo_verify demo_input (mk_io demo_stream [] []) s' out E)
    as (? & ? & ? & ? & ? & ? & _ & (cert & Hin & Hc) & Hv & _).
  exists s', out, cert. split; [reflexivity|exact (Hv cert Hin Hc)].
Defined.

Lemma drive_total_witness :
  (@drive demo_crypto demo_verify demo_input (mk_io [Some [x16]; None] [] [])).2 ≠ Panic.
Proof.
  apply (drive_total (C:=demo_crypto) demo_verify demo_input (mk_io [Some [x16]; None] [] [])).
  - intros m. unfold demo_verify. case_bool_decide; discriminate.
  - vm_compute. reflexivity.
Defined.

Lemma drive_completes_witness :
  ∃ s' out, @drive demo_crypto demo_verify demo_input (mk_io demo_stream [] []) = (s', Ok out) ∧
    ho_leftover out ++ avail (io_in s') = [xbe; xef].
Proof.
  destruct (drive_completes (C:=demo_crypto) demo_verify demo_input [x09] (replicate 32 x01)
    [(43, [x03; x04]); (51, key_share_body (replicate 32 x2a))] demo_hs demo_msgs demo_v demo_items
    demo_flight demo_stream [xbe; xef]) as (s' & out & ? & ? & ? & ? & Hd & Hl & _).
  - split; try (vm_compute; congruence); try (vm_compute; reflexivity).
    + split; try (vm_compute; congruence); try reflexivity.
      repeat constructor; cbn; unfold key_share_body; rewrite ?len_app; vm_compute; congruence.
    + repeat constructor; do 5 eexists; (split; [reflexivity|vm_compute; reflexivity]).
    + constructor; [by left|]. constructor; [right; right; vm_compute; done|constructor].
    + right. left. split; vm_compute; done.
    + eexists. split; [reflexivity|]. discriminate.
    + repeat constructor; vm_compute; congruence.
  - vm_compute. reflexivity.
  - vm_compute. congruence.
  - vm_compute. reflexivity.
  - exists s', out. split; [exact Hd|exact Hl].
Defined.
