(* ===== verification/RealityStream.v ===== *)
(** * RealityStream: the application stream of [src/reality_upstream.rs]

    [RealityStream] runs the TLS 1.3 record layer over a TCP connection: it opens incoming
    records, strips the VLESS response header, seals outgoing data, and follows KeyUpdate messages
    in both directions.  The two halves of the socket are modelled by what their polls return:
    [rs_rin] and [rs_win] list the outcomes of the coming reads and writes (a poll beyond the list
    is [Pending]), [rs_wout] is everything written to the socket. *)

From S2P Require Import Prelude Text Shared Crypto Record Auth KeySchedule Vless Reassembly.

Definition MAX_PLAINTEXT : Z := 16384.

(** [io::ErrorKind] of the errors returned; [Underlying] is an error of the socket itself. *)
Inductive io_error : Type :=
| InvalidData | ConnectionAborted | WriteZero | UnexpectedEof | Underlying.

(** [Poll<T>] *)
Inductive poll (A : Type) : Type :=
| Ready (a : A)
| Pending.
Arguments Ready {A} _.
Arguments Pending {A}.

(** A poll of the read half: bytes (none at end of file), an error, or not ready. *)
Inductive rd_poll : Type := RdData (bs : list byte) | RdErr | RdPend.
(** A poll of the write half: the number of bytes it takes at most, an error, or not ready. *)
Inductive wr_poll : Type := WrOk (k : Z) | WrErr | WrPend.

Record RealityStream := mk_RealityStream {
  rs_rin : list rd_poll;
  rs_win : list wr_poll;
  rs_wout : list byte;
  rs_recv_keys : RecordKeys;
  rs_send_keys : RecordKeys;
  rs_read_raw : list byte;
  rs_staging : list byte;
  rs_plaintext_out : list byte;
  rs_write_pending : list byte;
  rs_resp : stripper;
  rs_server_ap_secret : list byte;
  rs_client_ap_secret : list byte
}.

Definition set_sockets (rin : list rd_poll) (win : list wr_poll) (wout : list byte) (s : RealityStream) :=
  mk_RealityStream rin win wout (rs_recv_keys s) (rs_send_keys s) (rs_read_raw s) (rs_staging s)
    (rs_plaintext_out s) (rs_write_pending s) (rs_resp s) (rs_server_ap_secret s) (rs_client_ap_secret s).
Definition set_recv (keys : RecordKeys) (secret : list byte) (s : RealityStream) :=
  mk_RealityStream (rs_rin s) (rs_win s) (rs_wout s) keys (rs_send_keys s) (rs_read_raw s) (rs_staging s)
    (rs_plaintext_out s) (rs_write_pending s) (rs_resp s) secret (rs_client_ap_secret s).
Definition set_send (keys : RecordKeys) (secret pending : list byte) (s : RealityStream) :=
  mk_RealityStream (rs_rin s) (rs_win s) (rs_wout s) (rs_recv_keys s) keys (rs_read_raw s) (rs_staging s)
    (rs_plaintext_out s) pending (rs_resp s) (rs_server_ap_secret s) secret.
Definition set_raw (raw : list byte) (s : RealityStream) :=
  mk_RealityStream (rs_rin s) (rs_win s) (rs_wout s) (rs_recv_keys s) (rs_send_keys s) raw (rs_staging s)
    (rs_plaintext_out s) (rs_write_pending s) (rs_resp s) (rs_server_ap_secret s) (rs_client_ap_secret s).
Definition set_plain (resp : stripper) (staging plain : list byte) (s : RealityStream) :=
  mk_RealityStream (rs_rin s) (rs_win s) (rs_wout s) (rs_recv_keys s) (rs_send_keys s) (rs_read_raw s) staging
    plain (rs_write_pending s) resp (rs_server_ap_secret s) (rs_client_ap_secret s).

Definition reality_stream_new (rin : list rd_poll) (win : list wr_poll) (wout : list byte)
    (recv_keys send_keys : RecordKeys) (leftover server_ap_secret client_ap_secret : list byte) : RealityStream :=
  mk_RealityStream rin win wout recv_keys send_keys leftover [] [] [] stripper_new
    server_ap_secret client_ap_secret.

Abbreviation SM := (sm RealityStream io_error).

(** [m.map_err(|e| io::Error::new(InvalidData, ..))] *)
Definition map_err {E F A} (f : E → F) (m : res E A) : res F A :=
  match m with
  | Ok a => Ok a
  | Err e => Err (f e)
  | Panic => Panic
  end.

(** A computation whose errors cannot be returned by the caller: the callers of the key schedule
    and of [seal] return no [Result]. *)
Definition no_err {E F A} (m : res E A) : res F A :=
  match m with
  | Ok a => Ok a
  | _ => Panic
  end.

Inductive Decoded : Type :=
| Data (content : list byte)
| Drop
| Eof.

Section stream.
Context `{C : Crypto}.

Definition record_keys_from_secret (secret : list byte) : res ClientError RecordKeys :=
  let? key := traffic_key secret in
  let? iv := traffic_iv secret in
  Ok (record_keys_new key iv).

Definition on_key_update (msg : list byte) : SM unit :=
  let! m1 := mlift (if bool_decide (len msg = 5) then slice msg 1 4 else Ok []) in
  if bool_decide (len msg ≠ 5) || bool_decide (m1 ≠ [x00; x00; x01]) then mlift (Err InvalidData) else
  let! request_update := mlift (idx msg 4) in
  if bool_decide (b2z request_update > 1) then mlift (Err InvalidData) else
  let! s := mget in
  let! secret := mlift (no_err (next_application_traffic_secret (rs_server_ap_secret s))) in
  let! keys := mlift (no_err (record_keys_from_secret secret)) in
  let! _ := mupd (set_recv keys secret) in
  if bool_decide (request_update = x01) then
    let! s := mget in
    let! ' (reply, keys) := mlift (no_err (seal (rs_send_keys s) x16 [x18; x00; x00; x01; x00])) in
    let! _ := mupd (set_send keys (rs_client_ap_secret s) (rs_write_pending s ++ reply)) in
    let! s := mget in
    let! secret := mlift (no_err (next_application_traffic_secret (rs_client_ap_secret s))) in
    let! keys := mlift (no_err (record_keys_from_secret secret)) in
    mupd (set_send keys secret (rs_write_pending s))
  else mlift (Ok tt).

(** The [while rest.len() >= 4] loop over the messages of a post-handshake record; four bytes or
    more are consumed per turn. *)
Fixpoint post_handshake (fuel : nat) (rest : list byte) : SM unit :=
  match fuel with
  | O => mlift (Ok tt)
  | S fuel =>
      match rest with
      | t :: a :: b :: c :: _ =>
          let total := 4 + u24 a b c in
          if bool_decide (len rest < total) then mlift (Ok tt) else
          let! _ := if bool_decide (t = x18) then on_key_update (ztake total rest) else mlift (Ok tt) in
          post_handshake fuel (zdrop total rest)
      | _ => mlift (Ok tt)
      end
  end.

Definition decode_one : SM (option Decoded) :=
  let! s := mget in
  let raw := rs_read_raw s in
  if bool_decide (len raw < 5) then mlift (Ok None) else
  let! header := mlift (slice raw 0 5) in
  let! h3 := mlift (idx header 3) in
  let! h4 := mlift (idx header 4) in
  let n := u16_of h3 h4 in
  if bool_decide (n > MAX_TLS_RECORD) then mlift (Err InvalidData) else
  if bool_decide (len raw < 5 + n) then mlift (Ok None) else
  let! payload := mlift (slice raw 5 (5 + n)) in
  let! rest := mlift (slice raw (5 + n) (len raw)) in
  let! _ := mupd (set_raw rest) in
  let! ' (inner, content, keys) := mlift (map_err (λ _, InvalidData) (open (rs_recv_keys s) header payload)) in
  let! _ := mupd (set_recv keys (rs_server_ap_secret s)) in
  match inner with
  | x17 => mlift (Ok (Some (Data content)))
  | x15 =>
      match content with
      | x01 :: x00 :: _ => mlift (Ok (Some Eof))
      | _ => mlift (Err ConnectionAborted)
      end
  | x16 => let! _ := post_handshake (length content) content in mlift (Ok (Some Drop))
  | _ => mlift (Ok (Some Drop))
  end.

Definition absorb_app (content : list byte) : SM unit :=
  let! s := mget in
  if (rs_resp s : bool) then mupd (set_plain (rs_resp s) (rs_staging s) (rs_plaintext_out s ++ content)) else
  let staging := rs_staging s ++ content in
  let! ' (stripped, resp, staging) := mlift (no_err (strip (rs_resp s) staging)) in
  if (stripped : bool) then mupd (set_plain resp [] (rs_plaintext_out s ++ staging))
  else mupd (set_plain resp staging (rs_plaintext_out s)).

(** The [while !self.write_pending.is_empty()] loop; every turn uses one poll of the socket. *)
Fixpoint flush_loop (win : list wr_poll) (pending wout : list byte)
  : list wr_poll * list byte * list byte * res io_error (poll unit) :=
  match pending with
  | [] => (win, pending, wout, Ok (Ready tt))
  | _ =>
      match win with
      | [] => (win, pending, wout, Ok Pending)
      | WrPend :: win => (win, pending, wout, Ok Pending)
      | WrErr :: win => (win, pending, wout, Err Underlying)
      | WrOk k :: win =>
          let k := Z.min k (len pending) in
          if bool_decide (k ≤ 0) then (win, pending, wout, Err WriteZero)
          else flush_loop win (zdrop k pending) (wout ++ ztake k pending)
      end
  end.

Definition poll_flush_pending : SM (poll unit) := λ s,
  let '(win, pending, wout, r) := flush_loop (rs_win s) (rs_write_pending s) (rs_wout s) in
  (set_send (rs_send_keys s) (rs_client_ap_secret s) pending (set_sockets (rs_rin s) win wout s), r).

(** One poll of the read half. *)
Definition read_half_poll : SM rd_poll := λ s,
  match rs_rin s with
  | [] => (s, Ok RdPend)
  | e :: rin => (set_sockets rin (rs_win s) (rs_wout s) s, Ok e)
  end.

(** [poll_read] into a buffer with [cap] bytes of room; the result is what it puts there. *)
Fixpoint poll_read_loop (fuel : nat) (cap : Z) : SM (poll (list byte)) :=
  match fuel with
  | O => mlift Panic
  | S fuel =>
      let! _ := poll_flush_pending in
      let! s := mget in
      let plain := rs_plaintext_out s in
      if bool_decide (plain ≠ []) then
        let n := Z.min cap (len plain) in
        let! _ := mupd (set_plain (rs_resp s) (rs_staging s) (zdrop n plain)) in
        mlift (Ok (Ready (ztake n plain)))
      else
        let! d := decode_one in
        match d with
        | Some (Data content) => let! _ := absorb_app content in poll_read_loop fuel cap
        | Some Drop => poll_read_loop fuel cap
        | Some Eof => mlift (Ok (Ready []))
        | None =>
            let! e := read_half_poll in
            let! s := mget in
            match e with
            | RdData [] =>
                if bool_decide (rs_read_raw s = []) then mlift (Ok (Ready [])) else mlift (Err UnexpectedEof)
            | RdData filled => let! _ := mupd (set_raw (rs_read_raw s ++ filled)) in poll_read_loop fuel cap
            | RdErr => mlift (Err Underlying)
            | RdPend => mlift (Ok Pending)
            end
        end
  end.

(** Turns of the loop: one per record in the buffer or to come and one per poll of the socket. *)
Fixpoint rd_size (rin : list rd_poll) : Z :=
  match rin with
  | [] => 0
  | RdData bs :: rin => 1 + len bs + rd_size rin
  | _ :: rin => 1 + rd_size rin
  end.
Definition read_fuel (s : RealityStream) : nat :=
  Z.to_nat (2 + len (rs_read_raw s) + rd_size (rs_rin s)).

Definition poll_read (cap : Z) : SM (poll (list byte)) :=
  let! s := mget in poll_read_loop (read_fuel s) cap.

(** [poll_write(buf)]: the number of bytes accepted. *)
Definition poll_write (buf : list byte) : SM (poll Z) :=
  let! p := poll_flush_pending in
  match p with
  | Pending => mlift (Ok Pending)
  | Ready _ =>
      if bool_decide (buf = []) then mlift (Ok (Ready 0)) else
      let n := Z.min (len buf) MAX_PLAINTEXT in
      let! s := mget in
      let! ' (rec, keys) := mlift (no_err (seal (rs_send_keys s) x17 (ztake n buf))) in
      let! _ := mupd (set_send keys (rs_client_ap_secret s) (rs_write_pending s ++ rec)) in
      let! _ := poll_flush_pending in
      mlift (Ok (Ready n))
  end.

(** [poll_flush] and [poll_shutdown]: [sock] is what the same operation of the socket returns. *)
Definition poll_flush (sock : res io_error (poll unit)) : SM (poll unit) :=
  let! p := poll_flush_pending in
  match p with
  | Pending => mlift (Ok Pending)
  | Ready _ => mlift sock
  end.
Definition poll_shutdown (sock : res io_error (poll unit)) : SM (poll unit) :=
  let! p := poll_flush_pending in
  match p with
  | Pending => mlift (Ok Pending)
  | Ready _ => mlift sock
  end.

(** ** One direction of the connection, as its sender drives it

    A direction is the current traffic secret and the record keys.  The sender seals application
    data and post-handshake messages; after a KeyUpdate it moves to the next keys. *)

Inductive post : Type :=
| KeyUpdate (requested : bool)
| OtherPost (msg : list byte).

Inductive item : Type :=
| IData (content : list byte)
| IPost (ps : list post).

Definition dir : Type := list byte * RecordKeys.

Definition post_bytes (p : post) : list byte :=
  match p with
  | KeyUpdate r => [x18; x00; x00; x01; if (r : bool) then x01 else x00]
  | OtherPost msg => msg
  end.

Definition rotate (d : dir) : res ClientError dir :=
  let? secret := next_application_traffic_secret d.1 in
  let? keys := record_keys_from_secret secret in
  Ok (secret, keys).

Fixpoint rotate_posts (d : dir) (ps : list post) : res ClientError dir :=
  match ps with
  | [] => Ok d
  | KeyUpdate _ :: ps => let? d := rotate d in rotate_posts d ps
  | OtherPost _ :: ps => rotate_posts d ps
  end.

Definition item_content (it : item) : byte * list byte :=
  match it with
  | IData c => (x17, c)
  | IPost ps => (x16, concat (post_bytes <$> ps))
  end.

Definition send_item (d : dir) (it : item) : res ClientError (list byte * dir) :=
  let? ' (rec, keys) := seal d.2 (item_content it).1 (item_content it).2 in
  match it with
  | IData _ => Ok (rec, (d.1, keys))
  | IPost ps => let? d := rotate_posts (d.1, keys) ps in Ok (rec, d)
  end.

Fixpoint send_items (d : dir) (its : list item) : res ClientError (list byte * dir) :=
  match its with
  | [] => Ok ([], d)
  | it :: its =>
      let? ' (rec, d) := send_item d it in
      let? ' (w, d) := send_items d its in
      Ok (rec ++ w, d)
  end.

(** The application data of a sequence of items, and the number of updates that ask for an answer. *)
Definition item_data (it : item) : list byte := match it with IData c => c | IPost _ => [] end.
Definition items_data (its : list item) : list byte := concat (item_data <$> its).

Fixpoint post_requests (ps : list post) : nat :=
  match ps with
  | [] => 0
  | KeyUpdate true :: ps => S (post_requests ps)
  | _ :: ps => post_requests ps
  end.
Fixpoint requests (its : list item) : nat :=
  match its with
  | [] => 0
  | IPost ps :: its => post_requests ps + requests its
  | IData _ :: its => requests its
  end.

Definition post_ok (p : post) : Prop :=
  match p with
  | KeyUpdate _ => True
  | OtherPost m => is_message m ∧ head m ≠ Some x18
  end.
Definition item_ok (it : item) : Prop :=
  len (item_content it).2 ≤ MAX_PLAINTEXT ∧
  match it with
  | IData _ => True
  | IPost ps => Forall post_ok ps
  end.

Definition reply : item := IPost [KeyUpdate false].

Context `{!CryptoLaws C}.

(** ** Lemmas on a direction *)

Lemma record_keys_from_secret_Ok secret :
  ∃ k, record_keys_from_secret secret = Ok k ∧ rk_seq k = 0.
Proof.
  unfold record_keys_from_secret. destruct (traffic_key_Ok secret) as (k & -> & _).
  cbn [rbind]. destruct (traffic_iv_Ok secret) as (iv & -> & _). cbn. eauto.
Qed.

Lemma rotate_Ok d :
  ∃ secret keys, next_application_traffic_secret d.1 = Ok secret ∧
    record_keys_from_secret secret = Ok keys ∧ rotate d = Ok (secret, keys) ∧ rk_seq keys = 0.
Proof.
  unfold rotate. destruct (next_secret_Ok d.1) as (secret & -> & _). cbn [rbind].
  destruct (record_keys_from_secret_Ok secret) as (keys & E & Hs). rewrite E. cbn. eauto 10.
Qed.

Lemma rotate_posts_Ok d ps : 0 ≤ rk_seq d.2 → ∃ d', rotate_posts d ps = Ok d' ∧ 0 ≤ rk_seq d'.2 ≤ rk_seq d.2.
Proof.
  revert d. induction ps as [|[r|m] ps IH]; intros d Hd; cbn [rotate_posts].
  - exists d. split; [done|lia].
  - destruct (rotate_Ok d) as (sec & keys & _ & _ & -> & Hk). cbn [rbind].
    destruct (IH (sec, keys)) as (d' & -> & Hd'); [cbn; lia|]. exists d'. cbn in *. split; [done|lia].
  - apply IH. done.
Qed.

Lemma item_type_nonzero it : (item_content it).1 ≠ x00.
Proof. by destruct it. Qed.

Lemma send_item_Ok d it :
  item_ok it → 0 ≤ rk_seq d.2 < 2 ^ 64 - 1 →
  ∃ ct d', let keys := mk_RecordKeys (rk_key d.2) (rk_iv d.2) (rk_seq d.2 + 1) in
    let n := len (item_content it).2 + 17 in
    send_item d it = Ok (record_header n ++ ct, d') ∧ len ct = n ∧
    open d.2 (record_header n) ct = Ok (item_content it, keys) ∧
    0 ≤ rk_seq d'.2 ≤ rk_seq d.2 + 1 ∧
    match it with
    | IData _ => d' = (d.1, keys)
    | IPost ps => rotate_posts (d.1, keys) ps = Ok d'
    end.
Proof.
  intros [Hlen _] Hs. unfold MAX_PLAINTEXT in Hlen. cbv zeta.
  destruct (seal_Ok d.2 (item_content it).1 (item_content it).2) as (ct & Es & Hct & _); [lia..|].
  destruct (seal_open d.2 (item_content it).1 (item_content it).2) as (r & Es' & _ & _ & Eo);
    [apply item_type_nonzero|lia..|].
  assert (r = record_header (len (item_content it).2 + 17) ++ ct) as -> by congruence.
  rewrite ztake_app, zdrop_app in Eo by (by rewrite record_header_len).
  unfold send_item. rewrite Es. cbn [rbind]. exists ct. destruct it as [c|ps].
  - eexists. split; [done|]. cbn. split_and!; [done|exact Eo|lia|lia|done].
  - destruct (rotate_posts_Ok (d.1, mk_RecordKeys (rk_key d.2) (rk_iv d.2) (rk_seq d.2 + 1)) ps) as (d' & E & Hd');
      [cbn; lia|]. cbn in Hd'. exists d'. rewrite E. cbn. split_and!; [done|done|exact Eo|lia|lia|done].
Qed.

(** ** Lemmas on the output direction *)

(** What the socket and the buffer hold is what a sender that sent [outs] would have written, and
    the stream stands where that sender stands. *)
Definition out_sync (d0 : dir) (outs : list item) (s : RealityStream) : Prop :=
  send_items d0 outs = Ok (rs_wout s ++ rs_write_pending s, (rs_client_ap_secret s, rs_send_keys s)).

Lemma send_items_app d l1 l2 w1 d1 :
  send_items d l1 = Ok (w1, d1) →
  send_items d (l1 ++ l2) = (let? ' (w2, d2) := send_items d1 l2 in Ok (w1 ++ w2, d2)).
Proof.
  revert d w1. induction l1 as [|it l1 IH]; intros d w1; cbn [app send_items].
  - intros [= <- <-]. by destruct (send_items d l2) as [[]| |].
  - destruct (send_item d it) as [[r d2]| |]; try discriminate. cbn [rbind].
    destruct (send_items d2 l1) as [[w d3]| |] eqn:E; try discriminate. cbn [rbind]. intros [= <- <-].
    rewrite (IH _ _ E). destruct (send_items d3 l2) as [[]| |]; cbn; [|done..]. by rewrite app_assoc.
Qed.

Lemma out_sync_snoc d0 outs s it rec d' s' :
  out_sync d0 outs s → send_item (rs_client_ap_secret s, rs_send_keys s) it = Ok (rec, d') →
  rs_wout s' ++ rs_write_pending s' = (rs_wout s ++ rs_write_pending s) ++ rec →
  (rs_client_ap_secret s', rs_send_keys s') = d' →
  out_sync d0 (outs ++ [it]) s'.
Proof.
  unfold out_sync. intros Ho Ei Hw Hd. rewrite (send_items_app _ _ _ _ _ Ho). cbn [send_items].
  rewrite Ei. cbn [rbind]. by rewrite app_nil_r, Hw, Hd.
Qed.

Lemma out_sync_same d0 outs s s' :
  out_sync d0 outs s → rs_wout s' ++ rs_write_pending s' = rs_wout s ++ rs_write_pending s →
  rs_client_ap_secret s' = rs_client_ap_secret s → rs_send_keys s' = rs_send_keys s → out_sync d0 outs s'.
Proof. unfold out_sync. by intros Ho -> -> ->. Qed.

(** The parts of the state that only reading application data changes. *)
Definition same_input (s s' : RealityStream) : Prop :=
  rs_rin s' = rs_rin s ∧ rs_win s' = rs_win s ∧ rs_read_raw s' = rs_read_raw s ∧
  rs_staging s' = rs_staging s ∧ rs_plaintext_out s' = rs_plaintext_out s ∧ rs_resp s' = rs_resp s.

Lemma same_input_trans s1 s2 s3 : same_input s1 s2 → same_input s2 s3 → same_input s1 s3.
Proof. intros (? & ? & ? & ? & ? & ?) (? & ? & ? & ? & ? & ?). split_and!; congruence. Qed.

(** A KeyUpdate moves the receiving direction, and the sending one when it was asked to. *)
Lemma on_key_update_spec d0 outs s r :
  out_sync d0 outs s → (r = true → 0 ≤ rk_seq (rs_send_keys s) < 2 ^ 64 - 1) →
  ∃ s', on_key_update (post_bytes (KeyUpdate r)) s = (s', Ok tt) ∧ same_input s s' ∧
    rotate (rs_server_ap_secret s, rs_recv_keys s) = Ok (rs_server_ap_secret s', rs_recv_keys s') ∧
    out_sync d0 (outs ++ if (r : bool) then [reply] else []) s' ∧
    (if (r : bool) then rk_seq (rs_send_keys s') = 0 else rs_send_keys s' = rs_send_keys s).
Proof.
  intros Ho Hs. unfold on_key_update.
  rewrite (mthen_step _ _ _ s [x00; x00; x01]) by done. rewrite (bool_decide_eq_false_2 (len _ ≠ 5)) by (intros H; by apply H).
  rewrite bool_decide_eq_false_2 by (intros H; by apply H). cbn [orb].
  rewrite (mthen_step _ _ _ s (if (r : bool) then x01 else x00)) by done.
  rewrite bool_decide_eq_false_2 by (destruct r; vm_compute; discriminate).
  rewrite (mthen_step _ _ _ s s) by done.
  destruct (rotate_Ok (rs_server_ap_secret s, rs_recv_keys s)) as (sec & keys & E1 & E2 & Er & _). cbn [fst] in E1.
  unfold mthen at 1, mlift at 1. rewrite E1. cbn [no_err]. unfold mthen at 1, mlift at 1. rewrite E2. cbn [no_err].
  rewrite (mthen_step _ _ _ (set_recv keys sec s) tt) by done. set (s1 := set_recv keys sec s).
  assert (out_sync d0 outs s1) as Ho1 by (by eapply out_sync_same). destruct r.
  - rewrite bool_decide_eq_true_2 by done. rewrite (mthen_step _ _ _ s1 s1) by done.
    destruct (seal_Ok (rs_send_keys s1) x16 [x18; x00; x00; x01; x00]) as (ct & Es & _); [by vm_compute|by apply Hs|].
    revert Es. generalize (record_header (len [x18; x00; x00; x01; x00] + 17) ++ ct). intros rec.
    generalize (mk_RecordKeys (rk_key (rs_send_keys s1)) (rk_iv (rs_send_keys s1)) (rk_seq (rs_send_keys s1) + 1)).
    intros k' Es. unfold mthen at 1, mlift at 1. rewrite Es. cbn [no_err].
    rewrite (mthen_step _ _ _ (set_send k' (rs_client_ap_secret s1) (rs_write_pending s1 ++ rec) s1) tt) by done.
    set (s2 := set_send _ _ _ s1). rewrite (mthen_step _ _ _ s2 s2) by done.
    destruct (rotate_Ok (rs_client_ap_secret s2, rs_send_keys s2)) as (sec2 & keys2 & F1 & F2 & Fr & Hz). cbn [fst] in F1.
    unfold mthen at 1, mlift at 1. rewrite F1. cbn [no_err]. unfold mthen at 1, mlift at 1. rewrite F2. cbn [no_err].
    eexists. split; [done|]. split_and!; try done.
    assert (send_item (rs_client_ap_secret s1, rs_send_keys s1) reply = Ok (rec, (sec2, keys2))) as Ei3.
    { unfold send_item. change (item_content reply) with (x16, [x18; x00; x00; x01; x00]). cbn [fst snd].
      rewrite Es. cbn [rbind reply rotate_posts]. cbn [rs_client_ap_secret rs_send_keys s2 set_send] in Fr.
      by rewrite Fr. }
    eapply (out_sync_snoc d0 outs s1 reply); [done|exact Ei3| |done]. cbn. by rewrite app_assoc.
  - rewrite bool_decide_eq_false_2 by done. exists s1. split; [done|].
    split_and!; try done. by rewrite app_nil_r.
Qed.

(** A record of post-handshake messages: every KeyUpdate in it takes effect, whatever stands before
    or behind it. *)
Lemma post_handshake_spec d0 ps fuel outs s :
  Forall post_ok ps → (length (concat (post_bytes <$> ps)) ≤ fuel)%nat → out_sync d0 outs s →
  0 ≤ rk_seq (rs_send_keys s) → rk_seq (rs_send_keys s) + Z.of_nat (post_requests ps) < 2 ^ 64 - 1 →
  ∃ s', post_handshake fuel (concat (post_bytes <$> ps)) s = (s', Ok tt) ∧ same_input s s' ∧
    rotate_posts (rs_server_ap_secret s, rs_recv_keys s) ps = Ok (rs_server_ap_secret s', rs_recv_keys s') ∧
    out_sync d0 (outs ++ replicate (post_requests ps) reply) s' ∧
    0 ≤ rk_seq (rs_send_keys s') ≤ rk_seq (rs_send_keys s).
Proof.
  intros Hps. revert fuel outs s. induction Hps as [|p ps Hp Hps IH]; intros fuel outs s Hf Ho H0 Hs.
  - exists s. cbn. rewrite app_nil_r. split_and!; done || lia || by destruct fuel.
  - assert (is_message (post_bytes p)) as Hm.
    { destruct p as [r|m]; [|apply Hp]. do 5 eexists. split; [reflexivity|]. done. }
    cbn [fmap list_fmap concat] in Hf |- *. fold (post_bytes <$> ps) in Hf |- *. set (rest := concat (post_bytes <$> ps)) in *.
    pose proof (message_len _ Hm) as Hlen. rewrite length_app in Hf. unfold len in Hlen.
    destruct fuel as [|fuel]; [lia|].
    assert (∀ s, post_handshake (S fuel) (post_bytes p ++ rest) s =
      (let! _ := if bool_decide (head (post_bytes p) = Some x18) then on_key_update (post_bytes p) else mlift (Ok tt) in
       post_handshake fuel rest) s) as ->.
    { clear -Hm. destruct Hm as (t & a & b & c & body & E & Hu). rewrite E. intros s. cbn [app post_handshake head].
      pose proof (len_nonneg rest). pose proof (len_nonneg body). rewrite bool_decide_eq_false_2 by llia.
      change (t :: a :: b :: c :: body ++ rest) with ((t :: a :: b :: c :: body) ++ rest).
      rewrite zdrop_app, ztake_app by llia. by rewrite (bool_decide_ext (Some t = Some x18) (t = x18)) by naive_solver. }
    destruct p as [r|m].
    + rewrite bool_decide_eq_true_2 by done.
      destruct (on_key_update_spec d0 outs s r Ho) as (s1 & E1 & Hsame & Hrot & Ho1 & Hk).
      { intros ->. cbn in Hs. lia. }
      rewrite (mthen_step _ _ _ _ _ E1).
      destruct (IH fuel (outs ++ if (r : bool) then [reply] else []) s1) as (s' & E' & Hsame' & Hrot' & Ho' & Hk'); [lia|exact Ho1|..].
      { destruct r; [lia|congruence]. } { destruct r; [cbn in Hs; lia|]. rewrite Hk. cbn in Hs. done. }
      exists s'. split; [done|]. cbn [rotate_posts]. rewrite Hrot. cbn [rbind].
      split_and!; [by eapply same_input_trans|done| | |].
      * destruct r; cbn [post_requests replicate]; rewrite <-app_assoc in Ho'; done.
      * lia.
      * destruct r; [lia|rewrite Hk in Hk'; lia].
    + rewrite bool_decide_eq_false_2 by apply Hp. rewrite (mthen_step _ _ _ s tt) by done.
      apply IH; [lia|done..].
Qed.

(** ** Lemmas on the input direction *)

Lemma header_idx n i : 0 ≤ n < 2 ^ 16 → i = 3 ∨ i = 4 →
  (idx (record_header n) i : res io_error byte) = Ok (z2b (Z.shiftr n (8 * (4 - i)))).
Proof. intros _ [->| ->]; reflexivity. Qed.

Lemma u16_of_header n : 0 ≤ n < 2 ^ 16 → u16_of (z2b (Z.shiftr n (8 * (4 - 3)))) (z2b (Z.shiftr n (8 * (4 - 4)))) = n.
Proof.
  intros Hn. destruct (u16_of_be16 n) as (a & b & Hab & Hu); [ulia|].
  assert (be16 n = [z2b (Z.shiftr n 8); z2b (Z.shiftr n 0)]) as H by reflexivity. rewrite H in Hab.
  injection Hab as Ha Hb. subst. exact Hu.
Qed.

(** The first record of the buffer is complete. *)
Lemma decode_one_item d0 outs s it rec d' raw :
  item_ok it → send_item (rs_server_ap_secret s, rs_recv_keys s) it = Ok (rec, d') →
  rs_read_raw s = rec ++ raw → out_sync d0 outs s → 0 ≤ rk_seq (rs_recv_keys s) < 2 ^ 64 - 1 →
  0 ≤ rk_seq (rs_send_keys s) → rk_seq (rs_send_keys s) + Z.of_nat (requests [it]) < 2 ^ 64 - 1 →
  ∃ s', decode_one s = (s', Ok (Some (match it with IData c => Data c | IPost _ => Drop end))) ∧
    same_input (set_raw raw s) s' ∧ (rs_server_ap_secret s', rs_recv_keys s') = d' ∧
    out_sync d0 (outs ++ replicate (requests [it]) reply) s' ∧
    0 ≤ rk_seq (rs_send_keys s') ≤ rk_seq (rs_send_keys s).
Proof.
  intros Hit Hsend Hraw Ho Hr Hs0 Hs.
  destruct (send_item_Ok (rs_server_ap_secret s, rs_recv_keys s) it Hit Hr)
    as (ct & d'' & E & Hct & Eo & _ & Hd). cbv zeta in *.
  assert (rec = record_header (len (item_content it).2 + 17) ++ ct) as -> by congruence.
  assert (d'' = d') as -> by congruence. clear E.
  cbn [fst snd] in Eo, Hd. set (n := len (item_content it).2 + 17) in *.
  assert (17 ≤ n ≤ MAX_TLS_RECORD) as Hn.
  { destruct Hit as [Hl _]. pose proof (len_nonneg (item_content it).2). unfold n, MAX_TLS_RECORD, MAX_PLAINTEXT in *. lia. }
  unfold MAX_TLS_RECORD in Hn. pose proof (record_header_len n) as Hh. rewrite <-app_assoc in Hraw.
  assert (len (rs_read_raw s) = 5 + n + len raw) as Hl by (rewrite Hraw, !len_app; lia). pose proof (len_nonneg raw).
  unfold decode_one. rewrite (mthen_step _ _ _ s s) by done. rewrite bool_decide_eq_false_2 by lia.
  rewrite (mthen_step _ _ _ s (record_header n)).
  2:{ unfold mlift, slice. rewrite Hraw. pose proof (get_range_app [] (record_header n) (ct ++ raw) 0 5) as G.
      cbn [app] in G. by rewrite G by (rewrite ?Hh; done). }
  rewrite (mthen_step _ _ _ s _) by (unfold mlift; rewrite header_idx by (lia || auto); done).
  rewrite (mthen_step _ _ _ s _) by (unfold mlift; rewrite header_idx by (lia || auto); done).
  rewrite u16_of_header by lia. unfold MAX_TLS_RECORD. rewrite !bool_decide_eq_false_2 by lia.
  rewrite (mthen_step _ _ _ s ct).
  2:{ unfold mlift, slice. rewrite Hraw. rewrite (get_range_app (record_header n) ct) by lia. done. }
  rewrite (mthen_step _ _ _ s raw).
  2:{ unfold mlift, slice. rewrite Hraw, app_assoc. change (get_range ?l ?a (len ?l)) with (get_from l a).
      rewrite get_from_app by (rewrite len_app; lia). done. }
  rewrite (mthen_step _ _ _ (set_raw raw s) tt) by done. unfold mthen at 1, mlift at 1. rewrite Eo. cbn [map_err].
  destruct (item_content it) as [inner content] eqn:Hic.
  rewrite (mthen_step _ _ _ (set_recv (mk_RecordKeys (rk_key (rs_recv_keys s)) (rk_iv (rs_recv_keys s)) (rk_seq (rs_recv_keys s) + 1)) (rs_server_ap_secret s) (set_raw raw s)) tt) by done.
  set (s1 := set_recv _ _ _). assert (out_sync d0 outs s1) as Ho1 by (by eapply out_sync_same).
  destruct it as [c|ps]; injection Hic as <- <-; cbv iota.
  - exists s1. cbn [requests replicate]. rewrite app_nil_r. split_and!; try done.
  - destruct (post_handshake_spec d0 ps (length (concat (post_bytes <$> ps))) outs s1) as (s' & E' & Hsame & Hrot & Ho' & Hk);
      [apply Hit|done|done|done|cbn in Hs; rewrite Nat.add_0_r in Hs; done|].
    rewrite (mthen_step _ _ _ _ _ E'). exists s'. cbn [requests]. rewrite Nat.add_0_r.
    split_and!; try done; [|apply Hk|apply Hk].
    cbn [rs_server_ap_secret rs_recv_keys s1 set_recv] in Hrot. congruence.
Qed.

(** The first record of the buffer is not complete. *)
Lemma decode_one_none s it rec d' d later more :
  item_ok it → 0 ≤ rk_seq d.2 < 2 ^ 64 - 1 → send_item d it = Ok (rec, d') →
  rs_read_raw s ++ later = rec ++ more → len (rs_read_raw s) < len rec → decode_one s = (s, Ok None).
Proof.
  intros Hit Hr Hsend Hd Hlt. destruct (send_item_Ok d it Hit Hr) as (ct & d'' & E & Hct & _). cbv zeta in *.
  assert (rec = record_header (len (item_content it).2 + 17) ++ ct) as -> by congruence. clear E.
  set (n := len (item_content it).2 + 17) in *.
  assert (17 ≤ n ≤ MAX_TLS_RECORD) as Hn.
  { destruct Hit as [Hl _]. pose proof (len_nonneg (item_content it).2). unfold n, MAX_TLS_RECORD, MAX_PLAINTEXT in *. lia. }
  unfold MAX_TLS_RECORD in Hn. pose proof (record_header_len n) as Hh. rewrite len_app in Hlt.
  unfold decode_one. rewrite (mthen_step _ _ _ s s) by done. case_bool_decide as H5; [done|].
  rewrite <-(ztake_zdrop 5 (rs_read_raw s)), <-!app_assoc in Hd.
  apply app_split_len in Hd as [Hd _]; [|rewrite len_ztake; lia].
  rewrite (mthen_step _ _ _ s (record_header n)).
  2:{ unfold mlift, slice, get_range. rewrite bool_decide_eq_true_2 by lia. cbn [expect].
      change (take (Z.to_nat (5 - 0)) (drop (Z.to_nat 0) (rs_read_raw s))) with (ztake 5 (rs_read_raw s)). by rewrite Hd. }
  rewrite (mthen_step _ _ _ s _) by (unfold mlift; rewrite header_idx by (lia || auto); done).
  rewrite (mthen_step _ _ _ s _) by (unfold mlift; rewrite header_idx by (lia || auto); done).
  rewrite u16_of_header by lia. unfold MAX_TLS_RECORD.
  rewrite (bool_decide_eq_false_2 (n > _)), bool_decide_eq_true_2 by lia. done.
Qed.

(** ** The stream and the server in step *)

Fixpoint rd_bytes (rin : list rd_poll) : list byte :=
  match rin with
  | RdData bs :: rin => bs ++ rd_bytes rin
  | _ :: rin => rd_bytes rin
  | [] => []
  end.

Definition rd_ok (e : rd_poll) : Prop := match e with RdData bs => bs ≠ [] | RdErr => False | RdPend => True end.
Definition wr_ok (e : wr_poll) : Prop := match e with WrOk k => 0 < k | WrErr => False | WrPend => True end.

(** The server will send [its] from where the stream's receiving keys stand; the buffer, the socket
    and [later] (what has not arrived yet) hold exactly those records.  The stream has sent [outs]
    from [d0].  The socket works. *)
Record synced (s : RealityStream) (d0 : dir) (outs its : list item) (later : list byte) : Prop := {
  sy_in : ∃ d', send_items (rs_server_ap_secret s, rs_recv_keys s) its
    = Ok (rs_read_raw s ++ rd_bytes (rs_rin s) ++ later, d');
  sy_items : Forall item_ok its;
  sy_out : out_sync d0 outs s;
  sy_recv_seq : 0 ≤ rk_seq (rs_recv_keys s) ∧ rk_seq (rs_recv_keys s) + len its < 2 ^ 64 - 1;
  sy_send_seq : 0 ≤ rk_seq (rs_send_keys s) ∧
    rk_seq (rs_send_keys s) + Z.of_nat (requests its) < 2 ^ 64 - 1;
  sy_rin : Forall rd_ok (rs_rin s);
  sy_win : Forall wr_ok (rs_win s)
}.

(** The stream of application bytes behind the VLESS response header. *)
Definition strip_resp (l : list byte) : list byte :=
  match l with
  | _ :: n :: rest => zdrop (b2z n) rest
  | _ => []
  end.

(** What the reader will still get when [data] is what the server's records still carry. *)
Definition released (s : RealityStream) (data : list byte) : list byte :=
  rs_plaintext_out s ++ if (rs_resp s : bool) then data else strip_resp (rs_staging s ++ data).

Lemma absorb_app_spec s c :
  ∃ resp staging plain, absorb_app c s = (set_plain resp staging plain s, Ok tt) ∧
    ∀ data, released (set_plain resp staging plain s) data = released s (c ++ data).
Proof.
  unfold absorb_app, released. rewrite (mthen_step _ _ _ s s) by done. destruct (rs_resp s) eqn:Hr.
  { eexists _, _, _. split; [done|]. intros data. cbn. by rewrite <-app_assoc. }
  unfold mthen, mlift. rewrite strip_spec. destruct (rs_staging s ++ c) as [|v [|n rest]] eqn:Est.
  - cbn. eexists _, _, _. split; [done|]. intros data. cbn. by rewrite (app_assoc (rs_staging s)), Est.
  - cbn. eexists _, _, _. split; [done|]. intros data. cbn. by rewrite (app_assoc (rs_staging s)), Est.
  - pose proof (b2z_range n). case_bool_decide as Hn; cbn.
    + eexists _, _, _. split; [done|]. intros data. cbn. rewrite (app_assoc (rs_staging s)), Est. cbn.
      rewrite <-app_assoc. f_equal. unfold zdrop. rewrite drop_app_le; [done|]. unfold len in Hn. lia.
    + eexists _, _, _. split; [done|]. intros data. cbn. by rewrite (app_assoc (rs_staging s)), Est.
Qed.

Lemma flush_loop_spec win pending wout :
  Forall wr_ok win →
  ∃ win' pending' wout' p, flush_loop win pending wout = (win', pending', wout', Ok p) ∧
    Forall wr_ok win' ∧ wout' ++ pending' = wout ++ pending ∧ (p = Ready tt → pending' = []).
Proof.
  intros Hw. revert pending wout. induction Hw as [|e win He Hw IH]; intros pending wout.
  - destruct pending; cbn; eexists _, _, _, _; (split; [done|]); split_and!; try done; by constructor.
  - destruct pending as [|b pending]; cbn [flush_loop].
    { eexists _, _, _, _. split; [done|]. split_and!; try done. by constructor. }
    destruct e as [k| |]; [|done|].
    + cbn in He. rewrite bool_decide_eq_false_2 by (pose proof (len_nonneg pending); llia).
      destruct (IH (zdrop (Z.min k (len (b :: pending))) (b :: pending))
        (wout ++ ztake (Z.min k (len (b :: pending))) (b :: pending))) as (w' & p' & o' & p & E & Hw' & Ho & Hp).
      exists w', p', o', p. split_and!; try done. by rewrite Ho, <-app_assoc, ztake_zdrop.
    + eexists _, _, _, _. split; [done|]. by split_and!.
Qed.

Lemma poll_flush_sync s d0 outs its later :
  synced s d0 outs its later →
  ∃ s' p, poll_flush_pending s = (s', Ok p) ∧ synced s' d0 outs its later ∧
    (p = Ready tt → rs_write_pending s' = []) ∧ rs_rin s' = rs_rin s ∧ rs_read_raw s' = rs_read_raw s ∧
    rs_plaintext_out s' = rs_plaintext_out s ∧ rs_send_keys s' = rs_send_keys s ∧
    ∀ data, released s' data = released s data.
Proof.
  intros [Hin Hits Ho Hr Hs Hrin Hwin]. unfold poll_flush_pending.
  destruct (flush_loop_spec (rs_win s) (rs_write_pending s) (rs_wout s) Hwin)
    as (w' & p' & o' & p & -> & Hw' & Ho' & Hp).
  eexists _, p. split; [done|]. split_and!; try done. by split; try done; eapply out_sync_same.
Qed.

(** ** Reading and writing in step *)

(** One decoded record: the stream follows the server. *)
Lemma decode_sync s d0 outs its later :
  synced s d0 outs its later → rs_plaintext_out s = [] →
  (decode_one s = (s, Ok None) ∧ (rd_bytes (rs_rin s) ++ later = [] → its = [])) ∨
  (∃ it its' s', its = it :: its' ∧
     decode_one s = (s', Ok (Some (match it with IData c => Data c | IPost _ => Drop end))) ∧
     synced s' d0 (outs ++ replicate (requests [it]) reply) its' later ∧
     rs_rin s' = rs_rin s ∧ len (rs_read_raw s') + 5 ≤ len (rs_read_raw s) ∧
     rs_plaintext_out s' = rs_plaintext_out s ∧ rs_staging s' = rs_staging s ∧ rs_resp s' = rs_resp s ∧
     rk_seq (rs_send_keys s') ≤ rk_seq (rs_send_keys s)).
Proof.
  intros [[dlast Hin] Hits Ho [Hr0 Hr] [Hs0 Hs] Hrin Hwin] Hplain.
  destruct its as [|it its'].
  - injection Hin as Hnil _. symmetry in Hnil. apply app_nil in Hnil as [Hraw _]. left. split; [|done].
    unfold decode_one. rewrite (mthen_step _ _ _ s s) by done. by rewrite Hraw.
  - apply Forall_cons in Hits as [Hit Hits]. rewrite len_cons in Hr. pose proof (len_nonneg its').
    cbn [send_items] in Hin. set (d := (rs_server_ap_secret s, rs_recv_keys s)) in *.
    destruct (send_item_Ok d it Hit) as (ct & d1 & Ei & Hct & _ & Hseq & _); [cbn; lia|]. cbv zeta in *.
    set (rec := record_header (len (item_content it).2 + 17) ++ ct) in *. rewrite Ei in Hin. cbn [rbind] in Hin.
    destruct (send_items d1 its') as [[w dl]| |] eqn:Ew; try discriminate. cbn [rbind] in Hin.
    assert (rec ++ w = rs_read_raw s ++ rd_bytes (rs_rin s) ++ later) as Hw by congruence. clear Hin.
    assert (len rec = len (item_content it).2 + 22) as Hrec.
    { unfold rec. rewrite len_app, record_header_len. lia. }
    pose proof (len_nonneg (item_content it).2).
    destruct (decide (len (rs_read_raw s) < len rec)) as [Hlt|Hge].
    + left. split; [eapply (decode_one_none s it rec d1 d _ w); try done; cbn; lia|].
      intros Hn. rewrite Hn, app_nil_r in Hw. apply (f_equal len) in Hw. rewrite len_app in Hw.
      pose proof (len_nonneg w). lia.
    + right. exists it, its'.
      assert (∃ raw, rs_read_raw s = rec ++ raw ∧ w = raw ++ rd_bytes (rs_rin s) ++ later) as (raw & Hraw & ->).
      { exists (zdrop (len rec) (rs_read_raw s)). rewrite <-(ztake_zdrop (len rec) (rs_read_raw s)), <-!app_assoc in Hw.
        symmetry in Hw. apply app_split_len in Hw as [Ht <-]; [|rewrite len_ztake; lia]. split; [|done].
        rewrite <-Ht at 1. by rewrite ztake_zdrop. }
      assert (requests (it :: its') = (requests [it] + requests its')%nat) as Hreq.
      { destruct it; cbn; lia. }
      destruct (decode_one_item d0 outs s it rec d1 raw Hit Ei Hraw Ho) as (s' & Ed & Hsame & Hd1 & Ho' & Hk); [cbn in *; lia..|].
      destruct Hsame as (E1 & E2 & E3 & E4 & E5 & E6). cbn in E1, E2, E3, E4, E5, E6.
      exists s'. split_and!; try done.
      * split; rewrite ?E1, ?E2, ?E3; try done.
        -- rewrite Hd1, Ew. eauto.
        -- replace (rs_recv_keys s') with d1.2 by (by rewrite <-Hd1). cbn in Hseq. lia.
        -- lia.
      * rewrite E3, Hraw, len_app. lia.
      * lia.
Qed.

Lemma synced_plain s d0 outs its later resp staging plain :
  synced s d0 outs its later → synced (set_plain resp staging plain s) d0 outs its later.
Proof. intros [Hin Hits Ho Hr Hs Hrin Hwin]. by split. Qed.

(** What a read tells the reader. *)
Definition read_result (s s' : RealityStream) (its its' : list item) (later : list byte) (r : poll (list byte)) : Prop :=
  match r with
  | Ready bs => bs ≠ [] ∧ bs ++ released s' (items_data its') = released s (items_data its)
  | Pending => released s' (items_data its') = released s (items_data its) ∧ rs_plaintext_out s' = [] ∧
      (rs_rin s' = [] → later = [] → its' = [])
  end.

Lemma rd_size_nonneg rin : 0 ≤ rd_size rin.
Proof. induction rin as [|[bs| |] l IH]; cbn [rd_size]; [done|pose proof (len_nonneg bs); lia|lia..]. Qed.

(** Bytes that are ready are handed out, and the rest is kept. *)
Lemma read_plain_sync cap s s1 d0 outs its later :
  synced s1 d0 outs its later → 0 < cap → rs_plaintext_out s1 ≠ [] → (∀ d, released s1 d = released s d) →
  let n := Z.min cap (len (rs_plaintext_out s1)) in
  let s2 := set_plain (rs_resp s1) (rs_staging s1) (zdrop n (rs_plaintext_out s1)) s1 in
  synced s2 d0 outs its later ∧ read_result s s2 its its later (Ready (ztake n (rs_plaintext_out s1))).
Proof.
  intros Hsy Hcap Hne Hrel n s2. split; [by apply synced_plain|]. pose proof (len_nonneg (rs_plaintext_out s1)). split.
  - intros Hn. apply (f_equal len) in Hn. rewrite len_ztake, len_nil in Hn by lia.
    assert (0 < len (rs_plaintext_out s1)); [|lia]. clear -Hne. destruct (rs_plaintext_out s1); [done|].
    pose proof (len_nonneg l). llia.
  - rewrite <-Hrel. unfold released. cbn. by rewrite app_assoc, ztake_zdrop.
Qed.

Lemma poll_read_loop_sync fuel cap s d0 outs its later :
  synced s d0 outs its later → 0 < cap → 1 + len (rs_read_raw s) + rd_size (rs_rin s) ≤ Z.of_nat fuel →
  ∃ s' r its' k, poll_read_loop fuel cap s = (s', Ok r) ∧ requests its = (k + requests its')%nat ∧
    synced s' d0 (outs ++ replicate k reply) its' later ∧ read_result s s' its its' later r ∧
    rk_seq (rs_send_keys s') ≤ rk_seq (rs_send_keys s).
Proof.
  intros Hsy Hcap. revert s outs its Hsy. induction fuel as [|fuel IH]; intros s outs its Hsy Hfuel.
  { pose proof (len_nonneg (rs_read_raw s)). pose proof (rd_size_nonneg (rs_rin s)). lia. }
  destruct (poll_flush_sync _ _ _ _ _ Hsy) as (s1 & p & Ef & Hsy1 & _ & Hrin1 & Hraw1 & Hpl1 & Hk1 & Hrel1).
  cbn [poll_read_loop]. rewrite (mthen_step _ _ _ _ _ Ef), (mthen_step _ _ _ s1 s1) by done.
  case_bool_decide as Hplain.
  { destruct (read_plain_sync cap s s1 d0 outs its later Hsy1 Hcap Hplain Hrel1) as [Hsy2 Hres].
    erewrite (mthen_step _ _ s1) by done. eexists _, _, its, 0%nat. rewrite app_nil_r.
    split; [done|]. split; [done|]. split; [exact Hsy2|]. split; [exact Hres|]. cbn. rewrite Hk1. lia. }
  destruct (decode_sync _ _ _ _ _ Hsy1 Hplain) as
    [[Ed Hdone]|(it & its' & s2 & -> & Ed & Hsy2 & Hrin2 & Hraw2 & Hpl2 & Hst2 & Hre2 & Hk2)].
  - rewrite (mthen_step _ _ _ _ _ Ed). pose proof Hsy1 as [Hin Hits Ho Hr Hs Hrin Hwin].
    unfold mthen at 1, read_half_poll. destruct (rs_rin s1) as [|e rin] eqn:Erin.
    { rewrite (mthen_step _ _ _ s1 s1) by done. eexists _, _, its, 0%nat. rewrite app_nil_r.
      split; [done|]. split; [done|]. split; [done|].
      split; [|rewrite Hk1; lia]. split_and!; [apply Hrel1|done|]. intros _ ->. apply Hdone. done. }
    apply Forall_cons in Hrin as [He Hrin]. set (s2 := set_sockets rin (rs_win s1) (rs_wout s1) s1).
    rewrite (mthen_step _ _ _ s2 s2) by done. destruct e as [[|b bs]| |]; [done| |done|].
    + rewrite (mthen_step _ _ _ (set_raw (rs_read_raw s2 ++ b :: bs) s2) tt) by done.
      destruct (IH (set_raw (rs_read_raw s2 ++ b :: bs) s2) outs its) as (s' & r & its' & k & E' & Hk & Hsy' & Hres & Hq).
      { split; try done. destruct Hin as [dl Hin]. exists dl. cbn [rd_bytes] in Hin. rewrite <-app_assoc in Hin.
        cbn [rs_server_ap_secret rs_recv_keys rs_read_raw rs_rin set_raw set_sockets s2]. by rewrite <-app_assoc. }
      { rewrite <-Hrin1 in Hfuel. cbn [rd_size] in Hfuel.
        cbn [rs_read_raw rs_rin set_raw set_sockets s2]. rewrite Hraw1, len_app, !len_cons in *. lia. }
      exists s', r, its', k. split; [done|]. split; [done|]. split; [done|]. split; [|cbn in Hq; rewrite Hk1 in Hq; lia]. destruct r; cbn [read_result] in Hres |- *; rewrite <-Hrel1; exact Hres.
    + eexists _, _, its, 0%nat. rewrite app_nil_r. split; [done|]. split; [done|]. split.
      { split; try done. } split; [|cbn; rewrite Hk1; lia]. split_and!; [apply Hrel1|done|].
      intros Hnil ->. cbn in Hnil. subst rin. apply Hdone. done.
  - rewrite (mthen_step _ _ _ _ _ Ed).
    assert (requests (it :: its') = (requests [it] + requests its')%nat) as Hreq by (destruct it; cbn; lia).
    assert (∀ d, released s2 d = released s1 d) as Hrel2.
    { intros d. unfold released. by rewrite Hpl2, Hst2, Hre2. }
    rewrite Hrin1 in Hrin2. rewrite Hraw1 in Hraw2. destruct it as [c|ps].
    + destruct (absorb_app_spec s2 c) as (resp & st & pl & Ea & Hrel3). rewrite (mthen_step _ _ _ _ _ Ea).
      destruct (IH _ _ _ (synced_plain _ _ _ _ _ resp st pl Hsy2)) as (s' & r & its2 & k & E' & Hk & Hsy' & Hres & Hq).
      { cbn. rewrite Hrin2. lia. }
      exists s', r, its2, k. split; [done|]. split; [cbn in *; lia|]. cbn [requests replicate] in Hsy'. rewrite app_nil_r in Hsy'. split; [done|].
      split; [|rewrite Hk1 in Hk2; cbn in Hq; lia].
      change (items_data (IData c :: its')) with (c ++ items_data its').
      destruct r; cbn [read_result] in Hres |- *; rewrite Hrel3, Hrel2, Hrel1 in Hres; exact Hres.
    + destruct (IH _ _ _ Hsy2) as (s' & r & its2 & k & E' & Hk & Hsy' & Hres & Hq); [rewrite Hrin2; lia|].
      exists s', r, its2, (requests [IPost ps] + k)%nat. split; [done|]. split; [lia|].
      split; [by rewrite replicate_add, app_assoc|]. split; [|rewrite Hk1 in Hk2; lia].
      destruct r; cbn [read_result] in Hres |- *; rewrite Hrel2, Hrel1 in Hres; exact Hres.
Qed.

Lemma poll_write_sync s d0 outs its later buf :
  synced s d0 outs its later → rk_seq (rs_send_keys s) + 1 + Z.of_nat (requests its) < 2 ^ 64 - 1 →
  ∃ s' r, poll_write buf s = (s', Ok r) ∧ (∀ data, released s' data = released s data) ∧
    match r with
    | Pending => synced s' d0 outs its later ∧ rs_send_keys s' = rs_send_keys s
    | Ready n => n = Z.min (len buf) MAX_PLAINTEXT ∧
        synced s' d0 (outs ++ if bool_decide (buf = []) then [] else [IData (ztake n buf)]) its later ∧
        rk_seq (rs_send_keys s') ≤ rk_seq (rs_send_keys s) + 1
    end.
Proof.
  intros Hsy Hroom. unfold poll_write.
  destruct (poll_flush_sync _ _ _ _ _ Hsy) as (s1 & p & Ef & Hsy1 & _ & _ & _ & _ & Hk1 & Hrel1).
  rewrite (mthen_step _ _ _ _ _ Ef). destruct p as [[]|].
  2:{ eexists _, _. split; [done|]. done. }
  case_bool_decide as Hb.
  { subst buf. eexists _, _. split; [done|]. split; [done|]. rewrite app_nil_r, Hk1. split_and!; [done|done|lia]. }
  pose proof (len_nonneg buf). set (n := Z.min (len buf) MAX_PLAINTEXT). assert (0 ≤ n ≤ len buf) as Hn by (unfold n, MAX_PLAINTEXT; lia).
  assert (item_ok (IData (ztake n buf))) as Hit.
  { split; [|done]. cbn. rewrite len_ztake by lia. unfold n. lia. }
  rewrite (mthen_step _ _ _ s1 s1) by done. pose proof Hsy1 as [Hin1 Hits1 Ho1 Hr1 [Hs0 Hs1] Hrin1 Hwin1].
  destruct (send_item_Ok (rs_client_ap_secret s1, rs_send_keys s1) _ Hit) as (ct & d' & Ei & _ & _ & Hseq & Hd); [rewrite <-Hk1 in Hroom; cbn; lia|].
  cbv zeta in *. unfold send_item in Ei. cbn [item_content fst snd] in Ei, Hd, Hseq.
  destruct (seal (rs_send_keys s1) x17 (ztake n buf)) as [[rec keys]| |] eqn:Es; try discriminate. cbn [rbind] in Ei.
  unfold mthen at 1, mlift at 1. cbn [no_err].
  set (s2 := set_send keys (rs_client_ap_secret s1) (rs_write_pending s1 ++ rec) s1).
  rewrite (mthen_step _ _ _ s2 tt) by done.
  assert (d' = (rs_client_ap_secret s1, keys)) as -> by congruence. cbn in Hseq.
  assert (synced s2 d0 (outs ++ [IData (ztake n buf)]) its later) as Hsy2.
  { split; try done; [|rewrite <-Hk1 in Hroom; cbn; lia]. eapply (out_sync_snoc d0 outs s1 _ rec (rs_client_ap_secret s1, keys)); [done| |cbn; by rewrite app_assoc|done].
    unfold send_item. cbn [item_content fst snd]. by rewrite Es. }
  destruct (poll_flush_sync _ _ _ _ _ Hsy2) as (s3 & p & Ef3 & Hsy3 & _ & _ & _ & _ & Hk3 & Hrel3).
  rewrite (mthen_step _ _ _ _ _ Ef3). eexists _, _. split; [done|]. split.
  { intros data. rewrite Hrel3, <-Hrel1. done. }
  split_and!; [done|done|]. rewrite Hk3, <-Hk1. cbn. lia.
Qed.

(** ** Interleaved use

    The reader and the writer of the stream take turns with the network in any order: [OArrive]
    lets the socket become ready with more bytes. *)
Inductive op : Type :=
| ORead (cap : Z)
| OWrite (buf : list byte)
| OArrive (rin : list rd_poll) (win : list wr_poll).

(** All bytes read and all bytes accepted for writing. *)
Fixpoint run_ops (ops : list op) : SM (list byte * list byte) :=
  match ops with
  | [] => mlift (Ok ([], []))
  | ORead cap :: ops =>
      let! r := poll_read cap in
      let! ' (rd, wr) := run_ops ops in
      mlift (Ok (match r with Ready bs => bs | Pending => [] end ++ rd, wr))
  | OWrite buf :: ops =>
      let! r := poll_write buf in
      let! ' (rd, wr) := run_ops ops in
      mlift (Ok (rd, match r with Ready n => ztake n buf | Pending => [] end ++ wr))
  | OArrive rin win :: ops =>
      let! s := mget in
      let! _ := mupd (set_sockets (rs_rin s ++ rin) (rs_win s ++ win) (rs_wout s)) in
      run_ops ops
  end.

Definition op_ok (o : op) : Prop :=
  match o with
  | ORead cap => 0 < cap
  | OWrite _ => True
  | OArrive rin win => Forall rd_ok rin ∧ Forall wr_ok win
  end.

Fixpoint arrivals (ops : list op) : list byte :=
  match ops with
  | [] => []
  | OArrive rin _ :: ops => rd_bytes rin ++ arrivals ops
  | _ :: ops => arrivals ops
  end.

Definition is_reply (it : item) : bool := match it with IPost [KeyUpdate false] => true | _ => false end.
Definition replies (its : list item) : nat := length (List.filter is_reply its).

Lemma rd_bytes_app l1 l2 : rd_bytes (l1 ++ l2) = rd_bytes l1 ++ rd_bytes l2.
Proof. induction l1 as [|[bs| |] l1 IH]; cbn; [done|rewrite IH; by rewrite app_assoc|done..]. Qed.

Lemma items_data_app l1 l2 : items_data (l1 ++ l2) = items_data l1 ++ items_data l2.
Proof. unfold items_data. by rewrite fmap_app, concat_app. Qed.

Lemma replies_app l1 l2 : replies (l1 ++ l2) = (replies l1 + replies l2)%nat.
Proof. unfold replies. by rewrite List.filter_app, length_app. Qed.

Lemma replies_replicate k : replies (replicate k reply) = k ∧ items_data (replicate k reply) = [].
Proof. induction k as [|k [IH1 IH2]]; [done|]. split; cbn; [by f_equal|done]. Qed.

Lemma poll_read_sync cap s d0 outs its later :
  synced s d0 outs its later → 0 < cap →
  ∃ s' r its' k, poll_read cap s = (s', Ok r) ∧ requests its = (k + requests its')%nat ∧
    synced s' d0 (outs ++ replicate k reply) its' later ∧ read_result s s' its its' later r ∧
    rk_seq (rs_send_keys s') ≤ rk_seq (rs_send_keys s).
Proof.
  intros Hsy Hcap. unfold poll_read. rewrite (mthen_step _ _ _ s s) by done.
  apply poll_read_loop_sync; [done..|]. unfold read_fuel. lia.
Qed.

Lemma run_ops_sync ops s d0 outs its later :
  synced s d0 outs its (arrivals ops ++ later) → Forall op_ok ops →
  rk_seq (rs_send_keys s) + len ops + Z.of_nat (requests its) < 2 ^ 64 - 1 →
  ∃ s' rd wr its' outs', run_ops ops s = (s', Ok (rd, wr)) ∧ synced s' d0 outs' its' later ∧
    rd ++ released s' (items_data its') = released s (items_data its) ∧
    items_data outs' = items_data outs ++ wr ∧
    (replies outs' + requests its' = replies outs + requests its)%nat.
Proof.
  intros Hsy Hops. revert s outs its Hsy. induction Hops as [|o ops Ho Hops IH]; intros s outs its Hsy Hroom.
  - exists s, [], [], its, outs. rewrite app_nil_r. done.
  - rewrite len_cons in Hroom. pose proof (len_nonneg ops). destruct o as [cap|buf|rin win]; cbn [run_ops].
    + destruct (poll_read_sync cap _ _ _ _ _ Hsy Ho) as (s1 & r & its1 & k & E & Hk & Hsy1 & Hres).
      rewrite (mthen_step _ _ _ _ _ E).
      destruct (IH s1 _ its1 Hsy1) as (s' & rd & wr & its' & outs' & E' & Hsy' & Hrel & Hdata & Hrep); [lia|].
      rewrite (mthen_step _ _ _ _ _ E'). eexists s', _, wr, its', outs'. split; [done|].
      destruct (replies_replicate k) as [Hr1 Hr2]. rewrite items_data_app, Hr2, app_nil_r in Hdata.
      rewrite replies_app, Hr1 in Hrep. split_and!; [done| |done|lia].
      rewrite <-app_assoc, Hrel. destruct r; apply Hres.
    + destruct (poll_write_sync _ _ _ _ _ buf Hsy) as (s1 & r & E & Hrel1 & Hr); [lia|].
      rewrite (mthen_step _ _ _ _ _ E). destruct r as [n|].
      * destruct Hr as (Hn & Hsy1 & Hk1).
        destruct (IH s1 _ its Hsy1) as (s' & rd & wr & its' & outs' & E' & Hsy' & Hrel & Hdata & Hrep); [lia|].
        rewrite (mthen_step _ _ _ _ _ E'). eexists s', rd, _, its', outs'. split; [done|].
        rewrite Hrel1 in Hrel. rewrite items_data_app, <-app_assoc in Hdata. rewrite replies_app in Hrep.
        case_bool_decide as Hb; (split_and!; [done|done| |]).
        -- subst buf. rewrite Hdata. unfold ztake. by rewrite take_nil.
        -- cbn in Hrep. lia.
        -- rewrite Hdata. cbn. by rewrite app_nil_r.
        -- cbn in Hrep. lia.
      * destruct Hr as (Hsy1 & Hk1).
        destruct (IH s1 _ its Hsy1) as (s' & rd & wr & its' & outs' & E' & Hsy' & Hrel & Hdata & Hrep); [rewrite Hk1; lia|].
        rewrite (mthen_step _ _ _ _ _ E'). eexists s', rd, _, its', outs'. split; [done|].
        rewrite Hrel1 in Hrel. split_and!; done.
    + destruct Ho as [Hrin Hwin]. rewrite (mthen_step _ _ _ s s) by done. set (s1 := set_sockets (rs_rin s ++ rin) (rs_win s ++ win) (rs_wout s) s).
      rewrite (mthen_step _ _ _ s1 tt) by done. destruct Hsy as [[dl Hin] Hits Hout Hr Hs Hri Hwi].
      destruct (IH s1 outs its) as (s' & rd & wr & its' & outs' & E' & Hsy' & Hrel & Hdata & Hrep); [|cbn; lia|].
      { split; try done; [|by apply Forall_app..]. exists dl.
        cbn [rs_server_ap_secret rs_recv_keys rs_read_raw rs_rin set_sockets s1]. rewrite rd_bytes_app.
        cbn [arrivals] in Hin. rewrite <-!app_assoc in *. done. }
      exists s', rd, wr, its', outs'. done.
Qed.

End stream.

(** ** Properties *)

(** C10: reads and writes in any order, over a socket that delivers and accepts in pieces of any
    size, give the reader exactly the server's application data behind the VLESS response header,
    in order and without loss, and put on the wire exactly the data the writer handed over; both
    directions stay in step across any number of KeyUpdates, each request is answered once, and
    no call fails or panics. *)
Theorem reality_stream_correct `{C : Crypto, !CryptoLaws C} ops s d0 outs its later :
  synced s d0 outs its (arrivals ops ++ later) → Forall op_ok ops →
  rk_seq (rs_send_keys s) + len ops + Z.of_nat (requests its) < 2 ^ 64 - 1 →
  ∃ s' rd wr its' outs', run_ops ops s = (s', Ok (rd, wr)) ∧ synced s' d0 outs' its' later ∧
    rd ++ released s' (items_data its') = released s (items_data its) ∧
    items_data outs' = items_data outs ++ wr ∧
    (replies outs' + requests its' = replies outs + requests its)%nat.
Proof. apply run_ops_sync. Qed.

(** A read makes progress: it returns at least one byte, or it reports that it must wait, and
    then it has handed out everything that has arrived; in particular, when all records have
    arrived, nothing is left behind. *)
Theorem poll_read_progress `{C : Crypto, !CryptoLaws C} cap s d0 outs its later :
  synced s d0 outs its later → 0 < cap →
  ∃ s' r its', poll_read cap s = (s', Ok r) ∧
    match r with
    | Ready bs => bs ≠ [] ∧ bs ++ released s' (items_data its') = released s (items_data its)
    | Pending => released s' (items_data its') = released s (items_data its) ∧ rs_plaintext_out s' = [] ∧
        (rs_rin s' = [] → later = [] → its' = [])
    end.
Proof.
  intros Hsy Hcap. destruct (poll_read_sync cap _ _ _ _ _ Hsy Hcap) as (s' & r & its' & k & E & _ & _ & Hres & _).
  exists s', r, its'. split; [done|]. by destruct r.
Qed.

(** ** A concrete run *)

Definition demo_dir : dir := (replicate 32 x07, record_keys_new (replicate 16 x01) (replicate 12 x02)).
Definition demo_sent : list item :=
  [IData [x00]; IPost [OtherPost [x04; x00; x00; x01; xaa]; KeyUpdate true]; IData [x01; xff; x68]; IData [x69]].
Definition demo_wire : list byte :=
  match @send_items demo_crypto demo_dir demo_sent with Ok (w, _) => w | _ => [] end.
Definition demo_reality : RealityStream :=
  reality_stream_new [RdData (ztake 30 demo_wire); RdPend] [WrOk 10; WrPend] [] demo_dir.2 demo_dir.2 []
    demo_dir.1 demo_dir.1.
Definition demo_ops : list op :=
  [ORead 4096; OWrite [x70; x71]; OArrive [RdData (zdrop 30 demo_wire)] [WrOk 100]; ORead 1; ORead 9; OWrite [x72]].

Lemma demo_synced later : later = zdrop 30 demo_wire →
  @synced demo_crypto demo_reality demo_dir [] demo_sent later.
Proof.
  intros ->. split.
  - assert (∃ d', @send_items demo_crypto demo_dir demo_sent = Ok (demo_wire, d')) as [d' E].
    { unfold demo_wire. destruct (@send_items demo_crypto demo_dir demo_sent) as [[w d']| |] eqn:E;
        [by exists d'|vm_compute in E; discriminate E..]. }
    exists d'. change (@send_items demo_crypto demo_dir demo_sent = Ok (([] ++ ztake 30 demo_wire) ++ zdrop 30 demo_wire, d')).
    cbn [app]. by rewrite ztake_zdrop.
  - repeat constructor; try (vm_compute; congruence). do 5 eexists. by split.
  - done.
  - vm_compute. split; congruence.
  - vm_compute. split; congruence.
  - repeat constructor. by vm_compute.
  - repeat constructor.
Qed.

Lemma reality_stream_correct_witness :
  ∃ s' rd wr, @run_ops demo_crypto demo_ops demo_reality = (s', Ok (rd, wr)) ∧
    ∃ its', rd ++ released s' (items_data its') = [x68; x69].
Proof.
  destruct (reality_stream_correct (C:=demo_crypto) demo_ops demo_reality demo_dir [] demo_sent [])
    as (s' & rd & wr & its' & outs' & E & _ & Hrd & _).
  - apply demo_synced. vm_compute. reflexivity.
  - repeat constructor; vm_compute; congruence.
  - vm_compute. reflexivity.
  - exists s', rd, wr. split; [exact E|]. exists its'. rewrite Hrd. vm_compute. reflexivity.
Defined.

Lemma poll_read_progress_witness :
  ∃ s' r, @poll_read demo_crypto 4096 demo_reality = (s', Ok r).
Proof.
  destruct (poll_read_progress (C:=demo_crypto) 4096 demo_reality demo_dir [] demo_sent (zdrop 30 demo_wire))
    as (s' & r & its' & E & _).
  - apply demo_synced. reflexivity.
  - lia.
  - exists s', r. exact E.
Defined.
