(* ===== verification/Config.v ===== *)
(** * Config: the configuration parsers

    [TuicClientConfig] of [src/tuic.rs], [RealityClientConfig] of [src/reality_upstream.rs],
    [TunRuntimeConfig] and the environment parsers of [src/client_tun.rs], [parse_cc] of
    [src/quic.rs].  The process environment is a function from variable names to optional values.
    The [base64] crate is the class [Base64]. *)

From S2P Require Import Prelude Text Shared Addr TuicCodec Crypto Auth.
Import (notations) Strings.String.

Definition env := list byte → option (list byte).

(** ** UUIDs, [parse_uuid] of [src/tuic.rs] and [src/reality_upstream.rs] *)

(** [s.chars().filter(|c| *c != '-').collect()] *)
Definition drop_hyphens (s : list byte) : list byte := List.filter (λ b, negb (bool_decide (b = x2d))) s.

(** The [for] loop over the sixteen bytes, from index [i] on. *)
Fixpoint uuid_bytes (n : nat) (i : Z) (hex : list byte) : res unit (list byte) :=
  match n with
  | O => Ok []
  | S n =>
      let? p := str_slice hex (i * 2) (i * 2 + 2) in
      let? v := ok_or tt (u8_from_hex p) in
      let? vs := uuid_bytes n (i + 1) hex in
      Ok (z2b v :: vs)
  end.

(** [Err tt] is [None]. *)
Definition parse_uuid (s : list byte) : res unit (list byte) :=
  let hex := drop_hyphens s in
  if bool_decide (len hex ≠ 32) then Err tt else uuid_bytes 16 0 hex.

(** [opt.ok_or(e)?] on the result of [parse_uuid]. *)
Definition or_error {A} (e : ClientError) (m : res unit A) : res ClientError A :=
  match m with
  | Ok a => Ok a
  | Err _ => Err e
  | Panic => Panic
  end.

(** [opt.filter(|s| !s.is_empty())] *)
Definition non_empty (o : option (list byte)) : option (list byte) :=
  s ← o; if bool_decide (s = []) then None else Some s.

(** ** [TuicClientConfig] *)

Record TuicClientConfig := mk_TuicClientConfig {
  tc_server : SocketAddr;
  tc_uuid : list byte;
  tc_password : list byte;
  tc_sni : list byte;
  tc_ca_path : list byte;
  tc_alpn : list byte;
  tc_congestion_control : list byte;
  tc_udp_relay_mode : list byte;
  tc_zero_rtt : bool
}.

Definition DEFAULT_TUIC_ALPN : list byte := str "h3".
Definition DEFAULT_TUIC_SNI : list byte := str "localhost".
Definition DEFAULT_TUIC_CA_PATH : list byte := str "cert.pem".
Definition DEFAULT_TUIC_CC : list byte := str "cubic".
Definition DEFAULT_TUIC_UDP_MODE : list byte := str "native".

Definition tuic_from_sources (server uuid password sni ca_path alpn : option (list byte))
  : res ClientError TuicClientConfig :=
  let? server := ok_or (InvalidTarget tuic_server_missing) server in
  let? server := ok_or (InvalidTarget tuic_server_bad) (parse_socket_addr server) in
  let? uuid := ok_or (InvalidTarget tuic_uuid_missing) uuid in
  let? uuid := or_error (InvalidTarget tuic_uuid_bad) (parse_uuid uuid) in
  let? password := ok_or (InvalidTarget tuic_password_missing) (non_empty password) in
  Ok (mk_TuicClientConfig server uuid password (default DEFAULT_TUIC_SNI sni)
        (default DEFAULT_TUIC_CA_PATH ca_path) (default DEFAULT_TUIC_ALPN alpn)
        DEFAULT_TUIC_CC DEFAULT_TUIC_UDP_MODE false).

Definition override_field (dflt : list byte) (env_val : option (list byte)) : list byte :=
  match env_val with
  | Some v => if bool_decide (trim v ≠ []) then v else dflt
  | None => dflt
  end.

(** [s.map(|v| v.trim().to_ascii_lowercase())] compared with the accepted words. *)
Definition one_of (words : list (list byte)) (s : option (list byte)) : bool :=
  match s with
  | Some v => bool_decide (to_ascii_lowercase (trim v) ∈ words)
  | None => false
  end.

Definition parse_zero_rtt : option (list byte) → bool :=
  one_of [str "true"; str "1"; str "on"; str "yes"].

Definition tuic_from_env (g : env) : res ClientError TuicClientConfig :=
  let? cfg := tuic_from_sources (g (str "MINI_VPN_TUIC_SERVER")) (g (str "MINI_VPN_TUIC_UUID"))
    (g (str "MINI_VPN_TUIC_PASSWORD")) (g (str "MINI_VPN_TUIC_SNI")) (g (str "MINI_VPN_TUIC_CA_PATH"))
    (g (str "MINI_VPN_TUIC_ALPN")) in
  Ok (mk_TuicClientConfig (tc_server cfg) (tc_uuid cfg) (tc_password cfg) (tc_sni cfg) (tc_ca_path cfg)
        (tc_alpn cfg)
        (override_field (tc_congestion_control cfg) (g (str "MINI_VPN_TUIC_CC")))
        (override_field (tc_udp_relay_mode cfg) (g (str "MINI_VPN_TUIC_UDP_MODE")))
        (parse_zero_rtt (g (str "MINI_VPN_TUIC_ZERO_RTT")))).

Definition udp_relay_mode_parse (s : list byte) : option UdpRelayMode :=
  let l := to_ascii_lowercase s in
  if bool_decide (l = str "native") then Some Native
  else if bool_decide (l = str "quic") then Some Quic
  else None.

Inductive CcChoice := Bbr | Cubic.

Definition parse_cc (name : list byte) : CcChoice * bool :=
  let l := to_ascii_lowercase name in
  if bool_decide (l = str "bbr") then (Bbr, false)
  else if bool_decide (l = str "cubic") then (Cubic, false)
  else (Cubic, true).

(** ** [RealityClientConfig] *)

(** The four engines of the [base64] crate that [parse_pbk] tries. *)
Class Base64 := {
  url_safe_no_pad : list byte → option (list byte);
  url_safe : list byte → option (list byte);
  standard_no_pad : list byte → option (list byte);
  standard : list byte → option (list byte)
}.

Record RealityClientConfig := mk_RealityClientConfig {
  rc_server : list byte;
  rc_uuid : list byte;
  rc_pbk : list byte;
  rc_short_id : list byte;
  rc_sni : list byte
}.

(** [a.or_else(|_| b)] *)
Definition or_else {A} (a b : option A) : option A := match a with Some _ => a | None => b end.

Section reality.
Context `{B : Base64}.

Definition parse_pbk (s : list byte) : res ClientError (list byte) :=
  let s := trim s in
  let? decoded := ok_or (Reality pbk_not_base64)
    (or_else (or_else (or_else (url_safe_no_pad s) (url_safe s)) (standard_no_pad s)) (standard s)) in
  if bool_decide (len decoded = 32) then Ok decoded else Err (Reality pbk_bad_length).

(** The copy of [parse_uuid] in [src/reality_upstream.rs]. *)
Definition reality_parse_uuid (s : list byte) : res unit (list byte) :=
  let hex := drop_hyphens s in
  if bool_decide (len hex ≠ 32) then Err tt else uuid_bytes 16 0 hex.

Definition reality_from_sources (server uuid pbk short_id sni : option (list byte))
  : res ClientError RealityClientConfig :=
  let? server := ok_or (Reality reality_server_missing) (non_empty server) in
  let? uuid := ok_or (Reality reality_uuid_missing) uuid in
  let? uuid := or_error (Reality reality_uuid_bad) (reality_parse_uuid uuid) in
  let? pbk := ok_or (Reality reality_pbk_missing) pbk in
  let? pbk := parse_pbk pbk in
  let? short_id := parse_short_id (default [] short_id) in
  let? sni := ok_or (Reality reality_sni_missing) (non_empty sni) in
  Ok (mk_RealityClientConfig server uuid pbk short_id sni).

Definition reality_from_env (g : env) : res ClientError RealityClientConfig :=
  reality_from_sources (g (str "MINI_VPN_REALITY_SERVER")) (g (str "MINI_VPN_REALITY_UUID"))
    (g (str "MINI_VPN_REALITY_PBK")) (g (str "MINI_VPN_REALITY_SHORT_ID")) (g (str "MINI_VPN_REALITY_SNI")).
End reality.

(** ** The TUN runtime *)

Definition DEFAULT_TUN_POOL_SIZE : Z := 2.
Definition DEFAULT_TUN_MTU : Z := 1500.
Definition MIN_TUN_MTU : Z := 576.
Definition MAX_TUN_MTU : Z := 9000.
Definition METRICS_SNAPSHOT_SECS : Z := 30.

Record TunRuntimeConfig := mk_TunRuntimeConfig {
  rt_pool_size : Z;
  rt_tun_mtu : Z;
  rt_metrics_secs : Z;
  rt_profile_loop : bool
}.

(** [TunListenerConfig::from_sources] *)
Definition listener_from_sources (pool_size : option (list byte)) : res ClientError Z :=
  let? pool_size :=
    match pool_size with
    | Some value => ok_or (InvalidTarget pool_size_bad) (parse_uint u64_max value)
    | None => Ok DEFAULT_TUN_POOL_SIZE
    end in
  if bool_decide (pool_size = 0) then Err (InvalidTarget pool_size_zero) else Ok pool_size.

Definition runtime_from_sources (pool_size : option (list byte)) : res ClientError TunRuntimeConfig :=
  let? pool := listener_from_sources pool_size in
  Ok (mk_TunRuntimeConfig pool DEFAULT_TUN_MTU METRICS_SNAPSHOT_SECS false).

Definition parse_metrics_secs (s : option (list byte)) : Z :=
  default METRICS_SNAPSHOT_SECS
    (v ← s; n ← parse_uint u64_max (trim v); if bool_decide (n > 0) then Some n else None).

Definition parse_tun_mtu (s : option (list byte)) : Z :=
  default DEFAULT_TUN_MTU
    (v ← s; n ← parse_uint u64_max (trim v);
     if bool_decide (MIN_TUN_MTU ≤ n ≤ MAX_TUN_MTU) then Some n else None).

Definition parse_profile_loop : option (list byte) → bool := one_of [str "1"; str "true"].
Definition parse_trace : option (list byte) → bool := one_of [str "1"; str "true"].

Definition runtime_from_env (g : env) : res ClientError TunRuntimeConfig :=
  let? cfg := runtime_from_sources (g (str "MINI_VPN_TUN_POOL_SIZE")) in
  Ok (mk_TunRuntimeConfig (rt_pool_size cfg) (parse_tun_mtu (g (str "MINI_VPN_TUN_MTU")))
        (parse_metrics_secs (g (str "MINI_VPN_METRICS_SECS")))
        (parse_profile_loop (g (str "MINI_VPN_PROFILE_LOOP")))).

(** [i32::try_from(tun_mtu).expect(..)] *)
Definition tun_mtu_for_config (tun_mtu : Z) : res ClientError Z :=
  if bool_decide (tun_mtu < 2 ^ 31) then Ok tun_mtu else Panic.

Inductive UpstreamKind := UTuic | UReality | UFailover.

Definition select_upstream_kind (e : option (list byte)) : UpstreamKind :=
  if one_of [str "reality"] e then UReality
  else if one_of [str "failover"] e then UFailover
  else UTuic.

(** ** Lemmas *)

Lemma hex_digit_ascii b d : hex_digit b = Some d → 0 ≤ d < 16 ∧ is_cont b = false.
Proof.
  unfold hex_digit, is_cont, in_range. pose proof (b2z_range b).
  repeat case_bool_decide; cbn; try done; intros [= <-]; split; lia.
Qed.

(** Two lower-case hexadecimal digits per byte. *)
Definition hex_char (d : Z) : byte := if bool_decide (d < 10) then z2b (48 + d) else z2b (87 + d).
Definition hex_of (b : byte) : list byte := [hex_char (b2z b / 16); hex_char (b2z b mod 16)].

Lemma hex_roundtrip b : u8_from_hex (hex_of b) = Some (b2z b) ∧ Forall (λ c, is_cont c = false ∧ c ≠ x2d) (hex_of b).
Proof.
  assert (bool_decide (u8_from_hex (hex_of b) = Some (b2z b)) &&
    forallb (λ c, negb (is_cont c) && negb (bool_decide (c = x2d))) (hex_of b) = true) as H.
  { destruct b; vm_compute; reflexivity. }
  apply andb_true_iff in H as [H1 H2]. split; [by apply bool_decide_eq_true_1 in H1|].
  apply Forall_forall. intros c Hc. rewrite forallb_forall in H2. apply list_elem_of_In in Hc.
  specialize (H2 c Hc). bdec. done.
Qed.

Lemma drop_hyphens_hex bs : drop_hyphens (concat (hex_of <$> bs)) = concat (hex_of <$> bs).
Proof.
  induction bs as [|b bs IH]; [done|]. cbn [fmap list_fmap concat]. unfold drop_hyphens in *.
  rewrite List.filter_app. fold (hex_of <$> bs). rewrite IH. f_equal.
  destruct (hex_roundtrip b) as [_ H]. cbn in H |- *.
  apply Forall_cons in H as [[_ H1] H]. apply Forall_cons in H as [[_ H2] _].
  rewrite !bool_decide_eq_false_2 by done. done.
Qed.

Lemma char_boundary_at (l r : list byte) :
  (∀ b, head r = Some b → is_cont b = false) → char_boundary (l ++ r) (len l) = true.
Proof.
  intros Hr. unfold char_boundary. destruct r as [|b r].
  - rewrite app_nil_r. by rewrite bool_decide_eq_true_2.
  - rewrite get_app_mid by done. rewrite (Hr b) by done. apply orb_true_r.
Qed.

Lemma head_hex_app bs b : head (concat (hex_of <$> bs)) = Some b → is_cont b = false.
Proof.
  destruct bs as [|x bs]; [done|]. destruct (hex_roundtrip x) as [_ H]. cbn in H |- *.
  apply Forall_cons in H as [[H _] _]. by intros [= <-].
Qed.

Lemma uuid_bytes_hex bs pre i :
  len pre = 2 * i → uuid_bytes (length bs) i (pre ++ concat (hex_of <$> bs)) = Ok bs.
Proof.
  revert pre i. induction bs as [|b bs IH]; intros pre i Hp; [done|]. cbn [length uuid_bytes].
  cbn [fmap list_fmap concat]. fold (hex_of <$> bs). set (rest := concat (hex_of <$> bs)).
  assert (str_slice (E:=unit) (pre ++ hex_of b ++ rest) (i * 2) (i * 2 + 2) = Ok (hex_of b)) as ->.
  { unfold str_slice. replace (i * 2) with (len pre) by lia.
    rewrite char_boundary_at by (intros c; exact (head_hex_app (b :: bs) c)).
    rewrite app_assoc. replace (len pre + 2) with (len (pre ++ hex_of b)) by (rewrite len_app; done).
    rewrite char_boundary_at by (intros c; exact (head_hex_app bs c)). cbn [andb].
    unfold slice. rewrite <-app_assoc, (get_range_app pre (hex_of b)); [done..|]. rewrite len_app. done. }
  cbn [rbind]. destruct (hex_roundtrip b) as [-> _]. cbn [ok_or rbind].
  unfold rest. rewrite app_assoc, (IH (pre ++ hex_of b) (i + 1)) by (rewrite len_app; change (len (hex_of b)) with 2; lia).
  cbn. by rewrite z2b_b2z.
Qed.

Lemma len_hex bs : len (concat (hex_of <$> bs)) = 2 * len bs.
Proof.
  induction bs as [|b bs IH]; [done|]. cbn [fmap list_fmap concat]. fold (hex_of <$> bs).
  rewrite len_app, IH, len_cons. change (len (hex_of b)) with 2. lia.
Qed.

(** ** Properties *)

(** Every UUID printed in hexadecimal is parsed back, with hyphens anywhere in the text. *)
Theorem parse_uuid_roundtrip uuid text :
  len uuid = 16 → drop_hyphens text = concat (hex_of <$> uuid) → parse_uuid text = Ok uuid.
Proof.
  intros Hl Ht. unfold parse_uuid. rewrite Ht, bool_decide_eq_false_2 by (rewrite len_hex; lia).
  replace 16%nat with (length uuid) by (unfold len in Hl; lia). by apply (uuid_bytes_hex uuid []).
Qed.

Lemma parse_uuid_roundtrip_witness :
  parse_uuid (str "00112233-4455-6677-8899-aabbccddeeff")
  = Ok [x00; x11; x22; x33; x44; x55; x66; x77; x88; x99; xaa; xbb; xcc; xdd; xee; xff].
Proof. apply parse_uuid_roundtrip; vm_compute; reflexivity. Defined.

(** A UUID setting with a character of more than one byte can abort the client although the
    parser is documented to answer [None] for every illegal text: "a", "é" and twenty-nine "a" are
    thirty-two bytes of valid UTF-8, and the slice at byte two is inside the second character. *)
Theorem parse_uuid_panics :
  let text := [x61; xc3; xa9] ++ replicate 29 x61 in
  utf8_valid text = true ∧ parse_uuid text = Panic.
Proof. by vm_compute. Qed.

(** Whatever the environment holds, the runtime settings are in the range the program needs: at
    least one listener per port, an MTU that the interface accepts and a positive metrics period (a
    zero period aborts the timer). *)
Theorem runtime_settings_in_range g :
  (runtime_from_env g ≠ Panic) ∧
  ∀ cfg, runtime_from_env g = Ok cfg →
    1 ≤ rt_pool_size cfg ≤ u64_max ∧ 576 ≤ rt_tun_mtu cfg ≤ 9000 ∧ 0 < rt_metrics_secs cfg ≤ u64_max ∧
    tun_mtu_for_config (rt_tun_mtu cfg) = Ok (rt_tun_mtu cfg).
Proof.
  assert (∀ o, 576 ≤ parse_tun_mtu o ≤ 9000) as Hmtu.
  { intros o. unfold parse_tun_mtu, default, id. destruct o as [v|]; [|done]. cbn.
    destruct (parse_uint u64_max (trim v)) as [n|]; [|done]. cbn. case_bool_decide; [|done].
    unfold MIN_TUN_MTU, MAX_TUN_MTU in *. done. }
  assert (∀ o, 0 < parse_metrics_secs o ≤ u64_max) as Hsecs.
  { intros o. unfold parse_metrics_secs, default, id. destruct o as [v|]; [|done]. cbn.
    destruct (parse_uint u64_max (trim v)) as [n|] eqn:E; [|done]. cbn. case_bool_decide; [|done].
    apply parse_uint_bound in E; [lia|ulia]. }
  unfold runtime_from_env, runtime_from_sources, listener_from_sources.
  destruct (g (str "MINI_VPN_TUN_POOL_SIZE")) as [v|].
  - destruct (parse_uint u64_max v) as [n|] eqn:E; cbn [ok_or rbind]; [|split; [done|discriminate]].
    apply parse_uint_bound in E; [|ulia]. case_bool_decide; cbn [rbind]; [split; [done|discriminate]|].
    split; [done|]. intros cfg [= <-]. cbn. split_and!; try (apply Hmtu || apply Hsecs || lia).
    unfold tun_mtu_for_config. rewrite bool_decide_eq_true_2; [done|]. eapply Z.le_lt_trans; [apply Hmtu|done].
  - cbn [rbind]. rewrite bool_decide_eq_false_2 by done. cbn [rbind]. split; [done|]. intros cfg [= <-]. cbn.
    split_and!; try (apply Hmtu || apply Hsecs || done).
    unfold tun_mtu_for_config. rewrite bool_decide_eq_true_2; [done|]. eapply Z.le_lt_trans; [apply Hmtu|done].
Qed.
