(* ===== verification/RealityUpstream.v ===== *)
(** * RealityUpstream: opening a TCP flow over REALITY, [src/reality_upstream.rs]

    [establish] builds the authenticated ClientHello, runs the handshake with the HMAC check of the
    certificate, and sends the VLESS request as the first application record.  [open_tcp] wraps it
    in connect and time-out.  The random ephemeral secret, the random of the ClientHello and the
    clock are arguments; the outcome of connecting and whether a time-out fires are arguments too. *)

From S2P Require Import Prelude Text Shared Crypto Record Auth ClientHello KeySchedule ServerHello Cert Vless TuicCodec.
From S2P Require Import Reassembly Handshake RealityStream Config.

Definition REALITY_HANDSHAKE_TIMEOUT_SECS : Z := 10.

(** What the operating system provides for one connection attempt. *)
Record entropy := mk_entropy {
  en_eph_secret : list byte;
  en_random : list byte;
  (** Seconds since the epoch, [None] when the clock is before it. *)
  en_clock : option Z
}.

Section upstream.
Context `{C : Crypto}.

(** The closure passed to [drive]. *)
Definition verify_reality_cert (auth_key cert_msg : list byte) : res ClientError unit :=
  let? ' (pk, sig) := extract_ed25519_pubkey_and_sig cert_msg in
  if verify_server_cert auth_key pk sig then Ok tt else Err (Reality cert_hmac_failed).

Definition establish (cfg : RealityClientConfig) (e : entropy) (target : TargetAddr) : M HandshakeOutput :=
  let '(sk_c, pk_c) := generate_ephemeral_keypair (en_eph_secret e) in
  let random := en_random e in
  let! auth_key := mlift (derive_auth_key (x25519_shared_secret sk_c (rc_pbk cfg)) random) in
  let timestamp := match en_clock e with Some secs => as_u32 secs | None => 0 end in
  let! ch := mlift (build_authed_client_hello
    (mk_AuthedClientHelloParams (rc_sni cfg) pk_c random auth_key (rc_short_id cfg) timestamp)) in
  let! expected_session_id := mlift (authed_session_id ch) in
  let input := mk_HandshakeInput ch sk_c expected_session_id in
  let! out := drive (verify_reality_cert auth_key) input in
  let! ' (vless, send_keys) :=
    mlift (seal (ho_send_keys out) x17 (encode_vless_request (rc_uuid cfg) VLESS_CMD_TCP target)) in
  let! _ := write_all vless in
  let! _ := flush in
  mlift (Ok (mk_HandshakeOutput (ho_recv_keys out) send_keys (ho_leftover out) (ho_s_ap_secret out)
    (ho_c_ap_secret out))).

(** [TcpStream::connect] under its time-out: a stream, an error, or the time-out. *)
Inductive connect_outcome : Type :=
| Connected (s : io)
| ConnectFailed
| ConnectTimeout.

(** [open_tcp]: [slow] tells whether the handshake's time-out fires before [establish] returns. *)
Definition open_tcp (cfg : RealityClientConfig) (e : entropy) (target : TargetAddr) (c : connect_outcome)
    (slow : bool) (rin : list rd_poll) (win : list wr_poll) : res ClientError RealityStream :=
  match c with
  | ConnectTimeout => Err (Reality reality_timeout)
  | ConnectFailed => Err (Reality reality_connect_failed)
  | Connected s =>
      if slow then Err (Reality reality_timeout) else
      let '(s, r) := establish cfg e target s in
      let? out := r in
      Ok (reality_stream_new rin win (io_out s) (ho_recv_keys out) (ho_send_keys out) (ho_leftover out)
            (ho_s_ap_secret out) (ho_c_ap_secret out))
  end.

Definition open_is_cheap : bool := false.

(** [send_udp] of REALITY drops the datagram: the state of the upstream is unchanged. *)
Definition reality_send_udp (s : io) (datagram : list byte) : io := s.

(** ** Lemmas *)

Lemma verify_reality_cert_Ok auth_key msg :
  verify_reality_cert auth_key msg = Ok tt ↔
  ∃ pk sig, extract_ed25519_pubkey_and_sig msg = Ok (pk, sig) ∧ hmac_sha512 auth_key pk = sig.
Proof.
  unfold verify_reality_cert, verify_server_cert.
  destruct (extract_ed25519_pubkey_and_sig msg) as [[pk sig]| |]; cbn; [|naive_solver..].
  case_bool_decide; naive_solver.
Qed.

Lemma verify_reality_cert_no_panic auth_key msg : verify_reality_cert auth_key msg ≠ Panic.
Proof.
  unfold verify_reality_cert. pose proof (extract_cases msg) as [Hp _].
  destruct (extract_ed25519_pubkey_and_sig msg) as [[pk sig]| |]; cbn; [|done..].
  by destruct (verify_server_cert _ _ _).
Qed.

Context `{!CryptoLaws C}.

Lemma establish_Ok cfg e target s s' out :
  establish cfg e target s = (s', Ok out) →
  ∃ auth_key ch sid s1 out1 vless,
    derive_auth_key (x25519 (en_eph_secret e) (rc_pbk cfg)) (en_random e) = Ok auth_key ∧
    build_authed_client_hello (mk_AuthedClientHelloParams (rc_sni cfg) (x25519 (en_eph_secret e) x25519_base)
      (en_random e) auth_key (rc_short_id cfg) (match en_clock e with Some secs => as_u32 secs | None => 0 end)) = Ok ch ∧
    authed_session_id ch = Ok sid ∧
    drive (verify_reality_cert auth_key) (mk_HandshakeInput ch (en_eph_secret e) sid) s = (s1, Ok out1) ∧
    seal (ho_send_keys out1) x17 (encode_vless_request (rc_uuid cfg) VLESS_CMD_TCP target)
      = Ok (vless, ho_send_keys out) ∧
    io_out s' = io_out s1 ++ vless ∧ io_in s' = io_in s1 ∧
    ho_recv_keys out = ho_recv_keys out1 ∧ ho_leftover out = ho_leftover out1 ∧
    ho_s_ap_secret out = ho_s_ap_secret out1 ∧ ho_c_ap_secret out = ho_c_ap_secret out1.
Proof.
  unfold establish. cbn [generate_ephemeral_keypair]. intros H.
  apply mthen_Ok in H as (? & auth_key & [-> Ek]%mlift_Ok & H).
  apply mthen_Ok in H as (? & ch & [-> Ech]%mlift_Ok & H).
  apply mthen_Ok in H as (? & sid & [-> Esid]%mlift_Ok & H).
  apply mthen_Ok in H as (s1 & out1 & Ed & H).
  apply mthen_Ok in H as (? & [vless k] & [-> Es]%mlift_Ok & H).
  apply mthen_Ok in H as (s2 & ? & [I2 O2]%write_all_Ok & H).
  apply mthen_Ok in H as (s3 & ? & [I3 O3]%write_all_Ok & H). apply mlift_Ok in H as [-> [= <-]].
  exists auth_key, ch, sid, s1, out1, vless. rewrite O3, app_nil_r. split_and!; try done. congruence.
Qed.

Lemma encode_vless_len uuid cmd t : len uuid = 16 → len (encode_vless_request uuid cmd t) ≤ 300.
Proof.
  intros Hu. unfold encode_vless_request. rewrite len_cons, len_app, !len_cons.
  destruct t as [[ip p|ip p]|h p]; rewrite len_app, len_cons.
  - rewrite octets_len. unfold be16. rewrite len_to_be. lia.
  - rewrite octets6_len. unfold be16. rewrite len_to_be. lia.
  - rewrite len_cons. unfold be16. rewrite len_to_be. pose proof (len_nonneg h). unfold u8_max. rewrite len_ztake by lia. lia.
Qed.

(** Nothing the server or the network does aborts the opening of a flow. *)
Lemma establish_no_panic cfg e target s :
  len (rc_uuid cfg) = 16 → len (rc_short_id cfg) = 8 → len (en_random e) = 32 →
  len (avail (io_in s)) < 2 ^ 64 - 2 → (establish cfg e target s).2 ≠ Panic.
Proof.
  intros Hu Hs Hr Hin. unfold establish. cbn [generate_ephemeral_keypair].
  destruct (derive_auth_key_Ok (x25519_shared_secret (en_eph_secret e) (rc_pbk cfg)) (en_random e) Hr) as (key & Hk & _).
  rewrite (mthen_step _ _ _ s key) by (unfold mlift; by rewrite Hk).
  destruct (build_authed_Ok (rc_sni cfg) (x25519 (en_eph_secret e) x25519_base) (en_random e) key (rc_short_id cfg)
    (match en_clock e with Some secs => as_u32 secs | None => 0 end) Hr Hs) as (nonce & sealed & _ & Hb & Hsid & _).
  erewrite (mthen_step _ _ s) by (unfold mlift; by rewrite Hb).
  erewrite (mthen_step _ _ s) by (unfold mlift; by rewrite Hsid).
  apply mthen_no_panic; [apply drive_total; [apply verify_reality_cert_no_panic|done]|].
  intros s1 out (? & ? & ? & ? & ? & ? & ? & ? & ? & app & _ & _ & _ & _ & _ & _ & _ & _ & _ & Ho)%drive_Ok.
  pose proof (encode_vless_len (rc_uuid cfg) VLESS_CMD_TCP target Hu).
  destruct (seal_Ok (ho_send_keys out) x17 (encode_vless_request (rc_uuid cfg) VLESS_CMD_TCP target)) as (ct & Es & _);
    [lia|rewrite Ho; cbn; lia|].
  apply mthen_no_panic; [unfold mlift; by rewrite Es|]. intros ? [vless k] _.
  apply mthen_no_panic; [apply write_all_no_panic|]. intros ? ? _.
  apply mthen_no_panic; [apply write_all_no_panic|]. done.
Qed.

Lemma open_tcp_no_panic cfg e target c slow rin win :
  len (rc_uuid cfg) = 16 → len (rc_short_id cfg) = 8 → len (en_random e) = 32 →
  (∀ s, c = Connected s → len (avail (io_in s)) < 2 ^ 64 - 2) → open_tcp cfg e target c slow rin win ≠ Panic.
Proof.
  intros Hu Hs Hr Hin. unfold open_tcp. destruct c as [s| |]; [|done..]. destruct slow; [done|].
  pose proof (establish_no_panic cfg e target s Hu Hs Hr (Hin s eq_refl)) as Hp.
  by destruct (establish cfg e target s) as [s' [out| |]].
Qed.

End upstream.

(** ** Properties *)

(** C17: a flow is opened only to the real server: when [establish] succeeds, the bytes read from
    the peer are a ServerHello and records that open under the handshake keys, and among the
    messages they carry is a Certificate; every Certificate among them has as signature the
    HMAC-SHA512 of its own Ed25519 key under the authentication key, which is derived from the
    Diffie-Hellman secret of the client's ephemeral key and the configured server key.  The client
    sent its authenticated ClientHello, ChangeCipherSpec, its Finished and then exactly one
    application record, and opening that record with the client's application keys yields the
    VLESS request from which the server reads back the user id and the target. *)
Theorem establish_authenticates `{C : Crypto, !CryptoLaws C} cfg e target s s' out :
  len (rc_uuid cfg) = 16 → target_wf target → host_fits target →
  establish cfg e target s = (s', Ok out) →
  ∃ auth_key ch sid hs tr msgs fin sent vless app k,
    let i := mk_HandshakeInput ch (en_eph_secret e) sid in
    derive_auth_key (x25519 (en_eph_secret e) (rc_pbk cfg)) (en_random e) = Ok auth_key ∧
    build_authed_client_hello (mk_AuthedClientHelloParams (rc_sni cfg)
      (x25519 (en_eph_secret e) x25519_base) (en_random e) auth_key (rc_short_id cfg)
      (match en_clock e with Some secs => as_u32 secs | None => 0 end)) = Ok ch ∧
    authed_session_id ch = Ok sid ∧
    server_side i (avail (io_in s)) (ho_leftover out ++ avail (io_in s')) hs tr msgs fin ∧
    (∃ cert, cert ∈ msgs ∧ head cert = Some x0b) ∧
    (∀ cert, cert ∈ msgs → head cert = Some x0b →
       ∃ pk sig, extract_ed25519_pubkey_and_sig cert = Ok (pk, sig) ∧ hmac_sha512 auth_key pk = sig) ∧
    client_side i hs tr fin sent ∧ io_out s' = io_out s ++ sent ++ vless ∧
    derive_application_keys (hk_handshake_secret hs) (transcript_hash [tr ++ fin]) = Ok app ∧
    open (record_keys_new (ak_client_key app) (ak_client_iv app)) (ztake 5 vless) (zdrop 5 vless)
      = Ok (x17, encode_vless_request (rc_uuid cfg) VLESS_CMD_TCP target, k) ∧
    decode_vless_request (encode_vless_request (rc_uuid cfg) VLESS_CMD_TCP target)
      = Some (rc_uuid cfg, VLESS_CMD_TCP, target, []) ∧
    ho_send_keys out = k ∧ ho_recv_keys out = record_keys_new (ak_server_key app) (ak_server_iv app).
Proof.
  intros Hu Hwf Hfit (auth_key & ch & sid & s1 & out1 & vless & Ek & Ech & Esid & Ed & Es & Ho & Hi & Hr & Hleft
    & _)%establish_Ok.
  apply drive_sides in Ed as (hs & tr & msgs & fin & sent & app & Hside & Hex & Hall & Hc & Ho1 & Ea & Hout).
  pose proof (encode_vless_len (rc_uuid cfg) VLESS_CMD_TCP target Hu) as Hl.
  rewrite Hout in Es. cbn [ho_send_keys] in Es.
  destruct (seal_open (record_keys_new (ak_client_key app) (ak_client_iv app)) x17
    (encode_vless_request (rc_uuid cfg) VLESS_CMD_TCP target)) as (r & Es' & _ & _ & Eo); [done|lia|cbn; lia|].
  rewrite Es in Es'. injection Es' as -> Hk.
  exists auth_key, ch, sid, hs, tr, msgs, fin, sent, r, app, (mk_RecordKeys (ak_client_key app) (ak_client_iv app) 1).
  cbv zeta. split_and!; try done.
  - by rewrite Hleft, Hi.
  - intros cert Hin Hh. by apply verify_reality_cert_Ok, Hall.
  - rewrite Ho, Ho1. by rewrite <-!app_assoc.
  - rewrite <-(app_nil_r (encode_vless_request _ _ _)). by apply vless_decode_encode.
  - by rewrite Hr, Hout.
Qed.

(** ** A concrete connection *)

Definition demo_cfg : RealityClientConfig :=
  mk_RealityClientConfig [x73] (replicate 16 x11) (replicate 32 x2a) (replicate 8 xab) [x65; x78].
Definition demo_entropy : entropy := mk_entropy (replicate 32 x04) (replicate 32 x05) (Some 1700000000).

(** The server of the demonstration: it knows the authentication key. *)
Definition demo_auth_key : list byte :=
  match @derive_auth_key demo_crypto (replicate 32 x2a) (replicate 32 x05) with Ok k => k | _ => [] end.
Definition demo_cert : list byte :=
  wire_certificate [] (ED25519_SPKI_MARKER ++ replicate 32 x0c ++ hmac_sha512 demo_auth_key (replicate 32 x0c)) [].
Definition demo_ch : list byte :=
  match @build_authed_client_hello demo_crypto (mk_AuthedClientHelloParams [x65; x78] (replicate 32 x2a)
    (replicate 32 x05) demo_auth_key (replicate 8 xab) 1700000000) with Ok m => m | _ => [] end.
Definition demo_sh : list byte :=
  wire_server_hello (replicate 32 x01) (ztake 32 (zdrop 39 demo_ch)) 4865
    [(43, [x03; x04]); (51, key_share_body (replicate 32 x2a))].
Definition demo_keys : HsKeys :=
  match @derive_handshake_keys demo_crypto (replicate 32 x2a) demo_ch demo_sh with
  | Ok hs => hs
  | _ => mk_HsKeys [] [] [] [] [] [] []
  end.
Definition demo_finished : list byte :=
  match @compute_finished_verify_data demo_crypto (hk_s_hs_secret demo_keys)
    (@transcript_hash demo_crypto [(demo_ch ++ demo_sh) ++ demo_cert]) with Ok v => v | _ => [] end.
Definition demo_records : list (byte * list byte * list byte) :=
  match @server_flight demo_crypto (record_keys_new (hk_server_key demo_keys) (hk_server_iv demo_keys))
    [None; Some demo_cert; Some ([x14; x00; x00; x20] ++ demo_finished)] with Ok l => l | _ => [] end.
Definition demo_socket : io :=
  mk_io [Some (plain_record x16 771 demo_sh ++ concat (record_bytes <$> demo_records))] [] [].

Lemma establish_authenticates_witness :
  ∃ s' out auth_key cert pk sig rest,
    @establish demo_crypto demo_cfg demo_entropy (DomainPort [x61; x62] 443) demo_socket = (s', Ok out) ∧
    extract_ed25519_pubkey_and_sig cert = Ok (pk, sig) ∧ @hmac_sha512 demo_crypto auth_key pk = sig ∧
    ∃ hs tr msgs fin ch sid, cert ∈ msgs ∧
      server_side (mk_HandshakeInput ch (replicate 32 x04) sid) (avail (io_in demo_socket)) rest hs tr msgs fin.
Proof.
  destruct (@establish demo_crypto demo_cfg demo_entropy (DomainPort [x61; x62] 443) demo_socket)
    as [s' [out|err|]] eqn:E; [|vm_compute in E; discriminate E..].
  destruct (establish_authenticates (C:=demo_crypto) demo_cfg demo_entropy (DomainPort [x61; x62] 443)
    demo_socket s' out eq_refl ltac:(cbn; ulia) ltac:(cbn; done) E)
    as (auth_key & ch & sid & hs & tr & msgs & fin & ? & ? & ? & ? & ? & ? & ? & Hs & (cert & Hin & Hh) & Hv & ?).
  destruct (Hv cert Hin Hh) as (pk & sig & He & Hm).
  exists s', out, auth_key, cert, pk, sig, (ho_leftover out ++ avail (io_in s')).
  split; [reflexivity|]. split; [exact He|]. split; [exact Hm|].
  exists hs, tr, msgs, fin, ch, sid. split; [exact Hin|exact Hs].
Defined.
