(* ===== verification/Failover.v ===== *)
(** * Failover: choosing between TUIC and REALITY, [src/failover.rs]

    [FailoverState] decides which leg carries TCP flows; [BlackholeDetector] watches the datagram
    counter of the TUIC connection; the health task and [open_tcp] feed both.  Clock readings are
    arguments (whole seconds), as in the source's decision methods.

    The first part models every method as one step.  The methods run in several tasks and use
    relaxed atomics, so the second part models each atomic access as a step of its own and lets any
    number of calls interleave; [atomic_call] relates the two. *)

From S2P Require Import Prelude Shared.

Definition DOWN_SLOW_CONSEC : Z := 3.
Definition UP_PROBE_CONSEC : Z := 3.
Definition UP_COOLDOWN_SECS : Z := 60.
Definition PROBE_INTERVAL_SECS : Z := 30.
Definition HEALTH_TICK_SECS : Z := 3.
Definition BLACKHOLE_RX_STALE_SECS : Z := 10.

(** ** [BlackholeDetector] *)

Record BlackholeDetector := mk_detector {
  bd_last_rx : Z;
  bd_last_change_secs : Z;
  bd_primed : bool
}.

Definition detector_new : BlackholeDetector := mk_detector 0 0 false.

Definition observe (d : BlackholeDetector) (rx now_secs : Z) : BlackholeDetector * bool :=
  if negb (bd_primed d) || bool_decide (rx ≠ bd_last_rx d) then (mk_detector rx now_secs true, false)
  else (d, bool_decide (BLACKHOLE_RX_STALE_SECS ≤ saturating_sub now_secs (bd_last_change_secs d))).

Definition detector_reset (d : BlackholeDetector) : BlackholeDetector :=
  mk_detector (bd_last_rx d) (bd_last_change_secs d) false.

(** ** [FailoverState] *)

Inductive TcpLeg := LegTuic | LegReality.
#[global] Instance TcpLeg_eq_dec : EqDecision TcpLeg.
Proof. solve_decision. Defined.

Definition leg_as_u8 (l : TcpLeg) : Z := match l with LegTuic => 0 | LegReality => 1 end.
Definition leg_from_u8 (v : Z) : TcpLeg := if bool_decide (v = 1) then LegReality else LegTuic.

Record FailoverState := mk_FailoverState {
  fs_active_tcp_leg : Z;
  fs_tuic_consec_fail : Z;
  fs_probe_consec_ok : Z;
  fs_reality_switch_at : Z
}.

Definition failover_new : FailoverState := mk_FailoverState (leg_as_u8 LegTuic) 0 0 0.
Definition active_leg (s : FailoverState) : TcpLeg := leg_from_u8 (fs_active_tcp_leg s).

Definition set_leg (l : TcpLeg) (s : FailoverState) :=
  mk_FailoverState (leg_as_u8 l) (fs_tuic_consec_fail s) (fs_probe_consec_ok s) (fs_reality_switch_at s).
Definition set_fail (n : Z) (s : FailoverState) :=
  mk_FailoverState (fs_active_tcp_leg s) n (fs_probe_consec_ok s) (fs_reality_switch_at s).
Definition set_probe (n : Z) (s : FailoverState) :=
  mk_FailoverState (fs_active_tcp_leg s) (fs_tuic_consec_fail s) n (fs_reality_switch_at s).
Definition set_switch_at (t : Z) (s : FailoverState) :=
  mk_FailoverState (fs_active_tcp_leg s) (fs_tuic_consec_fail s) (fs_probe_consec_ok s) t.

Definition switch_to_reality (s : FailoverState) (now_secs : Z) : FailoverState * bool :=
  if bool_decide (fs_active_tcp_leg s ≠ leg_as_u8 LegTuic) then (s, false)
  else (set_probe 0 (set_fail 0 (set_switch_at now_secs (set_leg LegReality s))), true).

Definition switch_to_tuic (s : FailoverState) : FailoverState * bool :=
  if bool_decide (fs_active_tcp_leg s ≠ leg_as_u8 LegReality) then (s, false)
  else (set_probe 0 (set_fail 0 (set_leg LegTuic s)), true).

Definition record_tuic_success (s : FailoverState) : FailoverState := set_fail 0 s.

Definition record_tuic_failure (s : FailoverState) (dead : bool) (now_secs : Z) : FailoverState * bool :=
  if bool_decide (active_leg s ≠ LegTuic) then (s, false)
  else if dead then switch_to_reality s now_secs
  else
    let n := fs_tuic_consec_fail s + 1 in
    let s := set_fail n s in
    if bool_decide (DOWN_SLOW_CONSEC ≤ n) then switch_to_reality s now_secs else (s, false).

Definition record_probe (s : FailoverState) (ok : bool) (now_secs : Z) : FailoverState * bool :=
  if bool_decide (active_leg s ≠ LegReality) then (s, false)
  else if negb ok then (set_probe 0 s, false)
  else
    let n := fs_probe_consec_ok s + 1 in
    let s := set_probe n s in
    let cooled := bool_decide (UP_COOLDOWN_SECS ≤ saturating_sub now_secs (fs_reality_switch_at s)) in
    if bool_decide (UP_PROBE_CONSEC ≤ n) && cooled then switch_to_tuic s else (s, false).

Definition record_blackhole (s : FailoverState) (now_secs : Z) : FailoverState * bool :=
  if bool_decide (active_leg s ≠ LegTuic) then (s, false) else switch_to_reality s now_secs.

(** ** [FailoverUpstream] *)

(** [open_tcp]: what the two legs answer and whether the TUIC connection is dead are arguments; the
    state, the answer, and whether REALITY was asked. *)
Definition fo_open_tcp {A} (s : FailoverState) (tuic_open : res ClientError A) (dead : bool)
    (reality_open : res ClientError A) (now_secs : Z) : FailoverState * res ClientError A * bool :=
  match active_leg s with
  | LegTuic =>
      match tuic_open with
      | Ok stream => (record_tuic_success s, Ok stream, false)
      | Err e =>
          let '(s, switched) := record_tuic_failure s dead now_secs in
          if (switched : bool) then (s, reality_open, true) else (s, Err e, false)
      | Panic => (s, Panic, false)
      end
  | LegReality => (s, reality_open, true)
  end.

Definition fo_open_is_cheap : bool := false.
Definition failover_leg_u8 (s : FailoverState) : Z := leg_as_u8 (active_leg s).

(** [send_udp] and the uplink counters go to the TUIC leg, whatever the state. *)
Definition fo_send_udp {T R} (tuic_send : T → list byte → T) (legs : T * R) (s : FailoverState)
    (datagram : list byte) : T * R :=
  (tuic_send legs.1 datagram, legs.2).
Definition fo_udp_drops_up {T R} (drops : T → Z) (legs : T * R) : Z := drops legs.1.
Definition fo_udp_stream_fallbacks {T R} (fallbacks : T → Z) (legs : T * R) : Z := fallbacks legs.1.

(** The state of the health task. *)
Record health := mk_health {
  he_detector : BlackholeDetector;
  he_since_up_probe : Z
}.
Definition health_new : health := mk_health detector_new 0.

(** One turn of the health task at time [now]: [rx] is what [rx_datagrams] returns, [probe_ok] what
    [probe] returns if it is called. *)
Definition health_tick (s : FailoverState) (h : health) (rx : option Z) (probe_ok : bool) (now : Z)
  : FailoverState * health :=
  match active_leg s with
  | LegTuic =>
      match rx with
      | Some rx =>
          let '(d, stale) := observe (he_detector h) rx now in
          if (stale : bool) then
            let '(s, switched) := record_blackhole s now in
            (s, mk_health (if (switched : bool) then detector_reset d else d) 0)
          else (s, mk_health d 0)
      | None => (s, mk_health (he_detector h) 0)
      end
  | LegReality =>
      let d := detector_reset (he_detector h) in
      let secs := he_since_up_probe h + HEALTH_TICK_SECS in
      if bool_decide (PROBE_INTERVAL_SECS ≤ secs) then ((record_probe s probe_ok now).1, mk_health d 0)
      else (s, mk_health d secs)
  end.

(** ** Whole runs *)

(** What happens to the upstream, in order: a flow is opened (with TUIC's answer), or the health
    task wakes up. *)
Inductive event : Type :=
| EvOpen (tuic_ok dead : bool) (now : Z)
| EvTick (rx : option Z) (probe_ok : bool) (now : Z).

Definition ev_time (e : event) : Z := match e with EvOpen _ _ t => t | EvTick _ _ t => t end.

Definition step (sh : FailoverState * health) (e : event) : FailoverState * health :=
  match e with
  | EvOpen ok dead now =>
      let answer := if (ok : bool) then Ok tt else Err (Io tuic_io) in
      let '(s, _, _) := fo_open_tcp sh.1 answer dead (Ok tt) now in (s, sh.2)
  | EvTick rx ok now => health_tick sh.1 sh.2 rx ok now
  end.

Definition run (sh : FailoverState * health) (es : list event) : FailoverState * health :=
  fold_left step es sh.

Definition leg_wf (s : FailoverState) : Prop := fs_active_tcp_leg s = 0 ∨ fs_active_tcp_leg s = 1.

(** ** Lemmas *)

Lemma active_leg_tuic s : leg_wf s → active_leg s = LegTuic ↔ fs_active_tcp_leg s = 0.
Proof. intros [H|H]; unfold active_leg, leg_from_u8; rewrite H; split; done || congruence. Qed.

Lemma active_leg_reality s : leg_wf s → active_leg s = LegReality ↔ fs_active_tcp_leg s = 1.
Proof. intros [H|H]; unfold active_leg, leg_from_u8; rewrite H; split; done || congruence. Qed.

Lemma run_snoc sh es e : run sh (es ++ [e]) = step (run sh es) e.
Proof. unfold run. by rewrite fold_left_app. Qed.

Lemma run_app sh es1 es2 : run sh (es1 ++ es2) = run (run sh es1) es2.
Proof. unfold run. by rewrite fold_left_app. Qed.

(** What each event does to the state, by the leg in charge. *)
Lemma step_reality_open s h ok dead now : active_leg s = LegReality → step (s, h) (EvOpen ok dead now) = (s, h).
Proof. intros E. unfold step, fo_open_tcp. cbn [fst snd]. by rewrite E. Qed.

Lemma step_tuic_open s h ok dead now :
  leg_wf s → active_leg s = LegTuic →
  step (s, h) (EvOpen ok dead now) =
  (if (ok : bool) then set_fail 0 s
   else if (dead : bool) || bool_decide (3 ≤ fs_tuic_consec_fail s + 1) then mk_FailoverState 1 0 0 now
   else set_fail (fs_tuic_consec_fail s + 1) s, h).
Proof.
  intros Hwf E. pose proof E as E0. apply active_leg_tuic in E0; [|done].
  unfold step, fo_open_tcp. cbn [fst snd]. rewrite E. destruct ok; [done|].
  unfold record_tuic_failure, switch_to_reality, DOWN_SLOW_CONSEC. rewrite E, bool_decide_eq_false_2 by (intros H; by apply H).
  destruct s as [leg f p t]. cbn in E0. subst leg. destruct dead; cbn; [done|].
  by case_bool_decide.
Qed.

Lemma step_wf sh e : leg_wf sh.1 → leg_wf (step sh e).1.
Proof.
  intros Hwf. destruct sh as [s h]. cbn in Hwf. destruct e as [ok dead now|rx ok now].
  - destruct (active_leg s) eqn:E; [|by rewrite step_reality_open].
    rewrite step_tuic_open by done. cbn. destruct ok; [done|].
    destruct (dead || bool_decide _); [by right|done].
  - unfold step, health_tick, leg_wf in *. cbn [fst snd]. destruct (active_leg s) eqn:E.
    + destruct rx as [rx|]; [|done]. destruct (observe (he_detector h) rx now) as [d [|]]; [|done].
      unfold record_blackhole, switch_to_reality. repeat case_bool_decide; cbn; auto.
    + case_bool_decide; [|done]. unfold record_probe, switch_to_tuic.
      repeat (case_bool_decide || destruct ok); cbn; auto.
Qed.

Lemma run_wf es : leg_wf (run (failover_new, health_new) es).1.
Proof.
  induction es as [|e es IH] using rev_ind; [by left|]. rewrite run_snoc. by apply step_wf.
Qed.

(** ** Going down: flows that fail on TUIC *)

Definition failed (e : event) : bool := match e with EvOpen false _ _ => true | _ => false end.
Definition failed_dead (e : event) : bool := match e with EvOpen false true _ => true | _ => false end.

(** A failure on a dead connection, or three failures in a row. *)
Definition bad (es : list event) : Prop :=
  ∃ l1 l2, (∃ e, es = l1 ++ [e] ++ l2 ∧ failed_dead e = true) ∨
    (∃ e1 e2 e3, es = l1 ++ [e1; e2; e3] ++ l2 ∧ failed e1 = true ∧ failed e2 = true ∧ failed e3 = true).

(** The number of failures at the end of the history. *)
Fixpoint leading (es : list event) : nat :=
  match es with
  | e :: es => if failed e then S (leading es) else 0
  | [] => 0
  end.
Definition trailing (es : list event) : nat := leading (rev es).

Lemma trailing_snoc es e : trailing (es ++ [e]) = if failed e then S (trailing es) else 0%nat.
Proof. unfold trailing. by rewrite rev_app_distr. Qed.

Lemma trailing_two es : (2 ≤ trailing es)%nat ↔ ∃ l e1 e2, es = l ++ [e1; e2] ∧ failed e1 = true ∧ failed e2 = true.
Proof.
  split.
  - intros H. destruct es as [|e2 es _] using rev_ind; [cbn in H; lia|]. rewrite trailing_snoc in H.
    destruct (failed e2) eqn:E2; [|lia]. destruct es as [|e1 es _] using rev_ind; [cbn in H; lia|].
    rewrite trailing_snoc in H. destruct (failed e1) eqn:E1; [|lia]. exists es, e1, e2. by rewrite <-app_assoc.
  - intros (l & e1 & e2 & -> & H1 & H2). change (l ++ [e1; e2]) with (l ++ [e1] ++ [e2]).
    rewrite app_assoc, !trailing_snoc, H1, H2. lia.
Qed.

Lemma bad_snoc es e :
  bad (es ++ [e]) ↔ bad es ∨ failed_dead e = true ∨ (failed e = true ∧ (2 ≤ trailing es)%nat).
Proof.
  split.
  - intros (l1 & l2 & [(x & Hx & Hd)|(e1 & e2 & e3 & Hx & H1 & H2 & H3)]).
    + destruct l2 as [|y l2 _] using rev_ind.
      * rewrite app_nil_r in Hx. apply app_inj_tail in Hx as [-> ->]. by right; left.
      * rewrite !app_assoc in Hx. apply app_inj_tail in Hx as [-> ->]. left. exists l1, l2. left.
        exists x. by rewrite <-app_assoc.
    + destruct l2 as [|y l2 _] using rev_ind.
      * rewrite app_nil_r in Hx. change (l1 ++ [e1; e2; e3]) with (l1 ++ [e1; e2] ++ [e3]) in Hx.
        rewrite app_assoc in Hx. apply app_inj_tail in Hx as [-> ->]. right; right. split; [done|].
        apply trailing_two. eauto 10.
      * rewrite !app_assoc in Hx. apply app_inj_tail in Hx as [-> ->]. left. exists l1, l2. right.
        exists e1, e2, e3. by rewrite <-app_assoc.
  - intros [(l1 & l2 & [(x & -> & Hd)|(e1 & e2 & e3 & -> & H1 & H2 & H3)])|[Hd|[Hf Ht]]].
    + exists l1, (l2 ++ [e]). left. exists x. by rewrite <-!app_assoc.
    + exists l1, (l2 ++ [e]). right. exists e1, e2, e3. by rewrite <-!app_assoc.
    + exists es, []. left. eauto.
    + apply trailing_two in Ht as (l & e1 & e2 & -> & H1 & H2). exists l, []. right. exists e1, e2, e.
      by rewrite <-app_assoc.
Qed.

Definition is_open (e : event) : Prop := match e with EvOpen _ _ _ => True | EvTick _ _ _ => False end.

Lemma run_opens es : Forall is_open es →
  let s := (run (failover_new, health_new) es).1 in
  (active_leg s = LegReality ∧ bad es) ∨
  (active_leg s = LegTuic ∧ ¬ bad es ∧ fs_tuic_consec_fail s = Z.of_nat (trailing es)).
Proof.
  induction es as [|e es IH] using rev_ind; intros Hop; cbv zeta.
  - right. split_and!; [done| |done]. intros (l1 & l2 & [(x & Hx & _)|(? & ? & ? & Hx & _)]); by destruct l1.
  - apply Forall_app in Hop as [Hop He]. apply Forall_cons in He as [He _]. specialize (IH Hop). cbv zeta in IH.
    pose proof (run_wf es) as Hwf. rewrite run_snoc. destruct (run (failover_new, health_new) es) as [s h]. cbn in IH, Hwf.
    destruct e as [ok dead now|]; [|done]. destruct IH as [[Hl Hb]|(Hl & Hb & Hf)].
    + left. rewrite step_reality_open by done. split; [done|]. apply bad_snoc. by left.
    + rewrite step_tuic_open by done. cbn [fst]. destruct ok.
      * right. split; [done|]. rewrite trailing_snoc. cbn [failed]. split; [|done].
        rewrite bad_snoc. intros [?|[?|[? _]]]; done.
      * destruct (dead || bool_decide (3 ≤ fs_tuic_consec_fail s + 1)) eqn:Ed.
        -- left. split; [done|]. apply bad_snoc. right. apply orb_true_iff in Ed as [->|Ed]; [by left|].
           bdec. right. split; [done|]. lia.
        -- right. apply orb_false_iff in Ed as [-> Ed]. bdec. split_and!; [done| |].
           ++ rewrite bad_snoc. intros [?|[?|[_ ?]]]; [done|done|lia].
           ++ rewrite trailing_snoc. cbn. lia.
Qed.

(** ** Coming back: probes while REALITY is in charge *)

(** The probes the health task makes during a run, with their results. *)
Definition probe_of (sh : FailoverState * health) (e : event) : list bool :=
  match e with
  | EvTick _ ok _ =>
      if bool_decide (active_leg sh.1 = LegReality) &&
         bool_decide (PROBE_INTERVAL_SECS ≤ he_since_up_probe sh.2 + HEALTH_TICK_SECS)
      then [ok] else []
  | EvOpen _ _ _ => []
  end.

Fixpoint probes (sh : FailoverState * health) (es : list event) : list bool :=
  match es with
  | [] => []
  | e :: es => probe_of sh e ++ probes (step sh e) es
  end.

Lemma probes_snoc sh es e : probes sh (es ++ [e]) = probes sh es ++ probe_of (run sh es) e.
Proof.
  revert sh. induction es as [|x es IH]; intros sh; cbn [app probes run fold_left].
  - by rewrite app_nil_r.
  - rewrite IH, app_assoc. done.
Qed.

(** Successes at the end of the list. *)
Fixpoint leading_true (l : list bool) : nat :=
  match l with
  | true :: l => S (leading_true l)
  | _ => 0
  end.
Definition ends_in_successes (l : list bool) : nat := leading_true (rev l).

Lemma ends_snoc l b : ends_in_successes (l ++ [b]) = if (b : bool) then S (ends_in_successes l) else 0%nat.
Proof. unfold ends_in_successes. rewrite rev_app_distr. by destruct b. Qed.

Lemma ends_split l n : (n ≤ ends_in_successes l)%nat → ∃ l', l = l' ++ replicate n true.
Proof.
  revert l. induction n as [|n IH]; intros l H; [exists l; by rewrite app_nil_r|].
  destruct l as [|b l _] using rev_ind; [cbn in H; lia|]. rewrite ends_snoc in H. destruct b; [|lia].
  destruct (IH l) as [l' ->]; [lia|]. exists l'. rewrite <-app_assoc. f_equal. symmetry. apply replicate_S_end.
Qed.

(** The events split at the switch: TUIC before [e0], REALITY from then on. *)
Definition since_switch (es : list event) (e0 : event) (es1 es2 : list event) : Prop :=
  es = es1 ++ e0 :: es2 ∧ active_leg (run (failover_new, health_new) es1).1 = LegTuic ∧
  ∀ l1 l2, es2 = l1 ++ l2 → active_leg (run (failover_new, health_new) (es1 ++ e0 :: l1)).1 = LegReality.

Lemma since_switch_snoc es e0 es1 es2 e :
  since_switch es e0 es1 es2 → active_leg (run (failover_new, health_new) (es ++ [e])).1 = LegReality →
  since_switch (es ++ [e]) e0 es1 (es2 ++ [e]).
Proof.
  intros (-> & Ht & Hall) Hr. split_and!; [by rewrite <-app_assoc|done|]. intros l1 l2 Hl.
  destruct l2 as [|x l2 _] using rev_ind.
  - rewrite app_nil_r in Hl. subst l1. by rewrite <-app_assoc in Hr.
  - rewrite app_assoc in Hl. apply app_inj_tail in Hl as [-> _]. by eapply Hall.
Qed.

(** One event, from the side of the leg. *)
Lemma step_from_tuic s h e :
  leg_wf s → active_leg s = LegTuic →
  active_leg (step (s, h) e).1 = LegTuic ∨
  (active_leg (step (s, h) e).1 = LegReality ∧ fs_reality_switch_at (step (s, h) e).1 = ev_time e ∧
   fs_probe_consec_ok (step (s, h) e).1 = 0).
Proof.
  intros Hwf E. destruct e as [ok dead now|rx ok now].
  - rewrite step_tuic_open by done. destruct ok; [by left|].
    destruct (dead || _); [by right|by left].
  - unfold step, health_tick. cbn [fst snd ev_time]. rewrite E. destruct rx as [rx|]; [|by left].
    destruct (observe (he_detector h) rx now) as [d [|]]; [|by left].
    unfold record_blackhole, switch_to_reality. rewrite E, bool_decide_eq_false_2 by (intros H; by apply H).
    case_bool_decide; cbn; [by left|by right].
Qed.

Lemma step_from_reality s h e :
  leg_wf s → active_leg s = LegReality →
  let s' := (step (s, h) e).1 in
  let k := match probe_of (s, h) e with [true] => fs_probe_consec_ok s + 1 | [] => fs_probe_consec_ok s | _ => 0 end in
  (active_leg s' = LegReality ∧ fs_reality_switch_at s' = fs_reality_switch_at s ∧ fs_probe_consec_ok s' = k) ∨
  (active_leg s' = LegTuic ∧ probe_of (s, h) e = [true] ∧ 3 ≤ fs_probe_consec_ok s + 1 ∧
   60 ≤ ev_time e - fs_reality_switch_at s).
Proof.
  intros Hwf E. cbv zeta. destruct e as [ok dead now|rx ok now].
  - left. by rewrite step_reality_open.
  - unfold step, health_tick, probe_of. cbn [fst snd ev_time]. rewrite E.
    rewrite (bool_decide_eq_true_2 (LegReality = _)) by done. cbn [andb]. case_bool_decide as Hi; [|by left].
    unfold record_probe. rewrite E, bool_decide_eq_false_2 by (intros H; by apply H). destruct ok; cbn [negb]; [|by left].
    unfold UP_PROBE_CONSEC, UP_COOLDOWN_SECS. cbn [fs_reality_switch_at set_probe].
    case_bool_decide as Hn; cbn [andb]; [|by left]. case_bool_decide as Hc; [|by left].
    unfold switch_to_tuic. rewrite bool_decide_eq_false_2 by (apply active_leg_reality in E; [|done]; cbn; intros H; by apply H).
    right. unfold saturating_sub in Hc. split_and!; [done|done|lia|lia].
Qed.

Lemma run_reality es :
  active_leg (run (failover_new, health_new) es).1 = LegReality →
  ∃ e0 es1 es2, since_switch es e0 es1 es2 ∧
    fs_reality_switch_at (run (failover_new, health_new) es).1 = ev_time e0 ∧
    fs_probe_consec_ok (run (failover_new, health_new) es).1
      = Z.of_nat (ends_in_successes (probes (run (failover_new, health_new) (es1 ++ [e0])) es2)).
Proof.
  induction es as [|e es IH] using rev_ind; [done|]. intros Hr. pose proof Hr as Hr0.
  pose proof (run_wf es) as Hwf. rewrite run_snoc in Hr |- *.
  destruct (run (failover_new, health_new) es) as [s h] eqn:Erun. cbn in Hwf, IH.
  destruct (active_leg s) eqn:El.
  - destruct (step_from_tuic s h e Hwf El) as [H|(_ & Ht & Hp)]; [congruence|].
    exists e, es, []. rewrite Ht, Hp. split_and!; [|done|done]. split_and!; [done|by rewrite Erun|].
    intros l1 l2 Hl. symmetry in Hl. apply app_nil in Hl as [-> ->]. done.
  - destruct (IH eq_refl) as (e0 & es1 & es2 & Hsw & Ht & Hp).
    destruct (step_from_reality s h e Hwf El) as [(_ & Ht' & Hp')|(H & _)]; [|congruence].
    exists e0, es1, (es2 ++ [e]). split; [by apply since_switch_snoc|]. split; [congruence|].
    rewrite Hp', probes_snoc. replace (run (run (failover_new, health_new) (es1 ++ [e0])) es2) with (s, h).
    2:{ rewrite <-run_app, <-Erun. destruct Hsw as (-> & _). by rewrite <-app_assoc. }
    destruct (probe_of (s, h) e) as [|b [|]] eqn:Eb; [by rewrite app_nil_r| |].
    + rewrite ends_snoc. destruct b; lia.
    + unfold probe_of in Eb. destruct e; [done|]. by destruct (_ && _).
Qed.

(** ** The black-hole detector *)

(** An event that shows no new datagram. *)
Definition stale_event (r : Z) (e : event) : Prop :=
  match e with
  | EvTick (Some rx) _ _ => rx = r
  | _ => True
  end.

Lemma tick_tuic s h rx ok now :
  leg_wf s → active_leg s = LegTuic →
  step (s, h) (EvTick (Some rx) ok now) =
  let '(d, stale) := observe (he_detector h) rx now in
  if (stale : bool) then (mk_FailoverState 1 0 0 now, mk_health (detector_reset d) 0) else (s, mk_health d 0).
Proof.
  intros Hwf E. unfold step, health_tick. cbn [fst snd]. rewrite E.
  destruct (observe (he_detector h) rx now) as [d [|]]; [|done].
  unfold record_blackhole, switch_to_reality. rewrite E, bool_decide_eq_false_2 by (intros H; by apply H).
  apply active_leg_tuic in E; [|done]. rewrite E, bool_decide_eq_false_2 by (intros H; by apply H). done.
Qed.

(** An unchanged counter: the detector keeps its state and decides by the clock alone. *)
Lemma observe_same d r now :
  bd_last_rx d = r → bd_primed d = true → observe d r now = (d, bool_decide (10 ≤ saturating_sub now (bd_last_change_secs d))).
Proof.
  intros Hr Hp. unfold observe, BLACKHOLE_RX_STALE_SECS.
  by rewrite Hr, Hp, (bool_decide_eq_false_2 (r ≠ r)) by (intros H; by apply H).
Qed.

Lemma stale_run r es s h :
  leg_wf s → (∀ l1 l2, es = l1 ++ l2 → active_leg (run (s, h) l1).1 = LegTuic) → Forall (stale_event r) es →
  bd_last_rx (he_detector h) = r → bd_primed (he_detector h) = true →
  he_detector (run (s, h) es).2 = he_detector h ∧ leg_wf (run (s, h) es).1.
Proof.
  intros Hwf Hall Hst Hr Hp. induction es as [|e es IH] using rev_ind; [done|].
  apply Forall_app in Hst as [Hst He]. apply Forall_cons in He as [He _].
  destruct IH as [IH Hwf']; [|done|].
  { intros l1 l2 ->. apply (Hall l1 (l2 ++ [e])). by rewrite app_assoc. }
  assert (active_leg (run (s, h) es).1 = LegTuic) as Ht by (by apply (Hall es [e])).
  pose proof (Hall (es ++ [e]) [] ltac:(by rewrite app_nil_r)) as Hlast.
  rewrite run_snoc in Hlast |- *. split; [|by apply step_wf]. destruct (run (s, h) es) as [s1 h1]. cbn in Ht, IH, Hwf'.
  destruct e as [ok dead now|[rx|] ok now].
  - by rewrite step_tuic_open.
  - cbn in He. subst rx. rewrite tick_tuic, observe_same in Hlast |- * by (done || congruence).
    by case_bool_decide.
  - unfold step, health_tick. cbn [fst snd]. by rewrite Ht.
Qed.

(** ** Properties of the decisions *)

(** Flows move to REALITY exactly when they should: over any sequence of flow openings, REALITY
    is in charge if and only if some opening failed on a dead connection or three openings in a
    row failed. *)
Theorem failover_down_exact es :
  Forall is_open es →
  (active_leg (run (failover_new, health_new) es).1 = LegReality ↔ bad es).
Proof.
  intros Hop. pose proof (run_opens es Hop) as H. cbv zeta in H. destruct H as [[Hl Hb]|(Hl & Hb & _)].
  - done.
  - rewrite Hl. split; [discriminate|done].
Qed.

Lemma failover_down_exact_witness :
  active_leg (run (failover_new, health_new)
    [EvOpen false false 1; EvOpen true false 2; EvOpen false false 3; EvOpen false false 4]).1 = LegTuic ∧
  active_leg (run (failover_new, health_new) [EvOpen false false 1; EvOpen false false 2; EvOpen false false 3]).1
    = LegReality.
Proof.
  split; [reflexivity|]. apply failover_down_exact; [repeat constructor|].
  exists [], []. right. exists (EvOpen false false 1), (EvOpen false false 2), (EvOpen false false 3).
  split; [reflexivity|]. split; [reflexivity|]. split; reflexivity.
Defined.

(** Hysteresis.  Whatever happens and in whatever order, flows come back to TUIC only through
    a health tick at least sixty seconds after the very switch that moved them to REALITY, and only
    when the last three probes made since then all succeeded. *)
Theorem failover_hysteresis es e :
  active_leg (run (failover_new, health_new) es).1 = LegReality →
  active_leg (run (failover_new, health_new) (es ++ [e])).1 = LegTuic →
  ∃ e0 es1 es2 older,
    es = es1 ++ e0 :: es2 ∧ active_leg (run (failover_new, health_new) es1).1 = LegTuic ∧
    (∀ l1 l2, es2 = l1 ++ l2 → active_leg (run (failover_new, health_new) (es1 ++ e0 :: l1)).1 = LegReality) ∧
    60 ≤ ev_time e - ev_time e0 ∧
    probes (run (failover_new, health_new) (es1 ++ [e0])) (es2 ++ [e]) = older ++ [true; true; true].
Proof.
  intros Hr Ht. destruct (run_reality es Hr) as (e0 & es1 & es2 & Hsw & Hat & Hp).
  pose proof (run_wf es) as Hwf. rewrite run_snoc in Ht. pose proof Hsw as (Hes & Hbefore & Hall).
  assert (run (run (failover_new, health_new) (es1 ++ [e0])) es2 = run (failover_new, health_new) es) as Hrun.
  { rewrite <-run_app, Hes. by rewrite <-app_assoc. }
  destruct (run (failover_new, health_new) es) as [s h] eqn:E. cbn in Hr, Hwf, Hat, Hp.
  destruct (step_from_reality s h e Hwf Hr) as [(H & _)|(_ & Hpr & Hn & Htime)]; [congruence|].
  destruct (ends_split (probes (run (failover_new, health_new) (es1 ++ [e0])) (es2 ++ [e])) 3) as [older Hold].
  { rewrite probes_snoc, Hrun, Hpr, ends_snoc. lia. }
  exists e0, es1, es2, older. split_and!; [done..|lia|done].
Qed.

Lemma failover_hysteresis_witness :
  let es := EvOpen false true 5 :: replicate 29 (EvTick None true 50) in
  ∃ e0 es1 es2, es = es1 ++ e0 :: es2 ∧ 60 ≤ 100 - ev_time e0.
Proof.
  destruct (failover_hysteresis (EvOpen false true 5 :: replicate 29 (EvTick None true 50)) (EvTick None true 100))
    as (e0 & es1 & es2 & older & Hes & _ & _ & Ht & _); [vm_compute; reflexivity..|].
  exists e0, es1, es2. split; [exact Hes|exact Ht].
Defined.

(** C27: a dead TUIC path is noticed: if the datagram counter shows the same value over ten seconds
    of ticks, then TUIC does not stay in charge through all of them, whatever flows are opened in
    between and even if some readings are unavailable. *)
Theorem blackhole_detected s h r es ok0 t0 ok1 t1 :
  leg_wf s → (bd_primed (he_detector h) = true → bd_last_change_secs (he_detector h) ≤ t0) →
  Forall (stale_event r) es → t0 + 10 ≤ t1 →
  let all := EvTick (Some r) ok0 t0 :: es ++ [EvTick (Some r) ok1 t1] in
  ¬ ∀ l1 l2, all = l1 ++ l2 → active_leg (run (s, h) l1).1 = LegTuic.
Proof.
  intros Hwf Hclock Hst Ht all Hall. subst all.
  pose proof (Hall [] _ eq_refl) as H0. cbn in H0.
  pose proof (Hall [EvTick (Some r) ok0 t0] _ eq_refl) as H1. change (run (s, h) [EvTick (Some r) ok0 t0]) with (step (s, h) (EvTick (Some r) ok0 t0)) in H1.
  assert (∃ d, step (s, h) (EvTick (Some r) ok0 t0) = (s, mk_health d 0) ∧ bd_last_rx d = r ∧ bd_primed d = true ∧
    bd_last_change_secs d ≤ t0) as (d & Es & Hr & Hp & Hc).
  { rewrite tick_tuic in H1 |- * by done. destruct (observe (he_detector h) r t0) as [d stale] eqn:Eo.
    destruct stale; [done|]. exists d. split; [done|]. revert Eo. unfold observe.
    destruct (bd_primed (he_detector h)) eqn:Ep; cbn [negb orb].
    - case_bool_decide as Hne; [intros [= <-]; cbn; split_and!; [done|done|lia]|].
      intros [= <- _]. split_and!; [congruence|done|by apply Hclock].
    - intros [= <-]. cbn. split_and!; [done|done|lia]. }
  assert (∀ l, run (s, h) (EvTick (Some r) ok0 t0 :: l) = run (s, mk_health d 0) l) as Hcons.
  { intros l. unfold run. cbn [fold_left]. by rewrite Es. }
  destruct (stale_run r es s (mk_health d 0) Hwf) as [Hd Hwf']; [|done|done|done|].
  { intros l1 l2 ->. rewrite <-Hcons. apply (Hall _ (l2 ++ [EvTick (Some r) ok1 t1])). cbn. by rewrite app_assoc. }
  cbn [he_detector] in Hd.
  pose proof (Hall (EvTick (Some r) ok0 t0 :: es) [EvTick (Some r) ok1 t1] eq_refl) as Hend. rewrite Hcons in Hend.
  pose proof (Hall (EvTick (Some r) ok0 t0 :: es ++ [EvTick (Some r) ok1 t1]) [] ltac:(by rewrite app_nil_r)) as Hlast.
  rewrite Hcons, run_snoc in Hlast. destruct (run (s, mk_health d 0) es) as [s2 h2]. cbn in Hd, Hwf', Hend.
  rewrite tick_tuic, observe_same in Hlast by (done || congruence). unfold saturating_sub in Hlast.
  rewrite Hd, bool_decide_eq_true_2 in Hlast by lia. done.
Qed.

Lemma blackhole_detected_witness :
  ¬ ∀ l1 l2, EvTick (Some 7) false 0 :: [EvOpen true false 5; EvTick None false 6] ++ [EvTick (Some 7) false 10] = l1 ++ l2 →
    active_leg (run (failover_new, health_new) l1).1 = LegTuic.
Proof.
  apply (blackhole_detected failover_new health_new 7 [EvOpen true false 5; EvTick None false 6] false 0 false 10).
  - left. reflexivity.
  - discriminate.
  - repeat constructor.
  - lia.
Defined.

(** ** Concurrent callers

    The decision methods run in many tasks at once.  [pc] is the place a call has reached: each
    constructor names the atomic access it makes next.  [micro] performs that access. *)

Inductive pc : Type :=
| FailLoad (dead : bool) (now : Z)   (* record_tuic_failure: load active_tcp_leg *)
| FailFetch (now : Z)                (* fetch_add tuic_consec_fail *)
| BlackLoad (now : Z)                (* record_blackhole: load active_tcp_leg *)
| CasReality (now : Z)               (* switch_to_reality: compare_exchange *)
| StoreAt (now : Z) | StoreFailR | StoreProbeR
| ProbeLoad (ok : bool) (now : Z)    (* record_probe: load active_tcp_leg *)
| ProbeClear                         (* store probe_consec_ok 0 *)
| ProbeFetch (now : Z)               (* fetch_add probe_consec_ok *)
| ProbeAt (n now : Z)                (* load reality_switch_at *)
| CasTuic                            (* switch_to_tuic: compare_exchange *)
| StoreFailT | StoreProbeT
| SuccessStore                       (* record_tuic_success *)
| DoneFalse | DoneDown | DoneUp.     (* returned false, true after going down, true after going up *)

Definition micro (s : FailoverState) (p : pc) : option (FailoverState * pc) :=
  match p with
  | FailLoad dead now =>
      Some (s, if bool_decide (active_leg s ≠ LegTuic) then DoneFalse
               else if (dead : bool) then CasReality now else FailFetch now)
  | FailFetch now =>
      let n := fs_tuic_consec_fail s + 1 in
      Some (set_fail n s, if bool_decide (DOWN_SLOW_CONSEC ≤ n) then CasReality now else DoneFalse)
  | BlackLoad now => Some (s, if bool_decide (active_leg s ≠ LegTuic) then DoneFalse else CasReality now)
  | CasReality now =>
      if bool_decide (fs_active_tcp_leg s ≠ leg_as_u8 LegTuic) then Some (s, DoneFalse)
      else Some (set_leg LegReality s, StoreAt now)
  | StoreAt now => Some (set_switch_at now s, StoreFailR)
  | StoreFailR => Some (set_fail 0 s, StoreProbeR)
  | StoreProbeR => Some (set_probe 0 s, DoneDown)
  | ProbeLoad ok now =>
      Some (s, if bool_decide (active_leg s ≠ LegReality) then DoneFalse
               else if (ok : bool) then ProbeFetch now else ProbeClear)
  | ProbeClear => Some (set_probe 0 s, DoneFalse)
  | ProbeFetch now => let n := fs_probe_consec_ok s + 1 in Some (set_probe n s, ProbeAt n now)
  | ProbeAt n now =>
      let cooled := bool_decide (UP_COOLDOWN_SECS ≤ saturating_sub now (fs_reality_switch_at s)) in
      Some (s, if bool_decide (UP_PROBE_CONSEC ≤ n) && cooled then CasTuic else DoneFalse)
  | CasTuic =>
      if bool_decide (fs_active_tcp_leg s ≠ leg_as_u8 LegReality) then Some (s, DoneFalse)
      else Some (set_leg LegTuic s, StoreFailT)
  | StoreFailT => Some (set_fail 0 s, StoreProbeT)
  | StoreProbeT => Some (set_probe 0 s, DoneUp)
  | SuccessStore => Some (set_fail 0 s, DoneFalse)
  | DoneFalse | DoneDown | DoneUp => None
  end.

(** A call that runs without interference. *)
Fixpoint finish (fuel : nat) (s : FailoverState) (p : pc) : FailoverState * pc :=
  match fuel with
  | O => (s, p)
  | S fuel => match micro s p with Some (s, p) => finish fuel s p | None => (s, p) end
  end.

(** Run alone, a call does what its one-step definition says. *)
Lemma atomic_failure s dead now :
  finish 8 s (FailLoad dead now) =
  (let '(s', r) := record_tuic_failure s dead now in (s', if (r : bool) then DoneDown else DoneFalse)).
Proof.
  unfold record_tuic_failure, switch_to_reality. cbn [finish micro]. case_bool_decide; [done|].
  destruct dead; cbn [finish micro].
  - by case_bool_decide.
  - case_bool_decide; cbn [finish micro]; [|done]. by case_bool_decide.
Qed.

Lemma atomic_blackhole s now :
  finish 8 s (BlackLoad now) =
  (let '(s', r) := record_blackhole s now in (s', if (r : bool) then DoneDown else DoneFalse)).
Proof.
  unfold record_blackhole, switch_to_reality. cbn [finish micro]. case_bool_decide; [done|]. cbn [finish micro].
  by case_bool_decide.
Qed.

Lemma atomic_probe s ok now :
  finish 8 s (ProbeLoad ok now) =
  (let '(s', r) := record_probe s ok now in (s', if (r : bool) then DoneUp else DoneFalse)).
Proof.
  unfold record_probe, switch_to_tuic. cbn [finish micro]. case_bool_decide; [done|].
  destruct ok; cbn [finish micro negb]; [|done]. destruct (bool_decide _ && bool_decide _); [|done].
  cbn [finish micro]. by case_bool_decide.
Qed.

(** Any number of calls, started at any time, interleaved access by access. *)
Definition entry (p : pc) : Prop :=
  match p with
  | FailLoad _ _ | BlackLoad _ | ProbeLoad _ _ | SuccessStore => True
  | _ => False
  end.

Inductive sys_step : FailoverState * list pc → FailoverState * list pc → Prop :=
| sys_start s ts p : entry p → sys_step (s, ts) (s, ts ++ [p])
| sys_access s ts i p s' p' :
    ts !! i = Some p → micro s p = Some (s', p') → sys_step (s, ts) (s', <[i := p']> ts).

Definition won_down (p : pc) : bool :=
  match p with StoreAt _ | StoreFailR | StoreProbeR | DoneDown => true | _ => false end.
Definition won_up (p : pc) : bool := match p with StoreFailT | StoreProbeT | DoneUp => true | _ => false end.

Definition count (f : pc → bool) (ts : list pc) : Z := len (List.filter f ts).

Lemma count_snoc f ts p : count f (ts ++ [p]) = count f ts + if f p then 1 else 0.
Proof. unfold count. rewrite List.filter_app, len_app. cbn. by destruct (f p). Qed.

Lemma count_insert f ts i p p' :
  ts !! i = Some p → count f (<[i := p']> ts) + (if f p then 1 else 0) = count f ts + if f p' then 1 else 0.
Proof.
  unfold count. revert i. induction ts as [|x ts IH]; intros [|i]; cbn; try done.
  - intros [= ->]. destruct (f p), (f p'); cbn; rewrite ?len_cons; lia.
  - intros H. specialize (IH i H). unfold insert in *. destruct (f x), (f p), (f p'); rewrite ?len_cons; lia.
Qed.

(** The winners so far account for the leg. *)
Definition winners_inv (sys : FailoverState * list pc) : Prop :=
  leg_wf sys.1 ∧ count won_down sys.2 = count won_up sys.2 + fs_active_tcp_leg sys.1.

Lemma winners_step sys sys' : sys_step sys sys' → winners_inv sys → winners_inv sys'.
Proof.
  intros Hst [Hwf Hc]. destruct Hst as [s ts p He|s ts i p s' p' Hi Hm]; cbn in *.
  - split; [done|]. cbn. rewrite !count_snoc. destruct p; cbn; try done; lia.
  - pose proof (count_insert won_down ts i p p' Hi) as Hd. pose proof (count_insert won_up ts i p p' Hi) as Hu.
    unfold winners_inv, leg_wf in *. cbn.
    destruct p; cbn in Hm; try discriminate;
      repeat first [case_bool_decide | match type of Hm with context [if ?b then _ else _] => destruct b end];
      injection Hm as <- <-; cbn in *; (split; [auto|lia]).
Qed.

(** However the calls of many tasks interleave, every move of the leg is claimed by exactly one
    caller: at any moment the calls that were told they moved flows to REALITY outnumber those that
    were told they moved them back by one when REALITY is in charge and by none otherwise.  In
    particular two flows that fail at the same time never both act on the same switch. *)
Theorem switch_has_one_winner sys :
  rtc sys_step (failover_new, []) sys →
  count won_down sys.2 - count won_up sys.2 = leg_as_u8 (active_leg sys.1).
Proof.
  intros Hr. assert (winners_inv sys) as [Hwf Hc].
  { assert (winners_inv (failover_new, [])) as H0 by (split; [by left|done]).
    induction Hr as [|sys1 sys2 sys3 Hst _ IH]; [done|]. apply IH. by eapply winners_step. }
  assert (leg_as_u8 (active_leg sys.1) = fs_active_tcp_leg sys.1) as ->; [|lia].
  destruct Hwf as [H|H]; unfold active_leg, leg_from_u8; by rewrite H.
Qed.

Lemma switch_has_one_winner_witness :
  ∃ sys, rtc sys_step (failover_new, []) sys ∧ count won_down sys.2 - count won_up sys.2 = 1 ∧
    sys.2 = [StoreAt 9; DoneFalse].
Proof.
  assert (rtc sys_step (failover_new, []) (set_leg LegReality failover_new, [StoreAt 9; DoneFalse])) as Hr.
  { eapply rtc_l; [apply (sys_start _ _ (FailLoad true 9)); exact I|].
    eapply rtc_l; [apply (sys_start _ _ (FailLoad true 9)); exact I|].
    eapply rtc_l; [apply (sys_access _ _ 0%nat (FailLoad true 9) failover_new (CasReality 9)); reflexivity|].
    eapply rtc_l; [apply (sys_access _ _ 1%nat (FailLoad true 9) failover_new (CasReality 9)); reflexivity|].
    eapply rtc_l; [apply (sys_access _ _ 0%nat (CasReality 9) (set_leg LegReality failover_new) (StoreAt 9)); reflexivity|].
    eapply rtc_l; [apply (sys_access _ _ 1%nat (CasReality 9) (set_leg LegReality failover_new) DoneFalse); reflexivity|].
    apply rtc_refl. }
  exists (set_leg LegReality failover_new, [StoreAt 9; DoneFalse]). split; [exact Hr|]. split; [|reflexivity].
  exact (switch_has_one_winner _ Hr).
Defined.
