(* ===== verification/FailoverSpec.v ===== *)
(** * FailoverSpec: what the failover promises, as a small automaton

    The implementation ([Failover]) keeps four counters of its own, a detector and the health task's
    timer, most of which mean something in one of the two legs only.  The specification has one state
    per leg, with just what that leg needs; the theorem shows that the implementation refines it. *)

From S2P Require Import Prelude Shared Failover.

(** On TUIC: the openings that failed in a row, and the last progress of the datagram counter (its
    value and when it was seen).  On REALITY: since when, the probes that succeeded in a row, and the
    seconds since the last one. *)
Inductive duty : Type :=
| OnTuic (fails : Z) (progress : option (Z * Z))
| OnReality (since oks waited : Z).

Definition take_over (now : Z) : duty := OnReality now 0 0.

(** No progress for ten seconds. *)
Definition stalled (progress : option (Z * Z)) (rx now : Z) : bool :=
  match progress with
  | Some (rx0, t0) => bool_decide (rx = rx0) && bool_decide (BLACKHOLE_RX_STALE_SECS ≤ saturating_sub now t0)
  | None => false
  end.
Definition see (progress : option (Z * Z)) (rx now : Z) : option (Z * Z) :=
  match progress with
  | Some (rx0, t0) => if bool_decide (rx = rx0) then progress else Some (rx, now)
  | None => Some (rx, now)
  end.

Definition spec_step (d : duty) (e : event) : duty :=
  match d, e with
  | OnTuic fails progress, EvOpen ok dead now =>
      if (ok : bool) then OnTuic 0 progress
      else if (dead : bool) || bool_decide (DOWN_SLOW_CONSEC ≤ fails + 1) then take_over now
      else OnTuic (fails + 1) progress
  | OnTuic fails progress, EvTick None _ _ => d
  | OnTuic fails progress, EvTick (Some rx) _ now =>
      if stalled progress rx now then take_over now else OnTuic fails (see progress rx now)
  | OnReality _ _ _, EvOpen _ _ _ => d
  | OnReality since oks waited, EvTick _ ok now =>
      if bool_decide (PROBE_INTERVAL_SECS ≤ waited + HEALTH_TICK_SECS) then
        if (ok : bool) then
          if bool_decide (UP_PROBE_CONSEC ≤ oks + 1) && bool_decide (UP_COOLDOWN_SECS ≤ saturating_sub now since)
          then OnTuic 0 None
          else OnReality since (oks + 1) 0
        else OnReality since 0 0
      else OnReality since oks (waited + HEALTH_TICK_SECS)
  end.

Definition spec_run (es : list event) : duty := fold_left spec_step es (OnTuic 0 None).

(** ** The abstraction *)

Definition duty_of (sh : FailoverState * health) : duty :=
  match active_leg sh.1 with
  | LegTuic => OnTuic (fs_tuic_consec_fail sh.1)
                 (let d := he_detector sh.2 in if bd_primed d then Some (bd_last_rx d, bd_last_change_secs d) else None)
  | LegReality => OnReality (fs_reality_switch_at sh.1) (fs_probe_consec_ok sh.1) (he_since_up_probe sh.2)
  end.

(** What is left over from the other leg does not matter, except the timer. *)
Record failover_inv (sh : FailoverState * health) : Prop := {
  fi_leg : leg_wf sh.1;
  fi_timer : active_leg sh.1 = LegTuic → he_since_up_probe sh.2 = 0
}.

Lemma step_refines sh e :
  failover_inv sh → duty_of (step sh e) = spec_step (duty_of sh) e ∧ failover_inv (step sh e).
Proof.
  destruct sh as [s h]. intros [Hwf Ht]. pose proof (step_wf (s, h) e Hwf) as Hwf'. cbn [fst snd] in *.
  enough (duty_of (step (s, h) e) = spec_step (duty_of (s, h)) e ∧
    (active_leg (step (s, h) e).1 = LegTuic → he_since_up_probe (step (s, h) e).2 = 0)) as [? ?] by (by repeat split).
  destruct (active_leg s) eqn:El, e as [ok dead now|rx ok now].
  - rewrite step_tuic_open by done. unfold duty_of. cbn [fst snd]. rewrite El. cbn [spec_step]. specialize (Ht eq_refl).
    unfold active_leg, leg_from_u8 in El |- *. unfold DOWN_SLOW_CONSEC, take_over.
    destruct ok; [by cbn; rewrite El|]. destruct (dead || bool_decide _); cbn; [by rewrite Ht|by rewrite El].
  - specialize (Ht eq_refl). destruct rx as [rx|].
    2:{ unfold step, health_tick. cbn [fst snd]. rewrite El. unfold duty_of. cbn [fst snd]. by rewrite El. }
    rewrite tick_tuic by done. unfold duty_of at 2. cbn [fst snd]. rewrite El. cbn [spec_step].
    destruct (he_detector h) as [r t p] eqn:Ed. unfold observe, see, stalled. cbn [bd_primed bd_last_rx bd_last_change_secs].
    unfold BLACKHOLE_RX_STALE_SECS. destruct p; cbn [negb orb].
    + destruct (bool_decide_reflect (rx = r)) as [->|Hne].
      * rewrite (bool_decide_false (r ≠ r)) by (intros H; by apply H). cbn [andb].
        case_bool_decide; [done|]. unfold duty_of. cbn [fst snd]. by rewrite El.
      * rewrite (bool_decide_true (rx ≠ r)) by done. unfold duty_of. cbn [fst snd andb]. by rewrite El.
    + unfold duty_of. cbn [fst snd]. by rewrite El.
  - rewrite step_reality_open by done. unfold duty_of. cbn [fst snd]. by rewrite El.
  - unfold step, health_tick. cbn [fst snd]. rewrite El. unfold duty_of at 2. cbn [fst snd]. rewrite El. cbn [spec_step].
    case_bool_decide; [|unfold duty_of; cbn [fst snd]; by rewrite El].
    assert (∀ n, switch_to_tuic (set_probe n s) = (mk_FailoverState 0 0 0 (fs_reality_switch_at s), true)) as Hsw.
    { intros n. unfold switch_to_tuic. rewrite bool_decide_false; [done|]. apply active_leg_reality in El; [|done].
      cbn. intros Hn. by apply Hn. }
    unfold record_probe. rewrite El, bool_decide_false by (intros H'; by apply H').
    destruct ok; cbn [negb]; [|unfold duty_of, active_leg in *; cbn; by rewrite El].
    cbn [set_probe fs_reality_switch_at]. destruct (bool_decide (UP_PROBE_CONSEC ≤ _) && _).
    + fold (set_probe (fs_probe_consec_ok s + 1) s). by rewrite Hsw.
    + unfold duty_of, active_leg in *. cbn. by rewrite El.
Qed.

(** C11: The failover implements its specification: after any sequence of openings and health ticks,
    the implementation's counters, read through [duty_of], are exactly the state the automaton is in.
    So TUIC is left exactly on a failure of a dead connection, on the third failure in a row, or when
    the datagram counter stalls for ten seconds; and it is taken up again exactly by the third
    successful probe in a row, one per thirty seconds of ticks, at least a minute after the switch. *)
Theorem failover_refines_spec es : duty_of (run (failover_new, health_new) es) = spec_run es.
Proof.
  assert (duty_of (run (failover_new, health_new) es) = spec_run es ∧
    failover_inv (run (failover_new, health_new) es)) as [? _]; [|done].
  induction es as [|e es [IH Hi]] using rev_ind; [by split; [|split; [left|]]|].
  rewrite run_snoc. unfold spec_run in *. rewrite fold_left_app. cbn.
  destruct (step_refines _ e Hi) as [Hr Hi']. by rewrite Hr, IH.
Qed.
