(* ===== verification/UdpRelay.v ===== *)
(** * UdpRelay: raw IPv4/UDP packets of [src/udp_relay.rs] and the classification of inbound packets

    The client reads raw IP packets from the TUN device.  [parse_inbound_udp], [inspect_inbound_tcp]
    and [classify_inbound] (of [src/client_tun.rs]) decide which of its three paths a packet takes;
    [build_udp_ip_packet] makes the packets it injects.  Header parsing and building are the
    [etherparse] crate's, a parameter with its documented behaviour as laws. *)

From S2P Require Import Prelude Shared.

Inductive IpHeader : Type := Version4 (src dst : Z) | Version6.
Inductive TransportHeader : Type :=
| UdpHeader (sport dport : Z)
| TcpHeader (dport : Z) (syn ack : bool)
| OtherHeader.

Record PacketHeaders := mk_PacketHeaders {
  ph_ip : option IpHeader;
  ph_transport : option TransportHeader;
  ph_payload : list byte
}.

(** [PacketHeaders::from_ip_slice] and [PacketBuilder::ipv4(src, dst, ttl).udp(sport, dport).write]
    into a [Vec]; [None] is their [Err]. *)
Class EtherParse := {
  from_ip_slice : list byte → option PacketHeaders;
  write_ipv4_udp : Z * Z → Z * Z → Z → list byte → option (list byte)
}.

(** The largest payload whose UDP and IPv4 length fields can be written. *)
Definition UDP_PAYLOAD_MAX : Z := 65507.

Class EtherParseLaws (P : EtherParse) : Prop := {
  write_fits : ∀ src dst ttl payload,
    len payload ≤ UDP_PAYLOAD_MAX → is_Some (write_ipv4_udp src dst ttl payload);
  write_too_long : ∀ src dst ttl payload,
    UDP_PAYLOAD_MAX < len payload → write_ipv4_udp src dst ttl payload = None;
  parse_written : ∀ src dst ttl payload pkt,
    is_u32 src.1 → is_u16 src.2 → is_u32 dst.1 → is_u16 dst.2 →
    write_ipv4_udp src dst ttl payload = Some pkt →
    from_ip_slice pkt =
      Some (mk_PacketHeaders (Some (Version4 src.1 dst.1)) (Some (UdpHeader src.2 dst.2)) payload);
  (** the payload is part of the packet, and the fields a parsed header carries have their width *)
  parsed_payload : ∀ pkt h, from_ip_slice pkt = Some h → len (ph_payload h) ≤ len pkt;
  parsed_widths : ∀ pkt h, from_ip_slice pkt = Some h →
    (∀ s d, ph_ip h = Some (Version4 s d) → is_u32 s ∧ is_u32 d) ∧
    (∀ s d, ph_transport h = Some (UdpHeader s d) → is_u16 s ∧ is_u16 d) ∧
    (∀ d sy ak, ph_transport h = Some (TcpHeader d sy ak) → is_u16 d)
}.

Record UdpInbound := mk_UdpInbound {
  ui_src_ip : Z;
  ui_src_port : Z;
  ui_dst_ip : Z;
  ui_dst_port : Z;
  ui_payload : list byte
}.

Inductive Inbound : Type := InDns | InUdpRelay | InOther.

Section packets.
Context {P : EtherParse}.

Definition parse_inbound_udp (pkt : list byte) : option UdpInbound :=
  headers ← from_ip_slice pkt;
  ip ← ph_ip headers;
  match ip with
  | Version6 => None
  | Version4 src dst =>
      transport ← ph_transport headers;
      match transport with
      | UdpHeader sport dport => Some (mk_UdpInbound src sport dst dport (ph_payload headers))
      | _ => None
      end
  end.

(** [write(..).expect(..)]: aborts when the builder refuses the payload. *)
Definition build_udp_ip_packet {E} (src dst : Z * Z) (payload : list byte) : res E (list byte) :=
  expect (write_ipv4_udp src dst 64 payload).

(** The destination port and whether the packet is a clean SYN. *)
Definition inspect_inbound_tcp (pkt : list byte) : option (Z * bool) :=
  parsed ← from_ip_slice pkt;
  transport ← ph_transport parsed;
  match transport with
  | TcpHeader dport syn ack => Some (dport, syn && negb ack)
  | _ => None
  end.

Definition classify_inbound (pkt : list byte) : Inbound :=
  match parse_inbound_udp pkt with
  | Some udp => if bool_decide (ui_dst_port udp = 53) then InDns else InUdpRelay
  | None => InOther
  end.

(** ** Lemmas *)

Context {L : EtherParseLaws P}.

Lemma build_udp_ip_packet_fits {E} src dst payload :
  len payload ≤ UDP_PAYLOAD_MAX → ∃ pkt, build_udp_ip_packet (E:=E) src dst payload = Ok pkt.
Proof.
  intros Hl. unfold build_udp_ip_packet. destruct (write_fits src dst 64 payload Hl) as [pkt ->]. by exists pkt.
Qed.

Lemma build_udp_ip_packet_too_long {E} src dst payload :
  UDP_PAYLOAD_MAX < len payload → build_udp_ip_packet (E:=E) src dst payload = Panic.
Proof. intros Hl. unfold build_udp_ip_packet. by rewrite write_too_long. Qed.

Lemma parse_built {E} src dst payload pkt :
  is_u32 src.1 → is_u16 src.2 → is_u32 dst.1 → is_u16 dst.2 →
  build_udp_ip_packet (E:=E) src dst payload = Ok pkt →
  parse_inbound_udp pkt = Some (mk_UdpInbound src.1 src.2 dst.1 dst.2 payload).
Proof.
  intros Hs1 Hs2 Hd1 Hd2 Hb. unfold build_udp_ip_packet in Hb. inv_res.
  unfold parse_inbound_udp. by erewrite parse_written.
Qed.

Lemma parse_inbound_widths pkt udp :
  parse_inbound_udp pkt = Some udp →
  is_u32 (ui_src_ip udp) ∧ is_u16 (ui_src_port udp) ∧ is_u32 (ui_dst_ip udp) ∧ is_u16 (ui_dst_port udp).
Proof.
  unfold parse_inbound_udp. intros H.
  destruct (from_ip_slice pkt) as [h|] eqn:Eh; [|done].
  pose proof (parsed_widths pkt h Eh) as (Hip & Hu & _). cbn in H.
  destruct (ph_ip h) as [[s d|]|]; try done. cbn in H.
  destruct (ph_transport h) as [[sp dp|? ? ?|]|]; try done. cbn in H.
  injection H as <-. cbn.
  destruct (Hip s d eq_refl), (Hu sp dp eq_refl). done.
Qed.

Lemma parse_inbound_payload pkt udp : parse_inbound_udp pkt = Some udp → len (ui_payload udp) ≤ len pkt.
Proof.
  unfold parse_inbound_udp. intros H.
  destruct (from_ip_slice pkt) as [h|] eqn:Eh; [|done]. pose proof (parsed_payload pkt h Eh). cbn in H.
  destruct (ph_ip h) as [[s d|]|]; try done. cbn in H.
  destruct (ph_transport h) as [[sp dp|? ? ?|]|]; try done. cbn in H. by injection H as <-.
Qed.

Lemma inspect_widths pkt port syn : inspect_inbound_tcp pkt = Some (port, syn) → is_u16 port.
Proof.
  unfold inspect_inbound_tcp. intros H.
  destruct (from_ip_slice pkt) as [h|] eqn:Eh; [|done].
  pose proof (parsed_widths pkt h Eh) as (_ & _ & Ht). cbn in H.
  destruct (ph_transport h) as [[? ?|p sy ak|]|]; try done. cbn in H.
  injection H as <- _. by eapply Ht.
Qed.

(** A packet takes the TCP path only when it is not UDP: DNS never reaches the TCP stack. *)
Lemma classify_cases pkt :
  (classify_inbound pkt = InDns ↔ ∃ udp, parse_inbound_udp pkt = Some udp ∧ ui_dst_port udp = 53) ∧
  (classify_inbound pkt = InUdpRelay ↔ ∃ udp, parse_inbound_udp pkt = Some udp ∧ ui_dst_port udp ≠ 53) ∧
  (classify_inbound pkt = InOther ↔ parse_inbound_udp pkt = None).
Proof.
  unfold classify_inbound. destruct (parse_inbound_udp pkt) as [udp|].
  - case_bool_decide; repeat split; intros; try done; try naive_solver.
  - repeat split; intros; naive_solver.
Qed.

End packets.

(** ** A concrete instance: IPv4 without options, UDP and TCP, no checksums *)

Definition demo_write (src dst : Z * Z) (ttl : Z) (payload : list byte) : option (list byte) :=
  if bool_decide (len payload ≤ UDP_PAYLOAD_MAX) then
    Some ([x45; x00] ++ be16 (28 + len payload) ++ [x00; x00; x00; x00; z2b ttl; x11; x00; x00] ++
          be32 src.1 ++ be32 dst.1 ++ be16 src.2 ++ be16 dst.2 ++ be16 (8 + len payload) ++ [x00; x00] ++ payload)
  else None.

Definition demo_parse (pkt : list byte) : option PacketHeaders :=
  match pkt with
  | b0 :: _ :: _ :: _ :: _ :: _ :: _ :: _ :: _ :: proto :: _ :: _ :: a3 :: a2 :: a1 :: a0 ::
      d3 :: d2 :: d1 :: d0 :: p1 :: p0 :: q1 :: q0 :: _ :: _ :: _ :: _ :: rest =>
      let ip := Some (Version4 (of_be [a3; a2; a1; a0]) (of_be [d3; d2; d1; d0])) in
      if bool_decide (b0 ≠ x45) then None
      else if bool_decide (proto = x11) then
        Some (mk_PacketHeaders ip (Some (UdpHeader (of_be [p1; p0]) (of_be [q1; q0]))) rest)
      else if bool_decide (proto = x06) then
        match rest with
        | _ :: _ :: _ :: _ :: _ :: flags :: _ :: _ :: _ :: _ :: _ :: _ :: data =>
            Some (mk_PacketHeaders ip
                    (Some (TcpHeader (of_be [q1; q0]) (Z.testbit (b2z flags) 1) (Z.testbit (b2z flags) 4))) data)
        | _ => None
        end
      else Some (mk_PacketHeaders ip (Some OtherHeader) rest)
  | _ => None
  end.

#[global] Instance demo_ether : EtherParse := {| from_ip_slice := demo_parse; write_ipv4_udp := demo_write |}.

Lemma of_be_be32 z : is_u32 z → of_be (be32 z) = z.
Proof. intros. unfold be32. rewrite of_be_to_be. apply Z.mod_small. ulia. Qed.
Lemma of_be_be16 z : is_u16 z → of_be (be16 z) = z.
Proof. intros. unfold be16. rewrite of_be_to_be. apply Z.mod_small. ulia. Qed.

Lemma of_be_u32 a b c d : is_u32 (of_be [a; b; c; d]).
Proof. pose proof (of_be_bound [a; b; c; d]). exact H. Qed.
Lemma of_be_u16 a b : is_u16 (of_be [a; b]).
Proof. pose proof (of_be_bound [a; b]). exact H. Qed.

#[global] Instance demo_ether_laws : EtherParseLaws demo_ether.
Proof.
  split.
  - intros src dst ttl payload Hl. cbn. unfold demo_write. rewrite bool_decide_true by done. eauto.
  - intros src dst ttl payload Hl. cbn. unfold demo_write. by rewrite bool_decide_false by lia.
  - intros [s sp] [d dp] ttl payload pkt Hs Hsp Hd Hdp. cbn [fst snd] in *. cbn. unfold demo_write.
    case_bool_decide; [|done]. intros [= <-].
    change (Some (mk_PacketHeaders (Some (Version4 (of_be (be32 s)) (of_be (be32 d))))
      (Some (UdpHeader (of_be (be16 sp)) (of_be (be16 dp)))) payload) =
      Some (mk_PacketHeaders (Some (Version4 s d)) (Some (UdpHeader sp dp)) payload)).
    by rewrite !of_be_be32, !of_be_be16.
  - intros pkt h. change (from_ip_slice pkt) with (demo_parse pkt). unfold demo_parse.
    do 28 (destruct pkt as [|? pkt]; [try done; repeat case_match; done|]).
    repeat case_match; intros; simplify_eq/=; unfold len; cbn; lia.
  - intros pkt h. change (from_ip_slice pkt) with (demo_parse pkt). unfold demo_parse.
    do 28 (destruct pkt as [|? pkt]; [try done; repeat case_match; done|]).
    repeat case_match; intros; simplify_eq/=;
      repeat split; intros; simplify_eq; eauto using of_be_u32, of_be_u16;
      try (apply of_be_u32); try (apply of_be_u16).
Qed.
