(* ===== verification/Device.v ===== *)
(** * Device: the TUN device wrapper of [src/device.rs]

    [VirtualTunDevice] bridges the asynchronous TUN device and the synchronous TCP stack: one
    received packet waits in [rx_buffer], packets to send queue in [tx_queue].  On macOS every
    packet carries a four byte header, on Linux none: [macos] is the [cfg(target_os)] switch.
    What the device accepted is logged in [vd_written]. *)

From S2P Require Import Prelude.

Definition UTUN_IPV4_HEADER : list byte := [x00; x00; x00; x02].

Record VirtualTunDevice := mk_VirtualTunDevice {
  vd_mtu : Z;
  vd_rx_buffer : option (list byte);
  vd_tx_queue : list (list byte);
  vd_written : list (list byte)
}.

Definition device_new (mtu : Z) : VirtualTunDevice := mk_VirtualTunDevice mtu None [] [].

Definition set_rx (rx : option (list byte)) (d : VirtualTunDevice) : VirtualTunDevice :=
  mk_VirtualTunDevice (vd_mtu d) rx (vd_tx_queue d) (vd_written d).
Definition set_tx (q w : list (list byte)) (d : VirtualTunDevice) : VirtualTunDevice :=
  mk_VirtualTunDevice (vd_mtu d) (vd_rx_buffer d) q w.

(** What the stack is told of the device: raw IP packets, and who checks checksums. *)
Inductive Medium : Type := MediumEthernet | MediumIp | MediumIeee802154.
Inductive Checksum : Type := ChecksumBoth | ChecksumRx | ChecksumTx | ChecksumNone.
#[global] Instance Medium_eq_dec : EqDecision Medium.
Proof. solve_decision. Defined.
#[global] Instance Checksum_eq_dec : EqDecision Checksum.
Proof. solve_decision. Defined.

Record DeviceCapabilities := mk_DeviceCapabilities {
  dc_medium : Medium;
  dc_max_transmission_unit : Z;
  dc_checksum_ipv4 : Checksum;
  dc_checksum_udp : Checksum;
  dc_checksum_tcp : Checksum;
  dc_checksum_icmpv4 : Checksum
}.

Definition device_capabilities_for_mtu (mtu : Z) : DeviceCapabilities :=
  mk_DeviceCapabilities MediumIp mtu ChecksumTx ChecksumBoth ChecksumTx ChecksumTx.

Section device.
Variable macos : bool.

Definition tun_packet_header_len : Z := if macos then len UTUN_IPV4_HEADER else 0.
Definition rx_buffer_capacity_for_mtu (mtu : Z) : Z := mtu + tun_packet_header_len.

(** [read] is what the device delivers: an error, or a packet of which the buffer takes the front. *)
Definition wait_for_rx (read : option (list byte)) (d : VirtualTunDevice) : VirtualTunDevice * res unit unit :=
  match read with
  | None => (d, Err tt)
  | Some pkt =>
      let buf := ztake (rx_buffer_capacity_for_mtu (vd_mtu d)) pkt in
      if macos then
        if bool_decide (len buf < len UTUN_IPV4_HEADER) then (d, Err tt)
        else (set_rx (Some (zdrop (len UTUN_IPV4_HEADER) buf)) d, Ok tt)
      else (set_rx (Some buf) d, Ok tt)
  end.

Definition rx_peek (d : VirtualTunDevice) : option (list byte) := vd_rx_buffer d.
Definition rx_take (d : VirtualTunDevice) : option (list byte) * VirtualTunDevice :=
  (vd_rx_buffer d, set_rx None d).

Definition push_injected (queue : list (list byte)) (pkt : list byte) : list (list byte) :=
  queue ++ [(if macos then UTUN_IPV4_HEADER else []) ++ pkt].

Definition inject_ip_packet (pkt : list byte) (d : VirtualTunDevice) : VirtualTunDevice :=
  set_tx (push_injected (vd_tx_queue d) pkt) (vd_written d) d.

(** [TunTxToken::consume]: the stack fills a frame with [pkt], which is queued. *)
Definition tx_consume (queue : list (list byte)) (pkt : list byte) : list (list byte) :=
  queue ++ [if macos then [x00; x00; x00; x02] ++ pkt else pkt].

(** The device's part of [iface.poll]: the stack takes the waiting packet ([receive]) and queues the
    packets [emitted] ([transmit]). *)
Definition device_poll (emitted : list (list byte)) (d : VirtualTunDevice) : VirtualTunDevice :=
  set_tx (fold_left tx_consume emitted (vd_tx_queue d)) (vd_written d) (set_rx None d).

(** [writes] tells, for each packet in turn, whether [write_all] succeeds (always, beyond the list):
    the packet whose write fails is lost, those behind it stay queued. *)
Fixpoint flush_queue (queue : list (list byte)) (writes : list bool) (written : list (list byte))
  : list (list byte) * list (list byte) * bool :=
  match queue with
  | [] => ([], written, true)
  | pkt :: queue =>
      match writes with
      | false :: _ => (queue, written, false)
      | true :: writes => flush_queue queue writes (written ++ [pkt])
      | [] => flush_queue queue [] (written ++ [pkt])
      end
  end.

Definition flush_tx (writes : list bool) (d : VirtualTunDevice) : VirtualTunDevice * bool :=
  let '(q, w, ok) := flush_queue (vd_tx_queue d) writes (vd_written d) in (set_tx q w d, ok).

(** ** Lemmas *)

Definition frame (pkt : list byte) : list byte := (if macos then UTUN_IPV4_HEADER else []) ++ pkt.

Lemma tx_consume_frame q pkt : tx_consume q pkt = q ++ [frame pkt].
Proof. unfold tx_consume, frame. by destruct macos. Qed.

Lemma fold_tx_consume l q : fold_left tx_consume l q = q ++ (frame <$> l).
Proof.
  revert q. induction l as [|p l IH]; intros q; cbn; [by rewrite app_nil_r|].
  by rewrite IH, tx_consume_frame, <-app_assoc.
Qed.

Lemma flush_queue_spec q ws w q' w' ok :
  flush_queue q ws w = (q', w', ok) →
  ∃ sent lost, w' = w ++ sent ∧ q = sent ++ lost ++ q' ∧
    if ok then lost = [] ∧ q' = [] else length lost = 1%nat.
Proof.
  revert ws w. induction q as [|pkt q IH]; intros ws w; cbn.
  - intros [= <- <- <-]. exists [], []. by rewrite app_nil_r.
  - assert (∀ ws, flush_queue q ws (w ++ [pkt]) = (q', w', ok) →
      ∃ sent lost, w' = w ++ sent ∧ pkt :: q = sent ++ lost ++ q' ∧
        if ok then lost = [] ∧ q' = [] else length lost = 1%nat) as Hstep.
    { intros ws' H. destruct (IH _ _ H) as (sent & lost & -> & -> & Hok).
      exists (pkt :: sent), lost. by rewrite <-app_assoc. }
    destruct ws as [|[] ws]; [by apply Hstep|by apply Hstep|].
    intros [= <- <- <-]. exists [], [pkt]. by rewrite app_nil_r.
Qed.

End device.

Arguments flush_tx writes d : simpl never.

(** The packets handed over for sending by a sequence of device operations, in order. *)
Inductive dev_op : Type :=
| DevInject (pkt : list byte)
| DevPoll (emitted : list (list byte))
| DevFlush (writes : list bool)
| DevRead (read : option (list byte)).

Definition dev_run_op (macos : bool) (d : VirtualTunDevice) (o : dev_op) : VirtualTunDevice :=
  match o with
  | DevInject pkt => inject_ip_packet macos pkt d
  | DevPoll emitted => device_poll macos emitted d
  | DevFlush writes => (flush_tx writes d).1
  | DevRead read => (wait_for_rx macos read d).1
  end.

Definition dev_sent (o : dev_op) : list (list byte) :=
  match o with DevInject pkt => [pkt] | DevPoll emitted => emitted | _ => [] end.

Definition dev_failures (d : VirtualTunDevice) (o : dev_op) : nat :=
  match o with DevFlush writes => if (flush_tx writes d).2 then 0%nat else 1%nat | _ => 0%nat end.

Fixpoint dev_lost (macos : bool) (d : VirtualTunDevice) (ops : list dev_op) : nat :=
  match ops with
  | [] => 0%nat
  | o :: ops => (dev_failures d o + dev_lost macos (dev_run_op macos d o) ops)%nat
  end.

Lemma dev_op_conserves macos d o :
  let d' := dev_run_op macos d o in
  vd_written d' ++ vd_tx_queue d' `sublist_of`
    vd_written d ++ vd_tx_queue d ++ (frame macos <$> dev_sent o) ∧
  length (vd_written d ++ vd_tx_queue d ++ (frame macos <$> dev_sent o)) =
    (length (vd_written d' ++ vd_tx_queue d') + dev_failures d o)%nat.
Proof.
  destruct o as [pkt|em|ws|rd]; cbn [dev_run_op dev_sent dev_failures].
  - cbn. by rewrite Nat.add_0_r.
  - unfold device_poll. cbn. rewrite fold_tx_consume. by rewrite Nat.add_0_r.
  - unfold flush_tx. destruct (flush_queue _ _ _) as [[q w] ok] eqn:E. cbn [fst snd].
    apply flush_queue_spec in E as (sent & lost & -> & Hq & Hok). cbn. rewrite Hq, app_nil_r. split.
    + rewrite <-app_assoc. do 2 (apply sublist_app; [done|]). by apply sublist_inserts_l.
    + rewrite !length_app. destruct ok; [destruct Hok as [-> ->]|rewrite Hok]; cbn; lia.
  - assert (vd_written (wait_for_rx macos rd d).1 = vd_written d ∧
      vd_tx_queue (wait_for_rx macos rd d).1 = vd_tx_queue d) as [-> ->].
    { unfold wait_for_rx. destruct rd; [|done]. repeat case_match; done. }
    cbn. by rewrite app_nil_r, Nat.add_0_r.
Qed.

Lemma dev_ops_conserve macos ops d :
  let d' := fold_left (dev_run_op macos) ops d in
  vd_written d' ++ vd_tx_queue d' `sublist_of`
    vd_written d ++ vd_tx_queue d ++ (frame macos <$> concat (dev_sent <$> ops)) ∧
  length (vd_written d ++ vd_tx_queue d ++ (frame macos <$> concat (dev_sent <$> ops))) =
    (length (vd_written d' ++ vd_tx_queue d') + dev_lost macos d ops)%nat.
Proof.
  revert d. induction ops as [|o ops IH]; intros d; cbn [fold_left fmap list_fmap concat dev_lost].
  - cbn. rewrite app_nil_r. split; [done|lia].
  - destruct (IH (dev_run_op macos d o)) as [Hs Hl].
    destruct (dev_op_conserves macos d o) as [Hs1 Hl1].
    cbn zeta in *. rewrite fmap_app, !app_assoc in *. split.
    + etrans; [exact Hs|]. by apply sublist_app.
    + rewrite !length_app in *. lia.
Qed.

(** Whatever the device does, packets leave in the order they were handed over: what was
    written and what still waits is a subsequence of the framed packets injected by the client or
    emitted by the TCP stack, and exactly one packet is missing per failed write. *)
Theorem device_sends_in_order macos mtu ops :
  let d := fold_left (dev_run_op macos) ops (device_new mtu) in
  let handed := frame macos <$> concat (dev_sent <$> ops) in
  vd_written d ++ vd_tx_queue d `sublist_of` handed ∧
  length handed = (length (vd_written d ++ vd_tx_queue d) + dev_lost macos (device_new mtu) ops)%nat.
Proof. exact (dev_ops_conserve macos ops (device_new mtu)). Qed.

(** A packet of at most the MTU that arrives framed is found unframed, on both systems. *)
Lemma wait_for_rx_framed macos pkt d :
  len pkt ≤ vd_mtu d → wait_for_rx macos (Some (frame macos pkt)) d = (set_rx (Some pkt) d, Ok tt).
Proof.
  intros Hl. unfold wait_for_rx, frame.
  assert (ztake (rx_buffer_capacity_for_mtu macos (vd_mtu d))
    ((if macos then UTUN_IPV4_HEADER else []) ++ pkt) = (if macos then UTUN_IPV4_HEADER else []) ++ pkt) as ->.
  { unfold ztake, rx_buffer_capacity_for_mtu, tun_packet_header_len. apply take_ge.
    rewrite length_app. unfold len in *. destruct macos; cbn; lia. }
  destruct macos; [|done].
  rewrite bool_decide_false; [done|]. unfold len. rewrite length_app. cbn. lia.
Qed.
