(* ===== verification/TunSlot.v ===== *)
(** * TunSlot: listener slots of the TUN client ([src/client_tun.rs])

    Every intercepted TCP connection lives in a slot: a TCP socket of the user space stack and a
    [SocketCtx].  This file models the slot's data, the downlink backlog ([flush_downlink]), the
    teardown ([rearm_socket]) and the per-port listener pools ([ListenerRegistry]).  The TCP stack
    itself is the [smoltcp] crate, a parameter with its documented behaviour as laws. *)

From S2P Require Import Prelude Shared FakeIp.

(** ** The TCP stack *)

Inductive TcpState : Type :=
| TsClosed | TsListen | TsSynSent | TsSynReceived | TsEstablished | TsFinWait1 | TsFinWait2
| TsCloseWait | TsClosing | TsLastAck | TsTimeWait.
#[global] Instance TcpState_eq_dec : EqDecision TcpState.
Proof. solve_decision. Defined.

(** [smoltcp::socket::tcp::Socket]: a socket of [TcpSocket::new], [listen], [abort], [state],
    [is_active], [can_send], [can_recv], [send_slice] (the number of bytes taken), [recv] with a
    closure that consumes everything it is shown, and [local_endpoint]. *)
Class Smoltcp := {
  TcpSocket : Type;
  tcp_new : TcpSocket;
  tcp_listen : TcpSocket → Z → option TcpSocket;
  tcp_abort : TcpSocket → TcpSocket;
  tcp_state : TcpSocket → TcpState;
  is_active : TcpSocket → bool;
  can_send : TcpSocket → bool;
  can_recv : TcpSocket → bool;
  send_slice : TcpSocket → list byte → option (Z * TcpSocket);
  recv_all : TcpSocket → option (list byte * TcpSocket);
  local_endpoint : TcpSocket → option SocketAddr
}.

Class SmoltcpLaws (TS : Smoltcp) : Prop := {
  (** a fresh socket and an aborted one can listen on every port but 0 *)
  listen_new : ∀ port, port ≠ 0 → ∃ s, tcp_listen tcp_new port = Some s ∧ tcp_state s = TsListen;
  listen_abort : ∀ s port, port ≠ 0 →
    ∃ s', tcp_listen (tcp_abort s) port = Some s' ∧ tcp_state s' = TsListen;
  listen_zero : ∀ s, tcp_listen s 0 = None;
  (** [send_slice] takes a prefix; [recv] succeeds when there is something to receive *)
  send_slice_le : ∀ s l n s', send_slice s l = Some (n, s') → 0 ≤ n ≤ len l;
  recv_can : ∀ s, can_recv s = true → is_Some (recv_all s);
  (** a listening socket is not active and holds no data *)
  listen_idle : ∀ s, tcp_state s = TsListen → is_active s = false ∧ can_recv s = false;
  (** sending leaves the receive buffer alone *)
  send_slice_recv : ∀ s l n s', send_slice s l = Some (n, s') → can_recv s' = can_recv s
}.

Definition TCP_SOCKET_BUFFER_SIZE : Z := 65535.
Definition RELAY_CHANNEL_CAPACITY : Z := 1024.
Definition MAX_UPLINK_BUFFER : Z := 256 * 1024.
Definition HANDSHAKE_DONE_CAPACITY : Z := 128.
Definition MAX_INTERCEPTED_PORTS : Z := 64.
Definition MAX_TOTAL_LISTENERS : Z := 4096.
Definition MIN_SPARE_LISTENERS : Z := 2.
Definition FAKE_IP_TTL : Z := 1800.

Inductive SocketState : Type :=
| Listening | OpeningRemote | HandshakePending | Relaying | Closing | Rearming.
#[global] Instance SocketState_eq_dec : EqDecision SocketState.
Proof. solve_decision. Defined.

(** ** Diagnostics *)

Record TcpDownlinkDiag := mk_TcpDownlinkDiag {
  dd_remote_to_global_rx_bytes : Z;
  dd_pending_high_water : Z;
  dd_send_slice_calls : Z;
  dd_send_slice_accepted_bytes : Z;
  dd_send_slice_zero : Z;
  dd_send_slice_errors : Z;
  dd_tun_flush_tx_calls : Z;
  dd_tun_flush_tx_failures : Z
}.

Definition downlink_diag_default : TcpDownlinkDiag := mk_TcpDownlinkDiag 0 0 0 0 0 0 0 0.

Definition note_pending (pending : Z) (d : TcpDownlinkDiag) : TcpDownlinkDiag :=
  mk_TcpDownlinkDiag (dd_remote_to_global_rx_bytes d) (Z.max (dd_pending_high_water d) pending)
    (dd_send_slice_calls d) (dd_send_slice_accepted_bytes d) (dd_send_slice_zero d)
    (dd_send_slice_errors d) (dd_tun_flush_tx_calls d) (dd_tun_flush_tx_failures d).

Definition note_remote_payload (bytes pending : Z) (d : TcpDownlinkDiag) : TcpDownlinkDiag :=
  note_pending pending
    (mk_TcpDownlinkDiag (dd_remote_to_global_rx_bytes d + bytes) (dd_pending_high_water d)
       (dd_send_slice_calls d) (dd_send_slice_accepted_bytes d) (dd_send_slice_zero d)
       (dd_send_slice_errors d) (dd_tun_flush_tx_calls d) (dd_tun_flush_tx_failures d)).

Definition note_send_slice_ok (accepted pending : Z) (d : TcpDownlinkDiag) : TcpDownlinkDiag :=
  note_pending pending
    (mk_TcpDownlinkDiag (dd_remote_to_global_rx_bytes d) (dd_pending_high_water d)
       (dd_send_slice_calls d + 1) (dd_send_slice_accepted_bytes d + accepted)
       (if bool_decide (accepted = 0) then dd_send_slice_zero d + 1 else dd_send_slice_zero d)
       (dd_send_slice_errors d) (dd_tun_flush_tx_calls d) (dd_tun_flush_tx_failures d)).

Definition note_send_slice_error (d : TcpDownlinkDiag) : TcpDownlinkDiag :=
  mk_TcpDownlinkDiag (dd_remote_to_global_rx_bytes d) (dd_pending_high_water d)
    (dd_send_slice_calls d + 1) (dd_send_slice_accepted_bytes d) (dd_send_slice_zero d)
    (dd_send_slice_errors d + 1) (dd_tun_flush_tx_calls d) (dd_tun_flush_tx_failures d).

Definition note_tun_flush (ok : bool) (d : TcpDownlinkDiag) : TcpDownlinkDiag :=
  mk_TcpDownlinkDiag (dd_remote_to_global_rx_bytes d) (dd_pending_high_water d)
    (dd_send_slice_calls d) (dd_send_slice_accepted_bytes d) (dd_send_slice_zero d)
    (dd_send_slice_errors d) (dd_tun_flush_tx_calls d + 1)
    (if ok then dd_tun_flush_tx_failures d else dd_tun_flush_tx_failures d + 1).

(** ** Slot contexts *)

(** [uplink_tx] is the sender of a relay task's channel: the relay's number. *)
Record SocketCtx := mk_SocketCtx {
  cx_local_port : Z;
  cx_state : SocketState;
  cx_uplink_tx : option nat;
  cx_downlink_pending : list byte;
  cx_fake_ip : option Z;
  cx_conn_epoch : Z;
  cx_uplink_buffer : list byte;
  cx_downlink_diag : TcpDownlinkDiag
}.

Definition ctx_new (local_port : Z) : SocketCtx :=
  mk_SocketCtx local_port Listening None [] None 0 [] downlink_diag_default.

Definition set_state (st : SocketState) (c : SocketCtx) : SocketCtx :=
  mk_SocketCtx (cx_local_port c) st (cx_uplink_tx c) (cx_downlink_pending c) (cx_fake_ip c)
    (cx_conn_epoch c) (cx_uplink_buffer c) (cx_downlink_diag c).
Definition set_uplink (tx : option nat) (c : SocketCtx) : SocketCtx :=
  mk_SocketCtx (cx_local_port c) (cx_state c) tx (cx_downlink_pending c) (cx_fake_ip c)
    (cx_conn_epoch c) (cx_uplink_buffer c) (cx_downlink_diag c).
Definition set_pending (l : list byte) (d : TcpDownlinkDiag) (c : SocketCtx) : SocketCtx :=
  mk_SocketCtx (cx_local_port c) (cx_state c) (cx_uplink_tx c) l (cx_fake_ip c)
    (cx_conn_epoch c) (cx_uplink_buffer c) d.
Definition set_fake (ip : option Z) (c : SocketCtx) : SocketCtx :=
  mk_SocketCtx (cx_local_port c) (cx_state c) (cx_uplink_tx c) (cx_downlink_pending c) ip
    (cx_conn_epoch c) (cx_uplink_buffer c) (cx_downlink_diag c).
Definition set_epoch (e : Z) (c : SocketCtx) : SocketCtx :=
  mk_SocketCtx (cx_local_port c) (cx_state c) (cx_uplink_tx c) (cx_downlink_pending c) (cx_fake_ip c)
    e (cx_uplink_buffer c) (cx_downlink_diag c).
Definition set_buffer (l : list byte) (c : SocketCtx) : SocketCtx :=
  mk_SocketCtx (cx_local_port c) (cx_state c) (cx_uplink_tx c) (cx_downlink_pending c) (cx_fake_ip c)
    (cx_conn_epoch c) l (cx_downlink_diag c).
Definition set_diag (d : TcpDownlinkDiag) (c : SocketCtx) : SocketCtx :=
  set_pending (cx_downlink_pending c) d c.

(** The new context and whether the bytes were kept. *)
Definition buffer_uplink (payload : list byte) (c : SocketCtx) : SocketCtx * bool :=
  if bool_decide (MAX_UPLINK_BUFFER < len (cx_uplink_buffer c) + len payload) then (c, false)
  else (set_buffer (cx_uplink_buffer c ++ payload) c, true).

Section slot.
Context {TS : Smoltcp}.

(** ** Downlink *)

Definition flush_downlink (sock : TcpSocket) (c : SocketCtx) : TcpSocket * SocketCtx :=
  let pending := cx_downlink_pending c in
  if bool_decide (pending = []) then (sock, c)
  else
    let c := set_diag (note_pending (len pending) (cx_downlink_diag c)) c in
    if can_send sock then
      match send_slice sock pending with
      | Some (n, sock) =>
          if bool_decide (n = 0)
          then (sock, set_diag (note_send_slice_ok 0 (len pending) (cx_downlink_diag c)) c)
          else
            let rest := zdrop n pending in
            (sock, set_pending rest (note_send_slice_ok n (len rest) (cx_downlink_diag c)) c)
      | None =>
          (sock, set_pending [] (note_pending 0 (note_send_slice_error (cx_downlink_diag c))) c)
      end
    else (sock, c).

(** ** Uplink and teardown *)

(** [recv(..).unwrap()] under the guard [can_recv]. *)
Definition extract_socket_payload {E} (sock : TcpSocket) : res E (option (list byte) * TcpSocket) :=
  if can_recv sock then
    let? '(data, sock) := expect (recv_all sock) in
    Ok (Some data, sock)
  else Ok (None, sock).

Definition rearm_socket {E} (sock : TcpSocket) (c : SocketCtx) (pool : FakeIpPool) (now_secs : Z)
  : res E (TcpSocket * SocketCtx * FakeIpPool) :=
  let c := set_state Closing c in
  let sock := tcp_abort sock in
  let c := set_uplink None c in
  let c := set_pending [] downlink_diag_default c in
  let c := set_buffer [] c in
  let c := set_epoch (wrapping_add_u64 (cx_conn_epoch c) 1) c in
  let '(c, pool) := match cx_fake_ip c with
                    | Some ip => (set_fake None c, pool_release pool ip now_secs)
                    | None => (c, pool)
                    end in
  let c := set_state Rearming c in
  let? sock := expect (tcp_listen sock (cx_local_port c)) in
  Ok (sock, set_state Listening c, pool).

(** [rearm_socket_with_reason] only logs before it rearms. *)
Definition rearm_socket_with_reason {E} (sock : TcpSocket) (c : SocketCtx) (pool : FakeIpPool) (now_secs : Z)
  : res E (TcpSocket * SocketCtx * FakeIpPool) := rearm_socket sock c pool now_secs.

(** ** Listener pools *)

Record ListenerRegistry := mk_ListenerRegistry {
  lr_ports : gmap Z (list nat);
  lr_pool_size : Z;
  lr_max_total : Z;
  lr_total : Z
}.

Definition registry_new (pool_size : Z) : ListenerRegistry :=
  mk_ListenerRegistry ∅ pool_size MAX_TOTAL_LISTENERS 0.
Definition total_handles (r : ListenerRegistry) : Z := lr_total r.

(** The sockets of the [SocketSet] by handle (none is ever removed), and their contexts. *)
Definition slots : Type := list TcpSocket * gmap nat SocketCtx.

Definition build_listener_socket {E} (port : Z) : res E TcpSocket := expect (tcp_listen tcp_new port).

(** [sockets.add(build_listener_socket(..))] and [socket_ctxs.insert(h, SocketCtx::new(port))]. *)
Definition add_listener {E} (port : Z) (sl : slots) : res E (nat * slots) :=
  let? sock := build_listener_socket port in
  let h := length sl.1 in
  Ok (h, (sl.1 ++ [sock], <[h := ctx_new port]> sl.2)).

Fixpoint add_listeners {E} (n : nat) (port : Z) (sl : slots) : res E (list nat * slots) :=
  match n with
  | O => Ok ([], sl)
  | S n =>
      let? '(h, sl) := add_listener port sl in
      let? '(hs, sl) := add_listeners n port sl in
      Ok (h :: hs, sl)
  end.

(** Both return the new registry, the new slots and whether the cap was reached ([Capped]). *)
Definition ensure_port {E} (r : ListenerRegistry) (port : Z) (sl : slots)
  : res E (ListenerRegistry * slots * bool) :=
  match lr_ports r !! port with
  | Some _ => Ok (r, sl, false)
  | None =>
      if bool_decide (MAX_INTERCEPTED_PORTS ≤ Z.of_nat (size (lr_ports r))) then Ok (r, sl, true)
      else
        let? '(handles, sl) := add_listeners (Z.to_nat (lr_pool_size r)) port sl in
        Ok (mk_ListenerRegistry (<[port := handles]> (lr_ports r)) (lr_pool_size r) (lr_max_total r)
              (lr_total r + lr_pool_size r), sl, false)
  end.

Definition all_handles (r : ListenerRegistry) : list nat := concat (map_to_list (lr_ports r)).*2.
Definition handles_for_port (r : ListenerRegistry) (port : Z) : list nat := default [] (lr_ports r !! port).

(** The handles whose socket listens; [sockets.get] aborts on an unknown handle. *)
Fixpoint count_listening {E} (socks : list TcpSocket) (hs : list nat) : res E Z :=
  match hs with
  | [] => Ok 0
  | h :: hs =>
      let? sock := expect (socks !! h) in
      let? n := count_listening socks hs in
      Ok (if bool_decide (tcp_state sock = TsListen) then n + 1 else n)
  end.

(** The [for _ in listening..min_spare] loop. *)
Fixpoint grow_listeners {E} (n : nat) (port : Z) (r : ListenerRegistry) (sl : slots)
  : res E (ListenerRegistry * slots * bool) :=
  match n with
  | O => Ok (r, sl, false)
  | S n =>
      if bool_decide (lr_max_total r ≤ total_handles r) then Ok (r, sl, true)
      else
        let? '(h, sl) := add_listener port sl in
        let? hs := expect (lr_ports r !! port) in
        grow_listeners n port
          (mk_ListenerRegistry (<[port := hs ++ [h]]> (lr_ports r)) (lr_pool_size r) (lr_max_total r)
             (lr_total r + 1)) sl
  end.

Definition ensure_spare_listeners {E} (r : ListenerRegistry) (port min_spare : Z) (sl : slots)
  : res E (ListenerRegistry * slots * bool) :=
  match lr_ports r !! port with
  | None => Ok (r, sl, false)
  | Some hs =>
      let? listening := count_listening sl.1 hs in
      if bool_decide (min_spare ≤ listening) then Ok (r, sl, false)
      else grow_listeners (Z.to_nat (min_spare - listening)) port r sl
  end.

(** ** Dead slots *)

(** The [dead] test of [reap_dead_slots]. *)
Definition slot_dead (sock : TcpSocket) (c : SocketCtx) : bool :=
  negb (bool_decide (cx_state c = Listening)) &&
  (negb (is_active sock) || bool_decide (tcp_state sock = TsCloseWait) ||
   (bool_decide (cx_state c = OpeningRemote) && bool_decide (cx_uplink_tx c = None))).

(** One iteration of the loop of [reap_dead_slots]. *)
Definition reap_slot {E} (now_secs : Z) (h : nat) (sl : slots) (pool : FakeIpPool) (reaped : Z)
  : res E (slots * FakeIpPool * Z) :=
  let? sock := expect (sl.1 !! h) in
  match sl.2 !! h with
  | Some c =>
      if slot_dead sock c then
        let? '(sock, c, pool) := rearm_socket_with_reason sock c pool now_secs in
        Ok ((<[h := sock]> sl.1, <[h := c]> sl.2), pool, reaped + 1)
      else Ok (sl, pool, reaped)
  | None => Ok (sl, pool, reaped)
  end.

Fixpoint reap_loop {E} (now_secs : Z) (hs : list nat) (sl : slots) (pool : FakeIpPool) (reaped : Z)
  : res E (slots * FakeIpPool * Z) :=
  match hs with
  | [] => Ok (sl, pool, reaped)
  | h :: hs =>
      let? '(sl, pool, reaped) := reap_slot now_secs h sl pool reaped in
      reap_loop now_secs hs sl pool reaped
  end.

Definition reap_dead_slots {E} (r : ListenerRegistry) (sl : slots) (pool : FakeIpPool) (now_secs : Z)
  : res E (slots * FakeIpPool * Z) := reap_loop now_secs (all_handles r) sl pool 0.

(** ** Invariant of the pools *)

(** The pools partition the sockets, every socket has a context for the port of its pool, and the
    counter is the number of sockets. *)
Record slots_wf (r : ListenerRegistry) (sl : slots) : Prop := {
  sw_handles : all_handles r ≡ₚ seq 0 (length sl.1);
  sw_ctx : ∀ p hs h, lr_ports r !! p = Some hs → h ∈ hs → ∃ c, sl.2 !! h = Some c ∧ cx_local_port c = p;
  sw_dom : ∀ h, is_Some (sl.2 !! h) ↔ is_Some (sl.1 !! h);
  sw_total : lr_total r = len sl.1;
  sw_ports : Z.of_nat (size (lr_ports r)) ≤ MAX_INTERCEPTED_PORTS;
  sw_bound : lr_total r ≤ lr_max_total r + Z.of_nat (size (lr_ports r)) * lr_pool_size r;
  sw_port : ∀ p, is_Some (lr_ports r !! p) → p ≠ 0;
  sw_size : 0 ≤ lr_pool_size r
}.

Lemma all_handles_insert (m : gmap Z (list nat)) p hs :
  m !! p = None → concat (map_to_list (<[p := hs]> m)).*2 ≡ₚ hs ++ concat (map_to_list m).*2.
Proof.
  intros Hp. change (hs ++ concat (map_to_list m).*2) with (concat (((p, hs) :: map_to_list m).*2)).
  f_equiv. f_equiv. by apply map_to_list_insert.
Qed.

Lemma all_handles_split (m : gmap Z (list nat)) p hs :
  m !! p = Some hs → concat (map_to_list m).*2 ≡ₚ hs ++ concat (map_to_list (delete p m)).*2.
Proof.
  intros Hp. rewrite <-(insert_delete_id m p hs Hp) at 1.
  apply all_handles_insert. by apply lookup_delete_eq.
Qed.

Lemma elem_of_all_handles r h :
  h ∈ all_handles r ↔ ∃ p hs, lr_ports r !! p = Some hs ∧ h ∈ hs.
Proof.
  unfold all_handles. rewrite list_elem_of_In, in_concat. split.
  - intros (hs & Hhs & Hh). apply list_elem_of_In in Hhs, Hh.
    apply list_elem_of_fmap in Hhs as ([p hs'] & -> & Hm). apply elem_of_map_to_list in Hm. by exists p, hs'.
  - intros (p & hs & Hp & Hh). exists hs. split; [|by apply list_elem_of_In].
    apply list_elem_of_In, list_elem_of_fmap. exists (p, hs). split; [done|]. by apply elem_of_map_to_list.
Qed.

Lemma slots_wf_handle r sl h : slots_wf r sl → h ∈ all_handles r ↔ is_Some (sl.1 !! h).
Proof. intros Hw. rewrite (sw_handles _ _ Hw), elem_of_seq, lookup_lt_is_Some. lia. Qed.

Lemma slots_wf_ctx r sl h c :
  slots_wf r sl → sl.2 !! h = Some c → is_Some (sl.1 !! h) ∧ cx_local_port c ≠ 0.
Proof.
  intros Hw Hc. assert (is_Some (sl.1 !! h)) as Hs by (apply (proj1 (sw_dom _ _ Hw h)); eauto).
  split; [done|]. apply (slots_wf_handle _ _ _ Hw), elem_of_all_handles in Hs as (p & hs & Hp & Hh).
  destruct (sw_ctx _ _ Hw p hs h Hp Hh) as (c' & Hc' & <-). simplify_eq. apply (sw_port _ _ Hw). eauto.
Qed.

Lemma slots_wf_socks r socks socks' ctxs :
  slots_wf r (socks, ctxs) → length socks' = length socks → slots_wf r (socks', ctxs).
Proof.
  intros Hw Hl. pose proof Hw as [H1 H2 H3 H4 H5 H6 H7 H8]. split; cbn in *; try done.
  - by rewrite Hl.
  - intros h. by rewrite H3, !lookup_lt_is_Some, Hl.
  - rewrite H4. unfold len. by rewrite Hl.
Qed.

Lemma slots_wf_ctxs r socks ctxs h c c' :
  slots_wf r (socks, ctxs) → ctxs !! h = Some c → cx_local_port c' = cx_local_port c →
  slots_wf r (socks, <[h := c']> ctxs).
Proof.
  intros Hw Hc Hp. pose proof Hw as [H1 H2 H3 H4 H5 H6 H7 H8]. split; cbn in *; try done.
  - intros p hs h' Hps Hh. destruct (H2 p hs h' Hps Hh) as (c0 & Hc0 & Hp0).
    destruct (decide (h' = h)) as [->|Hne].
    + rewrite lookup_insert_eq. exists c'. split; [done|]. congruence.
    + rewrite lookup_insert_ne by done. by exists c0.
  - intros h'. rewrite <-H3. destruct (decide (h' = h)) as [->|Hne].
    + rewrite lookup_insert_eq, Hc. split; eauto.
    + by rewrite lookup_insert_ne.
Qed.

Lemma slots_wf_update r socks ctxs h c s c' :
  slots_wf r (socks, ctxs) → ctxs !! h = Some c → cx_local_port c' = cx_local_port c →
  slots_wf r (<[h := s]> socks, <[h := c']> ctxs).
Proof.
  intros Hw Hc Hp. apply (slots_wf_socks _ socks); [by eapply slots_wf_ctxs|apply length_insert].
Qed.

Section laws.
Context {TL : SmoltcpLaws TS}.

(** What a teardown leaves: a fresh context of the next epoch, and the fake IP given back. *)
Definition rearmed (c : SocketCtx) : SocketCtx :=
  mk_SocketCtx (cx_local_port c) Listening None [] None (wrapping_add_u64 (cx_conn_epoch c) 1) []
    downlink_diag_default.
Definition released (pool : FakeIpPool) (c : SocketCtx) (now : Z) : FakeIpPool :=
  match cx_fake_ip c with Some ip => pool_release pool ip now | None => pool end.

Lemma rearm_socket_spec {E} sock c pool now :
  cx_local_port c ≠ 0 →
  ∃ sock', tcp_state sock' = TsListen ∧
    rearm_socket (E:=E) sock c pool now = Ok (sock', rearmed c, released pool c now).
Proof.
  intros Hp. destruct (listen_abort sock (cx_local_port c) Hp) as (s & Hs & Hst).
  exists s. split; [done|]. unfold rearm_socket, rearmed, released. cbn.
  destruct (cx_fake_ip c) eqn:Ef; cbn; rewrite Hs; [done|]. cbn. unfold set_state, set_epoch, set_buffer. cbn. by rewrite Ef.
Qed.

Lemma add_listener_spec {E} port (sl : slots) :
  port ≠ 0 → ∃ s, tcp_state s = TsListen ∧
    add_listener (E:=E) port sl = Ok (length sl.1, (sl.1 ++ [s], <[length sl.1 := ctx_new port]> sl.2)).
Proof.
  intros Hp. destruct (listen_new port Hp) as (s & Hs & Hst). exists s.
  unfold add_listener, build_listener_socket. by rewrite Hs.
Qed.

(** What adding [n] sockets for [port] does: the new handles follow the old ones. *)
Record added (port : Z) (n : nat) (sl sl' : slots) : Prop := {
  ad_socks : ∃ new, sl'.1 = sl.1 ++ new ∧ length new = n ∧ Forall (λ s, tcp_state s = TsListen) new;
  ad_old : ∀ h, (h < length sl.1)%nat → sl'.2 !! h = sl.2 !! h;
  ad_new : ∀ h, (length sl.1 ≤ h < length sl.1 + n)%nat → sl'.2 !! h = Some (ctx_new port);
  ad_out : ∀ h, (length sl.1 + n ≤ h)%nat → sl'.2 !! h = sl.2 !! h
}.

Lemma added_nil port sl : added port 0 sl sl.
Proof. split; intros; try done; try lia. exists []. by rewrite app_nil_r. Qed.

Lemma added_one port (sl : slots) s :
  tcp_state s = TsListen → added port 1 sl (sl.1 ++ [s], <[length sl.1 := ctx_new port]> sl.2).
Proof.
  intros Hs. split; cbn.
  - exists [s]. by rewrite Forall_singleton.
  - intros h Hh. rewrite lookup_insert_ne by lia. done.
  - intros h Hh. replace h with (length sl.1) by lia. by rewrite lookup_insert_eq.
  - intros h Hh. rewrite lookup_insert_ne by lia. done.
Qed.

Lemma added_trans port n m sl1 sl2 sl3 :
  added port n sl1 sl2 → added port m sl2 sl3 → added port (n + m) sl1 sl3.
Proof.
  intros [(n1 & E1 & L1 & F1) O1 N1 U1] [(n2 & E2 & L2 & F2) O2 N2 U2].
  rewrite E1, length_app, L1 in O2, N2, U2. rewrite E1 in E2. split.
  - exists (n1 ++ n2). rewrite E2, <-app_assoc, length_app. split; [done|]. split; [lia|by apply Forall_app].
  - intros h Hh. rewrite O2 by lia. apply O1. lia.
  - intros h Hh. destruct (decide (h < length sl1.1 + n)%nat).
    + rewrite O2 by lia. apply N1. lia.
    + apply N2. lia.
  - intros h Hh. rewrite U2 by lia. apply U1. lia.
Qed.

Lemma add_listeners_spec {E} n port (sl : slots) :
  port ≠ 0 → ∃ sl', add_listeners (E:=E) n port sl = Ok (seq (length sl.1) n, sl') ∧ added port n sl sl'.
Proof.
  intros Hp. revert sl. induction n as [|n IH]; intros sl; cbn [add_listeners].
  - exists sl. split; [done|]. apply added_nil.
  - destruct (add_listener_spec (E:=E) port sl Hp) as (s & Hs & ->). cbn [rbind].
    pose proof (added_one port sl s Hs) as A1.
    destruct (IH (sl.1 ++ [s], <[length sl.1 := ctx_new port]> sl.2)) as (sl' & -> & A2).
    exists sl'. cbn [rbind fst]. rewrite length_app. cbn [length seq].
    split; [by rewrite Nat.add_1_r|]. by apply (added_trans port 1 n _ _ _ A1 A2).
Qed.

Lemma added_wf r p ports' sl sl' n hs :
  slots_wf r sl → added p n sl sl' → p ≠ 0 →
  (∀ q, q ≠ p → ports' !! q = lr_ports r !! q) → ports' !! p = Some (hs ++ seq (length sl.1) n) →
  default [] (lr_ports r !! p) = hs →
  Z.of_nat (size ports') ≤ MAX_INTERCEPTED_PORTS →
  lr_total r + Z.of_nat n ≤ lr_max_total r + Z.of_nat (size ports') * lr_pool_size r →
  slots_wf (mk_ListenerRegistry ports' (lr_pool_size r) (lr_max_total r) (lr_total r + Z.of_nat n)) sl'.
Proof.
  intros Hw Ha Hp0 Hq Hp Hhs Hsz Hbd. pose proof Hw as [H1 H2 H3 H4 H5 H6 H7 H8].
  pose proof Ha as [(new & E1 & L1 & F1) O1 N1 U1].
  assert (lr_ports r = <[p := hs]> (delete p (lr_ports r)) ∨ (lr_ports r !! p = None ∧ hs = [])) as Hr.
  { destruct (lr_ports r !! p) as [hs'|] eqn:Ep; [|by right]. left. cbn in Hhs. subst hs'.
    by rewrite insert_delete_id. }
  assert (ports' = <[p := hs ++ seq (length sl.1) n]> (delete p (lr_ports r))) as Hports.
  { apply map_eq. intros q. destruct (decide (q = p)) as [->|Hne].
    - by rewrite lookup_insert_eq.
    - rewrite lookup_insert_ne, lookup_delete_ne by done. by apply Hq. }
  split; cbn; try done.
  - unfold all_handles in *. cbn. rewrite Hports, all_handles_insert by apply lookup_delete_eq.
    rewrite E1, length_app, L1, seq_app. rewrite <-H1.
    rewrite <-app_assoc, (Permutation_app_comm (seq _ _)), app_assoc.
    apply Permutation_app; [|done].
    destruct Hr as [Hr|[Hr ->]].
    + symmetry. apply all_handles_split. rewrite Hr. by apply lookup_insert_eq.
    + by rewrite delete_id.
  - intros q qs h Hqs Hh. destruct (decide (q = p)) as [->|Hne].
    + rewrite Hp in Hqs. injection Hqs as <-. apply elem_of_app in Hh as [Hh|Hh].
      * assert (lr_ports r !! p = Some hs) as Hrp.
        { destruct Hr as [Hr|[_ ->]]; [|by apply not_elem_of_nil in Hh]. rewrite Hr. by apply lookup_insert_eq. }
        destruct (H2 p hs h Hrp Hh) as (c & Hc & Hcp). exists c. split; [|done].
        rewrite O1; [done|]. apply lookup_lt_is_Some, H3. eauto.
      * apply elem_of_seq in Hh. exists (ctx_new p). split; [|done]. by apply N1.
    + rewrite Hq in Hqs by done. destruct (H2 q qs h Hqs Hh) as (c & Hc & Hcp). exists c. split; [|done].
      rewrite O1; [done|]. apply lookup_lt_is_Some, H3. eauto.
  - intros h. rewrite E1, lookup_lt_is_Some, length_app, L1.
    destruct (decide (h < length sl.1)%nat) as [Hlt|Hge].
    + rewrite O1, H3, lookup_lt_is_Some by done. lia.
    + destruct (decide (h < length sl.1 + n)%nat) as [Hlt'|Hge'].
      * rewrite N1 by lia. split; [lia|eauto].
      * rewrite U1, H3, lookup_lt_is_Some by lia. lia.
  - rewrite H4, E1. unfold len. rewrite length_app. lia.
  - intros q [qs Hqs]. destruct (decide (q = p)) as [->|Hne]; [done|]. apply H7. rewrite <-Hq by done. eauto.
Qed.

(** Growing leaves the existing slots as they are and adds fresh ones. *)
Definition extends (port : Z) (sl sl' : slots) : Prop :=
  sl.1 `prefix_of` sl'.1 ∧
  ∀ h, sl'.2 !! h = sl.2 !! h ∨ ((length sl.1 ≤ h)%nat ∧ sl'.2 !! h = Some (ctx_new port)).

Lemma extends_refl port sl : extends port sl sl.
Proof. split; [done|]. by left. Qed.
Lemma extends_trans port sl1 sl2 sl3 : extends port sl1 sl2 → extends port sl2 sl3 → extends port sl1 sl3.
Proof.
  intros [P1 C1] [P2 C2]. split; [by etrans|]. intros h.
  apply prefix_length in P1. destruct (C2 h) as [->|[? ->]]; [apply C1|right; split; [lia|done]].
Qed.
Lemma added_extends port n sl sl' : added port n sl sl' → extends port sl sl'.
Proof.
  intros [(new & E1 & _ & _) O1 N1 U1]. split; [rewrite E1; by exists new|]. intros h.
  destruct (decide (h < length sl.1)%nat); [left; by apply O1|].
  destruct (decide (h < length sl.1 + n)%nat); [right; split; [lia|apply N1; lia]|left; apply U1; lia].
Qed.

Lemma ensure_port_spec {E} r port sl :
  slots_wf r sl → port ≠ 0 →
  ∃ r' sl' capped, ensure_port (E:=E) r port sl = Ok (r', sl', capped) ∧ slots_wf r' sl' ∧ extends port sl sl' ∧
    lr_max_total r' = lr_max_total r ∧ lr_pool_size r' = lr_pool_size r ∧
    (if capped then r' = r ∧ sl' = sl ∧ lr_ports r !! port = None ∧
                    Z.of_nat (size (lr_ports r)) = MAX_INTERCEPTED_PORTS
     else is_Some (lr_ports r' !! port)).
Proof.
  intros Hw Hp. unfold ensure_port. pose proof (sw_ports _ _ Hw) as H64. pose proof (sw_size _ _ Hw) as Hsz.
  destruct (lr_ports r !! port) as [hs|] eqn:Ep.
  { exists r, sl, false. rewrite Ep. split_and!; eauto using extends_refl. }
  case_bool_decide.
  { exists r, sl, true. split_and!; eauto using extends_refl; lia. }
  destruct (add_listeners_spec (E:=E) (Z.to_nat (lr_pool_size r)) port sl Hp) as (sl' & -> & Ha). cbn [rbind].
  pose proof (sw_bound _ _ Hw) as Hb.
  eexists _, sl', false. split; [reflexivity|].
  assert (Z.of_nat (size (<[port := seq (length sl.1) (Z.to_nat (lr_pool_size r))]> (lr_ports r))) =
    Z.of_nat (size (lr_ports r)) + 1) as Hsize by (rewrite map_size_insert_None by done; lia).
  split; [|split; [by eapply added_extends|split_and!; try done; cbn; rewrite lookup_insert_eq; eauto]].
  rewrite <-(Z2Nat.id (lr_pool_size r)) at 3 by done.
  apply (added_wf r port _ sl sl' _ []); try done.
  - intros q Hq. by rewrite lookup_insert_ne.
  - by rewrite lookup_insert_eq.
  - by rewrite Ep.
  - rewrite Hsize. lia.
  - rewrite Hsize, Z2Nat.id by done. lia.
Qed.

Lemma count_listening_spec {E} socks hs :
  (∀ h, h ∈ hs → is_Some (socks !! h)) →
  ∃ n, count_listening (E:=E) socks hs = Ok n ∧ 0 ≤ n ≤ len hs.
Proof.
  induction hs as [|h hs IH]; intros Hh; cbn [count_listening]; [by exists 0|].
  destruct (Hh h ltac:(left)) as [s ->]. cbn [expect rbind].
  destruct IH as (n & -> & Hn). { intros. apply Hh. by right. }
  cbn [rbind]. eexists. split; [done|]. unfold len in *. cbn. case_bool_decide; lia.
Qed.

Lemma count_listening_app {E} socks new hs k n :
  count_listening (E:=E) socks hs = Ok n → length new = k → Forall (λ s, tcp_state s = TsListen) new →
  count_listening (E:=E) (socks ++ new) (hs ++ seq (length socks) k) = Ok (n + Z.of_nat k).
Proof.
  intros Hn Hk Hf. revert n Hn. induction hs as [|h hs IH]; intros n; cbn [count_listening app].
  - intros [= <-]. clear -Hk Hf. revert socks k Hk. induction Hf as [|s new Hs Hf IH]; intros socks k <-; [done|].
    cbn [length seq count_listening]. rewrite lookup_app_r, Nat.sub_diag by done. cbn [lookup list_lookup expect rbind].
    specialize (IH (socks ++ [s]) (length new) eq_refl). rewrite <-app_assoc, length_app, Nat.add_1_r in IH.
    cbn [app] in IH. rewrite IH. cbn [rbind]. rewrite bool_decide_true by done. f_equal. lia.
  - intros Hc. inv_res. erewrite lookup_app_l_Some by eassumption. cbn [expect rbind].
    rewrite (IH _ eq_refl). cbn [rbind]. f_equal. case_bool_decide; lia.
Qed.

Lemma grow_listeners_spec {E} n port r sl hs :
  slots_wf r sl → lr_ports r !! port = Some hs →
  ∃ k r' sl', grow_listeners (E:=E) n port r sl =
      Ok (r', sl', bool_decide (k < n)%nat) ∧ (k ≤ n)%nat ∧
    slots_wf r' sl' ∧ added port k sl sl' ∧
    lr_ports r' !! port = Some (hs ++ seq (length sl.1) k) ∧
    lr_max_total r' = lr_max_total r ∧ lr_pool_size r' = lr_pool_size r ∧
    ((k < n)%nat → lr_max_total r ≤ lr_total r').
Proof.
  revert r sl hs. induction n as [|n IH]; intros r sl hs Hw Hp; cbn [grow_listeners].
  { exists 0%nat, r, sl. cbn. rewrite app_nil_r. split_and!; eauto using added_nil; lia. }
  case_bool_decide as Hm.
  { exists 0%nat, r, sl. rewrite bool_decide_true by lia. cbn. rewrite app_nil_r.
    split_and!; eauto using added_nil; lia. }
  assert (port ≠ 0) as Hp0 by (apply (sw_port _ _ Hw); eauto).
  destruct (add_listener_spec (E:=E) port sl Hp0) as (s & Hs & ->). cbn [rbind]. rewrite Hp. cbn [expect rbind].
  pose proof (added_one port sl s Hs) as A1.
  assert (size (<[port := hs ++ [length sl.1]]> (lr_ports r)) = size (lr_ports r)) as Hsz
    by (rewrite map_size_insert, Hp; cbn; lia).
  pose proof (sw_size _ _ Hw). pose proof (sw_ports _ _ Hw).
  edestruct (IH (mk_ListenerRegistry (<[port := hs ++ [length sl.1]]> (lr_ports r)) (lr_pool_size r)
    (lr_max_total r) (lr_total r + 1)) (sl.1 ++ [s], <[length sl.1 := ctx_new port]> sl.2)) as
    (k & r' & sl' & -> & Hk & Hw' & A2 & Hp' & Hm' & Hps' & Hc).
  - apply (added_wf r port _ sl _ 1 hs); try done; cbn [seq].
    + intros q Hq. by rewrite lookup_insert_ne.
    + by rewrite lookup_insert_eq.
    + by rewrite Hp.
    + by rewrite Hsz.
    + rewrite Hsz. unfold total_handles in Hm. nia.
  - cbn. by rewrite lookup_insert_eq.
  - cbn [lr_max_total lr_pool_size fst] in *. rewrite length_app, Nat.add_1_r in Hp'.
    exists (1 + k)%nat, r', sl'. split; [by rewrite (bool_decide_ext (k < n)%nat (1 + k < 1 + n)%nat) by lia|].
    split_and!; try done; try lia.
    + by apply (added_trans _ _ _ _ _ _ A1).
    + rewrite Hp', <-app_assoc. done.
Qed.

Lemma ensure_spare_spec {E} r port min_spare sl :
  slots_wf r sl →
  ∃ r' sl' capped, ensure_spare_listeners (E:=E) r port min_spare sl = Ok (r', sl', capped) ∧
    slots_wf r' sl' ∧ extends port sl sl' ∧
    lr_max_total r' = lr_max_total r ∧ lr_pool_size r' = lr_pool_size r ∧
    (if capped then lr_max_total r ≤ lr_total r'
     else is_Some (lr_ports r !! port) →
          ∃ n, count_listening (E:=E) sl'.1 (handles_for_port r' port) = Ok n ∧ min_spare ≤ n).
Proof.
  intros Hw. unfold ensure_spare_listeners. destruct (lr_ports r !! port) as [hs|] eqn:Ep.
  2:{ exists r, sl, false. split_and!; eauto using extends_refl. by intros [? ?]. }
  destruct (count_listening_spec (E:=E) sl.1 hs) as (n & Hn & Hr).
  { intros h Hh. apply (slots_wf_handle _ _ _ Hw), elem_of_all_handles. eauto. }
  rewrite Hn. cbn [rbind]. case_bool_decide as Hm.
  { exists r, sl, false. split_and!; eauto using extends_refl. intros _. exists n.
    unfold handles_for_port. by rewrite Ep. }
  destruct (grow_listeners_spec (E:=E) (Z.to_nat (min_spare - n)) port r sl hs Hw Ep) as
    (k & r' & sl' & -> & Hk & Hw' & A & Hp' & Hm' & Hps & Hc).
  eexists r', sl', _. split; [done|]. split_and!; try done; [by eapply added_extends|].
  case_bool_decide as Hlt; [by apply Hc|]. intros _. unfold handles_for_port. rewrite Hp'. cbn.
  pose proof A as [(new & E1 & L1 & F1) _ _ _]. rewrite E1.
  exists (n + Z.of_nat k). split; [by apply count_listening_app|lia].
Qed.

(** ** Dead slots *)

(** Reaping [hs]: dead slots become fresh listeners with the next epoch, the others stay. *)
Lemma reap_loop_spec {E} r now hs sl pool n :
  slots_wf r sl → NoDup hs → (∀ h, h ∈ hs → is_Some (sl.1 !! h)) →
  ∃ sl' pool' n', reap_loop (E:=E) now hs sl pool n = Ok (sl', pool', n') ∧ slots_wf r sl' ∧
    length sl'.1 = length sl.1 ∧
    ∀ h s c, sl.1 !! h = Some s → sl.2 !! h = Some c →
      if slot_dead s c && bool_decide (h ∈ hs) then
        ∃ s', sl'.1 !! h = Some s' ∧ tcp_state s' = TsListen ∧ sl'.2 !! h = Some (rearmed c)
      else sl'.1 !! h = Some s ∧ sl'.2 !! h = Some c.
Proof.
  revert sl pool n. induction hs as [|h hs IH]; intros sl pool n Hw Hnd Hh; cbn [reap_loop].
  { exists sl, pool, n. split_and!; try done. intros h s c Hs Hc.
    rewrite andb_false_intro2; [done|]. by apply bool_decide_eq_false_2, not_elem_of_nil. }
  apply NoDup_cons in Hnd as [Hni Hnd].
  destruct (Hh h ltac:(left)) as [s0 Hs0]. unfold reap_slot. rewrite Hs0. cbn [expect rbind].
  destruct (proj2 (sw_dom _ _ Hw h) ltac:(eauto)) as [c0 Hc0]. rewrite Hc0.
  destruct sl as [socks ctxs]. cbn [fst snd] in *.
  destruct (slot_dead s0 c0) eqn:Ed.
  - destruct (slots_wf_ctx _ _ _ _ Hw Hc0) as [_ Hp0].
    destruct (rearm_socket_spec (E:=E) s0 c0 pool now Hp0) as (s1 & Hs1 & Hre).
    unfold rearm_socket_with_reason. rewrite Hre. cbn [rbind].
    destruct (IH (<[h := s1]> socks, <[h := rearmed c0]> ctxs) (released pool c0 now) (n + 1)) as (sl' & pool' & n' & -> & Hw' & Hl & Hall).
    { by eapply slots_wf_update. } { done. }
    { intros h' Hh'. cbn. rewrite lookup_lt_is_Some, length_insert, <-lookup_lt_is_Some. apply Hh. by right. }
    exists sl', pool', n'. cbn [fst] in Hl. rewrite length_insert in Hl. split_and!; try done.
    intros h' s c Hs Hc. destruct (decide (h' = h)) as [->|Hne].
    + simplify_eq. rewrite Ed, bool_decide_true by left. cbn [andb].
      specialize (Hall h s1 (rearmed c0)). cbn [fst snd] in Hall.
      rewrite list_lookup_insert_eq, lookup_insert_eq in Hall by (by eapply lookup_lt_Some).
      specialize (Hall eq_refl eq_refl). rewrite (bool_decide_false (h ∈ hs)), andb_false_r in Hall by done.
      destruct Hall. eauto.
    + specialize (Hall h' s c). cbn [fst snd] in Hall.
      rewrite list_lookup_insert_ne, lookup_insert_ne in Hall by done. specialize (Hall Hs Hc).
      rewrite (bool_decide_ext (h' ∈ h :: hs) (h' ∈ hs)) by set_solver. done.
  - cbn [rbind]. destruct (IH (socks, ctxs) pool n) as (sl' & pool' & n' & -> & Hw' & Hl & Hall); try done.
    { intros h' Hh'. apply Hh. by right. }
    exists sl', pool', n'. split_and!; try done. intros h' s c Hs Hc. specialize (Hall h' s c Hs Hc).
    destruct (decide (h' = h)) as [->|Hne].
    + simplify_eq. rewrite Ed in *. done.
    + rewrite (bool_decide_ext (h' ∈ h :: hs) (h' ∈ hs)) by set_solver. done.
Qed.

End laws.

End slot.

(** ** A concrete stack

    A socket with its state, the bytes to receive, the room in its send buffer, the bytes sent and
    the local endpoint. *)
Record demo_sock := mk_demo_sock {
  dk_state : TcpState;
  dk_rx : list byte;
  dk_room : Z;
  dk_sent : list byte;
  dk_ep : option SocketAddr
}.

Definition demo_open (s : demo_sock) : bool :=
  bool_decide (dk_state s = TsEstablished) || bool_decide (dk_state s = TsCloseWait).
Definition demo_active (s : demo_sock) : bool :=
  negb (bool_decide (dk_state s = TsClosed) || bool_decide (dk_state s = TsTimeWait) ||
        bool_decide (dk_state s = TsListen)).

#[global] Instance demo_stack : Smoltcp := {|
  TcpSocket := demo_sock;
  tcp_new := mk_demo_sock TsClosed [] TCP_SOCKET_BUFFER_SIZE [] None;
  tcp_listen s port :=
    if bool_decide (port = 0) || negb (bool_decide (dk_state s = TsClosed)) then None
    else Some (mk_demo_sock TsListen [] TCP_SOCKET_BUFFER_SIZE [] None);
  tcp_abort _ := mk_demo_sock TsClosed [] TCP_SOCKET_BUFFER_SIZE [] None;
  tcp_state := dk_state;
  is_active := demo_active;
  can_send s := demo_open s && bool_decide (0 < dk_room s);
  can_recv s := demo_open s && negb (bool_decide (dk_rx s = []));
  send_slice s l :=
    if demo_open s then
      let n := Z.min (Z.max 0 (dk_room s)) (len l) in
      Some (n, mk_demo_sock (dk_state s) (dk_rx s) (dk_room s - n) (dk_sent s ++ ztake n l) (dk_ep s))
    else None;
  recv_all s :=
    if demo_open s then Some (dk_rx s, mk_demo_sock (dk_state s) [] (dk_room s) (dk_sent s) (dk_ep s)) else None;
  local_endpoint := dk_ep
|}.

#[global] Instance demo_stack_laws : SmoltcpLaws demo_stack.
Proof.
  split.
  - intros port Hp. cbn. rewrite bool_decide_false by done. eexists. by split.
  - intros s port Hp. cbn. rewrite bool_decide_false by done. eexists. by split.
  - intros s. cbn. done.
  - intros s l n s'. cbn. destruct (demo_open s); [|done]. intros [= <- _]. pose proof (len_nonneg l). lia.
  - intros s. cbn. destruct (demo_open s); [eauto|done].
  - intros [st rx rm snt ep]. cbn. intros ->. done.
  - intros s l n s'. cbn. destruct (demo_open s) eqn:E; [|done]. intros [= _ <-]. unfold demo_open in *. cbn. by rewrite E.
Qed.
