(* ===== verification/Upstream.v ===== *)
(** * Upstream: the proxy traits of [src/upstream.rs] and their implementations

    [ProxyUpstream] opens TCP relay streams, [DatagramUpstream] sends encoded datagrams.  The TUN
    client is written against the two traits; here they are classes over the upstream's state, with
    instances for TUIC, for REALITY and for the failover pair.  [UpstreamLaws] is what the client
    relies on: opening a stream answers, and never aborts. *)

From S2P Require Import Prelude Shared Failover Metrics Config TuicCodec TuicUpstream.
From S2P Require Import Crypto Reassembly Handshake RealityStream RealityUpstream.

Class ProxyUpstream (U : Type) := {
  RelayStream : Type;
  up_open_tcp : U → TargetAddr → U * res ClientError RelayStream;
  up_open_is_cheap : bool;
  up_failover_leg : U → Z
}.
Arguments RelayStream U {_}.
Arguments up_open_is_cheap U {_}.

Class DatagramUpstream (U : Type) := {
  up_send_udp : U → list byte → U;
  up_drops : U → Z;
  up_stream_fallbacks : U → Z
}.

Class UpstreamLaws (U : Type) `{ProxyUpstream U} : Prop := {
  open_no_panic : ∀ u t, (up_open_tcp u t).2 ≠ Panic
}.

(** ** TUIC *)

(** The upstream, the connection it holds, what it sent, and what the next calls find: the clock
    and whether the connection lock is free. *)
Record TuicLeg {Q : QuicLib} := mk_TuicLeg {
  tl_upstream : TuicUpstream;
  tl_conn : Conn;
  tl_wire : list wire_event;
  tl_now : Z;
  tl_lock_free : bool
}.
Arguments TuicLeg Q : clear implicits.

#[global] Instance tuic_proxy {Q : QuicLib} : ProxyUpstream (TuicLeg Q) := {|
  RelayStream := Conn;
  up_open_tcp u target :=
    let '(r, conn, w) := tuic_open_tcp (tl_upstream u) (tl_conn u) target in
    (mk_TuicLeg Q (tl_upstream u) conn (tl_wire u ++ w) (tl_now u) (tl_lock_free u), r);
  up_open_is_cheap := true;
  up_failover_leg _ := NO_FAILOVER
|}.

#[global] Instance tuic_datagram {Q : QuicLib} : DatagramUpstream (TuicLeg Q) := {|
  up_send_udp u datagram :=
    let '(up, w) := send_udp (tl_upstream u) (tl_lock_free u) (tl_conn u) (tl_now u) datagram in
    mk_TuicLeg Q up (tl_conn u) (tl_wire u ++ w) (tl_now u) (tl_lock_free u);
  up_drops u := tu_udp_drops (tl_upstream u);
  up_stream_fallbacks u := tu_udp_stream_fallbacks (tl_upstream u)
|}.

Lemma write_uni_no_panic {Q : QuicLib} c bytes : (write_uni c bytes).1 ≠ Panic.
Proof. unfold write_uni. by repeat case_match. Qed.

Lemma authenticate_no_panic {Q : QuicLib} c uuid pw : (authenticate c uuid pw).1 ≠ Panic.
Proof. unfold authenticate. case_match; [apply write_uni_no_panic|done]. Qed.

Lemma handshake_1rtt_no_panic {Q : QuicLib} uuid pw : (handshake_1rtt uuid pw).1 ≠ Panic.
Proof.
  unfold handshake_1rtt. destruct connect_1rtt as [c|]; [|done].
  pose proof (authenticate_no_panic c uuid pw). by destruct (authenticate c uuid pw) as [[| |] w].
Qed.

Lemma tuic_handshake_no_panic {Q : QuicLib} uuid pw z : (tuic_handshake uuid pw z).1 ≠ Panic.
Proof.
  unfold tuic_handshake. pose proof (handshake_1rtt_no_panic uuid pw) as H.
  destruct z; [|done]. destruct (try_0rtt uuid pw) as [[c|] w]; [done|].
  by destruct (handshake_1rtt uuid pw) as [r w'].
Qed.

Lemma live_conn_no_panic {Q : QuicLib} u conn : (live_conn u conn).1.1 ≠ Panic.
Proof.
  unfold live_conn. destruct (close_reason conn); [|done]. destruct handshake_in_time; [|done].
  pose proof (tuic_handshake_no_panic (tu_uuid u) (tu_password u) (tu_zero_rtt u)).
  by destruct (tuic_handshake _ _ _) as [[| |] w].
Qed.

#[global] Instance tuic_laws {Q : QuicLib} : UpstreamLaws (TuicLeg Q).
Proof.
  split. intros u t. unfold up_open_tcp, tuic_proxy, tuic_open_tcp.
  pose proof (live_conn_no_panic (tl_upstream u) (tl_conn u)).
  destruct (live_conn _ _) as [[[c|e|] conn] w]; [|done..]. by repeat case_match; simplify_eq/=.
Qed.

(** What the failover asks of its primary leg: a probe that may reconnect, whether the connection is
    dead, and the datagrams received (unless a reconnect holds the lock). *)
Class HealthProbe (T : Type) := {
  hp_probe : T → T * bool;
  hp_is_dead : T → bool;
  hp_rx_datagrams : T → option Z
}.

Definition tuic_probe {Q : QuicLib} (u : TuicLeg Q) : TuicLeg Q * bool :=
  let '(r, conn, w) := live_conn (tl_upstream u) (tl_conn u) in
  (mk_TuicLeg Q (tl_upstream u) conn (tl_wire u ++ w) (tl_now u) (tl_lock_free u), is_ok r).
Definition tuic_is_dead {Q : QuicLib} (u : TuicLeg Q) : bool := close_reason (tl_conn u).
Definition tuic_rx_datagrams {Q : QuicLib} (u : TuicLeg Q) : option Z :=
  if tl_lock_free u then Some (udp_rx_datagrams (tl_conn u)) else None.
#[global] Instance tuic_health {Q : QuicLib} : HealthProbe (TuicLeg Q) := {|
  hp_probe := tuic_probe; hp_is_dead := tuic_is_dead; hp_rx_datagrams := tuic_rx_datagrams
|}.

(** ** REALITY *)

(** What one connection attempt finds: the randomness drawn, the outcome of the TCP connect, whether
    the handshake is too slow, and the polls of the stream. *)
Record attempt := mk_attempt {
  ap_entropy : entropy;
  ap_connect : connect_outcome;
  ap_slow : bool;
  ap_reads : list rd_poll;
  ap_writes : list wr_poll
}.

(** The widths of the Rust types ([[u8; 32]] of randomness, [[u8; 16]] of user id, [[u8; 8]] of short
    id), and a connection that carries fewer than 2^64 bytes. *)
Definition attempt_ok (a : attempt) : bool :=
  bool_decide (len (en_random (ap_entropy a)) = 32) &&
  match ap_connect a with Connected s => bool_decide (len (avail (io_in s)) < 2 ^ 64 - 2) | _ => true end.
Definition leg_ok (cfg : RealityClientConfig) (l : list attempt) : bool :=
  bool_decide (len (rc_uuid cfg) = 16 ∧ len (rc_short_id cfg) = 8) && forallb attempt_ok l.

(** The configuration and the coming attempts; beyond the list the connect fails. *)
Record RealityLeg := mk_RealityLeg {
  re_cfg : RealityClientConfig;
  re_attempts : list attempt;
  re_ok : leg_ok re_cfg re_attempts = true
}.

Lemma leg_ok_tail cfg a l : leg_ok cfg (a :: l) = true → leg_ok cfg l = true.
Proof. unfold leg_ok. rewrite !andb_true_iff. cbn. rewrite andb_true_iff. tauto. Qed.

Lemma leg_ok_head cfg a l :
  leg_ok cfg (a :: l) = true →
  len (rc_uuid cfg) = 16 ∧ len (rc_short_id cfg) = 8 ∧ len (en_random (ap_entropy a)) = 32 ∧
  ∀ s, ap_connect a = Connected s → len (avail (io_in s)) < 2 ^ 64 - 2.
Proof.
  unfold leg_ok, attempt_ok. cbn [forallb]. rewrite !andb_true_iff, !bool_decide_eq_true.
  intros ([Hu Hs] & [Hr Hc] & _). split_and!; [done..|]. intros s E. rewrite E in Hc.
  by apply bool_decide_eq_true in Hc.
Qed.

(** One attempt is used up; the result of [open_tcp] on it. *)
Definition reality_attempt {C : Crypto} (u : RealityLeg) (target : TargetAddr)
  : RealityLeg * res ClientError RealityStream :=
  match re_attempts u as l return leg_ok (re_cfg u) l = true → _ with
  | [] => λ _, (u, Err (Reality reality_connect_failed))
  | a :: rest => λ ok,
      (mk_RealityLeg (re_cfg u) rest (leg_ok_tail _ _ _ ok),
       open_tcp (re_cfg u) (ap_entropy a) target (ap_connect a) (ap_slow a) (ap_reads a) (ap_writes a))
  end (re_ok u).

#[global] Instance reality_proxy {C : Crypto} : ProxyUpstream RealityLeg := {|
  RelayStream := RealityStream;
  up_open_tcp := reality_attempt;
  up_open_is_cheap := open_is_cheap;
  up_failover_leg _ := NO_FAILOVER
|}.

#[global] Instance reality_laws {C : Crypto} `{!CryptoLaws C} : UpstreamLaws RealityLeg.
Proof.
  split. intros [cfg [|a rest] ok] t; cbn; [done|].
  destruct (leg_ok_head _ _ _ ok) as (? & ? & ? & ?). by apply open_tcp_no_panic.
Qed.

#[global] Instance reality_datagram : DatagramUpstream RealityLeg := {|
  up_send_udp u _ := u;
  up_drops _ := 0;
  up_stream_fallbacks _ := 0
|}.

(** ** Failover *)

(** Two legs and the shared state, with the clock the next call finds. *)
Record FailoverUpstream (T R : Type) := mk_FailoverUpstream {
  fu_tuic : T;
  fu_reality : R;
  fu_state : Failover.FailoverState;
  fu_now : Z
}.
Arguments mk_FailoverUpstream {T R} _ _ _ _.
Arguments fu_tuic {T R} _.
Arguments fu_reality {T R} _.
Arguments fu_state {T R} _.
Arguments fu_now {T R} _.

Definition map_ok {E A B} (f : A → B) (m : res E A) : res E B :=
  match m with Ok a => Ok (f a) | Err e => Err e | Panic => Panic end.

Section failover.
Context {T R : Type} `{ProxyUpstream T, DatagramUpstream T, HealthProbe T, ProxyUpstream R}.

(** A leg's state moves only when that leg is asked. *)
#[global] Instance failover_proxy : ProxyUpstream (FailoverUpstream T R) := {|
  RelayStream := RelayStream T + RelayStream R;
  up_open_tcp u target :=
    let '(t, tuic_open) := up_open_tcp (fu_tuic u) target in
    let '(r, reality_open) := up_open_tcp (fu_reality u) target in
    let '(s, answer, asked) :=
      Failover.fo_open_tcp (fu_state u) (map_ok inl tuic_open) (hp_is_dead t) (map_ok inr reality_open) (fu_now u) in
    (mk_FailoverUpstream
       (match Failover.active_leg (fu_state u) with Failover.LegTuic => t | Failover.LegReality => fu_tuic u end)
       (if (asked : bool) then r else fu_reality u) s (fu_now u), answer);
  up_open_is_cheap := Failover.fo_open_is_cheap;
  up_failover_leg u := Failover.failover_leg_u8 (fu_state u)
|}.

#[global] Instance failover_datagram : DatagramUpstream (FailoverUpstream T R) := {|
  up_send_udp u datagram :=
    let '(t, r) := Failover.fo_send_udp up_send_udp (fu_tuic u, fu_reality u) (fu_state u) datagram in
    mk_FailoverUpstream t r (fu_state u) (fu_now u);
  up_drops u := Failover.fo_udp_drops_up up_drops (fu_tuic u, fu_reality u);
  up_stream_fallbacks u := Failover.fo_udp_stream_fallbacks up_stream_fallbacks (fu_tuic u, fu_reality u)
|}.

#[global] Instance failover_laws `{!UpstreamLaws T, !UpstreamLaws R} : UpstreamLaws (FailoverUpstream T R).
Proof.
  split. intros u t. cbn. pose proof (open_no_panic (fu_tuic u) t). pose proof (open_no_panic (fu_reality u) t).
  destruct (up_open_tcp (fu_tuic u) t) as [ut rt], (up_open_tcp (fu_reality u) t) as [ur rr]. cbn [snd] in *.
  unfold Failover.fo_open_tcp. destruct (Failover.active_leg _); cbn.
  - destruct rt; cbn; try done. destruct (Failover.record_tuic_failure _ _ _) as [s []]; cbn; [by destruct rr|done].
  - by destruct rr.
Qed.

(** [FailoverUpstream::new] *)
Definition failover_upstream_new (tuic : T) (reality : R) : FailoverUpstream T R :=
  mk_FailoverUpstream tuic reality Failover.failover_new 0.

(** One turn of the task of [spawn_health_probe]: on TUIC the received datagrams are read, on REALITY
    every tenth turn probes TUIC, which may reconnect it. *)
Definition upstream_health_tick (u : FailoverUpstream T R) (h : Failover.health)
  : FailoverUpstream T R * Failover.health :=
  let due := match Failover.active_leg (fu_state u) with
             | Failover.LegTuic => false
             | Failover.LegReality =>
                 bool_decide (Failover.PROBE_INTERVAL_SECS ≤ Failover.he_since_up_probe h + Failover.HEALTH_TICK_SECS)
             end in
  let '(t, ok) := if (due : bool) then hp_probe (fu_tuic u) else (fu_tuic u, false) in
  let '(s, h) := Failover.health_tick (fu_state u) h (hp_rx_datagrams (fu_tuic u)) ok (fu_now u) in
  (mk_FailoverUpstream t (fu_reality u) s (fu_now u), h).

(** An opening that fails on a dead primary is answered by the other leg. *)
Lemma open_on_dead_primary u target t e :
  Failover.leg_wf (fu_state u) → Failover.active_leg (fu_state u) = Failover.LegTuic →
  up_open_tcp (fu_tuic u) target = (t, Err e) → hp_is_dead t = true →
  up_open_tcp u target =
    (mk_FailoverUpstream t (up_open_tcp (fu_reality u) target).1 (Failover.mk_FailoverState 1 0 0 (fu_now u)) (fu_now u),
     map_ok inr (up_open_tcp (fu_reality u) target).2).
Proof.
  intros Hwf El Ho Hd. cbn. rewrite Ho. destruct (up_open_tcp (fu_reality u) target) as [r ro]. cbn [map_ok fst snd].
  unfold Failover.fo_open_tcp, Failover.record_tuic_failure. rewrite El, Hd, bool_decide_false by (intros Hn; by apply Hn).
  unfold Failover.switch_to_reality. apply Failover.active_leg_tuic in El as El0; [|done].
  by rewrite El0, bool_decide_false by (intros Hn; by apply Hn).
Qed.

End failover.

(** The client's own upstream, TUIC with REALITY behind it, satisfies what the TUN client relies on. *)
#[global] Instance client_upstream_laws {Q : QuicLib} {C : Crypto} `{!CryptoLaws C} :
  UpstreamLaws (FailoverUpstream (TuicLeg Q) RealityLeg) := _.

(** ** A concrete upstream

    It opens [n] streams, numbered, and then fails; it keeps what it sends. *)
Record demo_up := mk_demo_up { du_left : nat; du_sent : list (list byte) }.
#[global] Instance demo_proxy : ProxyUpstream demo_up := {|
  RelayStream := nat;
  up_open_tcp u _ :=
    match du_left u with
    | O => (u, Err (Io tuic_io))
    | S n => (mk_demo_up n (du_sent u), Ok n)
    end;
  up_open_is_cheap := false;
  up_failover_leg _ := NO_FAILOVER
|}.
#[global] Instance demo_datagram : DatagramUpstream demo_up := {|
  up_send_udp u d := mk_demo_up (du_left u) (du_sent u ++ [d]);
  up_drops _ := 0;
  up_stream_fallbacks _ := 0
|}.
#[global] Instance demo_laws : UpstreamLaws demo_up.
Proof. split. intros u t. cbn. by destruct (du_left u). Qed.

(** ** Seamless failover *)

(** A flow that finds TUIC gone is carried by REALITY in the same call.  When TUIC is in charge,
    its connection is closed and cannot be made again, the opening is answered with what REALITY
    answers for the same target, REALITY is in charge from then on, and the flows that follow ask it
    directly without trying TUIC again; the datagrams still go to TUIC. *)
Theorem seamless_failover {Q : QuicLib} {C : Crypto} (u : FailoverUpstream (TuicLeg Q) RealityLeg) target e w :
  Failover.leg_wf (fu_state u) → Failover.active_leg (fu_state u) = Failover.LegTuic →
  close_reason (tl_conn (fu_tuic u)) = true →
  live_conn (tl_upstream (fu_tuic u)) (tl_conn (fu_tuic u)) = (Err e, tl_conn (fu_tuic u), w) →
  let '(u', answer) := up_open_tcp u target in
  answer = map_ok inr (up_open_tcp (fu_reality u) target).2 ∧
  Failover.active_leg (fu_state u') = Failover.LegReality ∧
  (∀ next, (up_open_tcp u' next).2 = map_ok inr (up_open_tcp (fu_reality u') next).2 ∧
           fu_tuic (up_open_tcp u' next).1 = fu_tuic u') ∧
  (∀ d, fu_tuic (up_send_udp u' d) = up_send_udp (fu_tuic u') d ∧ fu_reality (up_send_udp u' d) = fu_reality u').
Proof.
  intros Hwf El Hc Hl.
  assert (up_open_tcp (fu_tuic u) target =
    (mk_TuicLeg Q (tl_upstream (fu_tuic u)) (tl_conn (fu_tuic u)) (tl_wire (fu_tuic u) ++ w) (tl_now (fu_tuic u))
       (tl_lock_free (fu_tuic u)), Err e)) as Ho.
  { unfold up_open_tcp, tuic_proxy, tuic_open_tcp. by rewrite Hl. }
  rewrite (open_on_dead_primary u target _ e Hwf El Ho) by done. split_and!; try done.
  intros next. cbn. destruct (tuic_open_tcp _ _ _) as [[r c'] w']. by destruct (reality_attempt _ next).
Qed.

(** A library whose connection is closed and cannot be made again. *)
Definition dead_quic : QuicLib := {|
  Conn := unit; connect_0rtt := None; connect_1rtt := None;
  handshake_in_time := true; close_reason := λ _, true; export_keying_material := λ _ _ _, None;
  uni_open := λ _, true; uni_write := λ _ _, true; uni_finish := λ _, true;
  bi_open := λ _, true; bi_write := λ _ _, true; open_in_time := true;
  max_datagram_size := λ _, None; udp_rx_datagrams := λ _, 0; send_datagram := λ _ _, DgOk |}.
Definition dead_leg : TuicLeg dead_quic :=
  mk_TuicLeg dead_quic (mk_TuicUpstream [x01] [x02] false Native 0 0 0) tt [] 0 true.
Definition bare_reality : RealityLeg :=
  mk_RealityLeg (mk_RealityClientConfig [] (replicate 16 x00) [] (replicate 8 x00) []) [] eq_refl.

Lemma seamless_failover_witness :
  let '(u', answer) := @up_open_tcp _ (failover_proxy (H2:=reality_proxy (C:=demo_crypto)))
    (failover_upstream_new dead_leg bare_reality) (DomainPort [x61] 443) in
  Failover.active_leg (fu_state u') = Failover.LegReality ∧ answer = Err (Reality reality_connect_failed).
Proof.
  pose proof (seamless_failover (Q:=dead_quic) (C:=demo_crypto) (failover_upstream_new dead_leg bare_reality)
    (DomainPort [x61] 443) (Io tuic_io) [] ltac:(left; reflexivity) ltac:(reflexivity) ltac:(reflexivity)
    ltac:(reflexivity)) as H.
  destruct (up_open_tcp _ _) as [u' answer]. destruct H as (H1 & H2 & _). split; [exact H2|]. rewrite H1. reflexivity.
Defined.
