(* ===== verification/ClientTun.v ===== *)
(** * ClientTun: the event loop of the TUN client ([src/client_tun.rs])

    [run_event_loop] is one task that owns the TCP sockets, the slot contexts, the fake-IP pool, the
    UDP associations and the device, and reacts to one event at a time: a packet from the device, a
    payload or end of stream from a relay task, a finished handshake, a datagram from the upstream,
    four timers.  [Loop] is its state together with what lives outside the task: the relay tasks and
    their channels, the handshakes in flight, and the two queues towards the loop.  [loop_step]
    performs one event; the steps of the spawned tasks are events too, so a sequence of events is an
    interleaving of the whole client.

    What the TCP stack does inside [iface.poll] is not modelled: each poll comes with an arbitrary
    function on the sockets and the packets it emits ([poll_env]). *)

From S2P Require Import Prelude Shared Text Dns FakeIp TuicCodec Frag Assoc Metrics UdpRelay Device TunSlot Upstream.

(** ** Targets *)

Inductive TargetResolve : Type :=
| Direct (target : TargetAddr) (fake_ip : option Z)
| Refuse
| Block.

Definition target_from_endpoint (endpoint : SocketAddr) : TargetAddr := IpPort endpoint.

Definition resolve_target (endpoint : SocketAddr) (pool : FakeIpPool) : TargetResolve :=
  if is_dns_relay_port (sockaddr_port endpoint) then Block
  else
    match endpoint with
    | V6 _ _ => Direct (target_from_endpoint endpoint) None
    | V4 v4 port =>
        if is_fake pool v4 then
          match pool_resolve pool v4 with
          | Some domain =>
              if bool_decide (port = 443) && is_doh_domain domain then Block
              else Direct (DomainPort domain port) (Some v4)
          | None => Refuse
          end
        else if bool_decide (port = 443) && is_doh_ip v4 then Block
        else Direct (target_from_endpoint endpoint) None
    end.

(** ** Relay tasks *)

Record RelayTaskDiag := mk_RelayTaskDiag {
  rd_uplink_bytes : Z;
  rd_remote_to_global_rx_bytes : Z;
  rd_remote_reads : Z;
  rd_local_writes : Z;
  rd_global_rx_wait_max_micros : Z;
  rd_global_rx_pressure_events : Z
}.
Definition relay_diag_default : RelayTaskDiag := mk_RelayTaskDiag 0 0 0 0 0 0.

Definition note_uplink_write (bytes : Z) (d : RelayTaskDiag) : RelayTaskDiag :=
  mk_RelayTaskDiag (rd_uplink_bytes d + bytes) (rd_remote_to_global_rx_bytes d) (rd_remote_reads d)
    (rd_local_writes d + 1) (rd_global_rx_wait_max_micros d) (rd_global_rx_pressure_events d).
Definition note_remote_read (bytes : Z) (d : RelayTaskDiag) : RelayTaskDiag :=
  mk_RelayTaskDiag (rd_uplink_bytes d) (rd_remote_to_global_rx_bytes d + bytes) (rd_remote_reads d + 1)
    (rd_local_writes d) (rd_global_rx_wait_max_micros d) (rd_global_rx_pressure_events d).
Definition note_global_rx_wait (elapsed threshold : Z) (d : RelayTaskDiag) : RelayTaskDiag :=
  mk_RelayTaskDiag (rd_uplink_bytes d) (rd_remote_to_global_rx_bytes d) (rd_remote_reads d)
    (rd_local_writes d) (Z.max (rd_global_rx_wait_max_micros d) elapsed)
    (if bool_decide (threshold ≤ elapsed) then rd_global_rx_pressure_events d + 1
     else rd_global_rx_pressure_events d).

(** [global_rx_pressure_threshold], in microseconds, and the read buffer of [run_relay]. *)
Definition PRESSURE_MICROS : Z := 5000.
Definition RELAY_BUF : Z := 65536.

Section client.
Context {TS : Smoltcp} {P : EtherParse} {U : Type} `{!ProxyUpstream U, !DatagramUpstream U}.
Variable macos : bool.

(** A relay task: it runs, then it shuts its stream down, then it is gone and the receiver of its
    channel is dropped.  [ry_queue] is the content of that channel, [ry_written] what was written to
    the stream. *)
Inductive relay_phase : Type := RelayRunning | RelayShutdown | RelayFinished.

Record Relay := mk_Relay {
  ry_handle : nat;
  ry_stream : RelayStream U;
  ry_queue : list (list byte);
  ry_written : list byte;
  ry_phase : relay_phase;
  ry_diag : RelayTaskDiag
}.

(** A spawned handshake, and its result on the way back to the loop. *)
Record HandshakeTask := mk_HandshakeTask { ht_handle : nat; ht_epoch : Z; ht_target : TargetAddr }.
Record HandshakeDone := mk_HandshakeDone {
  hd_handle : nat;
  hd_epoch : Z;
  hd_result : RelayStream U + ClientError
}.

Record Loop := mk_Loop {
  lp_sockets : list TcpSocket;
  lp_registry : ListenerRegistry;
  lp_ctxs : gmap nat SocketCtx;
  lp_dirty : gset nat;
  lp_pool : FakeIpPool;
  lp_assoc : AssocTable;
  lp_reasm : FragReassembler;
  lp_dev : VirtualTunDevice;
  lp_metrics : Metrics;
  lp_up : U;
  lp_relays : list Relay;
  lp_tasks : list HandshakeTask;
  lp_done : list HandshakeDone;
  lp_global : list (nat * list byte);
  lp_flush_calls : Z;
  lp_flush_failures : Z
}.

Definition set_sockets (v : list TcpSocket) (s : Loop) : Loop :=
  mk_Loop v (lp_registry s) (lp_ctxs s) (lp_dirty s) (lp_pool s) (lp_assoc s) (lp_reasm s) (lp_dev s)
    (lp_metrics s) (lp_up s) (lp_relays s) (lp_tasks s) (lp_done s) (lp_global s) (lp_flush_calls s)
    (lp_flush_failures s).
Definition set_registry (v : ListenerRegistry) (s : Loop) : Loop :=
  mk_Loop (lp_sockets s) v (lp_ctxs s) (lp_dirty s) (lp_pool s) (lp_assoc s) (lp_reasm s) (lp_dev s)
    (lp_metrics s) (lp_up s) (lp_relays s) (lp_tasks s) (lp_done s) (lp_global s) (lp_flush_calls s)
    (lp_flush_failures s).
Definition set_ctxs (v : gmap nat SocketCtx) (s : Loop) : Loop :=
  mk_Loop (lp_sockets s) (lp_registry s) v (lp_dirty s) (lp_pool s) (lp_assoc s) (lp_reasm s)
    (lp_dev s) (lp_metrics s) (lp_up s) (lp_relays s) (lp_tasks s) (lp_done s) (lp_global s)
    (lp_flush_calls s) (lp_flush_failures s).
Definition set_dirty (v : gset nat) (s : Loop) : Loop :=
  mk_Loop (lp_sockets s) (lp_registry s) (lp_ctxs s) v (lp_pool s) (lp_assoc s) (lp_reasm s) (lp_dev s)
    (lp_metrics s) (lp_up s) (lp_relays s) (lp_tasks s) (lp_done s) (lp_global s) (lp_flush_calls s)
    (lp_flush_failures s).
Definition set_pool (v : FakeIpPool) (s : Loop) : Loop :=
  mk_Loop (lp_sockets s) (lp_registry s) (lp_ctxs s) (lp_dirty s) v (lp_assoc s) (lp_reasm s)
    (lp_dev s) (lp_metrics s) (lp_up s) (lp_relays s) (lp_tasks s) (lp_done s) (lp_global s)
    (lp_flush_calls s) (lp_flush_failures s).
Definition set_assoc (v : AssocTable) (s : Loop) : Loop :=
  mk_Loop (lp_sockets s) (lp_registry s) (lp_ctxs s) (lp_dirty s) (lp_pool s) v (lp_reasm s) (lp_dev s)
    (lp_metrics s) (lp_up s) (lp_relays s) (lp_tasks s) (lp_done s) (lp_global s) (lp_flush_calls s)
    (lp_flush_failures s).
Definition set_reasm (v : FragReassembler) (s : Loop) : Loop :=
  mk_Loop (lp_sockets s) (lp_registry s) (lp_ctxs s) (lp_dirty s) (lp_pool s) (lp_assoc s) v (lp_dev s)
    (lp_metrics s) (lp_up s) (lp_relays s) (lp_tasks s) (lp_done s) (lp_global s) (lp_flush_calls s)
    (lp_flush_failures s).
Definition set_dev (v : VirtualTunDevice) (s : Loop) : Loop :=
  mk_Loop (lp_sockets s) (lp_registry s) (lp_ctxs s) (lp_dirty s) (lp_pool s) (lp_assoc s) (lp_reasm s)
    v (lp_metrics s) (lp_up s) (lp_relays s) (lp_tasks s) (lp_done s) (lp_global s) (lp_flush_calls s)
    (lp_flush_failures s).
Definition set_metrics (v : Metrics) (s : Loop) : Loop :=
  mk_Loop (lp_sockets s) (lp_registry s) (lp_ctxs s) (lp_dirty s) (lp_pool s) (lp_assoc s) (lp_reasm s)
    (lp_dev s) v (lp_up s) (lp_relays s) (lp_tasks s) (lp_done s) (lp_global s) (lp_flush_calls s)
    (lp_flush_failures s).
Definition set_up (v : U) (s : Loop) : Loop :=
  mk_Loop (lp_sockets s) (lp_registry s) (lp_ctxs s) (lp_dirty s) (lp_pool s) (lp_assoc s) (lp_reasm s)
    (lp_dev s) (lp_metrics s) v (lp_relays s) (lp_tasks s) (lp_done s) (lp_global s) (lp_flush_calls s)
    (lp_flush_failures s).
Definition set_relays (v : list Relay) (s : Loop) : Loop :=
  mk_Loop (lp_sockets s) (lp_registry s) (lp_ctxs s) (lp_dirty s) (lp_pool s) (lp_assoc s) (lp_reasm s)
    (lp_dev s) (lp_metrics s) (lp_up s) v (lp_tasks s) (lp_done s) (lp_global s) (lp_flush_calls s)
    (lp_flush_failures s).
Definition set_tasks (v : list HandshakeTask) (s : Loop) : Loop :=
  mk_Loop (lp_sockets s) (lp_registry s) (lp_ctxs s) (lp_dirty s) (lp_pool s) (lp_assoc s) (lp_reasm s)
    (lp_dev s) (lp_metrics s) (lp_up s) (lp_relays s) v (lp_done s) (lp_global s) (lp_flush_calls s)
    (lp_flush_failures s).
Definition set_done (v : list HandshakeDone) (s : Loop) : Loop :=
  mk_Loop (lp_sockets s) (lp_registry s) (lp_ctxs s) (lp_dirty s) (lp_pool s) (lp_assoc s) (lp_reasm s)
    (lp_dev s) (lp_metrics s) (lp_up s) (lp_relays s) (lp_tasks s) v (lp_global s) (lp_flush_calls s)
    (lp_flush_failures s).
Definition set_global (v : list (nat * list byte)) (s : Loop) : Loop :=
  mk_Loop (lp_sockets s) (lp_registry s) (lp_ctxs s) (lp_dirty s) (lp_pool s) (lp_assoc s) (lp_reasm s)
    (lp_dev s) (lp_metrics s) (lp_up s) (lp_relays s) (lp_tasks s) (lp_done s) v (lp_flush_calls s)
    (lp_flush_failures s).
Definition set_flush_calls (v : Z) (s : Loop) : Loop :=
  mk_Loop (lp_sockets s) (lp_registry s) (lp_ctxs s) (lp_dirty s) (lp_pool s) (lp_assoc s) (lp_reasm s)
    (lp_dev s) (lp_metrics s) (lp_up s) (lp_relays s) (lp_tasks s) (lp_done s) (lp_global s) v
    (lp_flush_failures s).
Definition set_flush_failures (v : Z) (s : Loop) : Loop :=
  mk_Loop (lp_sockets s) (lp_registry s) (lp_ctxs s) (lp_dirty s) (lp_pool s) (lp_assoc s) (lp_reasm s)
    (lp_dev s) (lp_metrics s) (lp_up s) (lp_relays s) (lp_tasks s) (lp_done s) (lp_global s)
    (lp_flush_calls s) v.

Definition M (A : Type) : Type := sm Loop ClientError A.
Definition mret {A} (a : A) : M A := mlift (Ok a).

(** [sockets.get_mut(handle)] aborts on an unknown handle. *)
Definition get_sock (h : nat) : M TcpSocket := let! s := mget in mlift (expect (lp_sockets s !! h)).
Definition put_sock (h : nat) (sock : TcpSocket) : M unit :=
  mupd (λ s, set_sockets (<[h := sock]> (lp_sockets s)) s).
Definition get_ctx (h : nat) : M (option SocketCtx) := let! s := mget in mret (lp_ctxs s !! h).
Definition put_ctx (h : nat) (c : SocketCtx) : M unit :=
  mupd (λ s, set_ctxs (<[h := c]> (lp_ctxs s)) s).

(** ** Channels of the relay tasks *)

(** [try_send] on a channel with content [q]. *)
Definition try_send (q : list (list byte)) (payload : list byte) : option (list (list byte)) :=
  if bool_decide (len q < RELAY_CHANNEL_CAPACITY) then Some (q ++ [payload]) else None.

Inductive reserve : Type := Permit | Full | ChannelClosed.

(** [tx.try_reserve()] on relay [i]'s channel. *)
Definition try_reserve (s : Loop) (i : nat) : reserve :=
  match lp_relays s !! i with
  | Some r =>
      match ry_phase r with
      | RelayFinished => ChannelClosed
      | _ => if bool_decide (len (ry_queue r) < RELAY_CHANNEL_CAPACITY) then Permit else Full
      end
  | None => ChannelClosed
  end.

Definition push_uplink (i : nat) (payload : list byte) : M unit :=
  mupd (λ s, set_relays (alter (λ r, mk_Relay (ry_handle r) (ry_stream r) (ry_queue r ++ [payload])
                                       (ry_written r) (ry_phase r) (ry_diag r)) i (lp_relays s)) s).

(** [spawn_remote_relay]: the metric and the new task, with the channel it receives from. *)
Definition spawn_remote_relay (h : nat) (stream : RelayStream U) (q : list (list byte)) : M unit :=
  mupd (λ s, set_relays (lp_relays s ++ [mk_Relay h stream q [] RelayRunning relay_diag_default])
               (set_metrics (inc_relays_spawned (lp_metrics s)) s)).

(** ** DNS *)

(** [Err] is [None]: the query cannot be parsed. *)
Definition forge_dns_reply (udp : UdpInbound) (pool : FakeIpPool) (now_secs : Z)
  : res unit (list byte * FakeIpPool) :=
  let? q := parse_query (ui_payload udp) in
  let '(resp, pool) :=
    if bool_decide (dq_qtype q = QTYPE_A) then
      let '(ip, pool) := pool_alloc pool (dq_qname q) now_secs in
      (build_response q (AnswerA ip 5), pool)
    else (build_response q NoData, pool) in
  let? pkt := build_udp_ip_packet (ui_dst_ip udp, 53) (ui_src_ip udp, ui_src_port udp) resp in
  Ok (pkt, pool).

(** [inject_ip_packet] and [flush_tx], whose error is only logged. *)
Definition inject_and_flush (pkt : list byte) (writes : list bool) : M unit :=
  mupd (λ s, set_dev (flush_tx writes (inject_ip_packet macos pkt (lp_dev s))).1 s).

Definition handle_dns_hijack (pkt : list byte) (writes : list bool) (now_secs : Z) : M unit :=
  match parse_inbound_udp pkt with
  | None => mret tt
  | Some udp =>
      let! s := mget in
      match forge_dns_reply udp (lp_pool s) now_secs with
      | Ok (reply, pool) =>
          let! _ := mupd (set_pool pool) in
          let! _ := mupd (λ s, set_metrics (inc_dns_forged (lp_metrics s)) s) in
          inject_and_flush reply writes
      | Err _ => mupd (λ s, set_metrics (inc_dns_dropped (lp_metrics s)) s)
      | Panic => mlift Panic
      end
  end.

(** ** UDP *)

Definition release_all (ips : list Z) (now_secs : Z) (pool : FakeIpPool) : FakeIpPool :=
  fold_left (λ p ip, pool_release p ip now_secs) ips pool.

(** [intern] does not return when no id is free, which is an abort here ([None]). *)
Definition handle_tuic_udp_uplink (pkt : list byte) (now_secs : Z) : M unit :=
  match parse_inbound_udp pkt with
  | None => mret tt
  | Some udp =>
      let! s := mget in
      match resolve_target (V4 (ui_dst_ip udp) (ui_dst_port udp)) (lp_pool s) with
      | Refuse => mret tt
      | Block => mret tt
      | Direct target fake_ip =>
          let tuple := mk_FourTuple (ui_src_ip udp) (ui_src_port udp) (ui_dst_ip udp) (ui_dst_port udp) in
          let is_new := negb (assoc_contains (lp_assoc s) tuple) in
          let! '(assoc_id, table) := mlift (expect (intern (lp_assoc s) tuple)) in
          let table := assoc_touch table assoc_id now_secs in
          let '(table, pool) :=
            match is_new, fake_ip with
            | true, Some ip => (set_fake_ip table assoc_id ip, pool_acquire (lp_pool s) ip now_secs)
            | _, _ => (table, lp_pool s)
            end in
          let '(reclaimed, table) := take_reclaimed_fake_ips table in
          let! _ := mupd (set_assoc table) in
          let! _ := mupd (set_pool (release_all reclaimed now_secs pool)) in
          mupd (λ s, set_up (up_send_udp (lp_up s) (encode_packet assoc_id target (ui_payload udp))) s)
      end
  end.

(** The [tuic_downlink_rx] branch. *)
Definition handle_downlink (dg : list byte) (writes : list bool) (now_secs : Z) : M unit :=
  match decode_packet_meta dg with
  | Err _ => mret tt
  | Panic => mlift Panic
  | Ok meta =>
      let! s := mget in
      match frag_accept (lp_reasm s) meta now_secs with
      | Ok (payload, reasm) =>
          let! _ := mupd (set_reasm reasm) in
          match payload with
          | None => mret tt
          | Some payload =>
              match assoc_resolve (lp_assoc s) (pm_assoc_id meta) with
              | None => mret tt
              | Some e =>
                  let! pkt := mlift (build_udp_ip_packet (target_src e) (app_endpoint e) payload) in
                  let! _ := mupd (λ s, set_assoc (assoc_touch (lp_assoc s) (pm_assoc_id meta) now_secs) s) in
                  inject_and_flush pkt writes
              end
          end
      | Err _ => mret tt
      | Panic => mlift Panic
      end
  end.

(** ** TCP: local side *)

Definition rearm_slot (h : nat) (now_secs : Z) : M unit :=
  let! sock := get_sock h in
  let! c := get_ctx h in
  match c with
  | None => mret tt
  | Some c =>
      let! s := mget in
      let! '(sock, c, pool) := mlift (rearm_socket_with_reason sock c (lp_pool s) now_secs) in
      let! _ := put_sock h sock in
      let! _ := put_ctx h c in
      mupd (set_pool pool)
  end.

Definition acquire_fake (h : nat) (fake_ip : option Z) (now_secs : Z) : M unit :=
  match fake_ip with
  | None => mret tt
  | Some ip =>
      mupd (λ s, set_ctxs (alter (set_fake (Some ip)) h (lp_ctxs s))
                   (set_pool (pool_acquire (lp_pool s) ip now_secs) s))
  end.

(** The inline branch of [handle_local_payload]: the stream is opened before the loop goes on. *)
Definition open_inline (h : nat) (payload : list byte) (target : TargetAddr) (fake_ip : option Z)
    (c : SocketCtx) (now_secs : Z) : M unit :=
  let! _ := put_ctx h (set_state OpeningRemote c) in
  let! s := mget in
  let '(up, opened) := up_open_tcp (lp_up s) target in
  let! _ := mupd (set_up up) in
  let! stream := mlift opened in
  match try_send [] payload with
  | None => rearm_slot h now_secs
  | Some q =>
      let! s := mget in
      let! _ := put_ctx h (set_state Relaying (set_uplink (Some (length (lp_relays s))) c)) in
      let! _ := acquire_fake h fake_ip now_secs in
      spawn_remote_relay h stream q
  end.

(** The spawning branch: the slot waits in a new epoch, with the payload kept. *)
Definition open_spawned (h : nat) (payload : list byte) (target : TargetAddr) (fake_ip : option Z)
    (c : SocketCtx) (now_secs : Z) : M unit :=
  let epoch := wrapping_add_u64 (cx_conn_epoch c) 1 in
  let! _ := put_ctx h (set_epoch epoch (set_state HandshakePending c)) in
  let! _ := acquire_fake h fake_ip now_secs in
  let! _ := mupd (λ s, set_ctxs (alter (λ c, (buffer_uplink payload c).1) h (lp_ctxs s)) s) in
  mupd (λ s, set_tasks (lp_tasks s ++ [mk_HandshakeTask h epoch target]) s).

Definition handle_local_payload (h : nat) (payload : list byte) (target : option TargetAddr)
    (fake_ip : option Z) (now_secs : Z) : M unit :=
  let! c := get_ctx h in
  match c with
  | None => mret tt
  | Some c =>
      if bool_decide (cx_state c = HandshakePending) then put_ctx h (buffer_uplink payload c).1
      else
        match target with
        | None => mret tt
        | Some target =>
            if up_open_is_cheap U then open_inline h payload target fake_ip c now_secs
            else open_spawned h payload target fake_ip c now_secs
        end
  end.

(** The first block of [process_listener_activity]: push the downlink backlog. *)
Definition advance_downlink (h : nat) : M unit :=
  let! sock := get_sock h in
  let! c := get_ctx h in
  match c with
  | Some c => let '(sock, c) := flush_downlink sock c in let! _ := put_sock h sock in put_ctx h c
  | None => mret tt
  end.

(** The block [established_uplink] with a sender: a permit first, then the bytes. *)
Definition forward_established (h tx : nat) (c : SocketCtx) (now_secs : Z) : M unit :=
  let! s := mget in
  match try_reserve s tx with
  | Permit =>
      let! sock := get_sock h in
      let! '(payload, sock) := mlift (extract_socket_payload sock) in
      let! _ := put_sock h sock in
      match payload with
      | Some payload =>
          let! _ := push_uplink tx payload in
          put_ctx h (set_state Relaying c)
      | None => mret tt
      end
  | Full => mret tt
  | ChannelClosed => rearm_slot h now_secs
  end.

(** The rest, without a sender: take the payload and decide where it goes. *)
Definition forward_first (h : nat) (now_secs : Z) : M unit :=
  let! sock := get_sock h in
  let! '(payload, sock) := mlift (extract_socket_payload sock) in
  let! _ := put_sock h sock in
  match payload, local_endpoint sock with
  | Some payload, Some endpoint =>
      let! s := mget in
      match resolve_target endpoint (lp_pool s) with
      | Direct target fake_ip => handle_local_payload h payload (Some target) fake_ip now_secs
      | Refuse => rearm_slot h now_secs
      | Block => rearm_slot h now_secs
      end
  | _, _ => mret tt
  end.

Definition process_listener_activity (h : nat) (now_secs : Z) : M unit :=
  let! _ := advance_downlink h in
  let! c := get_ctx h in
  match c with
  | None => mret tt
  | Some c =>
      match cx_uplink_tx c with
      | Some tx => forward_established h tx c now_secs
      | None => forward_first h now_secs
      end
  end.

(** An error of [process_listener_activity] is logged. *)
Definition log_err (m : M unit) : M unit := λ s,
  match m s with
  | (s, Err _) => (s, Ok tt)
  | sr => sr
  end.

(** One iteration of the loop of [process_dirty_relay]. *)
Definition process_dirty_handle (now_secs : Z) (h : nat) : M unit :=
  let! _ := log_err (process_listener_activity h now_secs) in
  let! sock := get_sock h in
  let! c := get_ctx h in
  let has_recv := can_recv sock in
  let has_pending := match c with
                     | Some c => negb (bool_decide (cx_downlink_pending c = []))
                     | None => false
                     end in
  if has_recv || has_pending then mret tt
  else mupd (λ s, set_dirty (lp_dirty s ∖ {[h]}) s).

Fixpoint process_dirty_handles (now_secs : Z) (hs : list nat) : M unit :=
  match hs with
  | [] => mret tt
  | h :: hs => let! _ := process_dirty_handle now_secs h in process_dirty_handles now_secs hs
  end.

(** [order] is the iteration order of the [HashSet]. *)
Definition process_dirty_relay (order : list nat → list nat) (now_secs : Z) : M unit :=
  let! s := mget in
  process_dirty_handles now_secs (order (elements (lp_dirty s))).

(** ** TCP: remote side *)

Definition handle_handshake_done (done : HandshakeDone) (now_secs : Z) : M unit :=
  let h := hd_handle done in
  let! c := get_ctx h in
  match c with
  | None => mret tt
  | Some c =>
      if bool_decide (cx_conn_epoch c ≠ hd_epoch done) then mret tt
      else if bool_decide (cx_state c ≠ HandshakePending) then mret tt
      else
        match hd_result done with
        | inl stream =>
            let flushed :=
              if bool_decide (cx_uplink_buffer c = []) then Some (c, [])
              else match try_send [] (cx_uplink_buffer c) with
                   | Some q => Some (set_buffer [] c, q)
                   | None => None
                   end in
            match flushed with
            | None => rearm_slot h now_secs
            | Some (c, q) =>
                let! s := mget in
                let! _ := put_ctx h (set_state Relaying (set_uplink (Some (length (lp_relays s))) c)) in
                spawn_remote_relay h stream q
            end
        | inr _ => rearm_slot h now_secs
        end
  end.

(** ** The TCP stack and the device *)

Record poll_env := mk_poll_env {
  pe_sock : nat → TcpSocket → TcpSocket;
  pe_emit : list (list byte);
  pe_writes : list bool;
  pe_order : list nat → list nat
}.

(** [iface.poll(timestamp, &mut device, &mut sockets)] *)
Definition iface_poll (env : poll_env) : M unit :=
  mupd (λ s, set_sockets (imap (pe_sock env) (lp_sockets s))
               (set_dev (device_poll macos (pe_emit env) (lp_dev s)) s)).

(** [device.flush_tx()]; whether it succeeded. *)
Definition dev_flush (writes : list bool) : M bool := λ s,
  let '(d, ok) := flush_tx writes (lp_dev s) in (set_dev d s, Ok ok).

(** Poll and flush with the two counters, as the packet and timer branches do. *)
Definition poll_and_flush (env : poll_env) : M unit :=
  let! _ := iface_poll env in
  let! _ := mupd (λ s, set_flush_calls (lp_flush_calls s + 1) s) in
  let! ok := dev_flush (pe_writes env) in
  if ok then mret tt else mupd (λ s, set_flush_failures (lp_flush_failures s + 1) s).

Definition handle_remote_payload (h : nat) (payload : list byte) (env : poll_env) (now_secs : Z) : M unit :=
  let! sock := get_sock h in
  let! c := get_ctx h in
  match c with
  | None => mret tt
  | Some c =>
      if bool_decide (payload = []) then rearm_slot h now_secs
      else
        match cx_uplink_tx c with
        | None => mret tt
        | Some _ =>
            let pending := cx_downlink_pending c ++ payload in
            let c := set_pending pending (note_remote_payload (len payload) (len pending) (cx_downlink_diag c)) c in
            let '(sock, c) := flush_downlink sock c in
            let! _ := put_sock h sock in
            let! _ := put_ctx h (set_state Relaying c) in
            let! _ := iface_poll env in
            let! ok := dev_flush (pe_writes env) in
            mupd (λ s, set_ctxs (alter (λ c, set_diag (note_tun_flush ok (cx_downlink_diag c)) c) h (lp_ctxs s)) s)
        end
  end.

(** ** The branches of [run_event_loop] *)

Definition mark_if_pending (h : nat) : M unit :=
  let! c := get_ctx h in
  match c with
  | Some c => if bool_decide (cx_downlink_pending c = []) then mret tt
              else mupd (λ s, set_dirty ({[h]} ∪ lp_dirty s) s)
  | None => mret tt
  end.

(** The SYN inspector: pools for the port, then every slot of the port is marked. *)
Definition inspect_and_mark (buf : list byte) : M unit :=
  match inspect_inbound_tcp buf with
  | None => mret tt
  | Some (port, is_clean_syn) =>
      let! _ :=
        if (is_clean_syn : bool) then
          let! s := mget in
          let! '(r, sl, _) := mlift (ensure_port (lp_registry s) port (lp_sockets s, lp_ctxs s)) in
          let! '(r, sl, _) := mlift (ensure_spare_listeners r port MIN_SPARE_LISTENERS sl) in
          mupd (λ s, set_registry r (set_sockets sl.1 (set_ctxs sl.2 s)))
        else mret tt in
      mupd (λ s, set_dirty (list_to_set (handles_for_port (lp_registry s) port) ∪ lp_dirty s) s)
  end.

Definition on_rx (read : option (list byte)) (env : poll_env) (now_secs : Z) : M unit :=
  let! s := mget in
  let '(dev, r) := wait_for_rx macos read (lp_dev s) in
  let! _ := mupd (set_dev dev) in
  match r with
  | Ok _ =>
      match classify_inbound <$> rx_peek dev with
      | Some InUdpRelay =>
          let '(pkt, dev) := rx_take dev in
          let! _ := mupd (set_dev dev) in
          match pkt with Some pkt => handle_tuic_udp_uplink pkt now_secs | None => mret tt end
      | Some InDns =>
          let '(pkt, dev) := rx_take dev in
          let! _ := mupd (set_dev dev) in
          match pkt with Some pkt => handle_dns_hijack pkt (pe_writes env) now_secs | None => mret tt end
      | _ =>
          let! _ := match rx_peek dev with Some buf => inspect_and_mark buf | None => mret tt end in
          let! _ := poll_and_flush env in
          process_dirty_relay (pe_order env) now_secs
      end
  | _ => mret tt
  end.

Definition on_global (env : poll_env) (now_secs : Z) : M unit :=
  let! s := mget in
  match lp_global s with
  | [] => mret tt
  | (h, payload) :: rest =>
      let! _ := mupd (set_global rest) in
      let! _ := log_err (handle_remote_payload h payload env now_secs) in
      mark_if_pending h
  end.

Definition on_done (now_secs : Z) : M unit :=
  let! s := mget in
  match lp_done s with
  | [] => mret tt
  | done :: rest =>
      let! _ := mupd (set_done rest) in
      handle_handshake_done done now_secs
  end.

Definition on_udp_sweep (now_secs : Z) : M unit :=
  let! s := mget in
  let '(ips, table) := assoc_sweep (lp_assoc s) now_secs UDP_FLOW_IDLE_SECS in
  let! _ := mupd (set_assoc table) in
  let! _ := mupd (set_pool (release_all ips now_secs (lp_pool s))) in
  let! _ := mupd (λ s, set_reasm (frag_sweep (lp_reasm s) now_secs FRAG_REASSEMBLY_TTL_SECS) s) in
  let! s := mget in
  let! '(sl, pool, _) := mlift (reap_dead_slots (lp_registry s) (lp_sockets s, lp_ctxs s) (lp_pool s) now_secs) in
  mupd (λ s, set_sockets sl.1 (set_ctxs sl.2 (set_pool pool s))).

Definition on_fake_ip_sweep (now_secs : Z) : M unit :=
  mupd (λ s, set_pool (pool_sweep (lp_pool s) now_secs FAKE_IP_TTL).2 s).

Definition publish_gauges (m : Metrics) (ctxs : list SocketCtx) (pool : FakeIpPool) (leg : Z) : Metrics :=
  let active := len (filter (λ c, cx_state c = Relaying) ctxs) in
  let '(total, act) := pool_usage pool in
  set_failover_leg (set_fake_ip_gauge (set_active_relays m (as_u32 active)) (as_u32 total) (as_u32 act)) leg.

Definition on_metrics : M unit :=
  mupd (λ s, set_metrics (publish_gauges (lp_metrics s) (map_to_list (lp_ctxs s)).*2 (lp_pool s)
                            (up_failover_leg (lp_up s))) s).

(** The line the metrics branch prints. *)
Definition metrics_line (s : Loop) : MetricsSnapshot :=
  snapshot (lp_metrics s) (up_drops (lp_up s)) (up_stream_fallbacks (lp_up s)).

Definition on_timer (env : poll_env) (now_secs : Z) : M unit :=
  let! _ := poll_and_flush env in
  process_dirty_relay (pe_order env) now_secs.

(** ** The spawned tasks *)

(** The [i]-th handshake finishes: its result is queued when the queue has room (it waits
    otherwise); a task that aborts sends nothing. *)
Definition on_task (i : nat) : M unit :=
  let! s := mget in
  match lp_tasks s !! i with
  | None => mret tt
  | Some t =>
      if bool_decide (len (lp_done s) < HANDSHAKE_DONE_CAPACITY) then
        let '(up, r) := up_open_tcp (lp_up s) (ht_target t) in
        let! _ := mupd (set_up up) in
        let! _ := mupd (set_tasks (delete i (lp_tasks s))) in
        match r with
        | Ok stream => mupd (set_done (lp_done s ++ [mk_HandshakeDone (ht_handle t) (ht_epoch t) (inl stream)]))
        | Err e => mupd (set_done (lp_done s ++ [mk_HandshakeDone (ht_handle t) (ht_epoch t) (inr e)]))
        | Panic => mret tt
        end
      else mret tt
  end.

(** One turn of a relay task: a message from its channel (with whether the write succeeds), a read
    of its stream (data, end of file as no bytes, or an error) with the time the loop's queue made
    it wait, the idle timer, or the end of its shutdown. *)
Inductive relay_action : Type :=
| RelayLocal (write_ok : bool)
| RelayRemote (read : option (list byte)) (waited_micros : Z)
| RelayIdle
| RelayClose.

Definition set_relay (i : nat) (r : Relay) : M unit := mupd (λ s, set_relays (<[i := r]> (lp_relays s)) s).

(** Whether some slot still holds the sender of relay [i]'s channel. *)
Definition sender_alive (s : Loop) (i : nat) : bool :=
  existsb (λ kc, bool_decide (cx_uplink_tx kc.2 = Some i)) (map_to_list (lp_ctxs s)).

Definition relay_break (r : Relay) : Relay :=
  mk_Relay (ry_handle r) (ry_stream r) (ry_queue r) (ry_written r) RelayShutdown (ry_diag r).

Definition run_relay (i : nat) (a : relay_action) : M unit :=
  let! s := mget in
  match lp_relays s !! i with
  | None => mret tt
  | Some r =>
      match ry_phase r, a with
      | RelayRunning, RelayLocal write_ok =>
          match ry_queue r with
          | payload :: q =>
              if (write_ok : bool) then
                set_relay i (mk_Relay (ry_handle r) (ry_stream r) q (ry_written r ++ payload) RelayRunning
                               (note_uplink_write (len payload) (ry_diag r)))
              else set_relay i (mk_Relay (ry_handle r) (ry_stream r) q (ry_written r) RelayShutdown (ry_diag r))
          | [] => if sender_alive s i then mret tt else set_relay i (relay_break r)
          end
      | RelayRunning, RelayRemote read waited =>
          match read with
          | None => set_relay i (relay_break r)
          | Some data =>
              if bool_decide (len (lp_global s) < RELAY_CHANNEL_CAPACITY) then
                if bool_decide (data = []) then
                  let! _ := mupd (set_global (lp_global s ++ [(ry_handle r, [])])) in
                  set_relay i (relay_break r)
                else
                  let data := ztake RELAY_BUF data in
                  let diag := note_global_rx_wait waited PRESSURE_MICROS (note_remote_read (len data) (ry_diag r)) in
                  let! _ := mupd (set_global (lp_global s ++ [(ry_handle r, data)])) in
                  set_relay i (mk_Relay (ry_handle r) (ry_stream r) (ry_queue r) (ry_written r) RelayRunning diag)
              else mret tt
          end
      | RelayRunning, RelayIdle => set_relay i (relay_break r)
      | RelayShutdown, RelayClose =>
          set_relay i (mk_Relay (ry_handle r) (ry_stream r) (ry_queue r) (ry_written r) RelayFinished (ry_diag r))
      | _, _ => mret tt
      end
  end.

(** ** Events *)

Inductive loop_event : Type :=
| EvGlobal (env : poll_env) (now_secs : Z)
| EvRx (read : option (list byte)) (env : poll_env) (now_secs : Z)
| EvDone (now_secs : Z)
| EvDownlink (dg : list byte) (writes : list bool) (now_secs : Z)
| EvUdpSweep (now_secs : Z)
| EvFakeIpSweep (now_secs : Z)
| EvMetrics
| EvTimer (env : poll_env) (now_secs : Z)
| EvTask (i : nat)
| EvRelay (i : nat) (a : relay_action).

(** One event; an event that cannot happen leaves the state as it is. *)
Definition loop_step (e : loop_event) : M unit :=
  match e with
  | EvGlobal env now => on_global env now
  | EvRx read env now => on_rx read env now
  | EvDone now => on_done now
  | EvDownlink dg writes now => handle_downlink dg writes now
  | EvUdpSweep now => on_udp_sweep now
  | EvFakeIpSweep now => on_fake_ip_sweep now
  | EvMetrics => on_metrics
  | EvTimer env now => on_timer env now
  | EvTask i => on_task i
  | EvRelay i a => run_relay i a
  end.

Fixpoint loop_run (es : list loop_event) : M unit :=
  match es with
  | [] => mret tt
  | e :: es => let! _ := loop_step e in loop_run es
  end.

(** The state [run_event_loop] starts from. *)
Definition loop_init (pool_size mtu : Z) (up : U) : Loop :=
  {| lp_sockets := []; lp_registry := registry_new pool_size; lp_ctxs := ∅; lp_dirty := ∅;
     lp_pool := pool_new; lp_assoc := assoc_new; lp_reasm := frag_new; lp_dev := device_new mtu;
     lp_metrics := metrics_new; lp_up := up; lp_relays := []; lp_tasks := []; lp_done := [];
     lp_global := []; lp_flush_calls := 0; lp_flush_failures := 0 |}.

End client.

(** Run the primitive operations on a concrete state. *)
Ltac mrun := unfold get_sock, get_ctx, put_sock, put_ctx, mret, mthen, mget, mupd, mlift; cbn.
