(* ===== verification/TunInv.v ===== *)
(** * TunInv: the invariant of the event loop

    [loop_inv] ties the loop's tables together: listener pools and contexts, relay tasks, the
    reference counts of the fake-IP pool, and the handshakes in flight with the epochs of their
    slots.  The lemmas show how each primitive change of a slot keeps it; [TunStep] composes them
    into the steps of the loop. *)

From S2P Require Import Prelude Shared Text Dns FakeIp TuicCodec Frag Assoc Metrics UdpRelay Device TunSlot Upstream ClientTun.

(** ** Holders of fake IPs *)

Definition ctx_holders (ctxs : gmap nat SocketCtx) (ip : Z) : Z :=
  Z.of_nat (size (filter (λ hc, cx_fake_ip hc.2 = Some ip) ctxs)).

(** The reference count of an address, 0 when it has no mapping. *)
Definition refs (p : FakeIpPool) (ip : Z) : Z :=
  match fp_ip_to_mapping p !! ip with Some m => mp_refcount m | None => 0 end.

Definition holds (c : SocketCtx) (ip : Z) : Z := if decide (cx_fake_ip c = Some ip) then 1 else 0.

Lemma ctx_holders_delete ctxs h c ip :
  ctxs !! h = Some c → ctx_holders ctxs ip = ctx_holders (delete h ctxs) ip + holds c ip.
Proof.
  intros Hc. unfold ctx_holders, holds. rewrite map_filter_delete. case_decide as Hd.
  - assert (filter (λ hc, cx_fake_ip hc.2 = Some ip) ctxs !! h = Some c) as Hf by (by apply map_lookup_filter_Some).
    rewrite (map_size_delete_Some h) by eauto.
    assert (size (filter (λ hc, cx_fake_ip hc.2 = Some ip) ctxs) ≠ 0%nat); [|lia].
    intros E%map_size_empty_inv. by rewrite E, lookup_empty in Hf.
  - rewrite (delete_id (filter _ ctxs)); [lia|]. apply map_lookup_filter_None. right.
    intros y Hy. cbn. congruence.
Qed.

Lemma ctx_holders_insert ctxs h c c' ip :
  ctxs !! h = Some c → ctx_holders (<[h := c']> ctxs) ip = ctx_holders ctxs ip - holds c ip + holds c' ip.
Proof.
  intros Hc. rewrite (ctx_holders_delete _ h c' ip) by apply lookup_insert_eq.
  rewrite (ctx_holders_delete ctxs h c ip Hc), delete_insert_eq. lia.
Qed.

Lemma ctx_holders_new ctxs h c' ip :
  ctxs !! h = None → ctx_holders (<[h := c']> ctxs) ip = ctx_holders ctxs ip + holds c' ip.
Proof.
  intros Hc. rewrite (ctx_holders_delete _ h c' ip) by apply lookup_insert_eq.
  by rewrite delete_insert_id.
Qed.

Lemma ctx_holders_nonneg ctxs ip : 0 ≤ ctx_holders ctxs ip.
Proof. unfold ctx_holders. lia. Qed.

Lemma ctx_holders_le ctxs ip : ctx_holders ctxs ip ≤ Z.of_nat (size ctxs).
Proof.
  unfold ctx_holders. pose proof (map_subseteq_size _ _ (map_filter_subseteq (λ hc, cx_fake_ip hc.2 = Some ip) ctxs)). lia.
Qed.

Lemma holds_nonneg c ip : 0 ≤ holds c ip ≤ 1.
Proof. unfold holds. case_decide; lia. Qed.

Lemma held_le t ip : held t ip ≤ Z.of_nat (size (at_id_to_fake_ip t)).
Proof.
  unfold held, fake_count.
  pose proof (map_subseteq_size _ _ (map_filter_subseteq (λ kv, kv.2 = ip) (at_id_to_fake_ip t))). lia.
Qed.

Lemma assoc_wf_fakes t : assoc_wf t → Z.of_nat (size (at_id_to_fake_ip t)) ≤ 65535.
Proof.
  intros Hw. pose proof (aw_size _ Hw). pose proof (aw_cap _ Hw).
  pose proof (subseteq_size _ _ (aw_fake _ Hw)) as Hs. rewrite !size_dom in Hs. lia.
Qed.

Lemma refs_acquire p ip now x :
  is_Some (fp_ip_to_mapping p !! ip) → 0 ≤ refs p ip < 2 ^ 32 - 1 →
  refs (pool_acquire p ip now) x = refs p x + (if decide (ip = x) then 1 else 0).
Proof.
  intros [m Hm] Hr. unfold refs, pool_acquire in *. cbn. rewrite Hm in Hr. case_decide as Hd.
  - subst x. rewrite lookup_alter_eq, Hm. cbn. unfold as_u32. rewrite Z.mod_small; lia.
  - rewrite lookup_alter_ne by done. lia.
Qed.

Lemma refs_release p ip now x :
  0 < refs p ip → refs (pool_release p ip now) x = refs p x - (if decide (ip = x) then 1 else 0).
Proof.
  intros Hr. unfold refs, pool_release in *. cbn. case_decide as Hd.
  - subst x. rewrite lookup_alter_eq. destruct (fp_ip_to_mapping p !! ip); cbn; [ulia|lia].
  - rewrite lookup_alter_ne by done. lia.
Qed.

(** Releasing a list of addresses lowers each count by the number of its occurrences. *)
Lemma refs_release_all ips now p :
  (∀ x, occurrences ips x ≤ refs p x) →
  ∀ x, refs (release_all ips now p) x = refs p x - occurrences ips x.
Proof.
  revert p. induction ips as [|ip ips IH]; intros p Ho x; cbn.
  - unfold occurrences. cbn. rewrite len_nil. lia.
  - assert (∀ y, occurrences (ip :: ips) y = (if decide (ip = y) then 1 else 0) + occurrences ips y) as Hcons.
    { intros y. change (ip :: ips) with ([ip] ++ ips). by rewrite occurrences_app, occurrences_one. }
    assert (0 < refs p ip) as Hp.
    { pose proof (Ho ip) as H. rewrite Hcons, decide_True in H by done.
      assert (0 ≤ occurrences ips ip) by (unfold occurrences; apply len_nonneg). lia. }
    unfold release_all in *. rewrite IH.
    + rewrite refs_release, Hcons by done. lia.
    + intros y. rewrite refs_release by done. pose proof (Ho y) as H. rewrite Hcons in H. lia.
Qed.

Lemma release_all_wf ips now p : pool_wf p → pool_wf (release_all ips now p).
Proof. unfold release_all. revert p. induction ips; cbn; auto using pool_release_wf. Qed.

(** ** Contexts *)

(** What a context looks like in each state, at the end of every event. *)
Definition ctx_ok (c : SocketCtx) : Prop :=
  match cx_state c with
  | Listening | OpeningRemote =>
      cx_uplink_tx c = None ∧ cx_fake_ip c = None ∧ cx_uplink_buffer c = [] ∧ cx_downlink_pending c = []
  | HandshakePending => cx_uplink_tx c = None ∧ cx_downlink_pending c = []
  | Relaying => is_Some (cx_uplink_tx c) ∧ cx_uplink_buffer c = []
  | Closing | Rearming => False
  end ∧ len (cx_uplink_buffer c) ≤ MAX_UPLINK_BUFFER ∧ 0 ≤ cx_conn_epoch c.

Ltac by_state c H :=
  destruct (cx_state c); try done;
  repeat match goal with X : _ ∧ _ |- _ => destruct X | X : is_Some _ |- _ => destruct X end;
  try congruence; auto.

Lemma ctx_ok_uplink c i : ctx_ok c → cx_uplink_tx c = Some i → cx_state c = Relaying ∧ cx_uplink_buffer c = [].
Proof. intros [H _] Hi. by_state c H. Qed.

Lemma ctx_ok_none c :
  ctx_ok c → cx_uplink_tx c = None → cx_state c ≠ HandshakePending →
  cx_fake_ip c = None ∧ cx_uplink_buffer c = [] ∧ cx_downlink_pending c = [] ∧ cx_state c ≠ Relaying.
Proof. intros [H _] Hi Hs. by_state c H. Qed.

Lemma ctx_ok_pending c : ctx_ok c → cx_uplink_tx c = None → cx_downlink_pending c = [].
Proof. intros [H _] Hi. by_state c H. Qed.

Lemma ctx_ok_new port : ctx_ok (ctx_new port).
Proof. split; [done|]. unfold MAX_UPLINK_BUFFER, len. cbn. lia. Qed.

Lemma wrapping_add_ok e : 0 ≤ e < 2 ^ 64 - 1 → wrapping_add_u64 e 1 = e + 1.
Proof. intros. unfold wrapping_add_u64. rewrite Z.mod_small; lia. Qed.

Lemma ctx_ok_rearmed c : 0 ≤ cx_conn_epoch c < 2 ^ 64 - 1 → ctx_ok (rearmed c).
Proof.
  intros He. split; [done|]. cbn [rearmed cx_uplink_buffer cx_conn_epoch]. rewrite wrapping_add_ok by done.
  unfold MAX_UPLINK_BUFFER, len. cbn. lia.
Qed.

Lemma buffer_uplink_ok payload c :
  ctx_ok c → cx_state c = HandshakePending → ctx_ok (buffer_uplink payload c).1.
Proof.
  intros Hok Hs. unfold buffer_uplink. case_bool_decide; [done|].
  destruct Hok as (Hst & _ & He). rewrite Hs in Hst. split; cbn; [by rewrite Hs|].
  rewrite len_app. lia.
Qed.

(** ** Epochs *)

(** Every handshake in flight is of an epoch of its slot, at most one is of the current one, and it
    exists exactly while the slot waits for it. *)
Record epochs_ok (ctxs : gmap nat SocketCtx) (out : list (nat * Z)) : Prop := {
  eo_nodup : NoDup out;
  eo_old : ∀ h e, (h, e) ∈ out →
    ∃ c, ctxs !! h = Some c ∧ e ≤ cx_conn_epoch c ∧ (e = cx_conn_epoch c → cx_state c = HandshakePending);
  eo_pending : ∀ h c, ctxs !! h = Some c → cx_state c = HandshakePending → (h, cx_conn_epoch c) ∈ out
}.

Lemma epochs_same ctxs out h c c' :
  epochs_ok ctxs out → ctxs !! h = Some c → cx_conn_epoch c' = cx_conn_epoch c →
  (cx_state c' = HandshakePending ↔ cx_state c = HandshakePending) → epochs_ok (<[h := c']> ctxs) out.
Proof.
  intros [Hn Ho Hp] Hc He Hs. split; [done| |].
  - intros h' e Hin. destruct (Ho _ _ Hin) as (c0 & Hc0 & Hle & Heq).
    destruct (decide (h' = h)) as [->|Hne]; [|rewrite lookup_insert_ne by done; eauto].
    simplify_eq. exists c'. rewrite lookup_insert_eq, He. split_and!; try done. tauto.
  - intros h' c0. rewrite lookup_insert_Some. intros [[<- <-]|[Hne Hc0]] Hst; [|eauto].
    rewrite He. by apply Hp; [|apply Hs].
Qed.

Lemma epochs_bump ctxs out h c c' :
  epochs_ok ctxs out → ctxs !! h = Some c → cx_conn_epoch c < cx_conn_epoch c' →
  cx_state c' ≠ HandshakePending → epochs_ok (<[h := c']> ctxs) out.
Proof.
  intros [Hn Ho Hp] Hc He Hs. split; [done| |].
  - intros h' e Hin. destruct (Ho _ _ Hin) as (c0 & Hc0 & Hle & Heq).
    destruct (decide (h' = h)) as [->|Hne]; [|rewrite lookup_insert_ne by done; eauto].
    simplify_eq. exists c'. rewrite lookup_insert_eq. split_and!; [done|lia|lia].
  - intros h' c0. rewrite lookup_insert_Some. intros [[<- <-]|[Hne Hc0]] Hst; [done|eauto].
Qed.

Lemma epochs_spawn ctxs out h c c' :
  epochs_ok ctxs out → ctxs !! h = Some c → cx_conn_epoch c < cx_conn_epoch c' →
  cx_state c' = HandshakePending → epochs_ok (<[h := c']> ctxs) ((h, cx_conn_epoch c') :: out).
Proof.
  intros [Hn Ho Hp] Hc He Hs. split.
  - apply NoDup_cons. split; [|done]. intros (c0 & Hc0 & Hle & _)%Ho. simplify_eq. lia.
  - intros h' e. rewrite elem_of_cons. intros [[= -> ->]|Hin].
    + exists c'. by rewrite lookup_insert_eq.
    + destruct (Ho _ _ Hin) as (c0 & Hc0 & Hle & Heq).
      destruct (decide (h' = h)) as [->|Hne]; [|rewrite lookup_insert_ne by done; eauto].
      simplify_eq. exists c'. rewrite lookup_insert_eq. split_and!; [done|lia|lia].
  - intros h' c0. rewrite lookup_insert_Some, elem_of_cons. intros [[<- <-]|[Hne Hc0]] Hst; [by left|right; eauto].
Qed.

(** The slot leaves the wait, and its handshake the list. *)
Lemma epochs_done ctxs out h c c' :
  epochs_ok ctxs ((h, cx_conn_epoch c) :: out) → ctxs !! h = Some c →
  cx_conn_epoch c ≤ cx_conn_epoch c' → cx_state c' ≠ HandshakePending → epochs_ok (<[h := c']> ctxs) out.
Proof.
  intros [Hn Ho Hp] Hc He Hs. apply NoDup_cons in Hn as [Hni Hn]. split; [done| |].
  - intros h' e Hin. destruct (Ho h' e ltac:(by right)) as (c0 & Hc0 & Hle & Heq).
    destruct (decide (h' = h)) as [->|Hne]; [|rewrite lookup_insert_ne by done; eauto].
    rewrite Hc in Hc0. injection Hc0 as <-. exists c'. rewrite lookup_insert_eq.
    assert (e ≠ cx_conn_epoch c) by (by intros ->).
    split_and!; [done|lia|lia].
  - intros h' c0. rewrite lookup_insert_Some. intros [[<- <-]|[Hne Hc0]] Hst; [done|].
    specialize (Hp h' c0 Hc0 Hst). apply elem_of_cons in Hp as [[= -> _]|Hp]; done.
Qed.

(** A result of an older epoch leaves the list. *)
Lemma epochs_stale ctxs out h e c :
  epochs_ok ctxs ((h, e) :: out) → ctxs !! h = Some c → e ≠ cx_conn_epoch c → epochs_ok ctxs out.
Proof.
  intros [Hn Ho Hp] Hc He. apply NoDup_cons in Hn as [Hni Hn]. split; [done| |].
  - intros h' e' Hin. apply Ho. by right.
  - intros h' c0 Hc0 Hst. specialize (Hp h' c0 Hc0 Hst). apply elem_of_cons in Hp as [[= -> <-]|Hp]; [|done].
    by simplify_eq.
Qed.

Lemma epochs_perm ctxs out out' : out ≡ₚ out' → epochs_ok ctxs out → epochs_ok ctxs out'.
Proof. intros Hp [Hn Ho Hs]. split; [by rewrite <-Hp|intros ? ?; rewrite <-Hp; auto|intros; rewrite <-Hp; auto]. Qed.

Lemma epochs_new ctxs out h port :
  epochs_ok ctxs out → ctxs !! h = None → epochs_ok (<[h := ctx_new port]> ctxs) out.
Proof.
  intros [Hn Ho Hp] Hc. split; [done| |].
  - intros h' e Hin. destruct (Ho _ _ Hin) as (c0 & Hc0 & Hle & Heq).
    rewrite lookup_insert_ne by (intros <-; simplify_eq). eauto.
  - intros h' c0. rewrite lookup_insert_Some. intros [[<- <-]|[Hne Hc0]] Hst; [done|eauto].
Qed.

(** ** The loop *)

(** The pool size the client is configured with: large enough for any machine, small enough that the
    reference counts cannot overflow. *)
Definition POOL_BOUND : Z := 2 ^ 20.
Definition MTU_BOUND : Z := 9000.

Section inv.
Context {TS : Smoltcp} {P : EtherParse} {U : Type} `{!ProxyUpstream U, !DatagramUpstream U}.
Abbreviation Loop := (@Loop TS U _).

Definition outstanding (s : Loop) : list (nat * Z) :=
  ((λ t, (ht_handle t, ht_epoch t)) <$> lp_tasks s) ++ ((λ d, (hd_handle d, hd_epoch d)) <$> lp_done s).

(** The slot each relay task serves. *)
Definition owners (s : Loop) : list nat := ry_handle <$> lp_relays s.

Definition links (ctxs : gmap nat SocketCtx) (own : list nat) : Prop :=
  ∀ h c i, ctxs !! h = Some c → cx_uplink_tx c = Some i → own !! i = Some h.

Record loop_inv (s : Loop) : Prop := {
  li_slots : slots_wf (lp_registry s) (lp_sockets s, lp_ctxs s);
  li_size : lr_pool_size (lp_registry s) ≤ POOL_BOUND ∧ lr_max_total (lp_registry s) = MAX_TOTAL_LISTENERS;
  li_ctx : ∀ h c, lp_ctxs s !! h = Some c → ctx_ok c;
  li_relay : links (lp_ctxs s) (owners s);
  li_handles : ∀ h, h ∈ owners s ++ (lp_global s).*1 → is_Some (lp_sockets s !! h);
  li_pool : pool_wf (lp_pool s);
  li_assoc : assoc_wf (lp_assoc s) ∧ at_reclaimed (lp_assoc s) = [];
  li_frag : frag_wf (lp_reasm s);
  li_fake : ∀ ip, refs (lp_pool s) ip = ctx_holders (lp_ctxs s) ip + held (lp_assoc s) ip;
  li_epoch : epochs_ok (lp_ctxs s) (outstanding s);
  li_dirty : ∀ h, h ∈ lp_dirty s → is_Some (lp_sockets s !! h);
  li_mtu : 0 ≤ vd_mtu (lp_dev s) ≤ MTU_BOUND
}.

(** No slot is about to run out of epochs. *)
Definition room (s : Loop) (h : nat) : Prop :=
  ∀ c, lp_ctxs s !! h = Some c → cx_conn_epoch c < 2 ^ 64 - 1.

Lemma inv_ctx_sock s h c :
  loop_inv s → lp_ctxs s !! h = Some c → is_Some (lp_sockets s !! h) ∧ cx_local_port c ≠ 0.
Proof. intros Hi Hc. exact (slots_wf_ctx _ _ _ _ (li_slots _ Hi) Hc). Qed.

Lemma inv_sock_ctx s h : loop_inv s → is_Some (lp_sockets s !! h) → is_Some (lp_ctxs s !! h).
Proof. intros Hi Hs. by apply (sw_dom _ _ (li_slots _ Hi) h). Qed.

Lemma inv_sockets_bound s : loop_inv s → Z.of_nat (length (lp_sockets s)) ≤ 4096 + 64 * POOL_BOUND.
Proof.
  intros Hi. destruct (li_size _ Hi) as [H1 H2]. pose proof (li_slots _ Hi) as Hs.
  pose proof (sw_total _ _ Hs) as Ht. pose proof (sw_bound _ _ Hs) as Hb. pose proof (sw_ports _ _ Hs) as Hp.
  pose proof (sw_size _ _ Hs) as Hz. cbn in Ht. unfold len in Ht.
  unfold MAX_INTERCEPTED_PORTS, MAX_TOTAL_LISTENERS in *. unfold POOL_BOUND in *. nia.
Qed.

Lemma ctxs_size s : loop_inv s → size (lp_ctxs s) = length (lp_sockets s).
Proof.
  intros Hi. rewrite <-(size_dom (D:=gset nat)).
  assert (dom (lp_ctxs s) = set_seq 0 (length (lp_sockets s))) as ->.
  { apply set_eq. intros h. rewrite elem_of_dom, elem_of_set_seq.
    pose proof (sw_dom _ _ (li_slots _ Hi) h) as Hd. cbn in Hd. rewrite Hd, lookup_lt_is_Some. lia. }
  by rewrite size_set_seq.
Qed.

(** Counts stay far below the width of the counter. *)
Lemma inv_refs_bound s ip : loop_inv s → 0 ≤ refs (lp_pool s) ip < 2 ^ 32 - 1.
Proof.
  intros Hi. rewrite (li_fake _ Hi ip).
  pose proof (ctx_holders_le (lp_ctxs s) ip) as H1. pose proof (ctx_holders_nonneg (lp_ctxs s) ip).
  pose proof (held_le (lp_assoc s) ip). pose proof (fake_count_nonneg (at_id_to_fake_ip (lp_assoc s)) ip).
  pose proof (assoc_wf_fakes _ (proj1 (li_assoc _ Hi))). pose proof (inv_sockets_bound _ Hi) as Hb.
  rewrite (ctxs_size _ Hi) in H1. unfold held in *. unfold POOL_BOUND in Hb. lia.
Qed.

(** A held address has a mapping. *)
Lemma inv_held_mapped s h c ip :
  loop_inv s → lp_ctxs s !! h = Some c → cx_fake_ip c = Some ip → 0 < refs (lp_pool s) ip.
Proof.
  intros Hi Hc Hf. rewrite (li_fake _ Hi), (ctx_holders_delete _ _ _ ip Hc).
  pose proof (ctx_holders_nonneg (delete h (lp_ctxs s)) ip).
  pose proof (fake_count_nonneg (at_id_to_fake_ip (lp_assoc s)) ip). unfold held, holds.
  rewrite decide_True by done. lia.
Qed.

(** ** Changing one slot *)

(** What a change of the slot [h] may touch. *)
Record slot_change (h : nat) (c c' : SocketCtx) (s s' : Loop) : Prop := {
  sc_reg : lp_registry s' = lp_registry s;
  sc_len : length (lp_sockets s') = length (lp_sockets s);
  sc_ctxs : lp_ctxs s' = <[h := c']> (lp_ctxs s);
  sc_port : cx_local_port c' = cx_local_port c;
  sc_assoc : lp_assoc s' = lp_assoc s;
  sc_frag : lp_reasm s' = lp_reasm s;
  sc_dirty : lp_dirty s' = lp_dirty s;
  sc_mtu : vd_mtu (lp_dev s') = vd_mtu (lp_dev s);
  sc_global : lp_global s' = lp_global s;
  sc_relays : ∃ k, owners s' = owners s ++ replicate k h;
  sc_link : ∀ i, cx_uplink_tx c' = Some i → owners s' !! i = Some h
}.

Lemma slot_change_inv h c c' s s' :
  loop_inv s → lp_ctxs s !! h = Some c → slot_change h c c' s s' → ctx_ok c' →
  pool_wf (lp_pool s') →
  (∀ ip, refs (lp_pool s') ip = refs (lp_pool s) ip - holds c ip + holds c' ip) →
  epochs_ok (<[h := c']> (lp_ctxs s)) (outstanding s') → loop_inv s'.
Proof.
  intros Hi Hc [R1 R2 R3 R4 R5 R6 R7 Rm Rg [k R8] R9] Hok Hpw Hrefs Hep.
  assert (slots_wf (lp_registry s') (lp_sockets s', lp_ctxs s')) as Hsl.
  { rewrite R1, R3. apply (slots_wf_socks _ (lp_sockets s)); [|done].
    eapply slots_wf_ctxs; [apply Hi|done|done]. }
  split; [done| | | | |done| | | | | |].
  - rewrite R1. apply Hi.
  - intros h' c0. rewrite R3, lookup_insert_Some. intros [[<- <-]|[_ H0]]; [done|]. by eapply (li_ctx _ Hi).
  - intros h' c0 i. rewrite R3, lookup_insert_Some. intros [[<- <-]|[_ H0]] Hu; [by apply R9|].
    rewrite R8. apply lookup_app_l_Some. by apply (li_relay _ Hi _ _ _ H0).
  - intros h' Hh'. rewrite lookup_lt_is_Some, R2, <-lookup_lt_is_Some. rewrite R8, Rg in Hh'.
    assert (h' = h ∨ h' ∈ owners s ++ (lp_global s).*1) as [->|Hin].
    { rewrite !elem_of_app in *. destruct Hh' as [[?|Hx]|?]; auto. apply elem_of_replicate in Hx as [-> _]. auto. }
    + by eapply inv_ctx_sock.
    + by apply (li_handles _ Hi).
  - rewrite R5. apply Hi.
  - rewrite R6. apply Hi.
  - intros ip. rewrite Hrefs, R3, R5, (ctx_holders_insert _ _ c) by done. rewrite (li_fake _ Hi). lia.
  - by rewrite R3.
  - intros h' Hd. rewrite R7 in Hd. apply (li_dirty _ Hi) in Hd.
    by rewrite lookup_lt_is_Some, R2, <-lookup_lt_is_Some.
  - rewrite Rm. apply Hi.
Qed.

Lemma holds_same c c' ip : cx_fake_ip c' = cx_fake_ip c → holds c' ip = holds c ip.
Proof. unfold holds. by intros ->. Qed.

(** A change that leaves fake IP, epoch and state alone. *)
Lemma slot_change_data h c c' s s' :
  loop_inv s → lp_ctxs s !! h = Some c → slot_change h c c' s s' → ctx_ok c' →
  lp_pool s' = lp_pool s → outstanding s' = outstanding s →
  cx_fake_ip c' = cx_fake_ip c → cx_conn_epoch c' = cx_conn_epoch c →
  (cx_state c' = HandshakePending ↔ cx_state c = HandshakePending) → loop_inv s'.
Proof.
  intros Hi Hc Hch Hok Hp Ho Hf He Hs. eapply slot_change_inv; try done.
  - rewrite Hp. apply Hi.
  - intros ip. rewrite Hp, (holds_same c c') by done. lia.
  - rewrite Ho. eapply epochs_same; try done. apply Hi.
Qed.

(** The teardown of a slot. *)
Lemma slot_change_rearm h c now s s' :
  loop_inv s → lp_ctxs s !! h = Some c → room s h → slot_change h c (rearmed c) s s' →
  lp_pool s' = released (lp_pool s) c now → outstanding s' = outstanding s → loop_inv s'.
Proof.
  intros Hi Hc Hroom Hch Hp Ho. destruct (li_ctx _ Hi _ _ Hc) as (_ & _ & He0).
  specialize (Hroom _ Hc). eapply slot_change_inv; try done.
  - by apply ctx_ok_rearmed.
  - rewrite Hp. unfold released. destruct (cx_fake_ip c); [apply pool_release_wf|]; apply Hi.
  - intros ip. rewrite Hp. unfold released, holds at 2. rewrite decide_False by done.
    destruct (cx_fake_ip c) as [x|] eqn:Ef.
    + rewrite refs_release by (by eapply inv_held_mapped). unfold holds. rewrite Ef.
      repeat case_decide; simplify_eq; lia.
    + unfold holds. rewrite Ef, decide_False by done. lia.
  - rewrite Ho. eapply epochs_bump; [apply Hi|done| |done]. cbn. rewrite wrapping_add_ok by lia. lia.
Qed.

(** Fields the invariant does not look at. *)
Lemma inv_neutral s s' :
  loop_inv s → lp_registry s' = lp_registry s → length (lp_sockets s') = length (lp_sockets s) →
  lp_ctxs s' = lp_ctxs s → lp_dirty s' = lp_dirty s → lp_pool s' = lp_pool s → lp_assoc s' = lp_assoc s →
  lp_reasm s' = lp_reasm s → outstanding s' = outstanding s → vd_mtu (lp_dev s') = vd_mtu (lp_dev s) →
  owners s' = owners s → lp_global s' = lp_global s → loop_inv s'.
Proof.
  intros Hi H1 H2 H3 H4 H5 H6 H7 H8 Hm H9 Hg. destruct Hi.
  split; rewrite ?H1, ?H3, ?H4, ?H5, ?H6, ?H7, ?H8, ?Hm, ?H9, ?Hg; try done.
  - by apply (slots_wf_socks _ (lp_sockets s)).
  - intros h Hd. apply li_handles0 in Hd. by rewrite lookup_lt_is_Some, H2, <-lookup_lt_is_Some.
  - intros h Hd. apply li_dirty0 in Hd. by rewrite lookup_lt_is_Some, H2, <-lookup_lt_is_Some.
Qed.

End inv.
