(* ===== verification/TunSend.v ===== *)
(** * TunSend: what the client asks of its upstream

    Every stream the client opens and every datagram it sends goes to a target the policy allows.
    The statement is parametric in the upstream: whatever property of the upstream is kept by
    allowed requests is kept by every step of the client, so the client makes no other request. *)

From S2P Require Import Prelude Shared Text Dns FakeIp TuicCodec Frag Assoc Metrics UdpRelay Device TunSlot Upstream ClientTun TunInv.

Definition FAKE_FIRST : Z := ipv4_new 198 18 0 0.
Definition FAKE_LAST : Z := ipv4_new 198 19 255 255.

(** The policy of [src/dns_block.rs] and the fake-IP range: plain and encrypted DNS ports, known DoH
    endpoints by name or address, and bare fake addresses are never relayed. *)
Definition target_allowed (t : TargetAddr) : Prop :=
  is_dns_relay_port (target_port t) = false ∧
  match t with
  | IpPort (V4 ip port) => ¬ (FAKE_FIRST ≤ ip ≤ FAKE_LAST) ∧ (port = 443 → is_doh_ip ip = false)
  | IpPort (V6 _ _) => True
  | DomainPort domain port => port = 443 → is_doh_domain domain = false
  end.

(** The pool covers the fake range. *)
Definition pool_ok (p : FakeIpPool) : Prop :=
  pool_wf p ∧ fp_range_start p = FAKE_FIRST ∧ fp_range_end p = FAKE_LAST.

Lemma pool_new_ok : pool_ok pool_new.
Proof. split; [apply pool_new_wf|done]. Qed.

Lemma pool_alloc_ok p d now ip p' : pool_ok p → pool_alloc p d now = (ip, p') → pool_ok p'.
Proof.
  intros (Hw & H1 & H2) E. destruct (pool_alloc_range _ _ _ _ _ Hw E) as [R1 R2].
  split; [|by rewrite R1, R2]. change p' with (ip, p').2. rewrite <-E. by apply pool_alloc_wf.
Qed.

Lemma pool_acquire_ok p ip now : pool_ok p → pool_ok (pool_acquire p ip now).
Proof. intros (Hw & H1 & H2). split; [by apply pool_acquire_wf|done]. Qed.

Lemma pool_release_ok p ip now : pool_ok p → pool_ok (pool_release p ip now).
Proof. intros (Hw & H1 & H2). split; [by apply pool_release_wf|done]. Qed.

Lemma release_all_ok ips now p : pool_ok p → pool_ok (release_all ips now p).
Proof. unfold release_all. revert p. induction ips; cbn; auto using pool_release_ok. Qed.

Lemma pool_sweep_ok p now ttl : pool_ok p → pool_ok (pool_sweep p now ttl).2.
Proof.
  intros (Hw & H1 & H2). split; [by apply pool_sweep_wf|]. unfold pool_sweep. cbn.
  destruct (sweep_fold_range (pool_stale p now ttl) p) as [R1 R2]. by rewrite R1, R2.
Qed.

#[export] Hint Resolve pool_alloc_ok pool_acquire_ok pool_release_ok release_all_ok pool_sweep_ok : keeps.

Lemma resolve_target_allowed pool a t fake_ip :
  pool_ok pool → resolve_target a pool = Direct t fake_ip → target_allowed t.
Proof.
  intros (_ & H1 & H2). unfold resolve_target, target_allowed, is_fake. rewrite H1, H2.
  destruct (is_dns_relay_port (sockaddr_port a)) eqn:Hp; [done|].
  destruct a as [ip port|ip port]; [|by intros [= <- _]]. cbn [sockaddr_port] in Hp.
  destruct (bool_decide (FAKE_FIRST ≤ ip) && bool_decide (ip ≤ FAKE_LAST)) eqn:Hf.
  - destruct (pool_resolve pool ip) as [d|]; [|done].
    destruct (bool_decide (port = 443) && is_doh_domain d) eqn:Hd; [done|]. intros [= <- _]. cbn. split; [done|].
    intros ->. by rewrite bool_decide_true in Hd.
  - destruct (bool_decide (port = 443) && is_doh_ip ip) eqn:Hd; [done|]. intros [= <- _]. cbn. split_and!; [done| |].
    + intros [? ?]. by rewrite !bool_decide_true in Hf.
    + intros ->. by rewrite bool_decide_true in Hd.
Qed.

Section send.
Context {TS : Smoltcp} {P : EtherParse} {U : Type} `{!ProxyUpstream U, !DatagramUpstream U}.
Abbreviation Loop := (@Loop TS U _).
Variable macos : bool.
Variable I : U → Prop.

(** [I] is kept by the requests the policy allows. *)
Record allows : Prop := {
  al_open : ∀ u t, target_allowed t → I u → I (up_open_tcp u t).1;
  al_send : ∀ u id t payload, target_allowed t → I u → I (up_send_udp u (encode_packet id t payload))
}.

Record sends_ok (s : Loop) : Prop := {
  so_up : I (lp_up s);
  so_tasks : Forall (λ t, target_allowed (ht_target t)) (lp_tasks s);
  so_pool : pool_ok (lp_pool s)
}.

Hypothesis A : allows.

Ltac upd :=
  intros;
  repeat match goal with H : sends_ok _ |- _ => destruct H end;
  split; cbn; eauto with keeps.

Lemma keeps_put_sock h sock : keeps sends_ok (put_sock h sock).
Proof. apply keeps_mupd. intros s H. upd. Qed.
Lemma keeps_put_ctx h c : keeps sends_ok (put_ctx h c).
Proof. apply keeps_mupd. intros s H. upd. Qed.
Lemma keeps_get_sock h : keeps sends_ok (get_sock h).
Proof. unfold get_sock. walk idtac. Qed.
Lemma keeps_get_ctx h : keeps sends_ok (get_ctx h).
Proof. unfold get_ctx, mret. walk idtac. Qed.
Lemma keeps_mret {B} (a : B) : keeps sends_ok (mret a).
Proof. apply keeps_mlift. Qed.


#[local] Hint Resolve keeps_put_sock keeps_put_ctx keeps_get_sock keeps_get_ctx keeps_mret : keeps.
Ltac go := walk upd.

Lemma keeps_push_uplink i p : keeps sends_ok (push_uplink i p).
Proof. unfold push_uplink. go. Qed.
Lemma keeps_spawn h st q : keeps sends_ok (spawn_remote_relay h st q).
Proof. unfold spawn_remote_relay. go. Qed.
Lemma keeps_inject pkt ws : keeps sends_ok (inject_and_flush macos pkt ws).
Proof. unfold inject_and_flush. go. Qed.

Lemma rearm_pool_ok {E} sock c pool now sock' c' pool' :
  rearm_socket_with_reason (E:=E) sock c pool now = Ok (sock', c', pool') → pool_ok pool → pool_ok pool'.
Proof.
  unfold rearm_socket_with_reason, rearm_socket. intros H Hp. cbn in H. destruct (cx_fake_ip c); inv_res; simplify_eq; auto with keeps.
Qed.
#[local] Hint Resolve keeps_push_uplink keeps_spawn keeps_inject rearm_pool_ok : keeps.

Lemma keeps_rearm h now : keeps sends_ok (rearm_slot h now).
Proof. unfold rearm_slot. go. Qed.

#[local] Hint Resolve keeps_rearm : keeps.

Lemma keeps_acquire_fake h fake_ip now : keeps sends_ok (acquire_fake h fake_ip now).
Proof. unfold acquire_fake. go. Qed.
#[local] Hint Resolve keeps_acquire_fake : keeps.

Lemma keeps_open_inline h payload t fake_ip c now :
  target_allowed t → keeps sends_ok (open_inline h payload t fake_ip c now).
Proof.
  intros Ht. unfold open_inline. go.
  match goal with Hs : sends_ok ?s, E : up_open_tcp _ _ = _ |- _ =>
    pose proof (al_open A (lp_up s) t Ht (so_up _ Hs)) as HI; rewrite E in HI end.
  apply keeps_mupd. upd.
Qed.

Lemma keeps_open_spawned h payload t fake_ip c now :
  target_allowed t → keeps sends_ok (open_spawned h payload t fake_ip c now).
Proof.
  intros Ht. unfold open_spawned. go. apply keeps_mupd. intros s [H1 H2 H3]. split; cbn; try done.
  apply Forall_app. auto.
Qed.
#[local] Hint Resolve keeps_open_inline keeps_open_spawned : keeps.

Lemma keeps_handle_local_payload h payload t fake_ip now :
  target_allowed t → keeps sends_ok (handle_local_payload h payload (Some t) fake_ip now).
Proof. intros Ht. unfold handle_local_payload. go. Qed.

Lemma keeps_forward_first h now : keeps sends_ok (forward_first h now).
Proof.
  unfold forward_first. go; apply keeps_handle_local_payload. eapply resolve_target_allowed; [|done]. by apply so_pool.
Qed.

Lemma keeps_forward_established h tx c now : keeps sends_ok (forward_established h tx c now).
Proof. unfold forward_established. go. Qed.

Lemma keeps_advance_downlink h : keeps sends_ok (advance_downlink h).
Proof. unfold advance_downlink. go. Qed.
#[local] Hint Resolve keeps_forward_first keeps_forward_established keeps_advance_downlink : keeps.

Lemma keeps_process_listener h now : keeps sends_ok (process_listener_activity h now).
Proof. unfold process_listener_activity. go. Qed.

Lemma keeps_log_err m : keeps sends_ok m → keeps sends_ok (log_err m).
Proof. intros H s Hs. specialize (H s Hs). unfold log_err. by destruct (m s) as [s' [| |]]. Qed.
#[local] Hint Resolve keeps_process_listener keeps_log_err : keeps.

Lemma keeps_process_dirty_handle now h : keeps sends_ok (process_dirty_handle now h).
Proof. unfold process_dirty_handle. go. Qed.
#[local] Hint Resolve keeps_process_dirty_handle : keeps.

Lemma keeps_process_dirty_handles now hs : keeps sends_ok (process_dirty_handles now hs).
Proof. induction hs; cbn; go. Qed.
#[local] Hint Resolve keeps_process_dirty_handles : keeps.

Lemma keeps_process_dirty_relay order now : keeps sends_ok (process_dirty_relay order now).
Proof. unfold process_dirty_relay. go. Qed.

Lemma keeps_handle_handshake_done done now : keeps sends_ok (handle_handshake_done done now).
Proof. unfold handle_handshake_done. cbn zeta. go. Qed.

Lemma keeps_dev_flush ws : keeps sends_ok (dev_flush ws).
Proof. intros s H. unfold dev_flush. destruct (flush_tx ws (lp_dev s)). upd. Qed.

Lemma keeps_iface_poll env : keeps sends_ok (iface_poll macos env).
Proof. unfold iface_poll. go. Qed.
#[local] Hint Resolve keeps_process_dirty_relay keeps_handle_handshake_done keeps_dev_flush keeps_iface_poll : keeps.

Lemma keeps_poll_and_flush env : keeps sends_ok (poll_and_flush macos env).
Proof. unfold poll_and_flush. go. Qed.

Lemma keeps_handle_remote_payload h payload env now : keeps sends_ok (handle_remote_payload macos h payload env now).
Proof. unfold handle_remote_payload. cbn zeta. go. Qed.

Lemma keeps_mark h : keeps sends_ok (mark_if_pending h).
Proof. unfold mark_if_pending. go. Qed.

Lemma keeps_inspect buf : keeps sends_ok (inspect_and_mark buf).
Proof. unfold inspect_and_mark. go. Qed.

Lemma forge_pool_ok udp pool now reply pool' :
  forge_dns_reply udp pool now = Ok (reply, pool') → pool_ok pool → pool_ok pool'.
Proof.
  unfold forge_dns_reply. intros H Hp. inv_res. destruct (bool_decide _); [|by inv_res; simplify_eq].
  destruct (pool_alloc pool _ now) eqn:E. inv_res. simplify_eq. eauto with keeps.
Qed.
#[local] Hint Resolve keeps_poll_and_flush keeps_handle_remote_payload keeps_mark keeps_inspect forge_pool_ok : keeps.

Lemma keeps_dns pkt ws now : keeps sends_ok (handle_dns_hijack macos pkt ws now).
Proof. unfold handle_dns_hijack. go. Qed.

Lemma keeps_udp_uplink pkt now : keeps sends_ok (handle_tuic_udp_uplink pkt now).
Proof.
  unfold handle_tuic_udp_uplink. cbn zeta. walk idtac.
  all: match goal with
       | H : resolve_target _ (lp_pool ?s) = Direct ?t _, Hs : sends_ok ?s |- _ =>
           pose proof (resolve_target_allowed _ _ _ _ (so_pool _ Hs) H)
       end.
  all: apply keeps_mupd; upd; simplify_eq; try by apply (al_send A).
  apply release_all_ok. repeat case_match; simplify_eq; auto with keeps.
Qed.

Lemma keeps_downlink dg ws now : keeps sends_ok (handle_downlink macos dg ws now).
Proof. unfold handle_downlink. go. Qed.
#[local] Hint Resolve keeps_dns keeps_udp_uplink keeps_downlink : keeps.

Lemma keeps_on_rx read env now : keeps sends_ok (on_rx macos read env now).
Proof. unfold on_rx. go. Qed.

Lemma keeps_on_global env now : keeps sends_ok (on_global macos env now).
Proof. unfold on_global. go. Qed.

Lemma keeps_on_done now : keeps sends_ok (on_done now).
Proof. unfold on_done. go. Qed.

Lemma reap_slot_pool_ok {E} now h sl pool n sl' pool' n' :
  reap_slot (E:=E) now h sl pool n = Ok (sl', pool', n') → pool_ok pool → pool_ok pool'.
Proof.
  unfold reap_slot. intros H Hp. repeat (res_step || (case_match; simplify_eq)); simplify_eq; eauto with keeps.
Qed.

Lemma reap_loop_pool_ok {E} now hs sl pool n sl' pool' n' :
  reap_loop (E:=E) now hs sl pool n = Ok (sl', pool', n') → pool_ok pool → pool_ok pool'.
Proof.
  revert sl pool n. induction hs as [|h hs IH]; cbn; intros sl pool n H Hp; [by simplify_eq|].
  inv_res. repeat case_match; simplify_eq. eauto using reap_slot_pool_ok.
Qed.
#[local] Hint Resolve keeps_on_rx keeps_on_global keeps_on_done reap_loop_pool_ok : keeps.

Lemma keeps_on_udp_sweep now : keeps sends_ok (on_udp_sweep now).
Proof. unfold on_udp_sweep, reap_dead_slots. go. Qed.

Lemma keeps_on_task i : keeps sends_ok (on_task i).
Proof.
  unfold on_task. walk upd.
  all: match goal with
       | Hs : sends_ok ?s, Ht : lp_tasks ?s !! ?j = Some ?t, E : up_open_tcp _ _ = _ |- _ =>
           pose proof (so_tasks _ Hs) as Hf;
           pose proof (al_open A (lp_up s) _ (Forall_lookup_1 _ _ _ _ Hf Ht) (so_up _ Hs)) as HI; rewrite E in HI
       end.
  all: apply keeps_mupd; upd. by apply Forall_delete.
Qed.

Lemma keeps_run_relay i a : keeps sends_ok (run_relay i a).
Proof. unfold run_relay, set_relay. cbn zeta. walk upd. Qed.

Lemma keeps_fake_ip_sweep now : keeps sends_ok (on_fake_ip_sweep now).
Proof. apply keeps_mupd. intros s []. split; try done. by apply pool_sweep_ok. Qed.
#[local] Hint Resolve keeps_on_udp_sweep keeps_on_task keeps_run_relay keeps_fake_ip_sweep : keeps.

Lemma keeps_loop_step e : keeps sends_ok (loop_step macos e).
Proof.
  destruct e; cbn [loop_step]; unfold on_metrics, on_timer; walk upd.
Qed.

Lemma keeps_loop_run es : keeps sends_ok (loop_run macos es).
Proof. induction es; cbn [loop_run]; walk upd. apply keeps_loop_step. Qed.

End send.
