(* ===== verification/TunStep.v ===== *)
(** * TunStep: every step of the event loop keeps the invariant

    For each handler of [ClientTun]: from a state that satisfies [loop_inv] it returns (no abort),
    keeps the invariant, and touches only the slot it works on.  [loop_step_ok] puts them together
    for all events. *)

From S2P Require Import Prelude Shared Text Dns FakeIp TuicCodec Frag Assoc Metrics UdpRelay Device TunSlot Upstream ClientTun TunInv.

Section steps.
Context {TS : Smoltcp} {P : EtherParse} {U : Type} `{!ProxyUpstream U, !DatagramUpstream U}.
Context `{!SmoltcpLaws TS, !EtherParseLaws P, !UpstreamLaws U}.
Abbreviation Loop := (@Loop TS U _).
Variable macos : bool.

(** What working on the slot [h] leaves. *)
Record slot_post (h : nat) (s s' : Loop) : Prop := {
  po_inv : loop_inv s';
  po_frame : ∀ h', h' ≠ h → lp_ctxs s' !! h' = lp_ctxs s !! h';
  po_dirty : lp_dirty s' = lp_dirty s;
  po_reg : lp_registry s' = lp_registry s;
  po_len : length (lp_sockets s') = length (lp_sockets s)
}.

Lemma slot_post_refl h s : loop_inv s → slot_post h s s.
Proof. by split. Qed.

Lemma slot_post_trans h s1 s2 s3 : slot_post h s1 s2 → slot_post h s2 s3 → slot_post h s1 s3.
Proof.
  intros [_ F1 D1 R1 L1] [I2 F2 D2 R2 L2]. split; [done| |congruence..].
  intros h' Hne. by rewrite F2, F1.
Qed.

Lemma change_post h c c' s s' : slot_change h c c' s s' → loop_inv s' → slot_post h s s'.
Proof.
  intros Hc Hi. destruct Hc. split; try done. intros h' Hne. rewrite sc_ctxs. by rewrite lookup_insert_ne.
Qed.

(** ** Slots *)

Lemma flush_downlink_shape sock c :
  ∃ p d, (flush_downlink sock c).2 = set_pending p d c ∧ (cx_downlink_pending c = [] → p = []).
Proof.
  unfold flush_downlink. case_bool_decide as Hp.
  { exists (cx_downlink_pending c), (cx_downlink_diag c). split; [by destruct c|done]. }
  unfold set_diag. repeat case_match; cbn; by do 2 eexists.
Qed.

Lemma ctx_ok_set_pending p d c : ctx_ok c → (cx_uplink_tx c = None → p = []) → ctx_ok (set_pending p d c).
Proof.
  intros [H1 H2] Hp. split; [|done]. cbn.
  destruct (cx_state c); try done; repeat match goal with X : _ ∧ _ |- _ => destruct X end; split_and!; auto.
Qed.

Lemma advance_downlink_ok h s :
  loop_inv s → is_Some (lp_sockets s !! h) →
  ∃ s', advance_downlink h s = (s', Ok tt) ∧ slot_post h s s' ∧ (room s h → room s' h) ∧
    lp_pool s' = lp_pool s.
Proof.
  intros Hi [sock Hs]. destruct (inv_sock_ctx _ h Hi ltac:(eauto)) as [c Hc].
  unfold advance_downlink. mrun. rewrite Hs. cbn. rewrite Hc.
  destruct (flush_downlink_shape sock c) as (p & d & Hf & Hp).
  destruct (flush_downlink sock c) as [sock' c'] eqn:Ef. cbn in Hf. subst c'. eexists. split; [reflexivity|].
  assert (ctx_ok c) as Hok by (by eapply (li_ctx _ Hi)).
  assert (∀ s', s' = set_ctxs (<[h:=set_pending p d c]> (lp_ctxs s)) (set_sockets (<[h:=sock']> (lp_sockets s)) s) →
    slot_change h c (set_pending p d c) s s') as Hch.
  { intros s' ->. split; cbn; try done; [by rewrite length_insert|by exists 0%nat; rewrite app_nil_r|intros i Hu; exact (li_relay _ Hi h c i Hc Hu)]. }
  split; [|split; [|done]].
  - eapply change_post; [by apply Hch|]. eapply slot_change_data; [done|done|by apply Hch|..]; try done.
    apply ctx_ok_set_pending; [done|]. intros Hn. apply Hp. by eapply ctx_ok_pending.
  - intros Hr c0. cbn. rewrite lookup_insert_eq. intros [= <-]. by apply (Hr c).
Qed.

Lemma rearm_slot_ok h now s :
  loop_inv s → room s h → is_Some (lp_sockets s !! h) →
  ∃ s' c, rearm_slot h now s = (s', Ok tt) ∧ slot_post h s s' ∧
    lp_ctxs s !! h = Some c ∧ lp_ctxs s' !! h = Some (rearmed c) ∧
    lp_pool s' = released (lp_pool s) c now ∧ outstanding s' = outstanding s ∧ lp_relays s' = lp_relays s.
Proof.
  intros Hi Hr [sock Hs]. destruct (inv_sock_ctx _ h Hi ltac:(eauto)) as [c Hc].
  destruct (inv_ctx_sock _ _ _ Hi Hc) as [_ Hp0].
  destruct (rearm_socket_spec (E:=ClientError) sock c (lp_pool s) now Hp0) as (sock' & Hst & Hre).
  unfold rearm_slot. mrun. rewrite Hs. cbn. rewrite Hc. unfold rearm_socket_with_reason. rewrite Hre.
  eexists _, c. split; [reflexivity|].
  match goal with |- slot_post _ _ ?s' ∧ _ => assert (slot_change h c (rearmed c) s s') as Hch end.
  { split; cbn; try done; [by rewrite length_insert|by exists 0%nat; rewrite app_nil_r]. }
  split; [|split_and!; try done; cbn; by rewrite lookup_insert_eq].
  eapply change_post; [done|]. by eapply (slot_change_rearm h c now s).
Qed.

Lemma resolve_target_mapped ep pool t ip :
  resolve_target ep pool = Direct t (Some ip) → is_Some (fp_ip_to_mapping pool !! ip).
Proof.
  unfold resolve_target. intros H. destruct (is_dns_relay_port _); [done|].
  destruct ep as [v4 port|v6 port]; [|done]. destruct (is_fake pool v4).
  - unfold pool_resolve in H. destruct (fp_ip_to_mapping pool !! v4) as [m|] eqn:Em; cbn in H; [|done].
    destruct (_ && _); [done|]. injection H as <- <-. eauto.
  - destruct (_ && _); by simplify_eq.
Qed.

Lemma buffer_uplink_fields payload c :
  let c' := (buffer_uplink payload c).1 in
  cx_local_port c' = cx_local_port c ∧ cx_state c' = cx_state c ∧ cx_uplink_tx c' = cx_uplink_tx c ∧
  cx_fake_ip c' = cx_fake_ip c ∧ cx_conn_epoch c' = cx_conn_epoch c ∧
  cx_downlink_pending c' = cx_downlink_pending c.
Proof. unfold buffer_uplink. by case_bool_decide. Qed.

Definition give_fake (fake_ip : option Z) (c : SocketCtx) : SocketCtx :=
  match fake_ip with Some ip => set_fake (Some ip) c | None => c end.
Definition acquire_opt (pool : FakeIpPool) (fake_ip : option Z) (now : Z) : FakeIpPool :=
  match fake_ip with Some ip => pool_acquire pool ip now | None => pool end.

Lemma acquire_fake_run h fake_ip now s c :
  lp_ctxs s !! h = Some c →
  ∃ s', acquire_fake h fake_ip now s = (s', Ok tt) ∧
    s' = set_ctxs (<[h := give_fake fake_ip c]> (lp_ctxs s)) (set_pool (acquire_opt (lp_pool s) fake_ip now) s).
Proof.
  intros Hc. unfold acquire_fake. destruct fake_ip as [ip|]; mrun; eexists; (split; [reflexivity|]); cbn.
  - f_equal. apply map_eq. intros h'. rewrite lookup_alter. case_decide as Hd.
    + subst h'. by rewrite lookup_insert_eq, Hc.
    + by rewrite lookup_insert_ne.
  - rewrite (insert_id _ _ _ Hc). by destruct s.
Qed.

(** Acquiring for a slot that holds nothing. *)
Lemma acquire_refs s fake_ip now c c' :
  loop_inv s → (∀ ip, fake_ip = Some ip → is_Some (fp_ip_to_mapping (lp_pool s) !! ip)) →
  cx_fake_ip c = None → cx_fake_ip c' = fake_ip →
  pool_wf (acquire_opt (lp_pool s) fake_ip now) ∧
  ∀ ip, refs (acquire_opt (lp_pool s) fake_ip now) ip = refs (lp_pool s) ip - holds c ip + holds c' ip.
Proof.
  intros Hi Hm Hc Hc'. unfold acquire_opt, holds. rewrite Hc, Hc'. pose proof (li_pool _ Hi) as Hw.
  destruct fake_ip as [x|].
  - split; [by apply pool_acquire_wf|]. intros ip.
    rewrite refs_acquire; [|by apply Hm|by apply inv_refs_bound].
    repeat case_decide; simplify_eq; lia.
  - split; [done|]. intros ip. rewrite !decide_False by done. lia.
Qed.

Lemma try_send_fresh payload : try_send [] payload = Some [payload].
Proof. done. Qed.

Lemma set_state_id c : set_state (cx_state c) c = c.
Proof. by destruct c. Qed.

Lemma owners_alter (f : @Relay U _ → @Relay U _) (i : nat) (l : list (@Relay U _)) :
  (∀ r, ry_handle (f r) = ry_handle r) → ry_handle <$> alter f i l = ry_handle <$> l.
Proof.
  intros Hf. apply list_eq. intros j. rewrite !list_lookup_fmap, list_lookup_alter.
  case_decide; [|done]. subst. destruct (l !! j); cbn; [by rewrite Hf|done].
Qed.

Lemma owners_last (l : list (@Relay U _)) r : (ry_handle <$> (l ++ [r])) !! length l = Some (ry_handle r).
Proof. by rewrite list_lookup_fmap, lookup_app_r, Nat.sub_diag. Qed.

Lemma forward_established_ok h tx c now s :
  loop_inv s → room s h → lp_ctxs s !! h = Some c → cx_uplink_tx c = Some tx →
  ∃ s', forward_established h tx c now s = (s', Ok tt) ∧ slot_post h s s'.
Proof.
  intros Hi Hr Hc Hu. destruct (inv_ctx_sock _ _ _ Hi Hc) as [[sock Hs] _].
  pose proof (li_ctx _ Hi _ _ Hc) as Hok. destruct (ctx_ok_uplink _ _ Hok Hu) as [Hst _].
  unfold forward_established. mrun. destruct (try_reserve s tx).
  - rewrite Hs. cbn. unfold extract_socket_payload. destruct (can_recv sock) eqn:Er.
    + destruct (recv_can sock Er) as [[data sock'] ->]. cbn. unfold push_uplink. mrun.
      eexists. split; [reflexivity|]. rewrite <-Hst, set_state_id.
      eapply (change_post h c c); [|eapply (inv_neutral s); try done; cbn]; [split; cbn; try done| |..].
      * by rewrite length_insert.
      * exists 0%nat. rewrite app_nil_r. unfold owners. cbn. by apply owners_alter.
      * intros i Hi'. unfold owners. cbn. rewrite owners_alter by done. exact (li_relay _ Hi h c i Hc Hi').
      * by rewrite length_insert.
      * by apply insert_id.
      * unfold owners. cbn. by apply owners_alter.
    + cbn. eexists. split; [reflexivity|]. rewrite list_insert_id by done.
      replace (set_sockets (lp_sockets s) s) with s by (by destruct s). by apply slot_post_refl.
  - eexists. split; [reflexivity|]. by apply slot_post_refl.
  - destruct (rearm_slot_ok h now s Hi Hr ltac:(eauto)) as (s' & c0 & -> & Hp & _). eauto.
Qed.

Lemma open_inline_ok h payload target fake_ip c now s :
  loop_inv s → lp_ctxs s !! h = Some c → cx_uplink_tx c = None → cx_state c ≠ HandshakePending →
  (∀ ip, fake_ip = Some ip → is_Some (fp_ip_to_mapping (lp_pool s) !! ip)) →
  ∃ s' r, open_inline h payload target fake_ip c now s = (s', r) ∧ r ≠ Panic ∧ slot_post h s s'.
Proof.
  intros Hi Hc Hu Hst Hm. pose proof (li_ctx _ Hi _ _ Hc) as Hok.
  destruct (ctx_ok_none _ Hok Hu Hst) as (Hf & Hb & Hpd & Hnr). destruct Hok as (_ & Hlen & He0).
  unfold open_inline. mrun. pose proof (open_no_panic (lp_up s) target) as Hnp.
  destruct (up_open_tcp (lp_up s) target) as [up [stream|e|]]; cbn in Hnp; [|clear Hnp|done].
  - clear Hnp. rewrite try_send_fresh. cbn. set (c2 := set_state Relaying _). set (s2 := set_ctxs (<[h:=c2]> _) _).
    destruct (acquire_fake_run h fake_ip now s2 c2) as (s3 & E3 & Hs3); [by apply lookup_insert_eq|].
    unfold mthen. rewrite E3. subst s3. unfold spawn_remote_relay. mrun.
    eexists _, _. split; [reflexivity|]. split; [done|].
    match goal with |- slot_post _ _ ?s' => assert (slot_change h c (give_fake fake_ip c2) s s') as Hch end.
    { split; cbn; try done.
      - by rewrite !insert_insert_eq.
      - by destruct fake_ip.
      - exists 1%nat. unfold owners. cbn. by rewrite fmap_app.
      - intros i Hi'. assert (i = length (lp_relays s)) as ->. { destruct fake_ip; cbn in Hi'; congruence. }
        apply owners_last. }
    eapply change_post; [done|].
    destruct (acquire_refs s fake_ip now c (give_fake fake_ip c2)) as [Hw Hrf]; [done|done|done|by destruct fake_ip|].
    eapply slot_change_inv; [done|done|done| |done|done|].
    + destruct fake_ip; (split; [split; [cbn; eauto|done]|done]).
    + eapply epochs_same; [apply Hi|done|by destruct fake_ip|]. by destruct fake_ip; cbn.
  - cbn. eexists _, _. split; [reflexivity|]. split; [done|].
    match goal with |- slot_post _ _ ?s' => assert (slot_change h c (set_state OpeningRemote c) s s') as Hch end.
    { split; cbn; try done; [by exists 0%nat; rewrite app_nil_r|by rewrite Hu]. }
    eapply change_post; [done|]. eapply slot_change_data; try done.
Qed.

Lemma open_spawned_ok h payload target fake_ip c now s :
  loop_inv s → room s h → lp_ctxs s !! h = Some c → cx_uplink_tx c = None → cx_state c ≠ HandshakePending →
  (∀ ip, fake_ip = Some ip → is_Some (fp_ip_to_mapping (lp_pool s) !! ip)) →
  ∃ s', open_spawned h payload target fake_ip c now s = (s', Ok tt) ∧ slot_post h s s'.
Proof.
  intros Hi Hr Hc Hu Hst Hm. pose proof (li_ctx _ Hi _ _ Hc) as Hok. specialize (Hr _ Hc).
  destruct (ctx_ok_none _ Hok Hu Hst) as (Hf & Hb & Hpd & Hnr). destruct Hok as (_ & Hlen & He0).
  unfold open_spawned. mrun. rewrite wrapping_add_ok by lia.
  set (c2 := set_epoch _ _). set (s2 := set_ctxs (<[h:=c2]> _) _).
  destruct (acquire_fake_run h fake_ip now s2 c2) as (s3 & E3 & Hs3); [by apply lookup_insert_eq|].
  unfold mthen. rewrite E3. subst s3. cbn.
  set (c3 := give_fake fake_ip c2). set (c4 := (buffer_uplink payload c3).1).
  eexists. split; [reflexivity|].
  match goal with |- slot_post _ _ ?s' => assert (slot_change h c c4 s s' ∧ outstanding s' ≡ₚ (h, cx_conn_epoch c + 1) :: outstanding s) as [Hch Hout] end.
  { destruct (buffer_uplink_fields payload c3) as (F1 & F2 & F3 & F4 & F5 & F6). fold c4 in F1, F2, F3, F4, F5, F6.
    split; [split; cbn; try done|].
    - rewrite alter_insert_eq, insert_insert_eq. done.
    - rewrite F1. by destruct fake_ip.
    - exists 0%nat. by rewrite app_nil_r.
    - intros i. rewrite F3. destruct fake_ip; cbn; by rewrite Hu.
    - unfold outstanding. cbn. rewrite fmap_app, <-app_assoc. cbn. by rewrite <-Permutation_middle. }
  eapply change_post; [done|].
  destruct (buffer_uplink_fields payload c3) as (F1 & F2 & F3 & F4 & F5 & F6). fold c4 in F1, F2, F3, F4, F5, F6.
  destruct (acquire_refs s fake_ip now c c4) as [Hw Hrf]; [done|done|done|by rewrite F4; destruct fake_ip|].
  assert (cx_conn_epoch c4 = cx_conn_epoch c + 1) as Hep by (rewrite F5; by destruct fake_ip).
  assert (cx_state c4 = HandshakePending) as Hs4 by (rewrite F2; by destruct fake_ip).
  eapply slot_change_inv; [done|done|done| |done|done|].
  - apply buffer_uplink_ok; [|by destruct fake_ip]. destruct fake_ip; (split; [done|split; [done|cbn; lia]]).
  - eapply epochs_perm; [by symmetry|]. rewrite <-Hep. eapply epochs_spawn; [apply Hi|done|lia|done].
Qed.

Lemma handle_local_payload_ok h payload target fake_ip now s :
  loop_inv s → room s h →
  (∀ c, lp_ctxs s !! h = Some c → cx_uplink_tx c = None) →
  (∀ ip, fake_ip = Some ip → is_Some (fp_ip_to_mapping (lp_pool s) !! ip)) →
  ∃ s' r, handle_local_payload h payload target fake_ip now s = (s', r) ∧ r ≠ Panic ∧ slot_post h s s'.
Proof.
  intros Hi Hr Hun Hm. unfold handle_local_payload. mrun.
  destruct (lp_ctxs s !! h) as [c|] eqn:Hc; [|eexists _, _; split; [reflexivity|split; [done|by apply slot_post_refl]]].
  specialize (Hun _ eq_refl). pose proof (li_ctx _ Hi _ _ Hc) as Hok.
  case_bool_decide as Hst.
  - eexists _, _. split; [reflexivity|]. split; [done|].
    destruct (buffer_uplink_fields payload c) as (F1 & F2 & F3 & F4 & F5 & F6).
    match goal with |- slot_post _ _ ?s' => assert (slot_change h c (buffer_uplink payload c).1 s s') as Hch end.
    { split; try done; [by exists 0%nat; rewrite app_nil_r|by rewrite F3, Hun]. }
    eapply change_post; [done|]. eapply slot_change_data; try done; [by apply buffer_uplink_ok|by rewrite F2].
  - destruct target as [target|]; [|eexists _, _; split; [reflexivity|split; [done|by apply slot_post_refl]]].
    destruct (up_open_is_cheap U).
    + by apply open_inline_ok.
    + destruct (open_spawned_ok h payload target fake_ip c now s) as (s' & -> & Hp); try done. by exists s', (Ok tt).
Qed.

Lemma put_sock_post h s sock :
  loop_inv s → slot_post h s (set_sockets (<[h := sock]> (lp_sockets s)) s).
Proof.
  intros Hi. split; cbn; try done; [|by rewrite length_insert].
  eapply inv_neutral; [exact Hi|..]; cbn; try done; by rewrite length_insert.
Qed.

Lemma forward_first_ok h now s :
  loop_inv s → room s h → is_Some (lp_sockets s !! h) →
  (∀ c, lp_ctxs s !! h = Some c → cx_uplink_tx c = None) →
  ∃ s' r, forward_first h now s = (s', r) ∧ r ≠ Panic ∧ slot_post h s s'.
Proof.
  intros Hi Hr [sock Hs] Hun. unfold forward_first. mrun. rewrite Hs. cbn.
  unfold extract_socket_payload. destruct (can_recv sock) eqn:Er.
  - destruct (recv_can sock Er) as [[data sock'] ->]. cbn.
    pose proof (put_sock_post h s sock' Hi) as Hp. set (s1 := set_sockets _ s) in *. pose proof (po_inv _ _ _ Hp) as Hi1.
    assert (is_Some (lp_sockets s1 !! h)) as Hs1.
    { cbn. rewrite lookup_lt_is_Some, length_insert. by eapply lookup_lt_Some. }
    destruct (local_endpoint sock') as [ep|]; [|by exists s1, (Ok tt)].
    destruct (resolve_target ep (lp_pool s1)) as [t f| |] eqn:Et.
    + destruct (handle_local_payload_ok h data (Some t) f now s1) as (s2 & r & -> & Hnp & Hp2); try done.
      { intros ip ->. by eapply resolve_target_mapped. }
      exists s2, r. split; [done|]. split; [done|]. by eapply slot_post_trans.
    + destruct (rearm_slot_ok h now s1 Hi1 Hr Hs1) as (s2 & c0 & -> & Hp2 & _).
      exists s2, (Ok tt). split; [done|]. split; [done|]. by eapply slot_post_trans.
    + destruct (rearm_slot_ok h now s1 Hi1 Hr Hs1) as (s2 & c0 & -> & Hp2 & _).
      exists s2, (Ok tt). split; [done|]. split; [done|]. by eapply slot_post_trans.
  - cbn. eexists _, _. split; [reflexivity|]. split; [done|]. by apply put_sock_post.
Qed.

Lemma process_listener_activity_ok h now s :
  loop_inv s → room s h → is_Some (lp_sockets s !! h) →
  ∃ s' r, process_listener_activity h now s = (s', r) ∧ r ≠ Panic ∧ slot_post h s s'.
Proof.
  intros Hi Hr Hs. unfold process_listener_activity.
  destruct (advance_downlink_ok h s Hi Hs) as (s1 & E1 & Hp1 & Hr1 & _). specialize (Hr1 Hr).
  rewrite (mthen_step _ _ _ s1 tt) by done. pose proof (po_inv _ _ _ Hp1) as Hi1.
  assert (is_Some (lp_sockets s1 !! h)) as Hs1.
  { by rewrite lookup_lt_is_Some, (po_len _ _ _ Hp1), <-lookup_lt_is_Some. }
  destruct (inv_sock_ctx _ h Hi1 Hs1) as [c Hc].
  rewrite (mthen_step _ _ _ s1 (Some c)) by (mrun; by rewrite Hc).
  destruct (cx_uplink_tx c) as [tx|] eqn:Hu.
  - destruct (forward_established_ok h tx c now s1) as (s2 & -> & Hp2); try done.
    exists s2, (Ok tt). split; [done|]. split; [done|]. by eapply slot_post_trans.
  - destruct (forward_first_ok h now s1) as (s2 & r & -> & Hnp & Hp2); try done.
    { intros c0 Hc0. by simplify_eq. }
    exists s2, r. split; [done|]. split; [done|]. by eapply slot_post_trans.
Qed.

(** ** The dirty set *)

(** Bytes that wait for the application are never forgotten: their slot is marked. *)
Definition dirty_ok (s : Loop) : Prop :=
  ∀ h c, lp_ctxs s !! h = Some c → cx_downlink_pending c ≠ [] → h ∈ lp_dirty s.

Lemma log_err_run (m : M unit) (s s' : Loop) r :
  m s = (s', r) → r ≠ Panic → log_err m s = (s', Ok tt).
Proof. intros E Hr. unfold log_err. rewrite E. by destruct r as [[]| |]. Qed.

Lemma inv_set_dirty s d :
  loop_inv s → (∀ h, h ∈ d → is_Some (lp_sockets s !! h)) → loop_inv (set_dirty d s).
Proof. intros [] Hd. by split. Qed.

Lemma process_dirty_handle_ok now h s :
  loop_inv s → dirty_ok s → room s h → h ∈ lp_dirty s →
  ∃ s', process_dirty_handle now h s = (s', Ok tt) ∧ loop_inv s' ∧ dirty_ok s' ∧
    (∀ h', h' ≠ h → lp_ctxs s' !! h' = lp_ctxs s !! h' ∧ (h' ∈ lp_dirty s' ↔ h' ∈ lp_dirty s)) ∧
    (h ∈ lp_dirty s' ↔ ∃ sock c, lp_sockets s' !! h = Some sock ∧ lp_ctxs s' !! h = Some c ∧
       (can_recv sock = true ∨ cx_downlink_pending c ≠ [])).
Proof.
  intros Hi Hd Hr Hin. pose proof (li_dirty _ Hi _ Hin) as Hs.
  destruct (process_listener_activity_ok h now s Hi Hr Hs) as (s1 & r & E1 & Hnp & Hp1).
  pose proof Hp1 as [Hi1 Hf1 Hd1 Hr1 Hl1].
  unfold process_dirty_handle. rewrite (mthen_step _ _ _ s1 tt) by (by eapply log_err_run).
  assert (is_Some (lp_sockets s1 !! h)) as [sock Hs1] by (by rewrite lookup_lt_is_Some, Hl1, <-lookup_lt_is_Some).
  destruct (inv_sock_ctx _ h Hi1 ltac:(eauto)) as [c Hc]. mrun. rewrite Hs1. cbn. rewrite Hc.
  destruct (can_recv sock || negb (bool_decide (cx_downlink_pending c = []))) eqn:Eb.
  - exists s1. split; [done|]. split; [done|]. split_and!.
    + intros h' c' Hc' Hpd. rewrite Hd1. destruct (decide (h' = h)) as [->|Hne]; [done|].
      rewrite Hf1 in Hc' by done. by eapply Hd.
    + intros h' Hne. by rewrite Hf1, Hd1.
    + rewrite Hd1. split; [|done]. intros _. exists sock, c. split_and!; try done.
      apply orb_true_iff in Eb as [|Eb]; [by left|right]. by apply negb_true_iff, bool_decide_eq_false in Eb.
  - exists (set_dirty (lp_dirty s1 ∖ {[h]}) s1). apply orb_false_iff in Eb as [Er Eb].
    apply negb_false_iff, bool_decide_eq_true in Eb. split; [done|]. split_and!.
    + apply inv_set_dirty; [done|]. intros h' Hh'. apply (li_dirty _ Hi1). set_solver.
    + intros h' c' Hc' Hpd. cbn in *. rewrite Hd1. destruct (decide (h' = h)) as [->|Hne].
      * simplify_eq.
      * rewrite Hf1 in Hc' by done. specialize (Hd _ _ Hc' Hpd). set_solver.
    + intros h' Hne. cbn. rewrite Hf1, Hd1 by done. set_solver.
    + cbn. split; [set_solver|]. intros (sock' & c' & H1 & H2 & H3). rewrite Hs1 in H1. rewrite Hc in H2. simplify_eq.
      destruct H3; congruence.
Qed.

Lemma process_dirty_handles_ok now hs s :
  loop_inv s → dirty_ok s → NoDup hs → (∀ h, h ∈ hs → room s h ∧ h ∈ lp_dirty s) →
  ∃ s', process_dirty_handles now hs s = (s', Ok tt) ∧ loop_inv s' ∧ dirty_ok s' ∧
    ∀ h', h' ∉ hs → lp_ctxs s' !! h' = lp_ctxs s !! h' ∧ (h' ∈ lp_dirty s' ↔ h' ∈ lp_dirty s).
Proof.
  revert s. induction hs as [|h hs IH]; intros s Hi Hd Hnd Hh; cbn [process_dirty_handles].
  { exists s. by split_and!. }
  apply NoDup_cons in Hnd as [Hni Hnd]. destruct (Hh h ltac:(left)) as [Hr Hin].
  destruct (process_dirty_handle_ok now h s Hi Hd Hr Hin) as (s1 & E1 & Hi1 & Hd1 & Hf1 & _).
  rewrite (mthen_step _ _ _ s1 tt) by done.
  destruct (IH s1 Hi1 Hd1 Hnd) as (s2 & -> & Hi2 & Hd2 & Hf2).
  { intros h' Hh'. assert (h' ≠ h) as Hne by (by intros ->). destruct (Hf1 h' Hne) as [Ec Ed].
    destruct (Hh h' ltac:(by right)) as [Hr' Hin']. split; [|by apply Ed].
    intros c Hc. apply Hr'. by rewrite <-Ec. }
  exists s2. split_and!; try done. intros h' [Hne Hni']%not_elem_of_cons.
  destruct (Hf1 h' Hne) as [<- <-]. by apply Hf2.
Qed.

Lemma process_dirty_relay_ok order now s :
  loop_inv s → dirty_ok s → (∀ h, room s h) → (∀ l, order l ≡ₚ l) →
  ∃ s', process_dirty_relay order now s = (s', Ok tt) ∧ loop_inv s' ∧ dirty_ok s'.
Proof.
  intros Hi Hd Hr Ho. unfold process_dirty_relay. rewrite (mthen_step _ _ _ s s) by done.
  destruct (process_dirty_handles_ok now (order (elements (lp_dirty s))) s) as (s' & -> & Hi' & Hd' & _); try done.
  - rewrite Ho. apply NoDup_elements.
  - intros h. rewrite Ho, elem_of_elements. intros Hh. by split.
  - by exists s'.
Qed.

(** ** Results of handshakes *)

(** The slot of a handshake that ended is taken back. *)
Lemma rearm_done_ok h c sock rest now s :
  loop_inv s → dirty_ok s → room s h → lp_ctxs s !! h = Some c → lp_sockets s !! h = Some sock → cx_local_port c ≠ 0 →
  epochs_ok (lp_ctxs s) ((h, cx_conn_epoch c) :: outstanding (set_done rest s)) →
  ∃ s', rearm_slot h now (set_done rest s) = (s', Ok tt) ∧ loop_inv s' ∧ dirty_ok s'.
Proof.
  intros Hi Hd Hr Hc Hs Hp0 Hep1. pose proof (li_ctx _ Hi _ _ Hc) as Hok.
  assert (∀ s', slot_change h c (rearmed c) (set_done rest s) s' →
    lp_pool s' = released (lp_pool s) c now → outstanding s' = outstanding (set_done rest s) → loop_inv s') as Hrearm.
  { intros s' Hch Hpl Hout. destruct Hok as (_ & _ & He0). specialize (Hr _ Hc).
    eapply (slot_change_inv h c (rearmed c) s); [done|done|by destruct Hch|by apply ctx_ok_rearmed|..].
    - rewrite Hpl. unfold released. destruct (cx_fake_ip c); [apply pool_release_wf|]; apply Hi.
    - intros ip. rewrite Hpl. unfold released, holds at 2. rewrite decide_False by done.
      destruct (cx_fake_ip c) as [x|] eqn:Ef.
      + rewrite refs_release by (by eapply inv_held_mapped). unfold holds. rewrite Ef.
        repeat case_decide; simplify_eq; lia.
      + unfold holds. rewrite Ef, decide_False by done. lia.
    - rewrite Hout. eapply epochs_done; try done. cbn. rewrite wrapping_add_ok by lia. lia. }
  destruct (rearm_socket_spec (E:=ClientError) sock c (lp_pool s) now Hp0) as (sock' & Hst & Hre).
  unfold rearm_slot. mrun. rewrite Hs. cbn. rewrite Hc. unfold rearm_socket_with_reason. change (lp_pool (set_done rest s)) with (lp_pool s). rewrite Hre.
  eexists. split; [reflexivity|]. split.
  - apply Hrearm; try done. split; cbn; try done; [by rewrite length_insert|by exists 0%nat; rewrite app_nil_r].
  - intros h' c'. cbn. rewrite lookup_insert_Some. intros [[<- <-]|[_ Hc']] Hpd; [done|by eapply Hd].
Qed.

Lemma on_done_ok now s :
  loop_inv s → dirty_ok s → (∀ h, room s h) →
  ∃ s', on_done now s = (s', Ok tt) ∧ loop_inv s' ∧ dirty_ok s'.
Proof.
  intros Hi Hd Hr. unfold on_done. rewrite (mthen_step _ _ _ s s) by done.
  destruct (lp_done s) as [|done rest] eqn:Eq; [by exists s|].
  rewrite (mthen_step _ _ _ (set_done rest s) tt) by done.
  pose proof (li_epoch _ Hi) as Hep. set (h := hd_handle done) in *.
  assert (epochs_ok (lp_ctxs s) ((h, hd_epoch done) :: outstanding (set_done rest s))) as Hep1.
  { eapply epochs_perm; [|exact Hep]. unfold outstanding. rewrite Eq. cbn. by rewrite <-Permutation_middle. }
  destruct (eo_old _ _ Hep1 h (hd_epoch done) ltac:(left)) as (c & Hc & Hle & Heq).
  unfold handle_handshake_done. fold h. mrun. rewrite Hc.
  destruct (inv_ctx_sock _ _ _ Hi Hc) as [[sock Hs] Hp0]. pose proof (li_ctx _ Hi _ _ Hc) as Hok.
  case_bool_decide as Hne.
  { eexists. split; [reflexivity|]. split; [|done]. destruct Hi. split; try done.
    cbn. eapply epochs_stale; try done. }
  assert (cx_conn_epoch c = hd_epoch done) as Hee by (destruct (decide (cx_conn_epoch c = hd_epoch done)); [done|by destruct Hne]).
  specialize (Heq (eq_sym Hee)). rewrite bool_decide_false by (intros Hx; by apply Hx). rewrite <-Hee in Hep1.
  pose proof (rearm_done_ok h c sock rest now s Hi Hd (Hr h) Hc Hs Hp0 Hep1) as Hre.
  destruct (hd_result done) as [stream|e]; [|exact Hre].
  pose proof Hok as (Hok1 & Hlen & He0). rewrite Heq in Hok1. destruct Hok1 as [Hu Hpd0].
  assert (∃ c1 q, (if bool_decide (cx_uplink_buffer c = []) then Some (c, [])
     else match try_send [] (cx_uplink_buffer c) with Some q => Some (set_buffer [] c, q) | None => None end)
     = Some (c1, q) ∧ c1 = set_buffer [] c) as (c1 & q & Ecq & Hc1).
  { case_bool_decide as Hb; [|by rewrite try_send_fresh; eauto]. exists c, []. split; [done|].
    unfold set_buffer. rewrite <-Hb. by destruct c. }
  rewrite Ecq. unfold spawn_remote_relay. mrun. eexists. split; [reflexivity|].
  set (c2 := set_state Relaying _).
  match goal with |- loop_inv ?s' ∧ _ => assert (slot_change h c c2 s s') as Hch end.
  { subst c1. split; cbn; try done.
    - exists 1%nat. unfold owners. cbn. by rewrite fmap_app.
    - intros i [= <-]. apply owners_last. }
  split.
  - eapply slot_change_inv; [done|done|done| |apply Hi| |].
    + subst c1. split; [split; [cbn; eauto|done]|done].
    + intros ip. cbn. rewrite (holds_same c c2) by (by subst c1). lia.
    + eapply epochs_done; [exact Hep1|done|by subst c1|done].
  - intros h' c'. rewrite (sc_ctxs _ _ _ _ _ Hch), (sc_dirty _ _ _ _ _ Hch), lookup_insert_Some.
    intros [[<- <-]|[_ Hc']] Hpd; [|by eapply Hd]. subst c1. cbn in Hpd. by rewrite Hpd0 in Hpd.
Qed.

(** ** Polling and the device *)

Lemma flush_tx_mtu ws d : vd_mtu (flush_tx ws d).1 = vd_mtu d.
Proof. unfold flush_tx. by destruct (flush_queue _ _ _) as [[q w] ok]. Qed.

Lemma wait_for_rx_mtu read d : vd_mtu (wait_for_rx macos read d).1 = vd_mtu d.
Proof. unfold wait_for_rx. by repeat case_match. Qed.

(** A step that touches neither contexts nor tables. *)
Record same_tables (s s' : Loop) : Prop := {
  st_reg : lp_registry s' = lp_registry s;
  st_len : length (lp_sockets s') = length (lp_sockets s);
  st_ctxs : lp_ctxs s' = lp_ctxs s;
  st_dirty : lp_dirty s' = lp_dirty s;
  st_pool : lp_pool s' = lp_pool s;
  st_assoc : lp_assoc s' = lp_assoc s;
  st_frag : lp_reasm s' = lp_reasm s;
  st_out : outstanding s' = outstanding s;
  st_mtu : vd_mtu (lp_dev s') = vd_mtu (lp_dev s);
  st_own : owners s' = owners s;
  st_relays : lp_relays s' = lp_relays s;
  st_global : lp_global s' = lp_global s
}.

Lemma same_tables_inv s s' : loop_inv s → same_tables s s' → loop_inv s'.
Proof. intros Hi []. by eapply inv_neutral. Qed.

Lemma same_tables_post h s s' : loop_inv s → same_tables s s' → slot_post h s s'.
Proof. intros Hi Hs. split; [by eapply same_tables_inv|..]; destruct Hs; intros; congruence. Qed.

Lemma same_tables_dirty s s' : dirty_ok s → same_tables s s' → dirty_ok s'.
Proof. intros Hd Hs h c. rewrite (st_ctxs _ _ Hs), (st_dirty _ _ Hs). apply Hd. Qed.

Lemma iface_poll_tables env s :
  ∃ s', iface_poll macos env s = (s', Ok tt) ∧ same_tables s s'.
Proof. eexists. split; [reflexivity|]. split; cbn; try done. by rewrite length_imap. Qed.

Lemma dev_flush_tables ws s :
  ∃ s' ok, dev_flush ws s = (s', Ok ok) ∧ same_tables s s'.
Proof.
  unfold dev_flush. pose proof (flush_tx_mtu ws (lp_dev s)). destruct (flush_tx ws (lp_dev s)) as [d ok].
  eexists _, ok. split; [reflexivity|]. by split.
Qed.

Lemma same_tables_trans s1 s2 s3 : same_tables s1 s2 → same_tables s2 s3 → same_tables s1 s3.
Proof. intros [] []. split; congruence. Qed.

Lemma poll_and_flush_tables env s :
  ∃ s', poll_and_flush macos env s = (s', Ok tt) ∧ same_tables s s'.
Proof.
  unfold poll_and_flush. destruct (iface_poll_tables env s) as (s1 & E1 & H1).
  rewrite (mthen_step _ _ _ s1 tt) by done. set (s2 := set_flush_calls (lp_flush_calls s1 + 1) s1).
  rewrite (mthen_step _ _ _ s2 tt) by done.
  destruct (dev_flush_tables (pe_writes env) s2) as (s3 & ok & E3 & H3).
  rewrite (mthen_step _ _ _ s3 ok) by done.
  assert (same_tables s1 s2) as H2 by (by split).
  pose proof (same_tables_trans _ _ _ (same_tables_trans _ _ _ H1 H2) H3) as H.
  destruct ok; mrun; eexists; (split; [reflexivity|]); [done|]. by eapply same_tables_trans.
Qed.

Lemma room_ctxs s s' h : room s h → lp_ctxs s' = lp_ctxs s → room s' h.
Proof. intros Hr E c. rewrite E. apply Hr. Qed.

(** ** Payloads from the relays *)

Lemma put_data_post h c p d s sock st :
  loop_inv s → lp_ctxs s !! h = Some c → is_Some (cx_uplink_tx c) → st = Relaying →
  slot_post h s (set_ctxs (<[h := set_state st (set_pending p d c)]> (lp_ctxs s))
                   (set_sockets (<[h := sock]> (lp_sockets s)) s)).
Proof.
  intros Hi Hc [i Hu] ->. pose proof (li_ctx _ Hi _ _ Hc) as Hok.
  destruct (ctx_ok_uplink _ _ Hok Hu) as [Hst Hb]. set (s' := set_ctxs _ _).
  assert (slot_change h c (set_state Relaying (set_pending p d c)) s s') as Hch.
  { split; cbn; try done; [by rewrite length_insert|by exists 0%nat; rewrite app_nil_r|].
    intros j Hj. exact (li_relay _ Hi h c j Hc Hj). }
  eapply change_post; [done|]. eapply slot_change_data; try done.
  - destruct Hok as [_ Hok]. split; [|done]. cbn. split; [by eauto|done].
  - cbn. rewrite Hst. done.
Qed.

Lemma handle_remote_payload_ok h payload env now s :
  loop_inv s → room s h → is_Some (lp_sockets s !! h) →
  ∃ s', handle_remote_payload macos h payload env now s = (s', Ok tt) ∧ slot_post h s s'.
Proof.
  intros Hi Hr [sock Hs]. destruct (inv_sock_ctx _ h Hi ltac:(eauto)) as [c Hc].
  unfold handle_remote_payload. rewrite (mthen_step _ _ _ s sock) by (mrun; by rewrite Hs).
  rewrite (mthen_step _ _ _ s (Some c)) by (mrun; by rewrite Hc).
  case_bool_decide as Hp.
  { destruct (rearm_slot_ok h now s Hi Hr ltac:(eauto)) as (s' & c0 & -> & Hp0 & _). eauto. }
  destruct (cx_uplink_tx c) as [i|] eqn:Hu; [|by exists s; eauto using slot_post_refl].
  set (c1 := set_pending _ _ c). destruct (flush_downlink_shape sock c1) as (p & d & Hf & _).
  destruct (flush_downlink sock c1) as [sock' c2]. cbn [snd] in Hf. subst c2.
  set (s1 := set_sockets (<[h:=sock']> (lp_sockets s)) s).
  rewrite (mthen_step _ _ _ s1 tt) by done.
  set (s2 := set_ctxs (<[h:=set_state Relaying (set_pending p d c1)]> (lp_ctxs s1)) s1).
  rewrite (mthen_step _ _ _ s2 tt) by done.
  assert (slot_post h s s2) as H2 by (apply (put_data_post h c p d s sock' Relaying); eauto).
  destruct (iface_poll_tables env s2) as (s3 & E3 & H3). rewrite (mthen_step _ _ _ s3 tt) by done.
  destruct (dev_flush_tables (pe_writes env) s3) as (s4 & ok & E4 & H4). rewrite (mthen_step _ _ _ s4 ok) by done.
  assert (slot_post h s s4) as H5.
  { eapply slot_post_trans; [exact H2|]. apply same_tables_post; [by apply H2|]. by eapply same_tables_trans. }
  assert (lp_ctxs s4 !! h = Some (set_state Relaying (set_pending p d c1))) as Hc4.
  { rewrite (st_ctxs _ _ H4), (st_ctxs _ _ H3). apply lookup_insert_eq. }
  eexists. split; [reflexivity|]. eapply slot_post_trans; [exact H5|].
  pose proof (po_inv _ _ _ H5) as Hi4. assert (is_Some (lp_sockets s4 !! h)) as [sock4 Hs4] by (by eapply inv_ctx_sock).
  set (c4 := set_state Relaying (set_pending p d c1)) in *.
  pose proof (put_data_post h c4 (cx_downlink_pending c4) (note_tun_flush ok (cx_downlink_diag c4)) s4 sock4 Relaying
    Hi4 Hc4 ltac:(cbn; eauto) eq_refl) as H6.
  rewrite list_insert_id in H6 by done.
  replace (set_sockets (lp_sockets s4) s4) with s4 in H6 by (by destruct s4).
  assert (alter (λ c0, set_diag (note_tun_flush ok (cx_downlink_diag c0)) c0) h (lp_ctxs s4) =
    <[h := set_state Relaying (set_pending (cx_downlink_pending c4) (note_tun_flush ok (cx_downlink_diag c4)) c4)]>
      (lp_ctxs s4)) as ->; [|exact H6].
  apply map_eq. intros h'. rewrite lookup_alter, lookup_insert. case_decide; [|done]. subst h'. by rewrite Hc4.
Qed.

Lemma on_global_ok env now s :
  loop_inv s → dirty_ok s → (∀ h, room s h) →
  ∃ s', on_global macos env now s = (s', Ok tt) ∧ loop_inv s' ∧ dirty_ok s'.
Proof.
  intros Hi Hd Hr. unfold on_global. rewrite (mthen_step _ _ _ s s) by done.
  destruct (lp_global s) as [|[h payload] rest] eqn:Eg; [by exists s|].
  set (s0 := set_global rest s). rewrite (mthen_step _ _ _ s0 tt) by done.
  assert (is_Some (lp_sockets s !! h)) as Hs.
  { apply (li_handles _ Hi). rewrite Eg. cbn. apply elem_of_app. right. left. }
  assert (loop_inv s0) as Hi0.
  { pose proof (li_handles _ Hi) as Hall. destruct Hi. split; try done. intros h' Hh'. apply Hall. rewrite Eg. unfold s0 in Hh'. cbn in *.
    rewrite elem_of_app in *. destruct Hh' as [?|?]; [by left|right; by right]. }
  destruct (handle_remote_payload_ok h payload env now s0 Hi0 (Hr h) Hs) as (s1 & E1 & Hp1).
  rewrite (mthen_step _ _ _ s1 tt) by (by eapply log_err_run). pose proof Hp1 as [Hi1 Hf1 Hd1 _ Hl1].
  assert (is_Some (lp_sockets s1 !! h)) as Hs1 by (by rewrite lookup_lt_is_Some, Hl1, <-lookup_lt_is_Some).
  destruct (inv_sock_ctx _ h Hi1 Hs1) as [c Hc].
  unfold mark_if_pending. rewrite (mthen_step _ _ _ s1 (Some c)) by (mrun; by rewrite Hc).
  case_bool_decide as Hp.
  - exists s1. split; [done|]. split; [done|]. intros h' c' Hc' Hpd. rewrite Hd1.
    destruct (decide (h' = h)) as [->|Hne]; [simplify_eq|]. rewrite Hf1 in Hc' by done. by eapply Hd.
  - eexists. split; [reflexivity|]. split.
    + apply inv_set_dirty; [done|]. intros h' Hh'. apply elem_of_union in Hh' as [->%elem_of_singleton|Hh']; [done|].
      by apply (li_dirty _ Hi1).
    + intros h' c' Hc' Hpd. cbn in *. rewrite Hd1. destruct (decide (h' = h)) as [->|Hne]; [set_solver|].
      rewrite Hf1 in Hc' by done. specialize (Hd _ _ Hc' Hpd). set_solver.
Qed.

(** ** New slots *)

Definition grown (ctxs ctxs' : gmap nat SocketCtx) : Prop :=
  ∀ h, ctxs' !! h = ctxs !! h ∨ (ctxs !! h = None ∧ ∃ port, ctxs' !! h = Some (ctx_new port)).

Lemma extends_grown r port sl sl' : slots_wf r sl → extends port sl sl' → grown sl.2 sl'.2.
Proof.
  intros Hw [_ He] h. destruct (He h) as [->|[Hge ->]]; [by left|right]. split; [|eauto].
  apply eq_None_not_Some. intros Hx. apply (proj1 (sw_dom _ _ Hw h)) in Hx.
  apply lookup_lt_is_Some in Hx. lia.
Qed.

Lemma grown_holders ctxs ctxs' ip : grown ctxs ctxs' → ctx_holders ctxs' ip = ctx_holders ctxs ip.
Proof.
  intros Hg. unfold ctx_holders. do 2 f_equal. apply map_eq. intros h. rewrite !map_lookup_filter.
  destruct (Hg h) as [->|[-> [port ->]]]; [done|]. cbn. done.
Qed.

Lemma grown_inv s r socks ctxs d :
  loop_inv s → slots_wf r (socks, ctxs) → lp_sockets s `prefix_of` socks → grown (lp_ctxs s) ctxs →
  lr_pool_size r = lr_pool_size (lp_registry s) → lr_max_total r = lr_max_total (lp_registry s) →
  (∀ h, h ∈ d → h ∈ lp_dirty s ∨ is_Some (socks !! h)) →
  loop_inv (set_dirty d (set_registry r (set_sockets socks (set_ctxs ctxs s)))).
Proof.
  intros Hi Hw Hpre Hg Hps Hmt Hdirty.
  assert (∀ h, is_Some (lp_sockets s !! h) → is_Some (socks !! h)) as Hsub.
  { intros h [x Hx]. exists x. destruct Hpre as [k ->]. by apply lookup_app_l_Some. }
  pose proof (li_epoch _ Hi) as [En Eo Ep]. split; cbn; try apply Hi; try done.
  - rewrite Hps, Hmt. apply Hi.
  - intros h c Hc. destruct (Hg h) as [E|[_ [port E]]]; rewrite E in Hc; [by eapply (li_ctx _ Hi)|].
    injection Hc as <-. apply ctx_ok_new.
  - intros h c i Hc Hu. destruct (Hg h) as [E|[_ [port E]]]; rewrite E in Hc; [by eapply (li_relay _ Hi)|].
    by injection Hc as <-.
  - intros h Hh. apply Hsub. by apply (li_handles _ Hi).
  - intros ip. rewrite (grown_holders _ _ _ Hg). apply (li_fake _ Hi).
  - split; [done| |].
    + intros h e Hin. destruct (Eo h e Hin) as (c & Hc & Hx). exists c. split; [|done].
      destruct (Hg h) as [->|[E _]]; congruence.
    + intros h c Hc. destruct (Hg h) as [E|[_ [port E]]]; rewrite E in Hc; [by apply Ep|]. by injection Hc as <-.
  - intros h [Hh|Hh]%Hdirty; [|done]. apply Hsub. by apply (li_dirty _ Hi).
Qed.

Lemma handles_for_port_valid r sl port h : slots_wf r sl → h ∈ handles_for_port r port → is_Some (sl.1 !! h).
Proof.
  intros Hw Hh. unfold handles_for_port in Hh. destruct (lr_ports r !! port) as [hs|] eqn:Ep; cbn in Hh.
  - apply (slots_wf_handle _ _ _ Hw), elem_of_all_handles. eauto.
  - by apply not_elem_of_nil in Hh.
Qed.

(** The packet is not a clean SYN to port 0. *)
Definition syn_ok (pkt : list byte) : Prop := inspect_inbound_tcp pkt ≠ Some (0, true).

Lemma inspect_and_mark_ok buf s :
  loop_inv s → dirty_ok s → (∀ h, room s h) → syn_ok buf →
  ∃ s', inspect_and_mark buf s = (s', Ok tt) ∧ loop_inv s' ∧ dirty_ok s' ∧ (∀ h, room s' h) ∧
    lp_dev s' = lp_dev s.
Proof.
  intros Hi Hd Hr Hsyn. unfold inspect_and_mark, syn_ok in *.
  destruct (inspect_inbound_tcp buf) as [[port [|]]|] eqn:Ei; [| |by exists s].
  - assert (port ≠ 0) as Hp0 by congruence.
    destruct (ensure_port_spec (E:=ClientError) (lp_registry s) port (lp_sockets s, lp_ctxs s) (li_slots _ Hi) Hp0)
      as (r1 & sl1 & cap1 & E1 & Hw1 & Hx1 & Hm1 & Hz1 & _).
    destruct (ensure_spare_spec (E:=ClientError) r1 port MIN_SPARE_LISTENERS sl1 Hw1)
      as (r2 & [socks2 ctxs2] & cap2 & E2 & Hw2 & Hx2 & Hm2 & Hz2 & _).
    pose proof (extends_trans _ _ _ _ Hx1 Hx2) as Hx.
    pose proof (extends_grown _ _ _ _ (li_slots _ Hi) Hx) as Hg. cbn in Hg.
    mrun. rewrite E1, E2. cbn. eexists. split; [reflexivity|].
    assert (∀ h c, ctxs2 !! h = Some c → lp_ctxs s !! h = Some c ∨ ∃ p, c = ctx_new p) as Hold.
    { intros h c Hc. destruct (Hg h) as [E|[_ [p E]]]; rewrite E in Hc; [by left|right]. exists p. congruence. }
    split_and!; [| | |done].
    + apply (grown_inv s r2 socks2 ctxs2); try done; [apply Hx|congruence|congruence|].
      intros h [Hh|Hh]%elem_of_union; [right|by left]. apply elem_of_list_to_set in Hh.
      by eapply (handles_for_port_valid r2 (socks2, ctxs2)).
    + intros h c Hc Hpd. cbn in *. apply elem_of_union_r. destruct (Hold h c Hc) as [Hc'|[p ->]]; [by eapply Hd|done].
    + intros h c Hc. cbn in Hc. destruct (Hold h c Hc) as [Hc'|[p ->]]; [by eapply Hr|done].
  - mrun. eexists. split; [reflexivity|]. split_and!; [| |done|done].
    + apply inv_set_dirty; [done|]. intros h [Hh|Hh]%elem_of_union; [|by apply (li_dirty _ Hi)].
      apply elem_of_list_to_set in Hh. by eapply (handles_for_port_valid _ _ _ _ (li_slots _ Hi)).
    + intros h c Hc Hpd. cbn. apply elem_of_union_r. by eapply Hd.
Qed.

(** ** Tables without slots *)

(** A change of the pool, the associations and the reassembler that keeps the counts. *)
Lemma tables_inv s s' :
  loop_inv s → lp_registry s' = lp_registry s → lp_sockets s' = lp_sockets s → lp_ctxs s' = lp_ctxs s →
  lp_dirty s' = lp_dirty s → lp_relays s' = lp_relays s → lp_global s' = lp_global s →
  outstanding s' = outstanding s → vd_mtu (lp_dev s') = vd_mtu (lp_dev s) →
  pool_wf (lp_pool s') → assoc_wf (lp_assoc s') → at_reclaimed (lp_assoc s') = [] → frag_wf (lp_reasm s') →
  (∀ ip, refs (lp_pool s') ip - held (lp_assoc s') ip = refs (lp_pool s) ip - held (lp_assoc s) ip) →
  loop_inv s'.
Proof.
  intros Hi H1 H2 H3 H4 H5 H6 H7 H8 Hp Ha Hrc Hf Hc. pose proof (li_fake _ Hi) as Hfk.
  assert (owners s' = owners s) as Ho by (unfold owners; by rewrite H5).
  destruct Hi. split; rewrite ?H1, ?H2, ?H3, ?H4, ?H6, ?H7, ?H8, ?Ho; try done.
  intros ip. specialize (Hc ip). specialize (Hfk ip). lia.
Qed.

Lemma same_tables_dev s d : vd_mtu d = vd_mtu (lp_dev s) → same_tables s (set_dev d s).
Proof. by split. Qed.

Lemma inject_and_flush_tables pkt ws s : ∃ s', inject_and_flush macos pkt ws s = (s', Ok tt) ∧ same_tables s s'.
Proof. eexists. split; [reflexivity|]. apply same_tables_dev. by rewrite flush_tx_mtu. Qed.

Lemma refs_alloc p d now ip p' :
  pool_wf p → pool_alloc p d now = (ip, p') → Z.of_nat (size (fp_ip_to_mapping p)) < pool_span p →
  ∀ x, refs p' x = refs p x.
Proof.
  intros Hw Ha Hroom x. apply pool_alloc_maps in Ha as [_ Hm]; [|done]. unfold refs.
  destruct (fp_domain_to_ip p !! d).
  - destruct Hm as (m & Hm & _ & ->). destruct (decide (x = ip)) as [->|Hne].
    + by rewrite lookup_insert_eq, Hm.
    + by rewrite lookup_insert_ne.
  - destruct Hm as [-> [Hn|]]; [|lia]. destruct (decide (x = ip)) as [->|Hne].
    + by rewrite lookup_insert_eq, Hn.
    + by rewrite lookup_insert_ne.
Qed.

(** The pool has a free address. *)
Definition pool_room (s : Loop) : Prop := Z.of_nat (size (fp_ip_to_mapping (lp_pool s))) < pool_span (lp_pool s).

Lemma forge_dns_reply_ok udp pool now :
  pool_wf pool → len (ui_payload udp) ≤ MTU_BOUND → forge_dns_reply udp pool now ≠ Panic ∧
  ∀ pkt pool', forge_dns_reply udp pool now = Ok (pkt, pool') → pool_wf pool' ∧
    (Z.of_nat (size (fp_ip_to_mapping pool)) < pool_span pool → ∀ x, refs pool' x = refs pool x).
Proof.
  intros Hw Hl. unfold forge_dns_reply.
  destruct (parse_query_inv (ui_payload udp)) as [->|(id & fl & cs & ls & qt & qc & rest & Hd & H1 & H2 & H3 & H4 & H5 & H6)]; [done|].
  rewrite Hd in *. rewrite parse_query_wire by done. cbn [rbind dq_qtype dq_qname].
  set (q := mk_DnsQuery _ _ _ _ _).
  assert (∀ ans, len (build_response q ans) ≤ UDP_PAYLOAD_MAX) as Hfit.
  { intros ans. unfold build_response, UDP_PAYLOAD_MAX, MTU_BOUND, wire_query in *. cbn [dq_question q].
    pose proof (len_nonneg rest). destruct ans as [ip ttl|]; [pose proof (octets_len ip)|]; llia. }
  case_bool_decide.
  - destruct (pool_alloc pool _ now) as [ip pool'] eqn:Ea.
    destruct (build_udp_ip_packet_fits (E:=unit) (ui_dst_ip udp, 53) (ui_src_ip udp, ui_src_port udp)
      (build_response q (AnswerA ip 5)) (Hfit _)) as [pkt ->]. cbn [rbind]. split; [done|].
    intros pkt' pool0 [= <- <-]. split; [|by eapply refs_alloc].
    change pool' with (ip, pool').2. rewrite <-Ea. by apply pool_alloc_wf.
  - destruct (build_udp_ip_packet_fits (E:=unit) (ui_dst_ip udp, 53) (ui_src_ip udp, ui_src_port udp)
      (build_response q NoData) (Hfit _)) as [pkt ->]. cbn [rbind]. split; [done|].
    by intros pkt' pool0 [= <- <-].
Qed.

Lemma handle_dns_hijack_ok pkt ws now s :
  loop_inv s → dirty_ok s → len pkt ≤ MTU_BOUND → pool_room s →
  ∃ s', handle_dns_hijack macos pkt ws now s = (s', Ok tt) ∧ loop_inv s' ∧ dirty_ok s' ∧ lp_up s' = lp_up s.
Proof.
  intros Hi Hd Hl Hroom. unfold handle_dns_hijack.
  destruct (parse_inbound_udp pkt) as [udp|] eqn:Eu; [|by exists s].
  pose proof (parse_inbound_payload _ _ Eu). rewrite (mthen_step _ _ _ s s) by done.
  destruct (forge_dns_reply_ok udp (lp_pool s) now) as [Hnp Hok]; [apply Hi|lia|].
  destruct (forge_dns_reply udp (lp_pool s) now) as [[reply pool]|e|]; [| |done].
  - destruct (Hok _ _ eq_refl) as [Hw Hrf]. mrun. eexists. split; [reflexivity|]. split_and!; try done.
    eapply tables_inv; [exact Hi|..]; try done; try apply Hi.
    + cbn. by rewrite flush_tx_mtu.
    + intros ip. cbn. rewrite Hrf by done. done.
  - mrun. eexists. split; [reflexivity|]. split_and!; try done. destruct Hi. by split.
Qed.

(** Whatever the state of the pool, a query is answered or dropped. *)
Lemma handle_dns_hijack_safe pkt ws now s :
  loop_inv s → len pkt ≤ MTU_BOUND → (handle_dns_hijack macos pkt ws now s).2 = Ok tt.
Proof.
  intros Hi Hl. unfold handle_dns_hijack. destruct (parse_inbound_udp pkt) as [udp|] eqn:Eu; [|done].
  pose proof (parse_inbound_payload _ _ Eu). rewrite (mthen_step _ _ _ s s) by done.
  destruct (forge_dns_reply_ok udp (lp_pool s) now) as [Hnp _]; [apply Hi|lia|].
  by destruct (forge_dns_reply udp (lp_pool s) now) as [[reply pool]|e|].
Qed.

(** ** UDP *)

Lemma touch_counts t id now ip :
  held (assoc_touch t id now) ip = held t ip ∧ at_reclaimed (assoc_touch t id now) = at_reclaimed t.
Proof. done. Qed.

(** The table after an uplink packet of a flow that is new: the fake IP of the flow is recorded and
    what an eviction reclaimed is handed out. *)
Lemma intern_new_counts t tu id t' now fake_ip :
  assoc_wf t → at_reclaimed t = [] → at_tuple_to_id t !! tu = None → intern t tu = Some (id, t') →
  let t2 := match fake_ip with
            | Some ip => set_fake_ip (assoc_touch t' id now) id ip
            | None => assoc_touch t' id now
            end in
  assoc_wf t2 ∧
  ∀ x, held t2 x + occurrences (at_reclaimed t2) x =
       held t x + (if decide (fake_ip = Some x) then 1 else 0).
Proof.
  intros Hw Hrc Hn Hi. destruct (intern_spec t tu Hw) as (id0 & t0 & E0 & Hw' & _ & _ & Howed & Hcase).
  rewrite Hi in E0. injection E0 as <- <-. rewrite Hn in Hcase. destruct Hcase as (He & Hf & _).
  assert (∀ x, held t' x + occurrences (at_reclaimed t') x = held t x) as Hx.
  { intros x. specialize (Howed x). unfold owed in Howed. rewrite Hrc in Howed. unfold occurrences at 2 in Howed.
    cbn in Howed. rewrite len_nil in Howed. lia. }
  pose proof (assoc_touch_wf t' id now Hw') as Hw2. destruct fake_ip as [ip|]; cbn zeta.
  - split.
    + apply set_fake_ip_wf; [done|]. cbn. rewrite lookup_alter_eq, He. cbn. eauto.
    + intros x. specialize (Hx x). unfold held in *. cbn. rewrite fake_count_insert by done.
      repeat case_decide; simplify_eq; lia.
  - split; [done|]. intros x. rewrite decide_False by done. cbn. specialize (Hx x). unfold held in *. cbn. lia.
Qed.

Lemma occurrences_nonneg l x : 0 ≤ occurrences l x.
Proof. unfold occurrences. apply len_nonneg. Qed.

Lemma handle_tuic_udp_uplink_ok pkt now s :
  loop_inv s → dirty_ok s →
  ∃ s', handle_tuic_udp_uplink pkt now s = (s', Ok tt) ∧ loop_inv s' ∧ dirty_ok s'.
Proof.
  intros Hi Hd. unfold handle_tuic_udp_uplink.
  destruct (parse_inbound_udp pkt) as [udp|]; [|by exists s]. rewrite (mthen_step _ _ _ s s) by done.
  destruct (resolve_target _ _) as [target fake_ip| |] eqn:Et; [|by exists s|by exists s].
  set (tu := mk_FourTuple _ _ _ _). destruct (li_assoc _ Hi) as [Hw Hrc].
  destruct (intern_spec (lp_assoc s) tu Hw) as (id & t' & E & Hw' & _ & _ & _ & Hcase).
  rewrite (mthen_step _ _ _ s (id, t')) by (unfold mlift; by rewrite E).
  unfold assoc_contains. destruct (at_tuple_to_id (lp_assoc s) !! tu) as [id0|] eqn:Etu.
  - destruct Hcase as [-> ->]. rewrite bool_decide_true by eauto. cbn [negb take_reclaimed_fake_ips]. mrun.
    eexists. split; [reflexivity|]. split; [|done]. rewrite Hrc. cbn.
    eapply tables_inv; [exact Hi|..]; try done; cbn; try apply Hi.
    apply (take_reclaimed_wf (assoc_touch _ _ _)). by apply assoc_touch_wf.
  - rewrite bool_decide_false by (intros [? ?]; congruence). cbn [negb].
    destruct (intern_new_counts (lp_assoc s) tu id t' now fake_ip Hw Hrc Etu E) as [Hw2 Hc2].
    cbn zeta in Hw2, Hc2.
    assert (∀ ip, fake_ip = Some ip → is_Some (fp_ip_to_mapping (lp_pool s) !! ip)) as Hmap.
    { intros ip ->. by eapply resolve_target_mapped. }
    set (t2 := match fake_ip with Some ip => set_fake_ip (assoc_touch t' id now) id ip | None => assoc_touch t' id now end) in *.
    assert ((match fake_ip with
             | Some ip => (set_fake_ip (assoc_touch t' id now) id ip, pool_acquire (lp_pool s) ip now)
             | None => (assoc_touch t' id now, lp_pool s)
             end) = (t2, acquire_opt (lp_pool s) fake_ip now)) as -> by (by destruct fake_ip).
    cbn [take_reclaimed_fake_ips]. mrun. eexists. split; [reflexivity|]. split; [|done].
    assert (∀ x, refs (acquire_opt (lp_pool s) fake_ip now) x =
      refs (lp_pool s) x + (if decide (fake_ip = Some x) then 1 else 0)) as Hacq.
    { intros x. destruct fake_ip as [ip|]; cbn [acquire_opt].
      - rewrite refs_acquire; [|by apply Hmap|by apply inv_refs_bound]. repeat case_decide; simplify_eq; done.
      - rewrite decide_False by done. lia. }
    assert (∀ x, occurrences (at_reclaimed t2) x ≤ refs (acquire_opt (lp_pool s) fake_ip now) x) as Hle.
    { intros x. rewrite Hacq, (li_fake _ Hi x). specialize (Hc2 x).
      pose proof (ctx_holders_nonneg (lp_ctxs s) x). pose proof (fake_count_nonneg (at_id_to_fake_ip t2) x).
      unfold held in *. lia. }
    eapply tables_inv; [exact Hi|..]; try done; cbn; try apply Hi.
    + apply release_all_wf. destruct fake_ip; [apply pool_acquire_wf|]; apply Hi.
    + exact (take_reclaimed_wf _ Hw2).
    + intros x. rewrite refs_release_all by done. rewrite Hacq. specialize (Hc2 x). unfold held in *. cbn. lia.
Qed.

(** What the reassembler hands out can be sent to the application. *)
Definition downlink_fits (s : Loop) (dg : list byte) (now : Z) : Prop :=
  ∀ meta payload r', decode_packet_meta dg = Ok meta →
    frag_accept (lp_reasm s) meta now = Ok (Some payload, r') → len payload ≤ UDP_PAYLOAD_MAX.

Lemma handle_downlink_ok dg ws now s :
  loop_inv s → dirty_ok s → downlink_fits s dg now →
  ∃ s', handle_downlink macos dg ws now s = (s', Ok tt) ∧ loop_inv s' ∧ dirty_ok s'.
Proof.
  intros Hi Hd Hfit. unfold handle_downlink.
  destruct (decode_packet_meta_cases dg) as [E|(meta & pre & post & E & _ & _ & _ & _ & Hft & Hfi & _)]; rewrite E; [by exists s|].
  rewrite (mthen_step _ _ _ s s) by done.
  destruct (frag_accept_step (lp_reasm s) meta now Hft Hfi (li_frag _ Hi)) as (o & r' & Ef & Hwf & _).
  rewrite Ef. set (s1 := set_reasm r' s). rewrite (mthen_step _ _ _ s1 tt) by done.
  assert (loop_inv s1) as Hi1 by (eapply tables_inv; [exact Hi|..]; try done; apply Hi).
  destruct o as [payload|]; [|by exists s1].
  destruct (assoc_resolve (lp_assoc s) (pm_assoc_id meta)) as [e|]; [|by exists s1].
  destruct (build_udp_ip_packet_fits (E:=ClientError) (target_src e) (app_endpoint e) payload) as [pkt Ep].
  { by eapply Hfit. }
  rewrite (mthen_step _ _ _ s1 pkt) by (unfold mlift; by rewrite Ep).
  set (s2 := set_assoc (assoc_touch (lp_assoc s1) (pm_assoc_id meta) now) s1). rewrite (mthen_step _ _ _ s2 tt) by done.
  destruct (inject_and_flush_tables pkt ws s2) as (s3 & E3 & H3). exists s3. split; [done|].
  assert (loop_inv s2) as Hi2.
  { eapply tables_inv; [exact Hi1|..]; try done; try apply Hi1. apply assoc_touch_wf, Hi1. }
  split; [by eapply same_tables_inv|]. apply (same_tables_dirty s2); [exact Hd|done].
Qed.

(** ** Sweeps *)

Lemma reap_loop_inv now hs s n :
  loop_inv s → dirty_ok s → NoDup hs → (∀ h, h ∈ hs → is_Some (lp_sockets s !! h) ∧ room s h) →
  ∃ sl pool n', reap_loop (E:=ClientError) now hs (lp_sockets s, lp_ctxs s) (lp_pool s) n = Ok (sl, pool, n') ∧
    let s' := set_sockets sl.1 (set_ctxs sl.2 (set_pool pool s)) in loop_inv s' ∧ dirty_ok s'.
Proof.
  revert s n. induction hs as [|h hs IH]; intros s n Hi Hd Hnd Hh; cbn [reap_loop].
  { exists (lp_sockets s, lp_ctxs s), (lp_pool s), n. split; [done|]. cbn.
    replace (set_sockets (lp_sockets s) (set_ctxs (lp_ctxs s) (set_pool (lp_pool s) s))) with s by (by destruct s). done. }
  apply NoDup_cons in Hnd as [Hni Hnd]. destruct (Hh h ltac:(left)) as [[sock Hs] Hr].
  destruct (inv_sock_ctx _ h Hi ltac:(eauto)) as [c Hc]. unfold reap_slot. cbn [fst snd]. rewrite Hs, Hc. cbn [expect rbind].
  destruct (slot_dead sock c).
  - destruct (inv_ctx_sock _ _ _ Hi Hc) as [_ Hp0].
    destruct (rearm_socket_spec (E:=ClientError) sock c (lp_pool s) now Hp0) as (sock' & Hst & Hre).
    unfold rearm_socket_with_reason. rewrite Hre. cbn [rbind].
    set (s1 := set_sockets (<[h:=sock']> (lp_sockets s))
      (set_ctxs (<[h:=rearmed c]> (lp_ctxs s)) (set_pool (released (lp_pool s) c now) s))).
    destruct (IH s1 (n + 1)) as (sl & pool & n' & E & Hi' & Hd'); [| |done| |].
    + eapply (slot_change_rearm h c now s); try done.
      split; cbn; try done; [by rewrite length_insert|by exists 0%nat; rewrite app_nil_r].
    + intros h' c'. cbn. rewrite lookup_insert_Some. intros [[<- <-]|[_ Hc']] Hpd; [done|by eapply Hd].
    + intros h' Hh'. destruct (Hh h' ltac:(by right)) as [Hs' Hr']. split.
      * cbn. by rewrite lookup_lt_is_Some, length_insert, <-lookup_lt_is_Some.
      * intros c'. cbn. rewrite lookup_insert_ne by (by intros ->). apply Hr'.
    + exists sl, pool, n'. split; [exact E|]. by split.
  - destruct (IH s n) as (sl & pool & n' & E & Hx); try done.
    { intros h' Hh'. apply Hh. by right. }
    exists sl, pool, n'. split; [exact E|]. done.
Qed.

Lemma all_handles_nodup r sl : slots_wf r sl → NoDup (all_handles r).
Proof. intros Hw. rewrite (sw_handles _ _ Hw). apply NoDup_seq. Qed.

Lemma on_udp_sweep_ok now s :
  loop_inv s → dirty_ok s → (∀ h, room s h) →
  ∃ s', on_udp_sweep now s = (s', Ok tt) ∧ loop_inv s' ∧ dirty_ok s'.
Proof.
  intros Hi Hd Hr. unfold on_udp_sweep. rewrite (mthen_step _ _ _ s s) by done.
  destruct (li_assoc _ Hi) as [Hw Hrc].
  destruct (assoc_sweep (lp_assoc s) now UDP_FLOW_IDLE_SECS) as [ips table] eqn:Es.
  destruct (assoc_sweep_spec _ _ _ _ _ Hw Es) as (Hw' & Hrc' & Hocc & _).
  set (s1 := set_assoc table s). rewrite (mthen_step _ _ _ s1 tt) by done.
  set (s2 := set_pool (release_all ips now (lp_pool s)) s1). rewrite (mthen_step _ _ _ s2 tt) by done.
  set (s3 := set_reasm (frag_sweep (lp_reasm s2) now FRAG_REASSEMBLY_TTL_SECS) s2). rewrite (mthen_step _ _ _ s3 tt) by done.
  rewrite (mthen_step _ _ _ s3 s3) by done.
  assert (loop_inv s3) as Hi3.
  { eapply tables_inv; [exact Hi|..]; try done; cbn.
    - apply release_all_wf, Hi.
    - by rewrite Hrc'.
    - apply frag_sweep_wf, Hi.
    - intros x. rewrite refs_release_all.
      + specialize (Hocc x). lia.
      + intros y. rewrite (li_fake _ Hi y). specialize (Hocc y).
        pose proof (ctx_holders_nonneg (lp_ctxs s) y). pose proof (fake_count_nonneg (at_id_to_fake_ip table) y).
        unfold held in *. lia. }
  destruct (reap_loop_inv now (all_handles (lp_registry s3)) s3 0 Hi3 Hd) as (sl & pool & n' & E & Hx).
  { eapply all_handles_nodup. apply Hi3. }
  { intros h Hh. split; [|apply Hr]. by apply (slots_wf_handle _ _ _ (li_slots _ Hi3)) in Hh. }
  rewrite (mthen_step _ _ _ s3 (sl, pool, n')) by (unfold mlift, reap_dead_slots; by rewrite E).
  eexists. split; [reflexivity|]. exact Hx.
Qed.

Lemma on_fake_ip_sweep_ok now s :
  loop_inv s → dirty_ok s → ∃ s', on_fake_ip_sweep now s = (s', Ok tt) ∧ loop_inv s' ∧ dirty_ok s'.
Proof.
  intros Hi Hd. eexists. split; [reflexivity|]. split; [|done].
  eapply tables_inv; [exact Hi|..]; try done; try apply Hi.
  - apply pool_sweep_wf, Hi.
  - intros ip. cbn [lp_pool lp_assoc set_pool]. f_equal. unfold refs. rewrite pool_sweep_lookup.
    destruct (fp_ip_to_mapping (lp_pool s) !! ip) as [m|]; [|done]. cbn.
    destruct (mapping_stale now FAKE_IP_TTL m) eqn:Em; [|done]. unfold mapping_stale in Em.
    apply andb_true_iff in Em as [Em _]. by apply bool_decide_eq_true in Em.
Qed.

(** ** The spawned tasks *)

Lemma on_task_ok i s :
  loop_inv s → dirty_ok s → ∃ s', on_task i s = (s', Ok tt) ∧ loop_inv s' ∧ dirty_ok s'.
Proof.
  intros Hi Hd. unfold on_task. rewrite (mthen_step _ _ _ s s) by done.
  destruct (lp_tasks s !! i) as [t|] eqn:Et; [|by exists s]. case_bool_decide; [|by exists s].
  pose proof (open_no_panic (lp_up s) (ht_target t)) as Hnp.
  destruct (up_open_tcp (lp_up s) (ht_target t)) as [up r]. cbn [snd] in Hnp.
  assert (∀ res, let s' := set_done (lp_done s ++ [mk_HandshakeDone (ht_handle t) (ht_epoch t) res])
    (set_tasks (delete i (lp_tasks s)) (set_up up s)) in loop_inv s' ∧ dirty_ok s') as Hok.
  { intros res s'. split; [|done]. pose proof (li_epoch _ Hi) as He. destruct Hi. split; try done.
    eapply epochs_perm; [|exact He]. unfold outstanding. cbn.
    rewrite (delete_Permutation _ _ _ Et) at 1. rewrite fmap_app. cbn. by rewrite <-Permutation_cons_append, <-Permutation_middle. }
  mrun. destruct r as [stream|e|]; [| |done]; eexists; (split; [reflexivity|]); apply Hok.
Qed.

Lemma owners_insert (l : list (@Relay U _)) (i : nat) r r' :
  l !! i = Some r → ry_handle r' = ry_handle r → ry_handle <$> <[i := r']> l = ry_handle <$> l.
Proof. intros Hl He. rewrite list_fmap_insert, He. apply list_insert_id. by rewrite list_lookup_fmap, Hl. Qed.

Lemma set_relay_inv s i r r' g :
  loop_inv s → lp_relays s !! i = Some r → ry_handle r' = ry_handle r →
  (g = lp_global s ∨ ∃ p, g = lp_global s ++ [(ry_handle r, p)]) →
  loop_inv (set_relays (<[i := r']> (lp_relays s)) (set_global g s)).
Proof.
  intros Hi Hl He Hg. set (s' := set_relays _ _).
  assert (owners s' = owners s) as Ho by (by apply (owners_insert _ _ r)).
  pose proof (li_handles _ Hi) as Hh. destruct Hi. split; rewrite ?Ho; try done. cbn. intros h Hin.
  apply Hh. rewrite elem_of_app in *. destruct Hin as [Hin|Hin]; [by left|].
  destruct Hg as [->|[p ->]]; [by right|]. rewrite fmap_app, elem_of_app in Hin. destruct Hin as [Hin|Hin]; [by right|left].
  cbn in Hin. apply list_elem_of_singleton in Hin as ->. unfold owners. apply list_elem_of_fmap.
  exists r. split; [done|]. by eapply list_elem_of_lookup_2.
Qed.

Lemma run_relay_ok i a s :
  loop_inv s → dirty_ok s → ∃ s', run_relay i a s = (s', Ok tt) ∧ loop_inv s' ∧ dirty_ok s'.
Proof.
  intros Hi Hd. unfold run_relay. rewrite (mthen_step _ _ _ s s) by done.
  destruct (lp_relays s !! i) as [r|] eqn:Er; [|by exists s].
  assert (∀ r', ry_handle r' = ry_handle r → ∃ s', set_relay i r' s = (s', Ok tt) ∧ loop_inv s' ∧ dirty_ok s') as Hset.
  { intros r' He. eexists. split; [reflexivity|]. split; [|done].
    pose proof (set_relay_inv s i r r' (lp_global s) Hi Er He ltac:(by left)) as H.
    by replace (set_global (lp_global s) s) with s in H by (by destruct s). }
  destruct (ry_phase r), a as [ok|[data|] w| |]; try (by exists s); try (by apply Hset).
  - destruct (ry_queue r) as [|p q]; [destruct (sender_alive s i); [by exists s|by apply Hset]|].
    destruct ok; by apply Hset.
  - case_bool_decide; [|by exists s]. case_bool_decide; mrun; (eexists; split; [reflexivity|]; split; [|done]);
      (apply (set_relay_inv s i r _ (lp_global s ++ [(ry_handle r, _)])); [done|done|done|right; eauto]).
Qed.

(** ** All events *)

Lemma wait_for_rx_len read d d' pkt :
  wait_for_rx macos read d = (d', Ok tt) → rx_peek d' = Some pkt → 0 ≤ vd_mtu d → len pkt ≤ vd_mtu d.
Proof.
  unfold wait_for_rx, rx_peek, rx_buffer_capacity_for_mtu, tun_packet_header_len. intros H Hp Hm.
  destruct read as [b|]; [|done].
  assert (∀ n, 0 ≤ n → len (ztake n b) ≤ n) as Ht.
  { intros n Hn. unfold ztake, len. rewrite length_take. lia. }
  destruct macos.
  - case_bool_decide as Hb; [done|]. injection H as <-. injection Hp as <-.
    specialize (Ht (vd_mtu d + len UTUN_IPV4_HEADER) ltac:(unfold len; lia)).
    unfold zdrop, len in *. rewrite length_drop. lia.
  - injection H as <-. injection Hp as <-. specialize (Ht (vd_mtu d + 0) ltac:(lia)). lia.
Qed.

Definition order_ok (env : @poll_env TS) : Prop := ∀ l, pe_order env l ≡ₚ l.

Definition packet_ok (s : Loop) (pkt : list byte) : Prop :=
  syn_ok pkt ∧ (classify_inbound pkt = InDns → pool_room s).

(** What the world may do: iterate a hash set in any order, send any packet but a SYN to port 0, ask
    for a name while an address is free, and send datagrams that fit a packet. *)
Definition event_ok (s : Loop) (e : @loop_event TS) : Prop :=
  (∀ h, room s h) ∧
  match e with
  | EvRx read env now =>
      order_ok env ∧ ∀ pkt, rx_peek (wait_for_rx macos read (lp_dev s)).1 = Some pkt → packet_ok s pkt
  | EvTimer env now => order_ok env
  | EvDownlink dg writes now => downlink_fits s dg now
  | _ => True
  end.

Lemma on_timer_ok env now s :
  loop_inv s → dirty_ok s → (∀ h, room s h) → order_ok env →
  ∃ s', on_timer macos env now s = (s', Ok tt) ∧ loop_inv s' ∧ dirty_ok s'.
Proof.
  intros Hi Hd Hr Ho. unfold on_timer. destruct (poll_and_flush_tables env s) as (s1 & E1 & H1).
  rewrite (mthen_step _ _ _ s1 tt) by done. apply process_dirty_relay_ok; [by eapply same_tables_inv| | |done].
  - by eapply same_tables_dirty.
  - intros h. eapply room_ctxs; [apply Hr|]. apply H1.
Qed.

Lemma on_rx_ok read env now s :
  loop_inv s → dirty_ok s → event_ok s (EvRx read env now) →
  ∃ s', on_rx macos read env now s = (s', Ok tt) ∧ loop_inv s' ∧ dirty_ok s'.
Proof.
  intros Hi Hd (Hr & Ho & Hpk). pose proof (li_mtu _ Hi) as Hmb. unfold on_rx. rewrite (mthen_step _ _ _ s s) by done.
  pose proof (wait_for_rx_mtu read (lp_dev s)) as Hmtu.
  destruct (wait_for_rx macos read (lp_dev s)) as [d r] eqn:Ew. cbn [fst] in Hmtu, Hpk.
  set (s1 := set_dev d s). rewrite (mthen_step _ _ _ s1 tt) by done.
  assert (same_tables s s1) as H1 by (by apply same_tables_dev).
  assert (loop_inv s1) as Hi1 by (by eapply same_tables_inv). assert (dirty_ok s1) as Hd1 by done.
  destruct r as [[]|e|]; [|by exists s1|].
  2:{ unfold wait_for_rx in Ew. repeat case_match; simplify_eq. }
  assert (∃ pkt, rx_peek d = Some pkt) as [pkt Ep].
  { unfold wait_for_rx in Ew. repeat case_match; simplify_eq; cbn; eauto. }
  destruct (Hpk _ Ep) as [Hsyn Hdns]. pose proof (wait_for_rx_len _ _ _ _ Ew Ep (proj1 Hmb)) as Hlen.
  rewrite Ep. cbn [fmap option_fmap option_map].
  set (s2 := set_dev (set_rx None d) s1).
  assert (same_tables s1 s2) as H2 by (by apply same_tables_dev).
  assert (loop_inv s2) as Hi2 by (by eapply same_tables_inv).
  destruct (classify_inbound pkt) eqn:Ec.
  - unfold rx_take. rewrite (mthen_step _ _ _ s2 tt) by done. unfold rx_peek in Ep. rewrite Ep.
    destruct (handle_dns_hijack_ok pkt (pe_writes env) now s2) as (s3 & -> & ? & ? & _); try done; [lia|by apply Hdns|eauto].
  - unfold rx_take. rewrite (mthen_step _ _ _ s2 tt) by done. unfold rx_peek in Ep. rewrite Ep.
    by apply handle_tuic_udp_uplink_ok.
  - destruct (inspect_and_mark_ok pkt s1) as (s3 & E3 & Hi3 & Hd3 & Hr3 & _); try done.
    rewrite (mthen_step _ _ _ s3 tt) by done.
    destruct (poll_and_flush_tables env s3) as (s4 & E4 & H4). rewrite (mthen_step _ _ _ s4 tt) by done.
    apply process_dirty_relay_ok; [by eapply same_tables_inv|by eapply same_tables_dirty| |done].
    intros h. eapply room_ctxs; [apply Hr3|]. apply H4.
Qed.

Record loop_ok (s : Loop) : Prop := {
  lo_inv : loop_inv s;
  lo_dirty : dirty_ok s
}.

Lemma loop_step_ok e s :
  loop_ok s → event_ok s e → ∃ s', loop_step macos e s = (s', Ok tt) ∧ loop_ok s'.
Proof.
  intros [Hi Hd] He.
  assert (∀ m, (∃ s', m s = (s', Ok tt) ∧ loop_inv s' ∧ dirty_ok s') → ∃ s', m s = (s', @Ok ClientError unit tt) ∧ loop_ok s') as Hw.
  { intros m (s' & E & ? & ?). by exists s'. }
  destruct e as [env now|read env now|now|dg ws now|now|now| |env now|i|i a]; cbn [loop_step]; apply Hw.
  - apply on_global_ok; try done. apply He.
  - by apply on_rx_ok.
  - apply on_done_ok; try done. apply He.
  - apply handle_downlink_ok; try done. apply He.
  - apply on_udp_sweep_ok; try done. apply He.
  - by apply on_fake_ip_sweep_ok.
  - eexists. split; [reflexivity|]. split; [|done]. destruct Hi. by split.
  - destruct He. by apply on_timer_ok.
  - by apply on_task_ok.
  - by apply run_relay_ok.
Qed.

(** What the world may do without stopping the client: everything but a clean SYN to port 0, a reply
    that does not fit an IPv4 packet, and two to the 64 connections on one slot. *)
Definition event_safe (s : Loop) (e : @loop_event TS) : Prop :=
  (∀ h, room s h) ∧
  match e with
  | EvRx read env now =>
      order_ok env ∧ ∀ pkt, rx_peek (wait_for_rx macos read (lp_dev s)).1 = Some pkt → syn_ok pkt
  | EvTimer env now => order_ok env
  | EvDownlink dg writes now => downlink_fits s dg now
  | _ => True
  end.

Lemma on_rx_dns_safe read env now s pkt :
  loop_inv s → rx_peek (wait_for_rx macos read (lp_dev s)).1 = Some pkt → classify_inbound pkt = InDns →
  (on_rx macos read env now s).2 = Ok tt.
Proof.
  intros Hi Ep Ec. pose proof (li_mtu _ Hi) as Hmb. unfold on_rx. rewrite (mthen_step _ _ _ s s) by done.
  destruct (wait_for_rx macos read (lp_dev s)) as [d r] eqn:Ew. cbn [fst] in Ep. set (s1 := set_dev d s).
  rewrite (mthen_step _ _ _ s1 tt) by done. destruct r as [[]|e|]; [|done..].
  pose proof (wait_for_rx_len _ _ _ _ Ew Ep (proj1 Hmb)) as Hlen.
  pose proof (wait_for_rx_mtu read (lp_dev s)) as Hmtu. rewrite Ew in Hmtu. cbn [fst] in Hmtu.
  rewrite Ep. cbn [fmap option_fmap option_map]. rewrite Ec. unfold rx_take.
  rewrite (mthen_step _ _ _ (set_dev (set_rx None d) s1) tt) by done. unfold rx_peek in Ep. rewrite Ep.
  apply handle_dns_hijack_safe; [|lia].
  assert (same_tables s s1) as H1 by (by apply same_tables_dev).
  assert (loop_inv s1) as Hi1 by (by eapply same_tables_inv).
  assert (same_tables s1 (set_dev (set_rx None d) s1)) as H2 by (by apply same_tables_dev). by eapply same_tables_inv.
Qed.

Lemma loop_step_safe e s : loop_ok s → event_safe s e → (loop_step macos e s).2 = Ok tt.
Proof.
  intros Hok He. assert (event_ok s e → (loop_step macos e s).2 = Ok tt) as Hev.
  { intros H. by destruct (loop_step_ok e s Hok H) as (s' & -> & _). }
  destruct e as [env now|read env now|now|dg ws now|now|now| |env now|i|i a]; try by apply Hev.
  destruct He as (Hr & Ho & Hpk). destruct (rx_peek (wait_for_rx macos read (lp_dev s)).1) as [pkt|] eqn:Ep.
  - destruct (classify_inbound pkt) eqn:Ec; [by eapply on_rx_dns_safe; [apply Hok|..]|..];
      (apply Hev; split; [done|]; split; [done|]; intros pkt'; rewrite Ep; intros [= <-]; split; [by apply Hpk|congruence]).
  - apply Hev. split; [done|]. split; [done|]. intros pkt'. by rewrite Ep.
Qed.

End steps.
