(* ===== verification/TunProps.v ===== *)
(** * TunProps: what the event loop guarantees

    Reachable states of the loop, and the properties of the client that follow from the invariant:
    no abort, the listener pools, exact reference counts, handshakes and epochs, the order and
    conservation of the relayed bytes, DNS, and UDP. *)

From S2P Require Import Prelude Shared Text Dns FakeIp TuicCodec Frag Assoc Metrics UdpRelay Device TunSlot Upstream ClientTun TunInv TunStep.

(** ** A concrete run

    An application resolves [a.b] (the query is answered with a fake address), connects to it on
    port 443 and sends two bytes; the handshake with the upstream runs in the background, the
    buffered bytes are relayed, and an answer comes back. *)

Definition demo_loop : Type := @Loop demo_stack demo_up _.
Definition demo_event : Type := @loop_event demo_stack.

Definition demo_query : list byte :=
  [x45; x00; x00; x00; x00; x00; x00; x00; x40; x11; x00; x00; x0a; x00; x00; x01; x08; x08; x08; x08;
   x13; x88; x00; x35; x00; x00; x00; x00] ++
  [xab; xcd; x01; x00; x00; x01; x00; x00; x00; x00; x00; x00; x01; x61; x01; x62; x00; x00; x01; x00; x01].

Definition demo_syn (port : Z) : list byte :=
  [x45; x00; x00; x00; x00; x00; x00; x00; x40; x06; x00; x00; x0a; x00; x00; x01; xc6; x12; x00; x02;
   x20; x00] ++ be16 port ++ [x00; x00; x00; x00; x00; x00; x00; x00; x50; x02; x00; x00; x00; x00; x00; x00].

Definition demo_fake : Z := ipv4_new 198 18 0 2.

Definition quiet : @poll_env demo_stack := mk_poll_env (λ _ s, s) [] [] (λ l, l).
(** The stack accepts the connection on socket 0 and receives [data]. *)
Definition accepts (data : list byte) : @poll_env demo_stack :=
  mk_poll_env (λ h s, if bool_decide (h = 0%nat)
                      then mk_demo_sock TsEstablished data 65535 [] (Some (V4 demo_fake 443)) else s) [] [] (λ l, l).

Definition demo_events : list demo_event :=
  [EvRx (Some demo_query) quiet 1; EvRx (Some (demo_syn 443)) (accepts [x16; x03]) 2; EvTask 0%nat; EvDone 3;
   EvRelay 0%nat (RelayLocal true); EvRelay 0%nat (RelayRemote (Some [x17; x18]) 10); EvGlobal quiet 4].

Definition demo_start : demo_loop := loop_init 2 1500 (mk_demo_up 3 []).
Definition demo_run (es : list demo_event) : demo_loop := (loop_run false es demo_start).1.

Example demo_run_ok :
  (loop_run false demo_events demo_start).2 = Ok tt ∧
  (ry_written <$> lp_relays (demo_run demo_events)) = [[x16; x03]] ∧
  (dk_sent <$> lp_sockets (demo_run demo_events)) = [[x17; x18]; []] ∧
  refs (lp_pool (demo_run demo_events)) demo_fake = 1 ∧
  ms_dns_forged (metrics_line (demo_run demo_events)) = 1 ∧
  ms_relays_spawned (metrics_line (demo_run demo_events)) = 1.
Proof. vm_compute. repeat split. Qed.

(** ** Reachable states *)

Section reach.
Context {TS : Smoltcp} {P : EtherParse} {U : Type} `{!ProxyUpstream U, !DatagramUpstream U}.
Abbreviation Loop := (@Loop TS U _).
Variable macos : bool.

(** The loop was started with a pool size and an MTU that [TunRuntimeConfig] allows, and every event
    so far was one the world may produce. *)
Inductive loop_reachable : Loop → Prop :=
| lr_init pool_size mtu up :
    0 ≤ pool_size ≤ POOL_BOUND → 0 ≤ mtu ≤ MTU_BOUND → loop_reachable (loop_init pool_size mtu up)
| lr_step s e s' :
    loop_reachable s → event_ok macos s e → loop_step macos e s = (s', Ok tt) → loop_reachable s'.

Lemma loop_init_ok pool_size mtu (up : U) :
  0 ≤ pool_size ≤ POOL_BOUND → 0 ≤ mtu ≤ MTU_BOUND → loop_ok (loop_init pool_size mtu up : Loop).
Proof.
  intros Hp Hm. split; [|by intros h c; cbn; rewrite lookup_empty].
  split; cbn; try done; try (intros *; rewrite lookup_empty; done).
  - split; cbn; try done; try (intros *; rewrite lookup_empty; intros; done).
    + intros h. by rewrite lookup_empty, lookup_nil.
    + unfold MAX_TOTAL_LISTENERS. rewrite ?map_size_empty. lia.
  - lia.
  - intros h Hh. by apply not_elem_of_nil in Hh.
  - split; [apply NoDup_nil_2| |].
    + intros h e He. by apply not_elem_of_nil in He.
    + intros h c. by rewrite lookup_empty.
Qed.

Context `{!SmoltcpLaws TS, !EtherParseLaws P, !UpstreamLaws U}.

Lemma reachable_ok s : loop_reachable s → loop_ok s.
Proof.
  induction 1 as [|s e s' _ Hok He Hs]; [by apply loop_init_ok|].
  destruct (loop_step_ok macos e s Hok He) as (s1 & E & Hok'). by rewrite Hs in E; simplify_eq.
Qed.

End reach.

Arguments loop_reachable {TS P U _ _} macos _.

(** Deciding the conditions of concrete events. *)
Definition room_b (s : demo_loop) : bool :=
  bool_decide (map_Forall (λ _ c, cx_conn_epoch c < 2 ^ 64 - 1) (lp_ctxs s)).

Lemma room_b_ok (s : demo_loop) : room_b s = true → ∀ h, room s h.
Proof. intros H%bool_decide_eq_true h c Hc. exact (H h c Hc). Qed.

Lemma demo_rx_ok (s : demo_loop) pkt env now :
  room_b s = true → pe_order env = (λ l, l) →
  vd_mtu (lp_dev s) = 1500 → len pkt ≤ 1500 →
  inspect_inbound_tcp pkt ≠ Some (0, true) →
  bool_decide (Z.of_nat (size (fp_ip_to_mapping (lp_pool s))) < pool_span (lp_pool s)) = true →
  event_ok false s (EvRx (Some pkt) env now).
Proof.
  intros Hr Ho Hm Hl Hsyn Hroom. split; [by apply room_b_ok|]. split; [intros l; by rewrite Ho|].
  intros p. unfold wait_for_rx, rx_buffer_capacity_for_mtu. cbn. rewrite Hm. unfold ztake.
  rewrite take_ge by (unfold len in Hl; cbn; lia). intros [= <-]. split; [done|].
  intros _. by apply bool_decide_eq_true in Hroom.
Qed.

Lemma demo_step (s : demo_loop) e :
  loop_reachable false s → event_ok false s e → is_ok (loop_step false e s).2 = true →
  loop_reachable false (loop_step false e s).1.
Proof.
  intros Hr He Hok. eapply lr_step; [exact Hr|exact He|].
  destruct (loop_step false e s) as [s' [[]| |]]; done.
Qed.

Lemma demo_cons e es (s : demo_loop) :
  is_ok (loop_step false e s).2 = true → loop_run false (e :: es) s = loop_run false es (loop_step false e s).1.
Proof. cbn [loop_run]. unfold mthen. by destruct (loop_step false e s) as [s' [[]| |]]. Qed.

Lemma demo_nil (s : demo_loop) : (loop_run false [] s).1 = s.
Proof. done. Qed.

(** Perform the first event of the run, with its condition discharged by [tac]. *)
Ltac demo_next H tac :=
  match goal with
  | |- context [loop_run false (?e :: _) _] =>
      rewrite demo_cons by (by vm_compute); apply (demo_step _ e) in H; [|tac|by vm_compute]
  end.
Ltac demo_rx := apply demo_rx_ok; by vm_compute.
Ltac demo_free := split; [apply room_b_ok; vm_compute; reflexivity|exact I].

Lemma demo_reachable : loop_reachable false (demo_run demo_events).
Proof.
  assert (loop_reachable false demo_start) as H by (by apply lr_init).
  unfold demo_run, demo_events. do 2 demo_next H demo_rx. do 5 demo_next H demo_free.
  rewrite demo_nil. exact H.
Qed.

(** ** The loop keeps running *)

(** C1: The event loop aborts on nothing but two inputs.  From every reachable state, every event is
    handled to the end unless it brings a clean SYN to destination port 0, or completes a reply that does
    not fit an IPv4 packet, both of which do stop the client, or a slot is at its last epoch: no index, no
    [unwrap] and no unknown handle can stop it, a name asked of a full pool included.  The state is
    reachable again, unless a name was asked of a full pool (states after that are not considered). *)
Theorem event_loop_never_aborts `{!Smoltcp, !EtherParse, !ProxyUpstream U, !DatagramUpstream U}
    `{!SmoltcpLaws _, !EtherParseLaws _, !UpstreamLaws U} macos s e :
  loop_reachable (U:=U) macos s → event_safe macos s e →
  ∃ s', loop_step macos e s = (s', Ok tt) ∧ (event_ok macos s e → loop_reachable macos s').
Proof.
  intros Hr He. pose proof (loop_step_safe macos e s (reachable_ok macos s Hr) He) as Hsafe.
  destruct (loop_step macos e s) as [s' r] eqn:E. cbn in Hsafe. subst r. exists s'. split; [done|].
  intros Hok. by eapply lr_step.
Qed.

Lemma event_loop_never_aborts_witness :
  ∃ s', loop_step false (EvTimer quiet 9) (demo_run demo_events) = (s', Ok tt) ∧ loop_reachable false s'.
Proof.
  destruct (event_loop_never_aborts false (demo_run demo_events) (EvTimer quiet 9) demo_reachable) as (s' & E & Hr).
  - split; [apply room_b_ok; vm_compute; reflexivity|intros l; reflexivity].
  - exists s'. split; [exact E|]. apply Hr. split; [apply room_b_ok; vm_compute; reflexivity|intros l; reflexivity].
Defined.

(** C22: In every reachable state the listener pools partition the sockets: every socket belongs to
    exactly one port and has a context for that port, at most 64 ports are intercepted, the counter
    is the number of sockets, and there are at most 4096 plus one pool per port of them. *)
Theorem listener_pools_partition `{!Smoltcp, !EtherParse, !ProxyUpstream U, !DatagramUpstream U}
    `{!SmoltcpLaws _, !EtherParseLaws _, !UpstreamLaws U} macos s :
  loop_reachable (U:=U) macos s →
  all_handles (lp_registry s) ≡ₚ seq 0 (length (lp_sockets s)) ∧
  (∀ h, is_Some (lp_ctxs s !! h) ↔ is_Some (lp_sockets s !! h)) ∧
  (∀ p hs h, lr_ports (lp_registry s) !! p = Some hs → h ∈ hs →
     ∃ c, lp_ctxs s !! h = Some c ∧ cx_local_port c = p) ∧
  Z.of_nat (size (lr_ports (lp_registry s))) ≤ 64 ∧
  lr_total (lp_registry s) = len (lp_sockets s) ∧
  len (lp_sockets s) ≤ 4096 + Z.of_nat (size (lr_ports (lp_registry s))) * lr_pool_size (lp_registry s).
Proof.
  intros Hr. destruct (reachable_ok macos s Hr) as [Hi _]. destruct (li_size _ Hi) as [_ Hmax].
  destruct (li_slots _ Hi) as [H1 H2 H3 H4 H5 H6 _ _]. cbn in *. split_and!; try done.
  rewrite <-H4. rewrite Hmax in H6. exact H6.
Qed.

Lemma listener_pools_partition_witness :
  all_handles (lp_registry (demo_run demo_events)) ≡ₚ [0%nat; 1%nat] ∧
  len (lp_sockets (demo_run demo_events)) ≤ 4096 + 1 * 2.
Proof.
  destruct (listener_pools_partition false _ demo_reachable) as (H & _ & _ & _ & _ & Hb).
  split; [exact H|]. exact Hb.
Defined.

(** C7: While names are asked only of a pool that has a free address, the reference counts of the fake-IP
    pool are exact: the count of an address is the number of TCP slots and of UDP associations that hold
    it.  So an address in use is always mapped, and no sweep, however late, takes its mapping away.  (On a
    full pool a mapping in use is overwritten: [FakeIp.pool_alloc_evicts_live].) *)
Theorem fake_ip_refcounts_exact `{!Smoltcp, !EtherParse, !ProxyUpstream U, !DatagramUpstream U}
    `{!SmoltcpLaws _, !EtherParseLaws _, !UpstreamLaws U} macos s :
  loop_reachable (U:=U) macos s →
  (∀ ip, refs (lp_pool s) ip = ctx_holders (lp_ctxs s) ip + held (lp_assoc s) ip) ∧
  (∀ ip now ttl, 0 < ctx_holders (lp_ctxs s) ip + held (lp_assoc s) ip →
     is_Some (pool_resolve (lp_pool s) ip) ∧
     pool_resolve (pool_sweep (lp_pool s) now ttl).2 ip = pool_resolve (lp_pool s) ip).
Proof.
  intros Hr. destruct (reachable_ok macos s Hr) as [Hi _]. pose proof (li_fake _ Hi) as Hf.
  split; [done|]. intros ip now ttl Hpos. specialize (Hf ip). unfold refs in Hf. unfold pool_resolve.
  rewrite pool_sweep_lookup. destruct (fp_ip_to_mapping (lp_pool s) !! ip) as [m|] eqn:Em; [|lia].
  cbn. split; [eauto|]. unfold mapping_stale. rewrite bool_decide_false by lia. done.
Qed.

Lemma fake_ip_refcounts_exact_witness :
  refs (lp_pool (demo_run demo_events)) demo_fake = 1 ∧
  pool_resolve (pool_sweep (lp_pool (demo_run demo_events)) 100000 1800).2 demo_fake = Some [x61; x2e; x62].
Proof.
  destruct (fake_ip_refcounts_exact false _ demo_reachable) as [_ H].
  split; [reflexivity|]. rewrite (proj2 (H demo_fake 100000 1800 ltac:(vm_compute; reflexivity))). reflexivity.
Defined.

(** C8: Handshakes and epochs: no two handshakes in flight are of the same slot and epoch, a slot
    waits for a handshake exactly when the one of its current epoch is in flight, and all others are
    of earlier epochs.  A result of an earlier epoch is discarded: the loop changes nothing but its
    queue. *)
Theorem handshake_epoch_discipline `{!Smoltcp, !EtherParse, !ProxyUpstream U, !DatagramUpstream U}
    `{!SmoltcpLaws _, !EtherParseLaws _, !UpstreamLaws U} macos s now :
  loop_reachable (U:=U) macos s →
  NoDup (outstanding s) ∧
  (∀ h c, lp_ctxs s !! h = Some c →
     (cx_state c = HandshakePending ↔ (h, cx_conn_epoch c) ∈ outstanding s)) ∧
  (∀ h e, (h, e) ∈ outstanding s → ∃ c, lp_ctxs s !! h = Some c ∧ e ≤ cx_conn_epoch c) ∧
  (∀ done rest c, lp_done s = done :: rest → lp_ctxs s !! hd_handle done = Some c →
     hd_epoch done ≠ cx_conn_epoch c → on_done now s = (set_done rest s, Ok tt)).
Proof.
  intros Hr. destruct (reachable_ok macos s Hr) as [Hi _]. destruct (li_epoch _ Hi) as [Hn Ho Hp].
  split_and!; [done| | |].
  - intros h c Hc. split; [by apply Hp|]. intros (c' & Hc' & _ & Heq)%Ho. simplify_eq. by apply Heq.
  - intros h e (c & Hc & Hle & _)%Ho. eauto.
  - intros done rest c Hd Hc Hne. unfold on_done, mthen, mget. rewrite Hd. unfold mupd, handle_handshake_done.
    unfold get_ctx, mthen, mget, mret, mlift. cbn. rewrite Hc, bool_decide_true by congruence. done.
Qed.

(** The slot of the demo run while its handshake is in flight. *)
Lemma demo_pending_reachable : loop_reachable false (demo_run (take 2 demo_events)).
Proof.
  assert (loop_reachable false demo_start) as H by (by apply lr_init).
  unfold demo_run, demo_events. cbn [take]. do 2 demo_next H demo_rx. rewrite demo_nil. exact H.
Qed.

Lemma handshake_epoch_discipline_witness :
  outstanding (demo_run (take 2 demo_events)) = [(0%nat, 1)] ∧ NoDup (outstanding (demo_run (take 2 demo_events))).
Proof.
  split; [reflexivity|]. apply (handshake_epoch_discipline false _ 0 demo_pending_reachable).
Defined.

(** C23: Every slot is in a consistent state: it relays exactly when it has a sender, its sender leads
    to a relay task of its own, no two slots share a task, bytes wait for the upstream only during a
    handshake and never exceed the buffer, and bytes wait for the application only in a slot that
    relays and is marked to be processed. *)
Theorem slots_consistent `{!Smoltcp, !EtherParse, !ProxyUpstream U, !DatagramUpstream U}
    `{!SmoltcpLaws _, !EtherParseLaws _, !UpstreamLaws U} macos s h c :
  loop_reachable (U:=U) macos s → lp_ctxs s !! h = Some c →
  (cx_state c = Relaying ↔ is_Some (cx_uplink_tx c)) ∧
  (∀ i, cx_uplink_tx c = Some i →
     (∃ r, lp_relays s !! i = Some r ∧ ry_handle r = h) ∧
     ∀ h' c', lp_ctxs s !! h' = Some c' → cx_uplink_tx c' = Some i → h' = h) ∧
  (cx_uplink_buffer c ≠ [] → cx_state c = HandshakePending) ∧
  len (cx_uplink_buffer c) ≤ MAX_UPLINK_BUFFER ∧
  (cx_downlink_pending c ≠ [] → cx_state c = Relaying ∧ h ∈ lp_dirty s).
Proof.
  intros Hr Hc. destruct (reachable_ok macos s Hr) as [Hi Hd]. pose proof (li_ctx _ Hi _ _ Hc) as Hok.
  assert (∀ h' c' i, lp_ctxs s !! h' = Some c' → cx_uplink_tx c' = Some i →
    ∃ r, lp_relays s !! i = Some r ∧ ry_handle r = h') as Hlink.
  { intros h' c' i Hc' Hu. pose proof (li_relay _ Hi _ _ _ Hc' Hu) as Ho. unfold owners in Ho.
    rewrite list_lookup_fmap in Ho. destruct (lp_relays s !! i) as [r|]; [|done]. exists r. by injection Ho as ->. }
  destruct Hok as (Hst & Hlen & _). split_and!; [| | |done|].
  - split; [intros E; rewrite E in Hst; apply Hst|]. intros [i Hu]. by_state c Hst.
  - intros i Hu. split; [by eapply Hlink|]. intros h' c' Hc' Hu'.
    destruct (Hlink _ _ _ Hc Hu) as (r & Hri & <-), (Hlink _ _ _ Hc' Hu') as (r' & Hri' & <-). congruence.
  - intros Hb. by_state c Hst.
  - intros Hp. split; [by_state c Hst|by eapply Hd].
Qed.

Lemma slots_consistent_witness :
  ∃ c, lp_ctxs (demo_run demo_events) !! 0%nat = Some c ∧ cx_state c = Relaying ∧ is_Some (cx_uplink_tx c).
Proof.
  eexists. split; [vm_compute; reflexivity|]. split; [reflexivity|].
  apply (proj1 (proj1 (slots_consistent false (demo_run demo_events) 0%nat _ demo_reachable
    ltac:(vm_compute; reflexivity))) eq_refl).
Defined.
