(* ===== verification/TunDirty.v ===== *)
(** * TunDirty: the dirty set of the event loop ([process_dirty_relay] of [src/client_tun.rs])

    The loop does not visit every slot at every tick: it visits the slots that were marked.  This file
    shows that nothing is missed: a slot with bytes to receive or bytes to deliver is always marked, so
    visiting the marked slots has exactly the effect of visiting all of them; the one thing a full visit
    would notice and the dirty set does not is a relay task that ended without a message. *)

From S2P Require Import Prelude Shared Text Dns FakeIp TuicCodec Frag Assoc Metrics UdpRelay Device TunSlot Upstream ClientTun TunInv TunStep TunProps.

Section dirty.
Context {TS : Smoltcp} {P : EtherParse} {U : Type} `{!ProxyUpstream U, !DatagramUpstream U}.
Context `{!SmoltcpLaws TS, !EtherParseLaws P, !UpstreamLaws U}.
Abbreviation Loop := (@Loop TS U _).
Variable macos : bool.

(** Every socket with data is marked; while slot [h] is worked on it stays marked. *)
Definition marked (s : Loop) : Prop :=
  ∀ h sock, lp_sockets s !! h = Some sock → can_recv sock = true → h ∈ lp_dirty s.
Definition working (h : nat) (s : Loop) : Prop := marked s ∧ h ∈ lp_dirty s.

Lemma marked_same s s' : lp_sockets s' = lp_sockets s → lp_dirty s' = lp_dirty s → marked s → marked s'.
Proof. intros E1 E2 H h sock. rewrite E1, E2. apply H. Qed.

Lemma marked_insert h sock s :
  marked s → (can_recv sock = true → h ∈ lp_dirty s) → marked (set_sockets (<[h := sock]> (lp_sockets s)) s).
Proof.
  intros H Hs h' sock'. cbn. rewrite list_lookup_insert_Some. intros [(-> & -> & _)|[_ H']]; [done|by eapply H].
Qed.

(** An update that leaves the sockets and the marks alone. *)
Ltac upd := exact (λ _ K, K).

Lemma working_put_sock h sock : keeps (working h) (put_sock h sock).
Proof. apply keeps_mupd. intros s [H Hh]. split; [by apply marked_insert|done]. Qed.
Lemma keeps_mret' φ {B} (a : B) : keeps φ (mret (U:=U) a).
Proof. apply keeps_mlift. Qed.
Lemma keeps_get_sock' φ h : keeps φ (get_sock (U:=U) h).
Proof. unfold get_sock. walk idtac. Qed.
Lemma keeps_get_ctx' φ h : keeps φ (get_ctx (U:=U) h).
Proof. unfold get_ctx, mret. walk idtac. Qed.
#[local] Hint Resolve working_put_sock keeps_mret' keeps_get_sock' keeps_get_ctx' : keeps.
Ltac go := walk upd.

Lemma working_activity h now : keeps (working h) (process_listener_activity h now).
Proof.
  unfold process_listener_activity, forward_established, forward_first, handle_local_payload, open_inline,
    open_spawned, acquire_fake, rearm_slot, advance_downlink, push_uplink, spawn_remote_relay, put_ctx.
  cbn zeta. go.
Qed.

Lemma working_log_err h m : keeps (working h) m → keeps (working h) (log_err m).
Proof. intros H s Hs. specialize (H s Hs). unfold log_err. by destruct (m s) as [s' [| |]]. Qed.

(** One visit: the marks of the other slots stay, and the slot keeps its mark while it has work. *)
Lemma process_dirty_handle_marks now h (hs : list nat) s :
  loop_inv s → dirty_ok s → room s h → marked s → h ∈ lp_dirty s →
  (∀ h', h' ∈ hs → h' ≠ h ∧ h' ∈ lp_dirty s) →
  marked (process_dirty_handle now h s).1 ∧ ∀ h', h' ∈ hs → h' ∈ lp_dirty (process_dirty_handle now h s).1.
Proof.
  intros Hi Hd Hr Hm Hin Hhs.
  destruct (process_dirty_handle_ok now h s Hi Hd Hr Hin) as (s' & E & _ & _ & Hf & Hw).
  rewrite E. cbn. split; [|intros h' Hh'; destruct (Hhs h' Hh'); by apply Hf].
  revert E. unfold process_dirty_handle.
  pose proof (working_log_err h _ (working_activity h now) s (conj Hm Hin)) as [Hm1 Hin1].
  destruct (log_err (process_listener_activity h now) s) as [s1 [[]| |]] eqn:E1; cbn in Hm1, Hin1.
  - rewrite (mthen_step _ _ _ s1 tt) by done. mrun.
    destruct (lp_sockets s1 !! h) as [sock|] eqn:Es; cbn; [|by intros [= <-]].
    destruct (can_recv sock) eqn:Ec; cbn; [by intros [= <-]|]. case_match; intros [= <-]; [done|].
    intros h' sock' Hs' Hc'. cbn in *. apply elem_of_difference. split; [by eapply Hm1|].
    intros ->%elem_of_singleton. congruence.
  - unfold mthen. rewrite E1. by intros [= <-].
  - unfold mthen. rewrite E1. by intros [= <-].
Qed.

Lemma process_dirty_handles_marks now hs s :
  loop_inv s → dirty_ok s → marked s → NoDup hs → (∀ h, h ∈ hs → room s h ∧ h ∈ lp_dirty s) →
  marked (process_dirty_handles now hs s).1.
Proof.
  revert s. induction hs as [|h hs IH]; intros s Hi Hd Hm Hnd Hh; cbn [process_dirty_handles]; [done|].
  apply NoDup_cons in Hnd as [Hni Hnd]. destruct (Hh h ltac:(left)) as [Hr Hin].
  assert (∀ h', h' ∈ hs → h' ≠ h ∧ h' ∈ lp_dirty s) as Hrest.
  { intros h' Hh'. split; [by intros ->|]. by apply Hh; right. }
  destruct (process_dirty_handle_marks now h hs s Hi Hd Hr Hm Hin Hrest) as [Hm1 Hd1].
  destruct (process_dirty_handle_ok now h s Hi Hd Hr Hin) as (s1 & E1 & Hi1 & Hdk1 & Hf1 & _).
  rewrite E1 in Hm1, Hd1. rewrite (mthen_step _ _ _ s1 tt) by done. apply IH; try done.
  intros h' Hh'. split; [|by apply Hd1]. destruct (Hrest h' Hh') as [Hne _].
  intros c Hc. apply (Hh h' ltac:(by right)). by destruct (Hf1 h' Hne) as [<- _].
Qed.

Lemma process_dirty_relay_marks order now s :
  loop_inv s → dirty_ok s → (∀ h, room s h) → (∀ l, order l ≡ₚ l) → marked s →
  marked (process_dirty_relay order now s).1.
Proof.
  intros Hi Hd Hr Ho Hm. unfold process_dirty_relay. rewrite (mthen_step _ _ _ s s) by done.
  apply process_dirty_handles_marks; try done.
  - rewrite Ho. apply NoDup_elements.
  - intros h. rewrite Ho, elem_of_elements. by split.
Qed.

(** ** The other steps *)

Lemma rearm_quiet {E} sock c pool now sock' c' pool' :
  rearm_socket_with_reason (E:=E) sock c pool now = Ok (sock', c', pool') → can_recv sock' = false.
Proof.
  unfold rearm_socket_with_reason. intros H. destruct (decide (cx_local_port c = 0)) as [E0|Hp].
  - revert H. unfold rearm_socket. cbn. by destruct (cx_fake_ip c); cbn; rewrite E0, listen_zero.
  - destruct (rearm_socket_spec (E:=E) sock c pool now Hp) as (s' & Hst & E1). rewrite H in E1. simplify_eq.
    by apply listen_idle.
Qed.

Lemma marked_put_quiet h sock : can_recv sock = false → keeps marked (put_sock h sock).
Proof. intros Hq. apply keeps_mupd. intros s H. apply marked_insert; [done|]. congruence. Qed.
#[local] Hint Resolve marked_put_quiet rearm_quiet : keeps.

Lemma marked_rearm h now : keeps marked (rearm_slot h now).
Proof. unfold rearm_slot, put_ctx. go. Qed.
#[local] Hint Resolve marked_rearm : keeps.

Lemma marked_done done now : keeps marked (handle_handshake_done done now).
Proof. unfold handle_handshake_done, put_ctx, spawn_remote_relay. cbn zeta. go. Qed.

Lemma slot_of_port r sl h c : slots_wf r sl → sl.2 !! h = Some c → h ∈ handles_for_port r (cx_local_port c).
Proof.
  intros Hw Hc. assert (h ∈ all_handles r) as Hh.
  { rewrite (sw_handles _ _ Hw), elem_of_seq. split; [lia|]. apply lookup_lt_is_Some, (sw_dom _ _ Hw). eauto. }
  apply elem_of_all_handles in Hh as (p & hs & Hp & Hin).
  destruct (sw_ctx _ _ Hw _ _ _ Hp Hin) as (c' & Hc' & <-). simplify_eq. unfold handles_for_port. by rewrite Hp.
Qed.

(** The slots of the port a packet is for, after the SYN inspector. *)
Definition receivers (pkt : list byte) (s : Loop) (h : nat) : Prop :=
  ∃ port syn c, inspect_inbound_tcp pkt = Some (port, syn) ∧
    lp_ctxs (inspect_and_mark pkt s).1 !! h = Some c ∧ cx_local_port c = port.

Lemma inspect_marks buf s :
  loop_inv s → syn_ok buf → marked s →
  marked (inspect_and_mark buf s).1 ∧ ∀ h, receivers buf s h → h ∈ lp_dirty (inspect_and_mark buf s).1.
Proof.
  intros Hi Hsyn Hm. unfold receivers, inspect_and_mark, syn_ok in *.
  destruct (inspect_inbound_tcp buf) as [[port [|]]|] eqn:Ei; [| |split; [done|by intros h (?&?&?&?&?)]].
  - assert (port ≠ 0) as Hp0 by congruence.
    destruct (ensure_port_spec (E:=ClientError) (lp_registry s) port (lp_sockets s, lp_ctxs s) (li_slots _ Hi) Hp0)
      as (r1 & sl1 & cap1 & E1 & Hw1 & Hx1 & _).
    destruct (ensure_spare_spec (E:=ClientError) r1 port MIN_SPARE_LISTENERS sl1 Hw1)
      as (r2 & [socks2 ctxs2] & cap2 & E2 & Hw2 & Hx2 & _).
    pose proof (extends_trans _ _ _ _ Hx1 Hx2) as [[new Hnew] Hx]. cbn in Hnew, Hx.
    mrun. rewrite E1, E2. cbn. split.
    + intros h sock. cbn. intros Hs Hc. apply elem_of_union.
      destruct (decide (h < length (lp_sockets s))%nat) as [Hlt|Hge].
      { right. apply (Hm h sock); [|done]. by rewrite Hnew, lookup_app_l in Hs. }
      left. apply elem_of_list_to_set.
      destruct (proj2 (sw_dom _ _ Hw2 h) ltac:(eauto)) as [c Hc']. cbn in Hc'.
      replace port with (cx_local_port c); [by eapply (slot_of_port r2 (socks2, ctxs2))|].
      destruct (Hx h) as [E|[_ E]]; rewrite E in Hc'; [|by simplify_eq].
      destruct Hge. apply lookup_lt_is_Some, (sw_dom _ _ (li_slots _ Hi)). eauto.
    + intros h (p & syn & c & [= <- <-] & Hc & <-). apply elem_of_union_l, elem_of_list_to_set.
      by eapply (slot_of_port r2 (socks2, ctxs2)).
  - mrun. split.
    + intros h sock Hs Hc. apply elem_of_union_r. by eapply Hm.
    + intros h (p & syn & c & [= <- <-] & Hc & <-). apply elem_of_union_l, elem_of_list_to_set.
      eapply (slot_of_port _ (lp_sockets s, lp_ctxs s)); [apply Hi|done].
Qed.

(** ** Polls *)

(** Only the sockets of [Q] receive something in this poll. *)
Definition brings_to (env : @poll_env TS) (Q : nat → Prop) : Prop :=
  ∀ h sock, can_recv (pe_sock env h sock) = true → can_recv sock = true ∨ Q h.

(** What the TCP stack promises of the polls of an event: data comes from a packet, and goes to a
    socket of the port the packet is for. *)
Definition stack_ok (s : Loop) (e : @loop_event TS) : Prop :=
  match e with
  | EvGlobal env _ | EvTimer env _ => brings_to env (λ _, False)
  | EvRx read env _ =>
      ∀ pkt, rx_peek (wait_for_rx macos read (lp_dev s)).1 = Some pkt →
        brings_to env (receivers pkt (set_dev (wait_for_rx macos read (lp_dev s)).1 s))
  | _ => True
  end.

Lemma marked_poll env (Q : nat → Prop) s :
  brings_to env Q → (∀ h, Q h → h ∈ lp_dirty s) → marked s → marked (iface_poll macos env s).1.
Proof.
  intros He HQ Hm h sock. cbn. rewrite list_lookup_imap_Some. intros (sock0 & Hs & ->) Hc.
  destruct (He h sock0 Hc) as [Hc'|Hq]; [by eapply Hm|by apply HQ].
Qed.

Lemma marked_dev_flush ws : keeps marked (dev_flush ws).
Proof. intros s H. unfold dev_flush. by destruct (flush_tx ws (lp_dev s)). Qed.
#[local] Hint Resolve marked_dev_flush : keeps.

Lemma marked_poll_and_flush env (Q : nat → Prop) s :
  brings_to env Q → (∀ h, Q h → h ∈ lp_dirty s) → marked s → marked (poll_and_flush macos env s).1.
Proof.
  intros He HQ Hm. pose proof (marked_poll env Q s He HQ Hm) as H1. unfold poll_and_flush.
  rewrite (mthen_step _ _ _ (iface_poll macos env s).1 tt) by done. refine ((_ : keeps marked _) _ H1). go.
Qed.

Lemma flush_downlink_recv sock c : can_recv (flush_downlink sock c).1 = can_recv sock.
Proof.
  unfold flush_downlink. repeat case_match; try done; cbn; by eapply send_slice_recv.
Qed.

Lemma marked_remote_payload h payload env now s :
  brings_to env (λ _, False) → marked s → marked (handle_remote_payload macos h payload env now s).1.
Proof.
  intros He Hm. unfold handle_remote_payload. cbn zeta. mrun.
  destruct (lp_sockets s !! h) as [sock|] eqn:Hs; cbn; [|done].
  destruct (lp_ctxs s !! h) as [c|] eqn:Hc; [|done]. case_bool_decide; [by apply marked_rearm|].
  destruct (cx_uplink_tx c); [|done].
  destruct (flush_downlink _ _) as [sock' c'] eqn:Ef.
  set (s1 := set_ctxs _ _). assert (marked s1) as Hm1.
  { apply marked_insert; [done|]. intros Hr. eapply Hm; [done|]. rewrite <-Hr. change sock' with (sock', c').1.
    rewrite <-Ef. symmetry. apply flush_downlink_recv. }
  pose proof (marked_poll env _ s1 He ltac:(done) Hm1) as H1.
  pose proof (marked_dev_flush (pe_writes env) _ H1) as H2. unfold dev_flush in *.
  cbn in *. by destruct (flush_tx _ _).
Qed.

Lemma marked_log_err m s : marked (m s).1 → marked (log_err m s).1.
Proof. unfold log_err. by destruct (m s) as [s' [| |]]. Qed.

Lemma marked_mark h : keeps marked (mark_if_pending h).
Proof.
  unfold mark_if_pending. walk idtac. apply keeps_mupd. intros s0 Hm h' sock Hs Hc. apply elem_of_union_r. by eapply Hm.
Qed.

Lemma marked_global env now s :
  brings_to env (λ _, False) → marked s → marked (on_global macos env now s).1.
Proof.
  intros He Hm. unfold on_global. rewrite (mthen_step _ _ _ s s) by done.
  destruct (lp_global s) as [|[h payload] rest]; [done|].
  rewrite (mthen_step _ _ _ (set_global rest s) tt) by done.
  pose proof (marked_log_err _ _ (marked_remote_payload h payload env now (set_global rest s) He Hm)) as H1.
  unfold mthen. destruct (log_err _ _) as [s1 [[]| |]]; [by apply marked_mark|done..].
Qed.

Lemma marked_reap {E} now hs sl pool n sl' pool' n' s :
  reap_loop (E:=E) now hs sl pool n = Ok (sl', pool', n') →
  marked (set_sockets sl.1 s) → marked (set_sockets sl'.1 s).
Proof.
  revert sl pool n. induction hs as [|h hs IH]; intros [socks ctxs] pool n; cbn; [by intros; simplify_eq|].
  intros H Hm. inv_res. repeat case_match; simplify_eq. eapply IH; [done|]. unfold reap_slot in *.
  repeat (res_step || (case_match; simplify_eq/=)); simplify_eq/=; try done.
  apply (marked_insert _ _ (set_sockets socks s)); [done|].
  match goal with H : rearm_socket_with_reason _ _ _ _ = _ |- _ => by rewrite (rearm_quiet _ _ _ _ _ _ _ H) end.
Qed.

Lemma marked_sweep now : keeps marked (on_udp_sweep now).
Proof.
  intros s Hm. unfold on_udp_sweep. mrun. destruct (assoc_sweep (lp_assoc s) now UDP_FLOW_IDLE_SECS) as [ips table].
  cbn. unfold reap_dead_slots. destruct (reap_loop _ _ _ _ _) as [[[sl pool] n]| |] eqn:E; [|done..].
  exact (marked_reap _ _ _ _ _ _ _ _ s E Hm).
Qed.

Lemma marked_rx read env now s :
  loop_inv s → dirty_ok s → event_ok macos s (EvRx read env now) → stack_ok s (EvRx read env now) → marked s →
  marked (on_rx macos read env now s).1.
Proof.
  intros Hi Hd (Hr & Ho & Hpk) He Hm. unfold on_rx. rewrite (mthen_step _ _ _ s s) by done. cbn in He.
  pose proof (wait_for_rx_mtu macos read (lp_dev s)) as Hmtu.
  destruct (wait_for_rx macos read (lp_dev s)) as [d r] eqn:Ew. cbn [fst] in He, Hpk, Hmtu.
  set (s1 := set_dev d s) in *. rewrite (mthen_step _ _ _ s1 tt) by done.
  assert (same_tables s s1) as H1 by (by apply same_tables_dev).
  assert (loop_inv s1) as Hi1 by (by eapply same_tables_inv).
  destruct r as [[]|e|]; [|done..]. destruct (rx_peek d) as [pkt|] eqn:Ep; cbn [fmap option_fmap option_map].
  2:{ unfold wait_for_rx in Ew. repeat case_match; simplify_eq. }
  destruct (Hpk _ eq_refl) as [Hsyn _]. specialize (He pkt eq_refl).
  assert (keeps marked (let '(pkt, dev) := rx_take d in
    let! _ := mupd (set_dev dev) in match pkt with Some pkt => handle_dns_hijack macos pkt (pe_writes env) now | None => mret tt end)) as Kd.
  { unfold handle_dns_hijack, inject_and_flush. go. }
  assert (keeps marked (let '(pkt, dev) := rx_take d in
    let! _ := mupd (set_dev dev) in match pkt with Some pkt => handle_tuic_udp_uplink pkt now | None => mret tt end)) as Ku.
  { unfold handle_tuic_udp_uplink. cbn zeta. go. }
  destruct (classify_inbound pkt); [by apply Kd|by apply Ku|].
  destruct (inspect_and_mark_ok pkt s1) as (s2 & E2 & Hi2 & Hd2 & Hr2 & _); try done.
  destruct (inspect_marks pkt s1) as [Hm2 HQ]; try done. rewrite E2 in Hm2, HQ. cbn in Hm2, HQ.
  rewrite (mthen_step _ _ _ s2 tt) by done.
  pose proof (marked_poll_and_flush env _ s2 He HQ Hm2) as Hm3.
  destruct (poll_and_flush_tables macos env s2) as (s3 & E3 & H3). rewrite E3 in Hm3. rewrite (mthen_step _ _ _ s3 tt) by done.
  apply process_dirty_relay_marks; [by eapply same_tables_inv|by eapply same_tables_dirty| |done|done].
  intros h. eapply room_ctxs; [apply Hr2|]. apply H3.
Qed.

Lemma marked_timer env now s :
  loop_inv s → dirty_ok s → event_ok macos s (EvTimer env now) → brings_to env (λ _, False) → marked s →
  marked (on_timer macos env now s).1.
Proof.
  intros Hi Hd [Hr Ho] He Hm. unfold on_timer.
  pose proof (marked_poll_and_flush env _ s He ltac:(done) Hm) as Hm3.
  destruct (poll_and_flush_tables macos env s) as (s3 & E3 & H3). rewrite E3 in Hm3. rewrite (mthen_step _ _ _ s3 tt) by done.
  apply process_dirty_relay_marks; [by eapply same_tables_inv|by eapply same_tables_dirty| |done|done].
  intros h. eapply room_ctxs; [apply Hr|]. apply H3.
Qed.

Lemma marked_step e s :
  loop_ok s → event_ok macos s e → stack_ok s e → marked s → marked (loop_step macos e s).1.
Proof.
  intros [Hi Hd] He Hst Hm. destruct e as [env now|read env now|now|dg ws now|now|now| |env now|i|i a]; cbn [loop_step].
  - by apply marked_global.
  - by apply marked_rx.
  - unfold on_done. refine ((_ : keeps marked _) _ Hm). go. apply marked_done.
  - unfold handle_downlink, inject_and_flush. refine ((_ : keeps marked _) _ Hm). go.
  - by apply marked_sweep.
  - exact Hm.
  - exact Hm.
  - by apply marked_timer.
  - unfold on_task. refine ((_ : keeps marked _) _ Hm). go.
  - unfold run_relay, set_relay. cbn zeta. refine ((_ : keeps marked _) _ Hm). go.
Qed.

(** ** Reachable states of a client with such a stack *)

Inductive stack_reachable : Loop → Prop :=
| sr_init pool_size mtu up :
    0 ≤ pool_size ≤ POOL_BOUND → 0 ≤ mtu ≤ MTU_BOUND → stack_reachable (loop_init pool_size mtu up)
| sr_step s e s' :
    stack_reachable s → event_ok macos s e → stack_ok s e → loop_step macos e s = (s', Ok tt) → stack_reachable s'.

Lemma stack_reachable_loop s : stack_reachable s → loop_reachable macos s.
Proof. induction 1; [by apply lr_init|by eapply lr_step]. Qed.

Lemma stack_reachable_marked s : stack_reachable s → marked s.
Proof.
  induction 1 as [|s e s' Hr IH He Hst Hs]; [by intros h sock Hs|].
  pose proof (marked_step e s (reachable_ok macos s (stack_reachable_loop s Hr)) He Hst IH) as H. by rewrite Hs in H.
Qed.

(** ** Visiting the marked slots and visiting all of them *)

(** The relay a slot sends to, if it has one, still takes messages. *)
Definition open_channel (s : Loop) (tx : nat) : Prop := try_reserve s tx ≠ ChannelClosed.
Definition linked (s : Loop) (h : nat) : Prop :=
  ∀ c tx, lp_ctxs s !! h = Some c → cx_uplink_tx c = Some tx → open_channel s tx.

(** A slot with nothing to do. *)
Record idle (s : Loop) (h : nat) : Prop := {
  id_sock : ∃ sock, lp_sockets s !! h = Some sock ∧ can_recv sock = false;
  id_ctx : ∃ c, lp_ctxs s !! h = Some c ∧ cx_downlink_pending c = [];
  id_linked : linked s h;
  id_clean : h ∉ lp_dirty s
}.

Lemma advance_downlink_nothing s h c sock :
  lp_sockets s !! h = Some sock → lp_ctxs s !! h = Some c → cx_downlink_pending c = [] →
  advance_downlink h s = (s, Ok tt).
Proof.
  intros Hs Hc Hp. unfold advance_downlink. mrun. rewrite Hs. cbn. rewrite Hc. unfold flush_downlink.
  rewrite bool_decide_true by done. cbn. rewrite list_insert_id, insert_id by done. by destruct s.
Qed.

Lemma visit_idle now h s : idle s h → process_dirty_handle now h s = (s, Ok tt).
Proof.
  intros [(sock & Hs & Hr) (c & Hc & Hp) Hl Hd].
  assert (set_sockets (<[h := sock]> (lp_sockets s)) s = s) as Eid by (rewrite list_insert_id by done; by destruct s).
  assert (process_listener_activity h now s = (s, Ok tt)) as E.
  { unfold process_listener_activity. rewrite (mthen_step _ _ _ s tt) by (by eapply advance_downlink_nothing).
    mrun. rewrite Hc. destruct (cx_uplink_tx c) as [tx|] eqn:Ht.
    - unfold forward_established, extract_socket_payload. mrun. specialize (Hl c tx Hc Ht). unfold open_channel in Hl.
      destruct (try_reserve s tx); [|done|done]. mrun. rewrite Hs. cbn. rewrite Hr. cbn. by rewrite Eid.
    - unfold forward_first, extract_socket_payload. mrun. rewrite Hs. cbn. rewrite Hr. cbn. by rewrite Eid. }
  unfold process_dirty_handle, log_err. rewrite (mthen_step _ _ _ s tt) by (by rewrite E). mrun.
  rewrite Hs. cbn. rewrite Hc, Hr, bool_decide_true by done. cbn.
  replace (lp_dirty s ∖ {[h]}) with (lp_dirty s) by set_solver. by destruct s.
Qed.

(** Work on slot [h] leaves the sockets of the others and every open channel as they are. *)
Definition apart (h : nat) (s0 s : Loop) : Prop :=
  (∀ h', h' ≠ h → lp_sockets s !! h' = lp_sockets s0 !! h') ∧ (∀ tx, open_channel s0 tx → open_channel s tx).

Lemma apart_put_sock h s0 sock : keeps (apart h s0) (put_sock h sock).
Proof. apply keeps_mupd. intros s [H1 H2]. split; [|done]. intros h' Hne. cbn. rewrite list_lookup_insert_ne by done. by apply H1. Qed.

Lemma apart_push h s0 i p : keeps (apart h s0) (push_uplink i p).
Proof.
  apply keeps_mupd. intros s [H1 H2]. split; [done|]. intros tx Ho. specialize (H2 tx Ho). revert H2.
  unfold open_channel, try_reserve. cbn. destruct (decide (i = tx)) as [->|Hne].
  - rewrite list_lookup_alter_eq. destruct (lp_relays s !! tx) as [r|]; cbn; [|done].
    destruct (ry_phase r); intros ?; repeat case_match; done.
  - by rewrite list_lookup_alter_ne.
Qed.

Lemma apart_spawn h s0 h' st q : keeps (apart h s0) (spawn_remote_relay h' st q).
Proof.
  apply keeps_mupd. intros s [H1 H2]. split; [done|]. intros tx Ho. specialize (H2 tx Ho). revert H2.
  unfold open_channel, try_reserve. cbn. destruct (lp_relays s !! tx) as [r|] eqn:E; [|done].
  by rewrite (lookup_app_l_Some _ _ _ _ E).
Qed.
#[local] Hint Resolve apart_put_sock apart_push apart_spawn : keeps.

Lemma apart_activity h s0 now : keeps (apart h s0) (process_listener_activity h now).
Proof.
  unfold process_listener_activity, forward_established, forward_first, handle_local_payload, open_inline,
    open_spawned, acquire_fake, rearm_slot, advance_downlink, put_ctx. cbn zeta. go.
Qed.

Lemma apart_visit h s0 now : keeps (apart h s0) (process_dirty_handle now h).
Proof.
  unfold process_dirty_handle. walk upd.
  intros s Hs. pose proof (apart_activity h s0 now s Hs) as H. unfold log_err.
  by destruct (process_listener_activity h now s) as [s' [| |]].
Qed.

Lemma filter_local {A} (P1 P2 : A → Prop) `{!∀ x, Decision (P1 x), !∀ x, Decision (P2 x)} (l : list A) :
  (∀ x, x ∈ l → P1 x ↔ P2 x) → filter P1 l = filter P2 l.
Proof.
  induction l as [|x l IH]; intros Hx; [done|]. rewrite !filter_cons.
  specialize (IH (λ y Hy, Hx y ltac:(by right))). destruct (Hx x ltac:(left)).
  repeat case_decide; rewrite ?IH; tauto.
Qed.

Lemma filter_keep {A} (Q : A → Prop) `{!∀ x, Decision (Q x)} (l r : list A) :
  (∀ x, x ∈ l → Q x) → (∀ x, x ∈ r → ¬ Q x) → filter Q (l ++ r) = l.
Proof.
  intros Hl Hn. induction l as [|x l IH]; cbn [app].
  - induction r as [|y r IH]; [done|]. rewrite filter_cons_False by (apply Hn; left). apply IH. intros z ?. by apply Hn; right.
  - rewrite filter_cons_True by (apply Hl; left). f_equal. apply IH. intros y ?. by apply Hl; right.
Qed.

Lemma visit_all_marked now hs s :
  loop_inv s → dirty_ok s → NoDup hs →
  (∀ h, h ∈ hs → h ∈ lp_dirty s → room s h) → (∀ h, h ∈ hs → h ∉ lp_dirty s → idle s h) →
  process_dirty_handles now hs s = process_dirty_handles now (filter (.∈ lp_dirty s) hs) s.
Proof.
  revert s. induction hs as [|h hs IH]; intros s Hi Hd Hnd Hr Hid; [done|].
  apply NoDup_cons in Hnd as [Hni Hnd]. rewrite filter_cons. cbn [process_dirty_handles].
  destruct (decide (h ∈ lp_dirty s)) as [Hin|Hin].
  2:{ rewrite (mthen_step _ _ _ s tt) by (apply visit_idle, Hid; [left|done]). apply IH; try done.
      - intros h' ?. by apply Hr; right.
      - intros h' ?. by apply Hid; right. }
  cbn [process_dirty_handles].
  destruct (process_dirty_handle_ok now h s Hi Hd (Hr h ltac:(left) Hin) Hin) as (s1 & E1 & Hi1 & Hd1 & Hf1 & _).
  pose proof (apart_visit h s now s) as Hap. rewrite E1 in Hap. destruct Hap as [Hsk Hch]; [by split|].
  rewrite !(mthen_step _ _ _ s1 tt) by done.
  assert (∀ h', h' ∈ hs → h' ≠ h) as Hne by (intros h' Hh' ->; done).
  rewrite (filter_local (.∈ lp_dirty s) (.∈ lp_dirty s1) hs).
  2:{ intros h' Hh'. by destruct (Hf1 h' (Hne h' Hh')). }
  apply IH; try done; intros h' Hh' Hin'; destruct (Hf1 h' (Hne h' Hh')) as [Ec Ed].
  - intros c Hc. eapply (Hr h'); [by right|by apply Ed|by rewrite <-Ec].
  - destruct (Hid h') as [Ek Ex El En]; [by right|by rewrite <-Ed|]. split; [..|done].
    + by rewrite Hsk by (by apply Hne).
    + by rewrite Ec.
    + intros c tx Hc Ht. apply Hch. eapply El; [by rewrite <-Ec|done].
Qed.

Lemma visit_order_full order now s :
  loop_inv s → dirty_ok s → marked s → (∀ h, room s h) → (∀ l, order l ≡ₚ l) →
  (∀ h, h ∉ lp_dirty s → linked s h) →
  ∃ hs, hs ≡ₚ all_handles (lp_registry s) ∧ process_dirty_relay order now s = process_dirty_relay (λ _, hs) now s.
Proof.
  intros Hi Hd Hm Hr Ho Hl. set (D := order (elements (lp_dirty s))).
  assert (∀ h, h ∈ D ↔ h ∈ lp_dirty s) as HD by (intros h; unfold D; by rewrite Ho, elem_of_elements).
  set (hs := D ++ filter (.∉ lp_dirty s) (all_handles (lp_registry s))).
  pose proof (all_handles_nodup _ _ (li_slots _ Hi)) as Hnd.
  assert (hs ≡ₚ all_handles (lp_registry s)) as Hp.
  { unfold hs. apply NoDup_Permutation; [|done|].
    - apply NoDup_app. split_and!; [unfold D; rewrite Ho; apply NoDup_elements| |by apply NoDup_filter].
      intros h Hh%HD [Hn _]%list_elem_of_filter. done.
    - intros h. rewrite elem_of_app, HD, list_elem_of_filter.
      assert (h ∈ lp_dirty s → h ∈ all_handles (lp_registry s)).
      { intros Hh. apply (slots_wf_handle _ _ _ (li_slots _ Hi)). by apply (li_dirty _ Hi). }
      destruct (decide (h ∈ lp_dirty s)); tauto. }
  exists hs. split; [done|]. unfold process_dirty_relay. rewrite !(mthen_step _ _ _ s s) by done.
  rewrite (visit_all_marked now hs s); try done.
  - unfold hs. rewrite filter_keep; [done|by intros h Hh%HD|by intros h [Hn _]%list_elem_of_filter].
  - by rewrite Hp.
  - intros h Hh Hn. rewrite Hp in Hh. apply (slots_wf_handle _ _ _ (li_slots _ Hi)) in Hh as [sock Hs]. cbn in Hs.
    destruct (inv_sock_ctx _ h Hi ltac:(eauto)) as [c Hc]. split; [| |by apply Hl|done].
    + exists sock. split; [done|]. destruct (can_recv sock) eqn:Ec; [|done]. destruct Hn. by eapply Hm.
    + exists c. split; [done|]. destruct (decide (cx_downlink_pending c = [])); [done|]. destruct Hn. by eapply Hd.
Qed.

Lemma registry_visit h R now : keeps (λ s, lp_registry s = R) (process_dirty_handle now h).
Proof.
  unfold process_dirty_handle. walk upd. intros s Hs.
  assert (keeps (λ s, lp_registry s = R) (process_listener_activity h now)) as K.
  { unfold process_listener_activity, forward_established, forward_first, handle_local_payload, open_inline,
      open_spawned, acquire_fake, rearm_slot, advance_downlink, put_ctx, put_sock, push_uplink, spawn_remote_relay.
    cbn zeta. go. }
  specialize (K s Hs). unfold log_err. by destruct (process_listener_activity h now s) as [s' [| |]].
Qed.

Lemma registry_relay order now s : lp_registry (process_dirty_relay order now s).1 = lp_registry s.
Proof.
  unfold process_dirty_relay. rewrite (mthen_step _ _ _ s s) by done.
  assert (∀ hs, keeps (λ s', lp_registry s' = lp_registry s) (process_dirty_handles now hs)) as K; [|by apply K].
  induction hs as [|h hs IH]; cbn [process_dirty_handles]; [by intros ?|].
  apply keeps_mthen; [apply registry_visit|done].
Qed.

(** The same event with another order of visits. *)
Definition visiting (order : list nat → list nat) (e : @loop_event TS) : @loop_event TS :=
  let with_order env := mk_poll_env (pe_sock env) (pe_emit env) (pe_writes env) order in
  match e with
  | EvTimer env now => EvTimer (with_order env) now
  | EvRx read env now => EvRx read (with_order env) now
  | e => e
  end.

Lemma linked_same s s' h :
  lp_relays s' = lp_relays s → lp_ctxs s' !! h = lp_ctxs s !! h → linked s h → linked s' h.
Proof. intros Er Ec H c tx. rewrite Ec. intros Hc Ht. specialize (H c tx Hc Ht). revert H. unfold open_channel, try_reserve. by rewrite Er. Qed.

Lemma inspect_linked pkt s :
  loop_inv s → syn_ok pkt → lp_dirty s ⊆ lp_dirty (inspect_and_mark pkt s).1 ∧
    ∀ h, linked s h → linked (inspect_and_mark pkt s).1 h.
Proof.
  intros Hi Hsyn. unfold inspect_and_mark, syn_ok in *.
  destruct (inspect_inbound_tcp pkt) as [[port [|]]|] eqn:Ei; [|mrun; split; [set_solver|done]|done].
  assert (port ≠ 0) as Hp0 by congruence.
  destruct (ensure_port_spec (E:=ClientError) (lp_registry s) port (lp_sockets s, lp_ctxs s) (li_slots _ Hi) Hp0)
    as (r1 & sl1 & cap1 & E1 & Hw1 & Hx1 & _).
  destruct (ensure_spare_spec (E:=ClientError) r1 port MIN_SPARE_LISTENERS sl1 Hw1)
    as (r2 & [socks2 ctxs2] & cap2 & E2 & Hw2 & Hx2 & _).
  pose proof (extends_trans _ _ _ _ Hx1 Hx2) as [_ Hx]. cbn in Hx. mrun. rewrite E1, E2. cbn. split; [set_solver|].
  intros h Hl. destruct (Hx h) as [E|[_ E]]; [by eapply linked_same; [| |exact Hl]|].
  intros c tx. cbn. rewrite E. intros [= <-] [=].
Qed.

(** An event either visits no slot, or visits some in a state where the unmarked ones are idle. *)
Record visit_state (s : Loop) : Prop := {
  vs_inv : loop_inv s;
  vs_dirty : dirty_ok s;
  vs_marked : marked s;
  vs_room : ∀ h, room s h;
  vs_linked : ∀ h, h ∉ lp_dirty s → linked s h
}.

Lemma poll_visit_state env (Q : nat → Prop) s :
  visit_state s → brings_to env Q → (∀ h, Q h → h ∈ lp_dirty s) →
  ∃ s', poll_and_flush macos env s = (s', Ok tt) ∧ visit_state s'.
Proof.
  intros [Hi Hd Hm Hr Hl] He HQ. pose proof (marked_poll_and_flush env _ s He HQ Hm) as Hm1.
  destruct (poll_and_flush_tables macos env s) as (s1 & E1 & H1). rewrite E1 in Hm1. exists s1. split; [done|].
  split; [by eapply same_tables_inv|by eapply same_tables_dirty|done|..].
  - intros h. eapply room_ctxs; [apply Hr|]. apply H1.
  - intros h Hh. destruct H1. eapply linked_same; [done| |apply Hl]; congruence.
Qed.

Definition visits (e : @loop_event TS) (now : Z) (s : Loop) : Prop :=
  (∀ order, loop_step macos (visiting order e) s = loop_step macos e s) ∨
  ∃ s1, visit_state s1 ∧ ∀ order, loop_step macos (visiting order e) s = process_dirty_relay order now s1.

(** The loop that visits every registered slot, in some order. *)
Definition full_visit (e e' : @loop_event TS) (s : Loop) : Prop :=
  ∃ hs, hs ≡ₚ all_handles (lp_registry (loop_step macos e s).1) ∧ e' = visiting (λ _, hs) e.

Lemma visits_full e env now s :
  visiting (pe_order env) e = e → order_ok env → visits e now s →
  ∃ e', full_visit e e' s ∧ loop_step macos e s = loop_step macos e' s.
Proof.
  intros Ev Ho [H|(s1 & Hv & H)].
  - eexists. split; [eexists; split; reflexivity|]. by rewrite H.
  - destruct Hv as [Hi Hd Hm Hr Hl]. destruct (visit_order_full (pe_order env) now s1) as (hs & Hp & E); try done.
    pose proof (H (pe_order env)) as He. rewrite Ev in He. unfold full_visit. rewrite He.
    eexists. split; [exists hs; split; [|reflexivity]|by rewrite H, E]. by rewrite registry_relay.
Qed.

Lemma timer_visits env now s :
  visit_state s → stack_ok s (EvTimer env now) → visits (EvTimer env now) now s.
Proof.
  intros Hv He. right. destruct (poll_visit_state env _ s Hv He ltac:(done)) as (s1 & E1 & Hv1).
  exists s1. split; [done|]. intros order. cbn. unfold on_timer. by rewrite (mthen_step _ _ _ s1 tt).
Qed.

Lemma rx_visits read env now s :
  visit_state s → event_ok macos s (EvRx read env now) → stack_ok s (EvRx read env now) →
  visits (EvRx read env now) now s.
Proof.
  intros [Hi Hd Hm Hr Hl] (_ & Ho & Hpk) He. unfold visits. cbn [loop_step visiting]. cbn in He. unfold on_rx, mthen, mget, mupd. cbn.
  pose proof (wait_for_rx_mtu macos read (lp_dev s)) as Hmtu.
  destruct (wait_for_rx macos read (lp_dev s)) as [d r] eqn:Ew. cbn [fst] in He, Hpk, Hmtu. set (s1 := set_dev d s) in *.
  assert (same_tables s s1) as H1 by (by apply same_tables_dev).
  assert (loop_inv s1) as Hi1 by (by eapply same_tables_inv).
  destruct r as [[]|e|]; [|by left..]. destruct (rx_peek d) as [pkt|] eqn:Ep; cbn [fmap option_fmap option_map].
  2:{ unfold wait_for_rx in Ew. repeat case_match; simplify_eq. }
  destruct (Hpk _ eq_refl) as [Hsyn _]. specialize (He pkt eq_refl).
  destruct (classify_inbound pkt); [by left|by left|right].
  destruct (inspect_and_mark_ok pkt s1) as (s2 & E2 & Hi2 & Hd2 & Hr2 & _); try done.
  destruct (inspect_marks pkt s1) as [Hm2 HQ]; try done. rewrite E2 in Hm2, HQ. cbn in Hm2, HQ.
  destruct (poll_visit_state env (receivers pkt s1) s2) as (s3 & E3 & Hv3); [|done|exact HQ|].
  - split; try done. intros h Hh.
    destruct (inspect_linked pkt s1) as [Hsub H]; try done. rewrite E2 in Hsub, H. apply H, Hl. by intros ?%Hsub.
  - exists s3. split; [done|]. intros order. rewrite E2.
    transitivity (mthen (poll_and_flush macos env) (λ _, process_dirty_relay order now) s2); [reflexivity|].
    by rewrite (mthen_step _ _ _ s3 tt).
Qed.

Lemma step_full e s :
  visit_state s → event_ok macos s e → stack_ok s e →
  ∃ e', full_visit e e' s ∧ loop_step macos e s = loop_step macos e' s.
Proof.
  intros Hv He Hst. destruct e as [| read env now| | | | | |env now| |];
    try (by eexists; split; [eexists; split; reflexivity|]).
  - apply (visits_full _ env now); [by destruct env|apply He|by apply rx_visits].
  - apply (visits_full _ env now); [by destruct env|apply He|by apply timer_visits].
Qed.

End dirty.

(** C15: Visiting the marked slots is visiting all of them.  In every state the client reaches over a TCP
    stack that hands data only to sockets of the packet's port, a socket with data and a slot with
    bytes to deliver are marked; and while the relays of the unmarked slots take messages, every event
    does exactly what it does in the loop that visits every registered slot in some order: same
    sockets, contexts, pool, relays and packets. *)
Theorem dirty_set_equivalent {TS : Smoltcp} {P : EtherParse} `{!ProxyUpstream U, !DatagramUpstream U}
    `{!SmoltcpLaws TS, !EtherParseLaws P, !UpstreamLaws U} macos (s : @Loop TS U _) e :
  stack_reachable macos s → event_ok macos s e → stack_ok macos s e →
  (∀ h sock c, lp_sockets s !! h = Some sock → lp_ctxs s !! h = Some c →
     can_recv sock = true ∨ cx_downlink_pending c ≠ [] → h ∈ lp_dirty s) ∧
  ((∀ h, h ∉ lp_dirty s → linked s h) →
   ∃ hs, hs ≡ₚ all_handles (lp_registry (loop_step macos e s).1) ∧
     loop_step macos e s = loop_step macos (visiting (λ _, hs) e) s).
Proof.
  intros Hr He Hst. pose proof (stack_reachable_marked macos s Hr) as Hm.
  destruct (reachable_ok macos s (stack_reachable_loop macos s Hr)) as [Hi Hd]. split.
  - intros h sock c Hs Hc [Hcr|Hp]; [by eapply Hm|by eapply Hd].
  - intros Hl. destruct (step_full macos e s) as (e' & (hs & Hp & ->) & E); [split; try done; apply He|done..|]. eauto.
Qed.

(** ** The demo run over its stack *)

Lemma quiet_brings (Q : nat → Prop) : brings_to quiet Q.
Proof. intros h sock H. by left. Qed.

Lemma demo_stack_step (s : demo_loop) e :
  stack_reachable false s → event_ok false s e → stack_ok false s e → is_ok (loop_step false e s).2 = true →
  stack_reachable false (loop_step false e s).1.
Proof.
  intros Hr He Hst Hok. eapply sr_step; [exact Hr|exact He|exact Hst|].
  destruct (loop_step false e s) as [s' [[]| |]]; done.
Qed.

Ltac stack_next H tac stac :=
  match goal with
  | |- context [loop_run false (?e :: _) _] =>
      rewrite demo_cons by (by vm_compute); apply (demo_stack_step _ e) in H; [|tac|stac|by vm_compute]
  end.

(** Data arrives on socket 0, which the SYN created for port 443. *)
Lemma accepts_brings (s : demo_loop) pkt data c :
  inspect_inbound_tcp pkt = Some (443, true) → lp_ctxs (inspect_and_mark pkt s).1 !! 0%nat = Some c →
  cx_local_port c = 443 → brings_to (accepts data) (receivers pkt s).
Proof.
  intros Hi Hc Hp h sock. unfold accepts. cbn. case_bool_decide as Hh; [|by left]. intros _. right.
  subst h. exists 443, true, c. done.
Qed.

Lemma demo_stack_reachable : stack_reachable false (demo_run demo_events).
Proof.
  assert (stack_reachable false demo_start) as H by (by apply sr_init).
  unfold demo_run, demo_events.
  stack_next H demo_rx ltac:(intros ? _; apply quiet_brings).
  stack_next H demo_rx ltac:(intros pkt Hp; vm_compute in Hp; injection Hp as <-; 
    eapply accepts_brings; [by vm_compute|by vm_compute|reflexivity]).
  do 4 stack_next H demo_free ltac:(exact I). stack_next H demo_free ltac:(apply quiet_brings).
  rewrite demo_nil. exact H.
Qed.

Definition linked_b (s : demo_loop) : bool :=
  forallb (λ kc, match cx_uplink_tx kc.2 with
                 | Some tx => match try_reserve s tx with ChannelClosed => false | _ => true end
                 | None => true
                 end) (map_to_list (lp_ctxs s)).

Lemma linked_b_ok (s : demo_loop) h : linked_b s = true → linked s h.
Proof.
  unfold linked_b. rewrite forallb_forall. intros H c tx Hc Ht. unfold open_channel.
  specialize (H (h, c) ltac:(by apply list_elem_of_In, elem_of_map_to_list)). cbn in H. rewrite Ht in H. by destruct (try_reserve s tx).
Qed.

Lemma dirty_set_equivalent_witness :
  let s := demo_run demo_events in
  ∃ hs, hs ≡ₚ all_handles (lp_registry (loop_step false (EvTimer quiet 9) s).1) ∧
    loop_step false (EvTimer quiet 9) s = loop_step false (visiting (λ _, hs) (EvTimer quiet 9)) s.
Proof.
  intros s. destruct (dirty_set_equivalent false s (EvTimer quiet 9) demo_stack_reachable) as [_ H].
  - split; [apply room_b_ok; by vm_compute|intros l; reflexivity].
  - apply quiet_brings.
  - apply H. intros h _. apply linked_b_ok. by vm_compute.
Defined.

(** ** A relay that ended without a message *)

Section silent.
Context {TS : Smoltcp} {P : EtherParse} {U : Type} `{!ProxyUpstream U, !DatagramUpstream U}.
Context `{!SmoltcpLaws TS, !EtherParseLaws P, !UpstreamLaws U}.
Variable macos : bool.

(** Time passes, the loop takes messages off its queue and the relays of other slots work, while
    the application of slot [h] stays silent. *)
Definition passes_time (h : nat) (s : @Loop TS U _) (e : @loop_event TS) : Prop :=
  match e with
  | EvTimer env _ | EvGlobal env _ => ∀ sock, pe_sock env h sock = sock
  | EvUdpSweep _ | EvFakeIpSweep _ | EvMetrics => True
  | EvRelay j _ => ∀ r, lp_relays s !! j = Some r → ry_handle r ≠ h
  | _ => False
  end.

Fixpoint silent_run (h : nat) (s : @Loop TS U _) (es : list (@loop_event TS)) : Prop :=
  match es with
  | [] => True
  | e :: es => event_ok macos s e ∧ passes_time h s e ∧ silent_run h (loop_step macos e s).1 es
  end.

(** The ways a running relay ends without a message: the idle timer, a read error, a write error. *)
Definition ends_silently (r : Relay) (a : relay_action) : Prop :=
  match a with
  | RelayIdle | RelayRemote None _ => True
  | RelayLocal false => ry_queue r ≠ []
  | _ => False
  end.

(** Slot [h] as it was, unmarked, and no message for it on its way. *)
Record left_alone (h : nat) (sock : TcpSocket) (c : SocketCtx) (s : @Loop TS U _) : Prop := {
  la_sock : lp_sockets s !! h = Some sock;
  la_ctx : lp_ctxs s !! h = Some c;
  la_clean : h ∉ lp_dirty s;
  la_queue : ∀ m, m ∈ lp_global s → m.1 ≠ h
}.

Record untouched (h : nat) (sock : TcpSocket) (c : SocketCtx) (s : @Loop TS U _) : Prop := {
  un_ok : loop_ok s;
  un_alone : left_alone h sock c s
}.

(** Work on another slot leaves slot [h] alone. *)
Ltac alone :=
  intros;
  match goal with H : left_alone _ _ _ _ |- _ => destruct H end;
  split; cbn; rewrite ?lookup_insert_ne, ?lookup_alter_ne, ?list_lookup_insert_ne by done; try done; set_solver.

Lemma alone_poll h sock c env :
  (∀ sock, pe_sock env h sock = sock) → keeps (left_alone h sock c) (iface_poll (U:=U) macos env).
Proof.
  intros He s [Hs Hc Hn Hg]. split; cbn; [|done..]. by rewrite list_lookup_imap, Hs; cbn; rewrite He.
Qed.

Lemma alone_flush h sock c ws : keeps (left_alone h sock c) (dev_flush (U:=U) ws).
Proof. intros s []. unfold dev_flush. by destruct (flush_tx ws (lp_dev s)). Qed.

Lemma alone_global h sock c h' payload env now :
  h' ≠ h → (∀ sock, pe_sock env h sock = sock) →
  keeps (left_alone h sock c) (log_err (handle_remote_payload (U:=U) macos h' payload env now)) ∧
  keeps (left_alone h sock c) (mark_if_pending (U:=U) h').
Proof.
  intros Hne He. split.
  - intros s Hs. assert (keeps (left_alone h sock c) (handle_remote_payload (U:=U) macos h' payload env now)) as K.
    { unfold handle_remote_payload, rearm_slot, get_sock, get_ctx, put_sock, put_ctx, mret.
      walk ltac:(alone); eauto using alone_poll, alone_flush. }
    specialize (K s Hs). unfold log_err. by destruct (handle_remote_payload _ _ _ _ _ s) as [s' [| |]].
  - unfold mark_if_pending, get_ctx, mret. walk ltac:(alone).
Qed.

Lemma global_visit h g now : keeps (λ s, lp_global s = g) (process_dirty_handle (U:=U) now h).
Proof.
  assert (keeps (λ s, lp_global s = g) (process_listener_activity (U:=U) h now)) as K.
  { unfold process_listener_activity, forward_established, forward_first, handle_local_payload, open_inline,
      open_spawned, acquire_fake, rearm_slot, advance_downlink, get_sock, get_ctx, put_ctx, put_sock, push_uplink,
      spawn_remote_relay, mret. cbn zeta. walk ltac:(exact (λ _ K, K)). }
  unfold process_dirty_handle, get_sock, get_ctx, mret. walk ltac:(exact (λ _ K, K)).
  intros s Hs. specialize (K s Hs). unfold log_err. by destruct (process_listener_activity h now s) as [s' [| |]].
Qed.

Lemma global_visits g now hs : keeps (λ s, lp_global s = g) (process_dirty_handles (U:=U) now hs).
Proof.
  induction hs as [|h hs IH]; cbn [process_dirty_handles]; [by intros ?|].
  apply keeps_mthen; [apply global_visit|done].
Qed.

Lemma untouched_visit h sock c now hs s :
  untouched h sock c s → NoDup hs → (∀ h', h' ∈ hs → room s h' ∧ h' ∈ lp_dirty s) →
  untouched h sock c (process_dirty_handles now hs s).1.
Proof.
  intros [[Hi Hd] [Hs Hc Hn Hg]] Hnd Hh.
  assert (h ∉ hs) as Hni by (intros Hin; by destruct (Hh h Hin)).
  pose proof (global_visits _ now hs s eq_refl) as Eg.
  destruct (process_dirty_handles_ok now hs s Hi Hd Hnd Hh) as (s' & E & Hi' & Hd' & Hf). destruct (Hf h Hni) as [Ec Ed].
  split; [by rewrite E; split|]. split; [|by rewrite E; cbn; rewrite Ec|by rewrite E; cbn; rewrite Ed|by rewrite Eg].
  assert (∀ l, h ∉ l → keeps (λ s, lp_sockets s !! h = Some sock) (process_dirty_handles now l)) as K; [|by apply K].
  clear. induction l as [|h' l IH]; cbn [process_dirty_handles]; [by intros _ ?|]. intros [Hne Hni]%not_elem_of_cons.
  apply keeps_mthen; [|by intros _; apply IH]. intros s Hs.
  pose proof (apart_visit h' s now s) as [Hsk _]; [by split|]. by rewrite Hsk.
Qed.

Lemma sweep_untouched h sock c now s :
  loop_inv s → lp_sockets s !! h = Some sock → lp_ctxs s !! h = Some c → slot_dead sock c = false →
  lp_sockets (on_udp_sweep now s).1 !! h = Some sock ∧ lp_ctxs (on_udp_sweep now s).1 !! h = Some c ∧
  lp_dirty (on_udp_sweep now s).1 = lp_dirty s ∧ lp_global (on_udp_sweep now s).1 = lp_global s.
Proof.
  intros Hi Hs Hc Hdead. unfold on_udp_sweep. mrun. destruct (assoc_sweep _ _ _) as [ips table]. mrun.
  destruct (reap_loop_spec (E:=ClientError) (lp_registry s) now (all_handles (lp_registry s))
    (lp_sockets s, lp_ctxs s) (release_all ips now (lp_pool s)) 0) as (sl' & pool' & n' & E & _ & _ & Hall);
    [apply Hi|eapply all_handles_nodup; apply Hi|intros h' Hh; by apply (slots_wf_handle _ _ _ (li_slots _ Hi)) in Hh|].
  specialize (Hall h sock c Hs Hc). rewrite Hdead in Hall. destruct Hall.
  unfold reap_dead_slots. cbn. by rewrite E.
Qed.

Lemma poll_sockets env (s : @Loop TS U _) :
  lp_sockets (poll_and_flush macos env s).1 = imap (pe_sock env) (lp_sockets s).
Proof.
  unfold poll_and_flush, iface_poll, dev_flush. mrun. destruct (flush_tx _ _) as [d []]; done.
Qed.

Lemma alone_relay h sock c j a s :
  left_alone h sock c s → (∀ r, lp_relays s !! j = Some r → ry_handle r ≠ h) →
  left_alone h sock c (run_relay (U:=U) j a s).1.
Proof.
  intros [Hs Hc Hn Hg] Hj. unfold run_relay. mrun. destruct (lp_relays s !! j) as [r|] eqn:Er; [|done].
  specialize (Hj r eq_refl).
  destruct (ry_phase r), a as [ok|[data|] w| |]; try done; repeat case_match; try done; split; cbn; try done;
    intros m [Hm| ->%list_elem_of_singleton]%elem_of_app; cbn; auto.
Qed.

Lemma untouched_step h sock c e s :
  untouched h sock c s → slot_dead sock c = false → passes_time h s e → event_ok macos s e →
  untouched h sock c (loop_step macos e s).1 ∧ (loop_step macos e s).2 = Ok tt.
Proof.
  intros [Hok Ha] Hdead Hp He. destruct (loop_step_ok macos e s Hok He) as (s' & E & Hok').
  split; [|by rewrite E]. pose proof Hok as [Hi Hd].
  destruct e as [env now| | | |now|now| |env now| |j a]; try done; cbn [loop_step] in *.
  - split; [by rewrite E|]. unfold on_global. rewrite (mthen_step _ _ _ s s) by done.
    destruct (lp_global s) as [|[h' payload] rest] eqn:Eg; [done|].
    assert (h' ≠ h) as Hne by (apply (la_queue _ _ _ _ Ha (h', payload)); rewrite Eg; set_solver).
    destruct (alone_global h sock c h' payload env now Hne Hp) as [K1 K2].
    rewrite (mthen_step _ _ _ (set_global rest s) tt) by done.
    refine (keeps_mthen _ _ _ K1 (λ _, K2) _ _).
    destruct Ha as [? ? ? Hg]. split; [done..|]. intros m Hm. apply Hg. rewrite Eg. set_solver.
  - destruct Ha as [Hs Hc Hn Hg].
    destruct (sweep_untouched h sock c now s Hi Hs Hc Hdead) as (H1 & H2 & H3 & H4). rewrite E in *.
    split; [done|]. split; [done..| |]; cbn in *; [by rewrite H3|by rewrite H4].
  - split; [by rewrite E|by destruct Ha].
  - split; [by rewrite E|by destruct Ha].
  - destruct He as [Hr Ho]. unfold on_timer in *. pose proof (poll_sockets env s) as Hk. destruct Ha as [Hs Hc Hn Hg].
    destruct (poll_and_flush_tables macos env s) as (s1 & E1 & H1). rewrite E1 in Hk. cbn in Hk.
    rewrite (mthen_step _ _ _ s1 tt) in * by done.
    unfold process_dirty_relay. rewrite (mthen_step _ _ _ s1 s1) by done. apply untouched_visit.
    + split; [split; [by eapply same_tables_inv|by eapply same_tables_dirty]|]. split.
      * rewrite Hk, list_lookup_imap, Hs. cbn. by rewrite Hp.
      * by rewrite (st_ctxs _ _ H1).
      * by rewrite (st_dirty _ _ H1).
      * by rewrite (st_global _ _ H1).
    + rewrite Ho. apply NoDup_elements.
    + intros h'. rewrite Ho, elem_of_elements. intros Hh'. split; [|done]. eapply room_ctxs; [apply Hr|]. apply H1.
  - split; [by rewrite E|]. by apply alone_relay.
Qed.

Lemma untouched_run h sock c es s :
  untouched h sock c s → slot_dead sock c = false → silent_run h s es →
  ∃ s', loop_run macos es s = (s', Ok tt) ∧ untouched h sock c s'.
Proof.
  revert s. induction es as [|e es IH]; intros s Hu Hdead Hp; cbn [loop_run]; [by exists s|].
  destruct Hp as (He & Hp & Hps).
  destruct (untouched_step h sock c e s Hu Hdead Hp He) as [Hu1 E1].
  rewrite (mthen_step _ _ _ (loop_step macos e s).1 tt); [by apply IH|]. by destruct (loop_step macos e s); cbn in *; subst.
Qed.

Lemma run_relay_ctxs j a s : lp_ctxs (run_relay (U:=U) j a s).1 = lp_ctxs s.
Proof.
  unfold run_relay. mrun. destruct (lp_relays s !! j) as [r|]; [|done].
  destruct (ry_phase r), a as [ok|[data|] w| |]; try done; repeat case_match; done.
Qed.

(** The two steps of a silent end change the relay and nothing else. *)
Lemma silent_end s tx r a :
  lp_relays s !! tx = Some r → ry_phase r = RelayRunning → ends_silently r a →
  ∃ r', ry_phase r' = RelayFinished ∧ ry_handle r' = ry_handle r ∧
    loop_run (U:=U) macos [EvRelay tx a; EvRelay tx RelayClose] s = (set_relays (<[tx := r']> (lp_relays s)) s, Ok tt).
Proof.
  intros Hr Hph He. pose proof (lookup_lt_Some _ _ _ Hr) as Hlt. cbn [loop_run loop_step].
  assert (∃ r1, ry_phase r1 = RelayShutdown ∧ ry_handle r1 = ry_handle r ∧
            run_relay tx a s = (set_relays (<[tx := r1]> (lp_relays s)) s, Ok tt)) as (r1 & Hp1 & Hh1 & E1).
  { unfold run_relay. mrun. rewrite Hr, Hph.
    destruct a as [[|]|[data|] w| |]; try done; [|by eexists (relay_break r)..].
    cbn in He. destruct (ry_queue r) as [|p q]; [done|]. by eexists (mk_Relay _ _ _ _ _ _). }
  rewrite (mthen_step _ _ _ _ tt E1). unfold run_relay. mrun. rewrite list_lookup_insert_eq by done. rewrite Hp1.
  eexists (mk_Relay (ry_handle r1) (ry_stream r1) (ry_queue r1) (ry_written r1) RelayFinished (ry_diag r1)).
  split; [done|]. split; [done|]. unfold set_relay. mrun. by rewrite list_insert_insert_eq.
Qed.

End silent.

(** C37: A relay that ends without a message leaves its slot behind.  When the relay of a slot ends on
    its idle timeout, a read error or a write error, it sends nothing to the loop: the loop's queue
    is what it was and the relay's channel is closed.  From then on, while the application keeps its
    connection open and silent and no older message for the slot waits in the queue, nothing takes the
    slot back, however long: neither timers and sweeps, nor the messages of the queue, nor the relays of
    other slots.  The socket stays open towards the application, the slot keeps its dead sender and its
    fake address, and still no message for the slot is on its way. *)
Theorem dead_relay_unnoticed {TS : Smoltcp} {P : EtherParse} `{!ProxyUpstream U, !DatagramUpstream U}
    `{!SmoltcpLaws TS, !EtherParseLaws P, !UpstreamLaws U} macos (s : @Loop TS U _) h sock c tx r a :
  loop_reachable macos s → (∀ h, room s h) →
  lp_sockets s !! h = Some sock → lp_ctxs s !! h = Some c → cx_uplink_tx c = Some tx →
  lp_relays s !! tx = Some r → ry_phase r = RelayRunning → ends_silently r a →
  is_active sock = true → tcp_state sock ≠ TsCloseWait → h ∉ lp_dirty s →
  (∀ m, m ∈ lp_global s → m.1 ≠ h) →
  ∃ s1, loop_run macos [EvRelay tx a; EvRelay tx RelayClose] s = (s1, Ok tt) ∧
    lp_global s1 = lp_global s ∧ try_reserve s1 tx = ChannelClosed ∧
    ∀ es, silent_run macos h s1 es →
      ∃ s', loop_run macos es s1 = (s', Ok tt) ∧ lp_sockets s' !! h = Some sock ∧
        lp_ctxs s' !! h = Some c ∧ ∀ m, m ∈ lp_global s' → m.1 ≠ h.
Proof.
  intros Hr Hroom Hs Hc Ht Hrel Hph He Ha Hst Hn Hg. pose proof (reachable_ok macos s Hr) as Hok.
  destruct (silent_end macos s tx r a Hrel Hph He) as (r' & Hp' & Hh' & E).
  eexists. split; [exact E|]. split; [done|]. split.
  { unfold try_reserve. cbn. rewrite list_lookup_insert_eq by (by eapply lookup_lt_Some). by rewrite Hp'. }
  intros es Hes. destruct (untouched_run macos h sock c es (set_relays (<[tx := r']> (lp_relays s)) s))
    as (s' & E' & [_ [? ? _ ?]]); [| |done|by exists s'].
  - split; [|done]. cbn [loop_run] in E.
    destruct (loop_step_ok macos (EvRelay tx a) s Hok (conj Hroom I)) as (s1 & E1 & Hok1).
    rewrite (mthen_step _ _ _ _ _ E1) in E.
    assert (∀ h, room s1 h) as Hroom1.
    { intros h'. eapply room_ctxs; [apply Hroom|]. pose proof (run_relay_ctxs tx a s) as H. cbn [loop_step] in E1. by rewrite E1 in H. }
    destruct (loop_step_ok macos (EvRelay tx RelayClose) s1 Hok1 (conj Hroom1 I)) as (s2 & E2 & Hok2).
    rewrite (mthen_step _ _ _ _ _ E2) in E. unfold mret, mlift in E. by injection E as <-.
  - destruct Hok as [Hi _]. destruct (ctx_ok_uplink c tx (li_ctx _ Hi _ _ Hc) Ht) as [Hst' _].
    unfold slot_dead. by rewrite Hst', Ha, (bool_decide_false (_ = TsCloseWait)).
Qed.

(** The demo connection after 90 silent seconds. *)
Definition idle_events : list demo_event := [EvRelay 0%nat RelayIdle; EvRelay 0%nat RelayClose].
Definition later_events : list demo_event :=
  [EvTimer quiet 200; EvGlobal quiet 201; EvUdpSweep 300; EvFakeIpSweep 9000; EvUdpSweep 9001].

Lemma demo_later_silent : silent_run false 0 (loop_run false idle_events (demo_run demo_events)).1 later_events.
Proof.
  cbn [silent_run later_events passes_time].
  repeat split; first [apply room_b_ok; vm_compute; reflexivity|intros ?; reflexivity].
Qed.

Lemma dead_relay_unnoticed_witness :
  ∃ s1 s' sock c, loop_run false idle_events (demo_run demo_events) = (s1, Ok tt) ∧
    lp_global s1 = lp_global (demo_run demo_events) ∧
    loop_run false later_events s1 = (s', Ok tt) ∧ lp_sockets s' !! 0%nat = Some sock ∧
    lp_ctxs s' !! 0%nat = Some c ∧ cx_state c = Relaying ∧ cx_fake_ip c = Some demo_fake.
Proof.
  set (s := demo_run demo_events). eassert (lp_sockets s !! 0%nat = Some _) as Hs by (vm_compute; reflexivity).
  eassert (lp_ctxs s !! 0%nat = Some _) as Hc by (vm_compute; reflexivity).
  eassert (lp_relays s !! 0%nat = Some _) as Hr by (vm_compute; reflexivity).
  destruct (dead_relay_unnoticed false s 0 _ _ 0 _ RelayIdle demo_reachable
    ltac:(apply room_b_ok; vm_compute; reflexivity) Hs Hc eq_refl Hr) as (s1 & E & Hg & _ & Hlater);
    [reflexivity|exact I|reflexivity|discriminate
    |apply (bool_decide_eq_false_1 (0%nat ∈ lp_dirty s)); vm_compute; reflexivity
    |replace (lp_global s) with (@nil (nat * list byte)) by (vm_compute; reflexivity); intros m []%elem_of_nil|].
  destruct (Hlater later_events) as (s' & E' & H1 & H2 & _).
  - replace s1 with (loop_run false idle_events s).1 by (unfold idle_events; by rewrite E). exact demo_later_silent.
  - exists s1, s'. do 2 eexists. split; [exact E|]. split; [exact Hg|]. split; [exact E'|]. split; [exact H1|].
    split; [exact H2|]. split; reflexivity.
Defined.
