(* ===== verification/TunData.v ===== *)
(** * TunData: the data paths of the TUN client

    What happens to the bytes of one connection or flow: the downlink backlog, the uplink buffer and
    channel, DNS queries and fake addresses, UDP associations, new connections and dead slots. *)

From S2P Require Import Prelude Shared Text Dns FakeIp TuicCodec Frag Assoc Metrics UdpRelay Device TunSlot Upstream ClientTun TunInv TunStep TunProps.

(** ** Downlink *)

Section downlink.
Context {TS : Smoltcp}.

(** The bytes [flush_downlink] hands to the stack, and whether the stack refused them. *)
Definition accepted (sock : TcpSocket) (c : SocketCtx) : list byte :=
  if bool_decide (cx_downlink_pending c = []) || negb (can_send sock) then []
  else match send_slice sock (cx_downlink_pending c) with
       | Some (n, _) => ztake n (cx_downlink_pending c)
       | None => []
       end.
Definition refused (sock : TcpSocket) (c : SocketCtx) : bool :=
  negb (bool_decide (cx_downlink_pending c = [])) && can_send sock &&
  match send_slice sock (cx_downlink_pending c) with None => true | Some _ => false end.

(** What happens to a slot between two teardowns: a payload from its relay, a flush, or a poll that
    changes the socket in any way. *)
Inductive down_op : Type :=
| DownData (payload : list byte)
| DownFlush
| DownPoll (sock : TcpSocket).

(** The slot after the operations, the bytes handed over, and whether any were refused. *)
Fixpoint down_run (ops : list down_op) (sock : TcpSocket) (c : SocketCtx)
  : TcpSocket * SocketCtx * list byte * bool :=
  match ops with
  | [] => (sock, c, [], false)
  | DownPoll sock' :: ops => down_run ops sock' c
  | o :: ops =>
      let c := match o with
               | DownData payload =>
                   let pending := cx_downlink_pending c ++ payload in
                   set_pending pending (note_remote_payload (len payload) (len pending) (cx_downlink_diag c)) c
               | _ => c
               end in
      let '(sock', c') := flush_downlink sock c in
      let '(s, c'', acc, bad) := down_run ops sock' c' in
      (s, c'', accepted sock c ++ acc, refused sock c || bad)
  end.

Definition down_payloads (ops : list down_op) : list byte :=
  concat ((λ o, match o with DownData p => p | _ => [] end) <$> ops).

Lemma flush_conserves `{!SmoltcpLaws TS} sock c :
  refused sock c = false →
  cx_downlink_pending c = accepted sock c ++ cx_downlink_pending (flush_downlink sock c).2.
Proof.
  unfold refused, accepted, flush_downlink. case_bool_decide as Hp; cbn [orb negb andb]; [by rewrite Hp|].
  destruct (can_send sock); cbn [negb andb]; [|done].
  destruct (send_slice sock (cx_downlink_pending c)) as [[n s']|] eqn:Es; [|done]. intros _.
  case_bool_decide as Hn; [by subst n|]. cbn. by rewrite ztake_zdrop.
Qed.

Lemma down_run_conserves `{!SmoltcpLaws TS} ops sock c sock' c' acc :
  down_run ops sock c = (sock', c', acc, false) →
  cx_downlink_pending c ++ down_payloads ops = acc ++ cx_downlink_pending c'.
Proof.
  revert sock c acc. induction ops as [|o ops IH]; intros sock c acc.
  { intros [= <- <- <-]. unfold down_payloads. cbn. by rewrite app_nil_r. }
  assert (∀ c1, cx_downlink_pending c1 = cx_downlink_pending c ++ (match o with DownData p => p | _ => [] end) →
    (let '(s1, c2) := flush_downlink sock c1 in
     let '(s, c'', acc, bad) := down_run ops s1 c2 in
     (s, c'', accepted sock c1 ++ acc, refused sock c1 || bad)) = (sock', c', acc, false) →
    cx_downlink_pending c ++ down_payloads (o :: ops) = acc ++ cx_downlink_pending c') as Hstep.
  { intros c1 Hc1. pose proof (flush_conserves sock c1) as Hf.
    destruct (flush_downlink sock c1) as [s1 c2]. cbn [snd] in Hf.
    destruct (down_run ops s1 c2) as [[[s c''] acc'] bad] eqn:Er. intros [= <- <- <- Hb].
    apply orb_false_iff in Hb as [Hb ->]. specialize (Hf Hb). apply IH in Er.
    unfold down_payloads in *. cbn [fmap list_fmap concat]. rewrite app_assoc, <-Hc1, Hf, <-!app_assoc. by rewrite Er. }
  destruct o as [p| |s0]; cbn [down_run].
  - by apply Hstep.
  - apply Hstep. by rewrite app_nil_r.
  - intros H. apply IH in H. exact H.
Qed.

End downlink.

(** The downlink of a connection loses, repeats and reorders nothing, however little the stack
    accepts at a time and whatever it does in between: as long as the stack refuses no write, the bytes
    handed over, followed by the backlog, are the bytes received from the upstream in order. *)
Theorem downlink_lossless {TS : Smoltcp} `{!SmoltcpLaws TS} ops sock port sock' c' acc :
  down_run ops sock (ctx_new port) = (sock', c', acc, false) →
  down_payloads ops = acc ++ cx_downlink_pending c'.
Proof. intros H. by apply down_run_conserves in H. Qed.

Lemma downlink_lossless_witness :
  let sock n := mk_demo_sock TsEstablished [] n [] None in
  let ops := [DownData [x01; x02; x03]; DownPoll (sock 2); DownFlush; DownData [x04]; DownPoll (sock 9)] in
  down_payloads (TS:=demo_stack) ops = [x01; x02; x03] ++ [x04].
Proof.
  apply (downlink_lossless (TS:=demo_stack) [DownData [x01; x02; x03]; DownPoll (mk_demo_sock TsEstablished [] 2 [] None : @TcpSocket demo_stack);
     DownFlush; DownData [x04]; DownPoll (mk_demo_sock TsEstablished [] 9 [] None : @TcpSocket demo_stack)]
     (mk_demo_sock TsEstablished [] 1 [] None) 443 (mk_demo_sock TsEstablished [] 9 [] None)
     (mk_SocketCtx 443 Listening None [x04] None 0 [] (mk_TcpDownlinkDiag 4 3 2 3 0 0 0 0))).
  vm_compute. reflexivity.
Defined.
