(* ===== verification/TunFlows.v ===== *)
(** * TunFlows: the client's paths from packet to packet

    One event of the loop seen from outside: a DNS query and the address it is answered with, the
    targets a connection may be relayed to, a UDP flow there and back, the listeners a SYN finds,
    and the slots the reaper takes back. *)

From S2P Require Import Prelude Shared Text Dns FakeIp TuicCodec Frag Assoc Metrics UdpRelay Device TunSlot Upstream ClientTun TunInv TunSend TunStep TunProps.

Section flows.
Context {TS : Smoltcp} {P : EtherParse} {U : Type} `{!ProxyUpstream U, !DatagramUpstream U}.
Context `{!SmoltcpLaws TS, !EtherParseLaws P, !UpstreamLaws U}.
Abbreviation Loop := (@Loop TS U _).
Variable macos : bool.

(** A UDP packet that arrives is taken out of the device and handed to its handler. *)
Lemma on_rx_udp (s : Loop) pkt udp env now :
  len pkt ≤ vd_mtu (lp_dev s) → parse_inbound_udp pkt = Some udp →
  on_rx macos (Some (frame macos pkt)) env now s =
  (if bool_decide (ui_dst_port udp = 53) then handle_dns_hijack macos pkt (pe_writes env) now
   else handle_tuic_udp_uplink pkt now) (set_dev (set_rx None (lp_dev s)) s).
Proof.
  intros Hl Hu. unfold on_rx. rewrite (mthen_step _ _ _ s s) by done. rewrite wait_for_rx_framed by done.
  erewrite mthen_step by done. cbn [rx_peek vd_rx_buffer set_rx fmap option_fmap option_map].
  unfold classify_inbound. rewrite Hu. by case_bool_decide.
Qed.

(** ** DNS *)

Lemma query_answer_fits data q ans :
  parse_query data = Ok q → len data ≤ MTU_BOUND → len (build_response q ans) ≤ UDP_PAYLOAD_MAX.
Proof.
  intros Hq Hl. destruct (parse_query_inv data) as [E|(id & fl & cs & ls & qt & qc & rest & -> & H1 & H2 & H3 & H4 & H5 & H6)];
    [by rewrite E in Hq|].
  rewrite parse_query_wire in Hq by done. injection Hq as <-.
  unfold build_response, UDP_PAYLOAD_MAX, MTU_BOUND, wire_query in *. cbn [dq_question].
  pose proof (len_nonneg rest). destruct ans as [ip ttl|]; [pose proof (octets_len ip)|]; llia.
Qed.

Lemma handle_dns_hijack_A (s : Loop) pkt udp q ws now ip pool :
  loop_inv s → len pkt ≤ MTU_BOUND → parse_inbound_udp pkt = Some udp →
  parse_query (ui_payload udp) = Ok q → dq_qtype q = QTYPE_A →
  pool_alloc (lp_pool s) (dq_qname q) now = (ip, pool) →
  ∃ reply,
    handle_dns_hijack macos pkt ws now s =
      (set_dev (flush_tx ws (inject_ip_packet macos reply (lp_dev s))).1
         (set_metrics (inc_dns_forged (lp_metrics s)) (set_pool pool s)), Ok tt) ∧
    parse_inbound_udp reply = Some (mk_UdpInbound (ui_dst_ip udp) 53 (ui_src_ip udp) (ui_src_port udp)
      (build_response q (AnswerA ip 5))).
Proof.
  intros Hi Hl Hu Hq Ht Ha. pose proof (parse_inbound_payload _ _ Hu) as Hpl.
  destruct (parse_inbound_widths _ _ Hu) as (W1 & W2 & W3 & W4).
  destruct (build_udp_ip_packet_fits (E:=unit) (ui_dst_ip udp, 53) (ui_src_ip udp, ui_src_port udp)
    (build_response q (AnswerA ip 5))) as [reply Hr]; [eapply query_answer_fits; [done|lia]|].
  exists reply. split.
  - unfold handle_dns_hijack. rewrite Hu, (mthen_step _ _ _ s s) by done.
    unfold forge_dns_reply. rewrite Hq. cbn [rbind]. rewrite bool_decide_true by done. rewrite Ha, Hr. done.
  - rewrite (parse_built (E:=unit) (ui_dst_ip udp, 53) (ui_src_ip udp, ui_src_port udp)
      (build_response q (AnswerA ip 5)) reply); try done.
Qed.

(** ** UDP *)

Definition udp_tuple (udp : UdpInbound) : FourTuple :=
  mk_FourTuple (ui_src_ip udp) (ui_src_port udp) (ui_dst_ip udp) (ui_dst_port udp).

(** An uplink packet of an allowed target is sent under the id of its flow. *)
Lemma udp_uplink_sends (s : Loop) pkt udp now target fake_ip :
  loop_inv s → parse_inbound_udp pkt = Some udp →
  resolve_target (V4 (ui_dst_ip udp) (ui_dst_port udp)) (lp_pool s) = Direct target fake_ip →
  ∃ s' id, handle_tuic_udp_uplink pkt now s = (s', Ok tt) ∧ 1 ≤ id ≤ 65535 ∧
    lp_up s' = up_send_udp (lp_up s) (encode_packet id target (ui_payload udp)) ∧
    assoc_resolve (lp_assoc s') id = Some (mk_FlowEntry (udp_tuple udp) now) ∧ lp_dev s' = lp_dev s ∧
    lp_reasm s' = lp_reasm s.
Proof.
  intros Hi Hu Ht. unfold handle_tuic_udp_uplink. rewrite Hu, (mthen_step _ _ _ s s) by done. rewrite Ht.
  destruct (intern_spec (lp_assoc s) (udp_tuple udp)) as (id & t' & Ei & Hw' & Hid & Htu & _ & _); [apply Hi|].
  destruct (aw_t2i _ Hw' _ _ Htu) as (e & He & Hfe). fold (udp_tuple udp). cbn zeta.
  rewrite (mthen_step _ _ _ s (id, t')) by (unfold mlift; by rewrite Ei).
  destruct (match negb (assoc_contains (lp_assoc s) (udp_tuple udp)) with true => _ | false => _ end) as [t2 pool2] eqn:E2.
  assert (at_id_to_entry t2 = at_id_to_entry (assoc_touch t' id now)) as Et2 by (by repeat case_match; simplify_eq).
  destruct (take_reclaimed_fake_ips t2) as [rc t3] eqn:E3. mrun. eexists _, id. split; [reflexivity|].
  split_and!; try done; try lia. unfold assoc_resolve. cbn. injection E3 as _ <-. cbn. rewrite Et2. cbn.
  by rewrite lookup_alter_eq, He, <-Hfe.
Qed.

(** A reply that arrives whole goes back to the application from the address it had sent to. *)
Lemma udp_reply_delivered (s : Loop) ver cmd id pkt_id addr data ws now tu t0 :
  loop_inv s → is_u16 id → is_u16 pkt_id → len data ≤ UDP_PAYLOAD_MAX → from_option target_wf True addr →
  is_u32 (ft_src_ip tu) → is_u16 (ft_src_port tu) → is_u32 (ft_dst_ip tu) → is_u16 (ft_dst_port tu) →
  assoc_resolve (lp_assoc s) id = Some (mk_FlowEntry tu t0) →
  ∃ s' reply,
    handle_downlink macos (packet_frame ver cmd id pkt_id 1 0 (wire_addr addr) data) ws now s = (s', Ok tt) ∧
    parse_inbound_udp reply
      = Some (mk_UdpInbound (ft_dst_ip tu) (ft_dst_port tu) (ft_src_ip tu) (ft_src_port tu) data) ∧
    lp_dev s' = (flush_tx ws (inject_ip_packet macos reply (lp_dev s))).1 ∧ lp_up s' = lp_up s.
Proof.
  intros Hi Hid Hp Hd Ha W1 W2 W3 W4 Hr. pose proof (len_nonneg data). unfold UDP_PAYLOAD_MAX in *.
  unfold handle_downlink. rewrite decode_frame by (done || ulia).
  rewrite (mthen_step _ _ _ s s) by done. unfold frag_accept. cbn [pm_frag_total pm_frag_id pm_data pm_assoc_id].
  rewrite (bool_decide_false (1 = 0)), (bool_decide_false (1 ≤ 0)), (bool_decide_true (1 = 1)) by lia.
  cbn [orb]. rewrite (mthen_step _ _ _ (set_reasm (lp_reasm s) s) tt) by done. rewrite Hr.
  destruct (build_udp_ip_packet_fits (E:=ClientError) (target_src (mk_FlowEntry tu t0)) (app_endpoint (mk_FlowEntry tu t0)) data)
    as [reply Hb]; [done|].
  rewrite (mthen_step _ _ _ (set_reasm (lp_reasm s) s) reply) by (unfold mlift; by rewrite Hb).
  eexists _, reply. split; [mrun; reflexivity|]. split; [|done].
  by rewrite (parse_built (E:=ClientError) (target_src (mk_FlowEntry tu t0)) (app_endpoint (mk_FlowEntry tu t0)) data reply).
Qed.

End flows.

(** C21: A DNS query and the connection that follows it.  Whatever resolver an application asks for the
    address of a name, the client answers itself: the reply comes from that resolver's address and
    port 53, goes to the port that asked, and carries a fake address; nothing is sent upstream and no
    slot changes.  A connection or datagram to that address, on any port that is not blocked, is then
    relayed to the name that was asked for. *)
Theorem dns_query_end_to_end {TS : Smoltcp} {P : EtherParse} `{!ProxyUpstream U, !DatagramUpstream U}
    `{!SmoltcpLaws TS, !EtherParseLaws P, !UpstreamLaws U} macos (s : @Loop TS U _) pkt udp q env now :
  loop_reachable macos s → len pkt ≤ vd_mtu (lp_dev s) →
  parse_inbound_udp pkt = Some udp → ui_dst_port udp = 53 →
  parse_query (ui_payload udp) = Ok q → dq_qtype q = QTYPE_A →
  ∃ s' ip reply,
    loop_step macos (EvRx (Some (frame macos pkt)) env now) s = (s', Ok tt) ∧
    parse_inbound_udp reply = Some (mk_UdpInbound (ui_dst_ip udp) 53 (ui_src_ip udp) (ui_src_port udp)
      (build_response q (AnswerA ip 5))) ∧
    lp_dev s' = (flush_tx (pe_writes env) (inject_ip_packet macos reply (set_rx None (lp_dev s)))).1 ∧
    lp_up s' = lp_up s ∧ lp_ctxs s' = lp_ctxs s ∧ lp_relays s' = lp_relays s ∧ lp_tasks s' = lp_tasks s ∧
    is_fake (lp_pool s') ip = true ∧
    ∀ port, is_dns_relay_port port = false → (port = 443 → is_doh_domain (dq_qname q) = false) →
      resolve_target (V4 ip port) (lp_pool s') = Direct (DomainPort (dq_qname q) port) (Some ip).
Proof.
  intros Hr Hl Hu Hp Hq Ht. destruct (reachable_ok macos s Hr) as [Hi _]. pose proof (li_mtu _ Hi).
  destruct (pool_alloc (lp_pool s) (dq_qname q) now) as [ip pool] eqn:Ea.
  assert (loop_inv (set_dev (set_rx None (lp_dev s)) s)) as Hi' by (destruct Hi; by split).
  destruct (handle_dns_hijack_A macos (set_dev (set_rx None (lp_dev s)) s) pkt udp q (pe_writes env) now ip pool)
    as (reply & Eh & Er); try done; [lia|].
  destruct (pool_alloc_resolves _ _ _ _ _ (li_pool _ Hi) Ea) as [Hf Hres].
  eexists _, ip, reply. split; [cbn [loop_step]; rewrite (on_rx_udp macos s pkt udp) by done; by rewrite bool_decide_true|].
  split_and!; try done. intros port Hd H443. cbn. unfold resolve_target. cbn [sockaddr_port]. rewrite Hd, Hf, Hres.
  case_bool_decide; [by rewrite H443|done].
Qed.

Lemma dns_query_end_to_end_witness :
  ∃ (s' : demo_loop) ip,
    loop_step false (EvRx (Some demo_query) quiet 7) (demo_run demo_events) = (s', Ok tt) ∧
    resolve_target (V4 ip 443) (lp_pool s') = Direct (DomainPort [x61; x2e; x62] 443) (Some ip).
Proof.
  destruct (dns_query_end_to_end false (demo_run demo_events) demo_query
    (mk_UdpInbound (ipv4_new 10 0 0 1) 5000 (ipv4_new 8 8 8 8) 53
       [xab; xcd; x01; x00; x00; x01; x00; x00; x00; x00; x00; x00; x01; x61; x01; x62; x00; x00; x01; x00; x01])
    (mk_DnsQuery 43981 [x61; x2e; x62] 1 true [x01; x61; x01; x62; x00; x00; x01; x00; x01]) quiet 7 demo_reachable)
    as (s' & ip & reply & H1 & _ & _ & _ & _ & _ & _ & _ & H2);
    [vm_compute; discriminate|vm_compute; reflexivity..|].
  exists s', ip. split; [exact H1|]. apply H2; [reflexivity|intros _; vm_compute; reflexivity].
Defined.

(** C20: A UDP flow there and back.  A datagram to an allowed target is sent upstream under an id of its
    flow, addressed to the name behind a fake address.  In every later state in which the flow is still
    known, a reply under that id is delivered to the application with the two endpoints swapped: from
    the address it had sent to, fake or not, to the port it had sent from, and with the reply's bytes. *)
Theorem udp_flow_roundtrip {TS : Smoltcp} {P : EtherParse} `{!ProxyUpstream U, !DatagramUpstream U}
    `{!SmoltcpLaws TS, !EtherParseLaws P, !UpstreamLaws U} macos (s : @Loop TS U _) pkt udp env now target fake_ip :
  loop_reachable macos s → len pkt ≤ vd_mtu (lp_dev s) →
  parse_inbound_udp pkt = Some udp → ui_dst_port udp ≠ 53 →
  resolve_target (V4 (ui_dst_ip udp) (ui_dst_port udp)) (lp_pool s) = Direct target fake_ip →
  ∃ s' id,
    loop_step macos (EvRx (Some (frame macos pkt)) env now) s = (s', Ok tt) ∧
    lp_up s' = up_send_udp (lp_up s) (encode_packet id target (ui_payload udp)) ∧
    assoc_resolve (lp_assoc s') id = Some (mk_FlowEntry (udp_tuple udp) now) ∧
    ∀ s1 t0 ver cmd pkt_id addr data ws later,
      loop_reachable macos s1 → assoc_resolve (lp_assoc s1) id = Some (mk_FlowEntry (udp_tuple udp) t0) →
      is_u16 pkt_id → len data ≤ UDP_PAYLOAD_MAX → from_option target_wf True addr →
      ∃ s2 reply,
        loop_step macos (EvDownlink (packet_frame ver cmd id pkt_id 1 0 (wire_addr addr) data) ws later) s1 = (s2, Ok tt) ∧
        parse_inbound_udp reply
          = Some (mk_UdpInbound (ui_dst_ip udp) (ui_dst_port udp) (ui_src_ip udp) (ui_src_port udp) data) ∧
        lp_dev s2 = (flush_tx ws (inject_ip_packet macos reply (lp_dev s1))).1 ∧ lp_up s2 = lp_up s1.
Proof.
  intros Hr Hl Hu Hp Ht. destruct (reachable_ok macos s Hr) as [Hi _].
  assert (loop_inv (set_dev (set_rx None (lp_dev s)) s)) as Hi' by (destruct Hi; by split).
  destruct (udp_uplink_sends (set_dev (set_rx None (lp_dev s)) s) pkt udp now target fake_ip Hi' Hu Ht)
    as (s' & id & E & Hid & Hup & Has & _).
  exists s', id. split_and!; try done.
  { cbn [loop_step]. rewrite (on_rx_udp macos s pkt udp) by done. by rewrite bool_decide_false. }
  intros s1 t0 ver cmd pkt_id addr data ws later Hr1 Ha1 Hpk Hd Ha. destruct (reachable_ok macos s1 Hr1) as [Hi1 _].
  destruct (parse_inbound_widths _ _ Hu) as (W1 & W2 & W3 & W4).
  destruct (udp_reply_delivered macos s1 ver cmd id pkt_id addr data ws later (udp_tuple udp) t0)
    as (s2 & reply & ? & ? & ? & ?); try done; [ulia|]. exists s2, reply. auto.
Qed.

(** ** What is asked of the upstream *)

(** C14: The client relays only where the policy allows.  Take any property of the upstream that holds
    at the start and is kept by opening streams to allowed targets and by sending packets to allowed
    targets.  It holds after every sequence of events, whatever the applications, the network and the
    TCP stack do, and every handshake in flight is to an allowed target.  So no request ever goes to a
    DNS port, to a known DoH endpoint or to a bare fake address. *)
Theorem upstream_requests_allowed {TS : Smoltcp} {P : EtherParse} `{!ProxyUpstream U, !DatagramUpstream U}
    macos (I : U → Prop) pool_size mtu up es :
  allows I → I up →
  let s := (loop_run macos es (loop_init pool_size mtu up : @Loop TS U _)).1 in
  I (lp_up s) ∧ Forall (λ t, target_allowed (ht_target t)) (lp_tasks s).
Proof.
  intros A Hup s. assert (sends_ok I s) as []; [|done]. apply keeps_loop_run; [done|]. split; [done|by constructor|].
  apply pool_new_ok.
Qed.

(** An application sends a datagram to the address it was given for [a.b]. *)
Definition demo_udp : list byte :=
  [x45; x00; x00; x00; x00; x00; x00; x00; x40; x11; x00; x00; x0a; x00; x00; x01; xc6; x12; x00; x02;
   x13; x89; x1f; x90; x00; x00; x00; x00; x68; x69].
Definition demo_udp_events : list demo_event :=
  [EvRx (Some demo_query) quiet 1; EvRx (Some demo_udp) quiet 2; EvRx (Some (demo_syn 443)) (accepts [x16; x03]) 3].
Definition sent_to_allowed (u : demo_up) : Prop :=
  Forall (λ d, ∃ id t payload, target_allowed t ∧ d = encode_packet id t payload) (du_sent u).

Lemma demo_udp_reachable : loop_reachable false (demo_run (take 1 demo_udp_events)).
Proof.
  assert (loop_reachable false demo_start) as H by (by apply lr_init).
  unfold demo_run, demo_udp_events. cbn [take]. demo_next H demo_rx. rewrite demo_nil. exact H.
Qed.

Lemma udp_flow_roundtrip_witness :
  ∃ s' id,
    loop_step false (EvRx (Some demo_udp) quiet 2) (demo_run (take 1 demo_udp_events)) = (s', Ok tt) ∧
    lp_up s' = up_send_udp (mk_demo_up 3 []) (encode_packet id (DomainPort [x61; x2e; x62] 8080) [x68; x69]).
Proof.
  destruct (udp_flow_roundtrip false (demo_run (take 1 demo_udp_events)) demo_udp
    (mk_UdpInbound (ipv4_new 10 0 0 1) 5001 demo_fake 8080 [x68; x69]) quiet 2
    (DomainPort [x61; x2e; x62] 8080) (Some demo_fake) demo_udp_reachable)
    as (s' & id & H1 & H2 & _); [vm_compute; discriminate|vm_compute; reflexivity|vm_compute; discriminate|vm_compute; reflexivity|].
  exists s', id. split; [exact H1|exact H2].
Defined.

Lemma upstream_requests_allowed_witness :
  let s := demo_run demo_udp_events in
  du_sent (lp_up s) = [encode_packet 1 (DomainPort [x61; x2e; x62] 8080) [x68; x69]] ∧
  (ht_target <$> lp_tasks s) = [DomainPort [x61; x2e; x62] 443] ∧
  sent_to_allowed (lp_up s) ∧ Forall (λ t, target_allowed (ht_target t)) (lp_tasks s).
Proof.
  split; [vm_compute; reflexivity|]. split; [vm_compute; reflexivity|].
  apply (upstream_requests_allowed false sent_to_allowed 2 1500 (mk_demo_up 3 []) demo_udp_events).
  - split.
    + intros [[|n] l] t _ H; exact H.
    + intros [n l] id t p Ht H. apply Forall_app. split; [exact H|]. apply Forall_singleton. exists id, t, p. split; [exact Ht|reflexivity].
  - constructor.
Defined.
