(* ===== verification/TunServe.v ===== *)
(** * TunServe: listeners for new connections, dead slots, and where the client stops

    What a SYN finds, what the reaper takes back, and four behaviours of the loop that its
    documentation excludes. *)

From S2P Require Import Prelude Shared Text Dns FakeIp TuicCodec Frag Assoc Metrics UdpRelay Device TunSlot Upstream ClientTun TunInv TunStep TunProps.

(** A new connection finds a listener.  Before the stack sees a clean SYN to any port but 0, the
    port has at least two listening sockets, unless a cap stops it (64 intercepted ports, or 4096
    sockets in all); every slot of the port is marked to be processed, and no socket and no context
    that existed before changes. *)
Theorem syn_finds_listener {TS : Smoltcp} {P : EtherParse} `{!ProxyUpstream U, !DatagramUpstream U}
    `{!SmoltcpLaws TS, !EtherParseLaws P, !UpstreamLaws U} macos (s : @Loop TS U _) buf port :
  loop_reachable macos s → inspect_inbound_tcp buf = Some (port, true) → port ≠ 0 →
  ∃ s', inspect_and_mark buf s = (s', Ok tt) ∧
    (is_Some (lr_ports (lp_registry s) !! port) ∨ Z.of_nat (size (lr_ports (lp_registry s))) < MAX_INTERCEPTED_PORTS →
     lr_total (lp_registry s') < MAX_TOTAL_LISTENERS →
     ∃ n, count_listening (E:=ClientError) (lp_sockets s') (handles_for_port (lp_registry s') port) = Ok n ∧
          MIN_SPARE_LISTENERS ≤ n) ∧
    (∀ h, h ∈ handles_for_port (lp_registry s') port → h ∈ lp_dirty s') ∧
    lp_sockets s `prefix_of` lp_sockets s' ∧
    (∀ h c, lp_ctxs s !! h = Some c → lp_ctxs s' !! h = Some c).
Proof.
  intros Hr Hp Hp0. destruct (reachable_ok macos s Hr) as [Hi _]. destruct (li_size _ Hi) as [_ Hmax].
  destruct (ensure_port_spec (E:=ClientError) (lp_registry s) port (lp_sockets s, lp_ctxs s) (li_slots _ Hi) Hp0)
    as (r1 & sl1 & cap1 & E1 & Hw1 & Hx1 & Hm1 & _ & Hc1).
  destruct (ensure_spare_spec (E:=ClientError) r1 port MIN_SPARE_LISTENERS sl1 Hw1)
    as (r2 & [socks2 ctxs2] & cap2 & E2 & Hw2 & Hx2 & Hm2 & _ & Hc2).
  destruct (extends_trans _ _ _ _ Hx1 Hx2) as [Hpre Hctx]. cbn [fst snd] in *.
  unfold inspect_and_mark. rewrite Hp. mrun. rewrite E1, E2. cbn. eexists. split; [reflexivity|]. cbn. split_and!.
  - intros Hport Htot. destruct cap2; [rewrite Hm1, Hmax in Hc2; lia|]. apply Hc2.
    destruct cap1; [|done]. destruct Hc1 as (-> & _ & Hn & Hs). rewrite Hn in Hport.
    destruct Hport as [[? ?]|?]; [done|lia].
  - intros h Hh. apply elem_of_union_l, elem_of_list_to_set. exact Hh.
  - done.
  - intros h c Hc. destruct (Hctx h) as [->|[Hlt _]]; [done|].
    destruct (inv_ctx_sock _ _ _ Hi Hc) as [Hs _]. apply lookup_lt_is_Some in Hs. lia.
Qed.

Lemma syn_finds_listener_witness :
  ∃ s' : demo_loop, inspect_and_mark (demo_syn 80) (demo_run demo_events) = (s', Ok tt) ∧
    ∃ n, count_listening (E:=ClientError) (lp_sockets s') (handles_for_port (lp_registry s') 80) = Ok n ∧
         MIN_SPARE_LISTENERS ≤ n.
Proof.
  destruct (syn_finds_listener false (demo_run demo_events) (demo_syn 80) 80 demo_reachable)
    as (s' & E & H & _); [vm_compute; reflexivity|discriminate|].
  exists s'. split; [exact E|]. apply H; [right; vm_compute; reflexivity|].
  assert (s' = (inspect_and_mark (demo_syn 80) (demo_run demo_events)).1) as -> by (by rewrite E).
  vm_compute. reflexivity.
Defined.

(** A slot in use whose connection is over: closed, closed by the application, or stuck opening. *)
Definition connection_over {TS : Smoltcp} (sock : TcpSocket) (c : SocketCtx) : Prop :=
  cx_state c ≠ Listening ∧
  (is_active sock = false ∨ tcp_state sock = TsCloseWait ∨ (cx_state c = OpeningRemote ∧ cx_uplink_tx c = None)).

Lemma slot_dead_over {TS : Smoltcp} sock c : slot_dead sock c = true ↔ connection_over sock c.
Proof.
  unfold slot_dead, connection_over. rewrite andb_true_iff, negb_true_iff, bool_decide_eq_false, !orb_true_iff,
    negb_true_iff, andb_true_iff, !bool_decide_eq_true. tauto.
Qed.

(** C24: The reaper takes back exactly the dead slots.  On its tick, every slot in use whose connection
    is over (closed, closed by the application, or stuck opening) becomes a fresh listener of its port
    in a new epoch, with its buffers, sender and fake address given up; every other slot, socket and
    context, is left as it is. *)
Theorem reaper_exact {TS : Smoltcp} {P : EtherParse} `{!ProxyUpstream U, !DatagramUpstream U}
    `{!SmoltcpLaws TS, !EtherParseLaws P, !UpstreamLaws U} macos (s : @Loop TS U _) now :
  loop_reachable macos s →
  ∃ s', on_udp_sweep now s = (s', Ok tt) ∧
    ∀ h sock c, lp_sockets s !! h = Some sock → lp_ctxs s !! h = Some c →
      (connection_over sock c →
         ∃ sock', lp_sockets s' !! h = Some sock' ∧ tcp_state sock' = TsListen ∧
           lp_ctxs s' !! h = Some (mk_SocketCtx (cx_local_port c) Listening None [] None
             (wrapping_add_u64 (cx_conn_epoch c) 1) [] downlink_diag_default)) ∧
      (¬ connection_over sock c → lp_sockets s' !! h = Some sock ∧ lp_ctxs s' !! h = Some c).
Proof.
  intros Hr. destruct (reachable_ok macos s Hr) as [Hi _]. unfold on_udp_sweep.
  rewrite (mthen_step _ _ _ s s) by done. destruct (assoc_sweep _ _ _) as [ips table].
  set (pool := release_all ips now (lp_pool s)). mrun.
  destruct (reap_loop_spec (E:=ClientError) (lp_registry s) now (all_handles (lp_registry s))
    (lp_sockets s, lp_ctxs s) pool 0) as (sl' & pool' & n' & E & _ & _ & Hall);
    [apply Hi|eapply all_handles_nodup; apply Hi|intros h Hh; by apply (slots_wf_handle _ _ _ (li_slots _ Hi)) in Hh|].
  unfold reap_dead_slots. cbn. rewrite E. cbn. eexists. split; [reflexivity|].
  intros h sock c Hs Hc. specialize (Hall h sock c Hs Hc).
  rewrite (bool_decide_true (h ∈ _)), andb_true_r in Hall by (apply (slots_wf_handle _ _ _ (li_slots _ Hi)); eauto).
  split; intros Ho.
  - apply slot_dead_over in Ho. by rewrite Ho in Hall.
  - destruct (slot_dead sock c) eqn:Ed; [by apply slot_dead_over in Ed|done].
Qed.

(** The application of the demo run resets its connection. *)
Definition resets : @poll_env demo_stack :=
  mk_poll_env (λ h s, if bool_decide (h = 0%nat) then mk_demo_sock TsClosed [] 0 [] None else s) [] [] (λ l, l).

Lemma demo_reset_reachable : loop_reachable false (demo_run (demo_events ++ [EvTimer resets 5])).
Proof.
  assert (loop_reachable false demo_start) as H by (by apply lr_init).
  unfold demo_run, demo_events. cbn [app]. do 2 demo_next H demo_rx. do 5 demo_next H demo_free.
  demo_next H ltac:(split; [apply room_b_ok; vm_compute; reflexivity|intros l; reflexivity]).
  rewrite demo_nil. exact H.
Qed.

Lemma reaper_exact_witness :
  ∃ (s' : demo_loop) sock', on_udp_sweep 6 (demo_run (demo_events ++ [EvTimer resets 5])) = (s', Ok tt) ∧
    lp_sockets s' !! 0%nat = Some sock' ∧ tcp_state sock' = TsListen.
Proof.
  destruct (reaper_exact false _ 6 demo_reset_reachable) as (s' & E & H).
  destruct (H 0%nat (mk_demo_sock TsClosed [] 0 [] None)
    (mk_SocketCtx 443 Relaying (Some 0%nat) [] (Some demo_fake) 1 [] (mk_TcpDownlinkDiag 2 2 1 2 0 0 1 0))) as [Ho _];
    [vm_compute; reflexivity|vm_compute; reflexivity|].
  destruct Ho as (sock' & H1 & H2 & _); [split; [discriminate|left; reflexivity]|].
  exists s', sock'. split; [exact E|]. split; [exact H1|exact H2].
Defined.

(** ** Where the client deviates from its documentation *)

(** C35: A late end of stream resets a newer connection.  There is a reachable state in which a slot
    serves a connection through its second relay, while the end of stream of its first relay, whose
    connection is long over, still waits in the queue; the loop takes it for the end of the new
    connection and resets it. *)
Theorem late_eof_resets_new_connection :
  ∃ (s : demo_loop) c old,
    loop_reachable false s ∧ lp_global s = [(0%nat, [])] ∧
    lp_relays s !! 0%nat = Some old ∧ ry_phase old = RelayShutdown ∧
    lp_ctxs s !! 0%nat = Some c ∧ cx_state c = Relaying ∧ cx_uplink_tx c = Some 1%nat ∧
    let s' := (loop_step false (EvGlobal quiet 9) s).1 in
    ∃ c', lp_ctxs s' !! 0%nat = Some c' ∧ cx_state c' = Listening ∧ cx_uplink_tx c' = None.
Proof.
  set (es := take 4 demo_events ++ [EvRelay 0%nat (RelayRemote (Some []) 0); EvTimer resets 5; EvUdpSweep 6;
    EvRx (Some (demo_syn 443)) (accepts [x16; x04]) 7; EvTask 0%nat; EvDone 8]).
  assert (loop_reachable false (demo_run es)) as Hr.
  { assert (loop_reachable false demo_start) as H by (by apply lr_init).
    unfold demo_run, es, demo_events. cbn [app take]. do 2 demo_next H demo_rx. do 3 demo_next H demo_free.
    demo_next H ltac:(split; [apply room_b_ok; vm_compute; reflexivity|intros l; reflexivity]).
    demo_next H demo_free. demo_next H demo_rx. do 2 demo_next H demo_free. rewrite demo_nil. exact H. }
  exists (demo_run es). do 2 eexists. split; [exact Hr|]. split; [by vm_compute|].
  split; [by vm_compute|]. split; [done|]. split; [by vm_compute|]. split; [done|]. split; [done|].
  eexists. split; [by vm_compute|]. done.
Qed.

#[local] Arguments resolve_target : simpl never.

(** A slot without backlog has nothing to push to its application. *)
Lemma advance_downlink_idle {TS : Smoltcp} {P : EtherParse} `{!ProxyUpstream U, !DatagramUpstream U}
    (s : @Loop TS U _) h c sock :
  lp_sockets s !! h = Some sock → lp_ctxs s !! h = Some c → cx_downlink_pending c = [] →
  advance_downlink h s = (s, Ok tt).
Proof.
  intros Hs Hc Hp. unfold advance_downlink. mrun. rewrite Hs. cbn. rewrite Hc. unfold flush_downlink.
  rewrite bool_decide_true by done. cbn. rewrite list_insert_id, insert_id by done. by destruct s.
Qed.

(** C36: Bytes beyond the uplink buffer are lost.  While a handshake is in flight and the slot's buffer
    cannot take what the application sent, the bytes are taken from the socket, so the stack has
    acknowledged them, and neither the buffer nor anything else of the slot holds them. *)
Theorem uplink_overflow_drops {TS : Smoltcp} {P : EtherParse} `{!ProxyUpstream U, !DatagramUpstream U}
    (s : @Loop TS U _) h c sock sock' payload endpoint target fake_ip now :
  lp_sockets s !! h = Some sock → lp_ctxs s !! h = Some c →
  cx_state c = HandshakePending → cx_uplink_tx c = None → cx_downlink_pending c = [] →
  can_recv sock = true → recv_all sock = Some (payload, sock') → local_endpoint sock' = Some endpoint →
  resolve_target endpoint (lp_pool s) = Direct target fake_ip →
  MAX_UPLINK_BUFFER < len (cx_uplink_buffer c) + len payload →
  process_listener_activity h now s = (set_sockets (<[h := sock']> (lp_sockets s)) s, Ok tt).
Proof.
  intros Hs Hc Hst Htx Hpd Hcr Hrecv Hep Hres Hlen. pose proof (lookup_lt_Some _ _ _ Hs) as Hlt.
  unfold process_listener_activity. rewrite (mthen_step _ _ _ s tt) by (by eapply advance_downlink_idle).
  unfold forward_first, handle_local_payload. mrun. rewrite Hc, Htx. mrun. rewrite Hs. cbn.
  unfold extract_socket_payload. rewrite Hcr, Hrecv. cbn. rewrite Hep. cbn. rewrite Hres. cbn. rewrite Hc, bool_decide_true by done.
  unfold buffer_uplink. rewrite bool_decide_true by lia. cbn. by rewrite insert_id.
Qed.

(** The demo slot during its handshake, with more data than the buffer takes. *)
Definition twice (l : list byte) : list byte := l ++ l.
Definition big_payload : list byte := Nat.iter 18 twice [x00].

Lemma twice_len n l : len (Nat.iter n twice l) = 2 ^ Z.of_nat n * len l.
Proof.
  induction n as [|n IH]; [cbn; lia|]. rewrite Nat2Z.inj_succ, Z.pow_succ_r by lia. 
  change (Nat.iter (S n) twice l) with (Nat.iter n twice l ++ Nat.iter n twice l). rewrite len_app, IH. lia.
Qed.

Definition waiting_ctx : SocketCtx :=
  mk_SocketCtx 443 HandshakePending None [] (Some demo_fake) 1 [x16; x03] downlink_diag_default.
Definition flooded : demo_loop :=
  set_pool (pool_alloc pool_new [x61; x2e; x62] 0).2
    (set_ctxs {[0%nat := waiting_ctx]}
      (set_sockets [mk_demo_sock TsEstablished big_payload 65535 [] (Some (V4 demo_fake 443))] demo_start)).

Lemma uplink_overflow_drops_witness :
  process_listener_activity 0 5 flooded =
  (set_sockets (<[0%nat := mk_demo_sock TsEstablished [] 65535 [] (Some (V4 demo_fake 443))]> (lp_sockets flooded)) flooded, Ok tt).
Proof.
  apply (uplink_overflow_drops flooded 0%nat waiting_ctx
    (mk_demo_sock TsEstablished big_payload 65535 [] (Some (V4 demo_fake 443)))
    (mk_demo_sock TsEstablished [] 65535 [] (Some (V4 demo_fake 443))) big_payload (V4 demo_fake 443)
    (DomainPort [x61; x2e; x62] 443) (Some demo_fake)); [reflexivity..|].
  unfold big_payload. rewrite twice_len. vm_compute. reflexivity.
Defined.

(** A SYN to port 0 stops the client.  In every reachable state that does not yet intercept 64
    ports, a clean SYN to destination port 0 aborts the loop: the client asks the stack to listen on
    port 0 and unwraps the refusal. *)
Theorem syn_to_port_zero_aborts {TS : Smoltcp} {P : EtherParse} `{!ProxyUpstream U, !DatagramUpstream U}
    `{!SmoltcpLaws TS, !EtherParseLaws P, !UpstreamLaws U} macos (s : @Loop TS U _) pkt env now :
  loop_reachable macos s → 1 ≤ lr_pool_size (lp_registry s) →
  Z.of_nat (size (lr_ports (lp_registry s))) < MAX_INTERCEPTED_PORTS →
  len pkt ≤ vd_mtu (lp_dev s) → parse_inbound_udp pkt = None → inspect_inbound_tcp pkt = Some (0, true) →
  (loop_step macos (EvRx (Some (frame macos pkt)) env now) s).2 = Panic.
Proof.
  intros Hr Hsz Hports Hl Hu Hsyn. destruct (reachable_ok macos s Hr) as [Hi _].
  assert (lr_ports (lp_registry s) !! 0 = None) as H0.
  { destruct (lr_ports (lp_registry s) !! 0) eqn:E; [|done]. by destruct (sw_port _ _ (li_slots _ Hi) 0); [eauto|]. }
  assert (ensure_port (E:=ClientError) (lp_registry s) 0 (lp_sockets s, lp_ctxs s) = Panic) as Hp.
  { unfold ensure_port. rewrite H0, bool_decide_false by lia.
    destruct (Z.to_nat (lr_pool_size (lp_registry s))) as [|n] eqn:En; [lia|]. cbn [add_listeners].
    unfold add_listener, build_listener_socket. by rewrite listen_zero. }
  cbn [loop_step]. unfold on_rx. rewrite (mthen_step _ _ _ s s) by done. rewrite wait_for_rx_framed by done.
  erewrite mthen_step by done. cbn [rx_peek vd_rx_buffer set_rx fmap option_fmap option_map].
  unfold classify_inbound. rewrite Hu. unfold inspect_and_mark. rewrite Hsyn. mrun. by rewrite Hp.
Qed.

Lemma syn_to_port_zero_aborts_witness :
  (loop_step false (EvRx (Some (demo_syn 0)) quiet 9) (demo_run demo_events)).2 = Panic.
Proof.
  apply (syn_to_port_zero_aborts false (demo_run demo_events) (demo_syn 0) quiet 9 demo_reachable);
    [vm_compute; discriminate|vm_compute; reflexivity|vm_compute; discriminate|vm_compute; reflexivity..].
Defined.

(** A reply that does not fit an IPv4 packet stops the client.  The length field of a TUIC packet
    allows 65535 bytes, an IPv4 UDP packet carries at most 65507: a reply of a known flow between the
    two aborts the loop. *)
Theorem oversized_reply_aborts {TS : Smoltcp} {P : EtherParse} `{!ProxyUpstream U, !DatagramUpstream U}
    `{!EtherParseLaws P} macos (s : @Loop TS U _) ver cmd id pkt_id addr data ws now e :
  is_u16 id → is_u16 pkt_id → UDP_PAYLOAD_MAX < len data ≤ 65535 → from_option target_wf True addr →
  assoc_resolve (lp_assoc s) id = Some e →
  (loop_step macos (EvDownlink (packet_frame ver cmd id pkt_id 1 0 (wire_addr addr) data) ws now) s).2 = Panic.
Proof.
  intros Hid Hp Hd Ha Hr. cbn [loop_step]. unfold handle_downlink. unfold UDP_PAYLOAD_MAX in Hd.
  rewrite decode_frame by (done || ulia). rewrite (mthen_step _ _ _ s s) by done.
  unfold frag_accept. cbn [pm_frag_total pm_frag_id pm_data pm_assoc_id].
  rewrite (bool_decide_false (1 = 0)), (bool_decide_false (1 ≤ 0)), (bool_decide_true (1 = 1)) by lia. cbn [orb].
  rewrite (mthen_step _ _ _ (set_reasm (lp_reasm s) s) tt) by done. rewrite Hr. unfold mthen at 1, mlift.
  by rewrite (build_udp_ip_packet_too_long (E:=ClientError)) by (unfold UDP_PAYLOAD_MAX; lia).
Qed.

(** A loop with one UDP flow, under id 1, and a reply of 65535 bytes. *)
Definition one_flow : AssocTable :=
  match intern assoc_new (mk_FourTuple (ipv4_new 10 0 0 1) 5001 demo_fake 8080) with
  | Some (_, t) => t
  | None => assoc_new
  end.
Definition big_reply : list byte := drop 1 (Nat.iter 16 twice [x00]).

Lemma oversized_reply_aborts_witness :
  (loop_step false (EvDownlink (packet_frame x05 x02 1 7 1 0 (wire_addr None) big_reply) [] 3)
     (set_assoc one_flow demo_start : demo_loop)).2 = Panic.
Proof.
  assert (len big_reply = 65535) as Hl.
  { pose proof (twice_len 16 [x00]) as H. unfold big_reply, len in *. rewrite length_drop. cbn [length] in H. lia. }
  apply (oversized_reply_aborts false (set_assoc one_flow demo_start : demo_loop) x05 x02 1 7 None big_reply [] 3
    (mk_FlowEntry (mk_FourTuple (ipv4_new 10 0 0 1) 5001 demo_fake 8080) 0));
    [unfold is_u16; lia|unfold is_u16; lia|rewrite Hl; unfold UDP_PAYLOAD_MAX; lia|exact I|vm_compute; reflexivity].
Defined.
