(* ===== verification/TunUplink.v ===== *)
(** * TunUplink: every byte of an application reaches its stream, in order

    The TCP stack is extended with a log: [taken sock] is what was received from the socket since it
    last started to listen.  Any stack can be instrumented so; the log is not read by the client.
    The invariant says where those bytes are: in the slot's buffer while the handshake runs, and then
    in what the relay wrote to the stream followed by what waits in its channel. *)

From S2P Require Import Prelude Shared Text Dns FakeIp TuicCodec Frag Assoc Metrics TuicUpstream UdpRelay Device TunSlot Upstream ClientTun TunInv TunSend TunStep TunProps.

Class LoggedStack (TS : Smoltcp) := {
  taken : TcpSocket → list byte;
  taken_new : ∀ port s, tcp_listen tcp_new port = Some s → taken s = [];
  taken_abort : ∀ s port s', tcp_listen (tcp_abort s) port = Some s' → taken s' = [];
  taken_send : ∀ s l n s', send_slice s l = Some (n, s') → taken s' = taken s;
  taken_recv : ∀ s data s', recv_all s = Some (data, s') → taken s' = taken s ++ data;
  (** a socket that received data has a local endpoint *)
  recv_endpoint : ∀ s data s', can_recv s = true → recv_all s = Some (data, s') → is_Some (local_endpoint s')
}.

Section uplink.
Context {TS : Smoltcp} {L : LoggedStack TS} {P : EtherParse} {U : Type} `{!ProxyUpstream U, !DatagramUpstream U}.
Abbreviation Loop := (@Loop TS U _).
Abbreviation Relay := (@Relay U _).
Variable macos : bool.

(** What a relay did with the bytes handed to it: while it runs it lost none, and once it stopped it
    had written the first of them. *)
Definition relay_carries (r : Relay) (bytes : list byte) : Prop :=
  match ry_phase r with
  | RelayRunning => ry_written r ++ concat (ry_queue r) = bytes
  | _ => ry_written r `prefix_of` bytes
  end.

Definition up_slot (relays : list Relay) (h : nat) (c : SocketCtx) (sock : TcpSocket) : Prop :=
  match cx_state c with
  | Listening => cx_uplink_tx c = None ∧ cx_uplink_buffer c = [] ∧ cx_downlink_pending c = [] ∧ taken sock = []
  | HandshakePending => cx_uplink_tx c = None ∧ cx_downlink_pending c = [] ∧ taken sock = cx_uplink_buffer c
  | Relaying => cx_uplink_buffer c = [] ∧
      ∃ i r, cx_uplink_tx c = Some i ∧ relays !! i = Some r ∧ ry_handle r = h ∧ relay_carries r (taken sock)
  | _ => False
  end.

Definition up_slots (relays : list Relay) (sl : slots) : Prop :=
  ∀ h c sock, sl.2 !! h = Some c → sl.1 !! h = Some sock → up_slot relays h c sock.

Definition uplink_inv (s : Loop) : Prop := up_slots (lp_relays s) (lp_sockets s, lp_ctxs s).

(** ** Frames *)

(** Between [s0] and [s] only the slot [h] and its relays changed, and relays were added. *)
Record slot_frame (h : nat) (s0 s : Loop) : Prop := {
  sf_ctxs : ∀ h', h' ≠ h → lp_ctxs s !! h' = lp_ctxs s0 !! h';
  sf_socks : ∀ h', h' ≠ h → lp_sockets s !! h' = lp_sockets s0 !! h';
  sf_relays : ∀ i r, lp_relays s0 !! i = Some r → ry_handle r ≠ h → lp_relays s !! i = Some r
}.

Lemma slot_frame_refl h s : slot_frame h s s.
Proof. by split. Qed.

(** The invariant follows from the frame and the slot itself. *)
Lemma uplink_frame h s0 s :
  uplink_inv s0 → slot_frame h s0 s →
  (∀ c sock, lp_ctxs s !! h = Some c → lp_sockets s !! h = Some sock → up_slot (lp_relays s) h c sock) →
  uplink_inv s.
Proof.
  intros H0 [Fc Fs Fr] Hh h' c sock Hc Hs. cbn in Hc, Hs. destruct (decide (h' = h)) as [->|Hne]; [by apply Hh|].
  rewrite Fc in Hc by done. rewrite Fs in Hs by done. specialize (H0 h' c sock Hc Hs). unfold up_slot in *.
  destruct (cx_state c); try done. destruct H0 as (Hb & i & r & Hu & Hr & Hry & Hca).
  split; [done|]. exists i, r. split_and!; try done. apply Fr; [done|congruence].
Qed.

Section frame.
Variables (h : nat) (s0 : Loop).

Ltac upd :=
  intros;
  match goal with H : slot_frame _ _ _ |- _ => destruct H end;
  split; cbn; intros;
  rewrite ?lookup_insert_ne, ?lookup_alter_ne, ?list_lookup_insert_ne by done;
  eauto using lookup_app_l_Some.

Lemma frame_put_sock sock : keeps (slot_frame h s0) (put_sock h sock).
Proof. apply keeps_mupd. upd. Qed.
Lemma frame_put_ctx c : keeps (slot_frame h s0) (put_ctx h c).
Proof. apply keeps_mupd. upd. Qed.
Lemma frame_get_sock : keeps (slot_frame h s0) (get_sock h).
Proof. unfold get_sock. walk upd. Qed.
Lemma frame_get_ctx : keeps (slot_frame h s0) (get_ctx h).
Proof. unfold get_ctx, mret. walk upd. Qed.
Lemma frame_mret {B} (a : B) : keeps (slot_frame h s0) (mret a).
Proof. apply keeps_mlift. Qed.
Lemma frame_spawn st q : keeps (slot_frame h s0) (spawn_remote_relay h st q).
Proof. unfold spawn_remote_relay. walk upd. Qed.
#[local] Hint Resolve frame_put_sock frame_put_ctx frame_get_sock frame_get_ctx frame_mret frame_spawn : keeps.
Ltac go := walk upd.

Lemma frame_rearm now : keeps (slot_frame h s0) (rearm_slot h now).
Proof. unfold rearm_slot. go. Qed.
Lemma frame_acquire f now : keeps (slot_frame h s0) (acquire_fake h f now).
Proof. unfold acquire_fake. go. Qed.
#[local] Hint Resolve frame_rearm frame_acquire : keeps.

Lemma frame_open_inline p t f c now : keeps (slot_frame h s0) (open_inline h p t f c now).
Proof. unfold open_inline. go. Qed.
Lemma frame_open_spawned p t f c now : keeps (slot_frame h s0) (open_spawned h p t f c now).
Proof. unfold open_spawned. go. Qed.
#[local] Hint Resolve frame_open_inline frame_open_spawned : keeps.

Lemma frame_handle_local_payload p t f now : keeps (slot_frame h s0) (handle_local_payload h p t f now).
Proof. unfold handle_local_payload. go. Qed.
#[local] Hint Resolve frame_handle_local_payload : keeps.

Lemma frame_forward_first now : keeps (slot_frame h s0) (forward_first h now).
Proof. unfold forward_first. go. Qed.
Lemma frame_advance : keeps (slot_frame h s0) (advance_downlink h).
Proof. unfold advance_downlink. go. Qed.
Lemma frame_handshake_done done now : hd_handle done = h → keeps (slot_frame h s0) (handle_handshake_done done now).
Proof. intros Hd. unfold handle_handshake_done. rewrite Hd. cbn zeta. go. Qed.

(** The relay pushed to is the slot's own. *)
Lemma frame_push tx payload :
  (∀ r, lp_relays s0 !! tx = Some r → ry_handle r = h) → keeps (slot_frame h s0) (push_uplink tx payload).
Proof.
  intros Ho. unfold push_uplink. apply keeps_mupd. intros s [Fc Fs Fr]. split; cbn; [done..|].
  intros i r Hr Hne. rewrite list_lookup_alter_ne; [by apply Fr|]. intros ->. by apply Hne, Ho.
Qed.

Lemma frame_forward_established tx c now :
  (∀ r, lp_relays s0 !! tx = Some r → ry_handle r = h) → keeps (slot_frame h s0) (forward_established h tx c now).
Proof. intros Ho. pose proof (frame_push tx). unfold forward_established. go. Qed.

End frame.

(** ** One slot *)

Definition up_at (h : nat) (s : Loop) : Prop :=
  ∀ c sock, lp_ctxs s !! h = Some c → lp_sockets s !! h = Some sock → up_slot (lp_relays s) h c sock.

(** What waits in the socket of a slot without a relay fits the slot's buffer. *)
Definition fits (s : Loop) (h : nat) : Prop :=
  ∀ c sock data sock', lp_ctxs s !! h = Some c → lp_sockets s !! h = Some sock → cx_uplink_tx c = None →
    recv_all sock = Some (data, sock') → len (cx_uplink_buffer c) + len data ≤ MAX_UPLINK_BUFFER.

Lemma rearm_socket_up {E} sock c pool now sock' c' pool' relays h :
  rearm_socket_with_reason (E:=E) sock c pool now = Ok (sock', c', pool') → up_slot relays h c' sock'.
Proof.
  unfold rearm_socket_with_reason, rearm_socket. cbn. intros H.
  destruct (cx_fake_ip c); inv_res; simplify_eq; cbn; split_and!; try done; by eapply taken_abort.
Qed.

Lemma rearm_up h now s s' r : rearm_slot h now s = (s', r) → r ≠ Panic → up_at h s'.
Proof.
  unfold rearm_slot. mrun. destruct (lp_sockets s !! h) as [sock|] eqn:Hs; cbn; [|by intros [= <- <-]].
  destruct (lp_ctxs s !! h) as [c|] eqn:Hc; cbn.
  2:{ intros [= <- <-] _ c0 sock0 Hc0. by rewrite Hc in Hc0. }
  destruct (rearm_socket_with_reason sock c (lp_pool s) now) as [[[sock1 c1] pool1]|e|] eqn:Er; cbn;
    [| |by intros [= <- <-]].
  - intros [= <- <-] _ c0 sock0. cbn. rewrite lookup_insert_eq, list_lookup_insert_eq by (by eapply lookup_lt_Some).
    intros [= <-] [= <-]. by eapply rearm_socket_up.
  - exfalso. unfold rearm_socket_with_reason, rearm_socket in Er. cbn in Er.
    destruct (cx_fake_ip c), (tcp_listen _ _); done.
Qed.

Lemma flush_taken sock c : taken (flush_downlink sock c).1 = taken sock.
Proof.
  unfold flush_downlink. case_bool_decide; [done|]. destruct (can_send sock); [|done].
  destruct (send_slice sock _) as [[n sock']|] eqn:Es; [|done]. case_bool_decide; cbn; by eapply taken_send.
Qed.

Lemma flush_idle sock c : cx_downlink_pending c = [] → flush_downlink sock c = (sock, c).
Proof. intros Hp. unfold flush_downlink. by rewrite bool_decide_true. Qed.

Lemma flush_up relays h sock c : up_slot relays h c sock → up_slot relays h (flush_downlink sock c).2 (flush_downlink sock c).1.
Proof.
  intros H. destruct (flush_downlink_shape sock c) as (p & d & Hf & Hp). pose proof (flush_taken sock c) as Ht.
  unfold up_slot in *. rewrite Hf, Ht. cbn. destruct (cx_state c); try done; naive_solver.
Qed.

Lemma advance_up h s s' r :
  advance_downlink h s = (s', r) → up_at h s →
  up_at h s' ∧ (fits s h → fits s' h) ∧ lp_relays s' = lp_relays s ∧ (r = Ok tt → is_Some (lp_sockets s' !! h)).
Proof.
  unfold advance_downlink. mrun. intros H Hu.
  destruct (lp_sockets s !! h) as [sock|] eqn:Hs; cbn in H; [|by simplify_eq].
  destruct (lp_ctxs s !! h) as [c|] eqn:Hc; cbn in H; [|simplify_eq; eauto].
  specialize (Hu c sock Hc Hs). pose proof (flush_up _ _ _ _ Hu) as Hu'.
  pose proof (flush_idle sock c) as Hidle. destruct (flush_downlink_shape sock c) as (p & d & Hsh & _).
  destruct (flush_downlink sock c) as [sock1 c1]. cbn in Hu', Hsh. injection H as <- <-.
  pose proof (lookup_lt_Some _ _ _ Hs). split_and!; [| |done|].
  - intros c0 sock0. cbn. rewrite lookup_insert_eq, list_lookup_insert_eq by done. by intros [= <-] [= <-].
  - intros Hf c0 sock0 data sock2. cbn. rewrite lookup_insert_eq, list_lookup_insert_eq by done. intros [= <-] [= <-] Hst Hr.
    subst c1. cbn in Hst |- *. assert (cx_downlink_pending c = []) as Hp.
    { unfold up_slot in Hu. destruct (cx_state c); naive_solver. }
    injection (Hidle Hp) as -> _. by eapply Hf.
  - intros _. cbn. rewrite list_lookup_insert_eq by done. eauto.
Qed.

(** The slot after its context and socket are written. *)
Lemma up_at_written h s c sock relays :
  lp_ctxs s !! h = Some c → lp_sockets s !! h = Some sock → lp_relays s = relays →
  up_slot relays h c sock → up_at h s.
Proof. intros Hc Hs <- Hu c0 sock0 Hc0 Hs0. by simplify_eq. Qed.

Lemma extract_payload_cases {E} sock p sock' :
  extract_socket_payload (E:=E) sock = Ok (p, sock') →
  (p = None ∧ sock' = sock) ∨
  (∃ data, p = Some data ∧ can_recv sock = true ∧ recv_all sock = Some (data, sock')).
Proof.
  unfold extract_socket_payload. destruct (can_recv sock); intros H; [|left; by simplify_eq].
  destruct (recv_all sock) as [[data s']|]; cbn in H; [|done]. simplify_eq. right. eauto.
Qed.

Lemma relay_carries_push r payload bytes :
  relay_carries r bytes →
  relay_carries (mk_Relay (ry_handle r) (ry_stream r) (ry_queue r ++ [payload]) (ry_written r) (ry_phase r) (ry_diag r))
    (bytes ++ payload).
Proof.
  unfold relay_carries. cbn. destruct (ry_phase r).
  - intros <-. by rewrite concat_app, app_assoc, concat_cons, concat_nil, app_nil_r.
  - intros Hp. by apply prefix_app_r.
  - intros Hp. by apply prefix_app_r.
Qed.

Lemma forward_established_up h tx c now s s' r :
  forward_established h tx c now s = (s', r) → r ≠ Panic →
  lp_ctxs s !! h = Some c → cx_uplink_tx c = Some tx → up_at h s → up_at h s'.
Proof.
  intros H Hnp Hc Htx Hu. unfold forward_established in H. rewrite (mthen_step _ _ _ s s) in H by done.
  destruct (try_reserve s tx); [|unfold mret, mlift in H; by simplify_eq|by eapply rearm_up].
  revert H. mrun. destruct (lp_sockets s !! h) as [sock|] eqn:Hs; cbn; [|by intros [= <- <-]].
  specialize (Hu c sock Hc Hs). pose proof (lookup_lt_Some _ _ _ Hs) as Hlt.
  destruct (extract_socket_payload sock) as [[p sock1]|e|] eqn:Ee; cbn; [| |by intros [= <- <-]].
  2:{ unfold extract_socket_payload in Ee. repeat case_match; destruct (recv_all sock) as [[]|]; done. }
  assert (cx_state c = Relaying) as Hst.
  { unfold up_slot in Hu. destruct (cx_state c); try done; destruct Hu as [? _]; congruence. }
  unfold up_slot in Hu. rewrite Hst in Hu. destruct Hu as (Hb & i & r0 & Hi & Hr0 & Hh & Hca). simplify_eq.
  apply extract_payload_cases in Ee as [[-> ->]|(data & -> & Hcr & Hrecv)]; cbn.
  - intros [= <- <-]. eapply up_at_written; cbn; [done|by apply list_lookup_insert_eq|done|].
    unfold up_slot. rewrite Hst. eauto 10.
  - unfold push_uplink. mrun. intros [= <- <-].
    eapply up_at_written; cbn; [by rewrite lookup_insert_eq|by apply list_lookup_insert_eq|done|].
    unfold up_slot. cbn. split; [done|]. exists tx. eexists. split; [done|].
    split; [by rewrite list_lookup_alter_eq, Hr0|]. split; [done|]. rewrite (taken_recv _ _ _ Hrecv).
    by apply relay_carries_push.
Qed.

(** An upstream whose streams are opened inline and that is in a state of [I] opens them, and what the
    client asks of it keeps it in [I]. *)
Record serves_inline (I : U → Prop) : Prop := {
  si_opens : up_open_is_cheap U = true → ∀ u t, I u → is_ok (up_open_tcp u t).2 = true;
  si_kept : allows I
}.

Section opens.
Variable I : U → Prop.
Hypothesis Hop : serves_inline I.

Lemma open_inline_up h payload t f c now s s' r sock :
  open_inline h payload t f c now s = (s', r) → r ≠ Panic → sends_ok I s → up_open_is_cheap U = true →
  lp_sockets s !! h = Some sock → cx_uplink_buffer c = [] → taken sock = payload → up_at h s'.
Proof.
  unfold open_inline. mrun. intros H Hnp Hso Hch Hs Hb Ht. pose proof (si_opens I Hop Hch (lp_up s) t (so_up I _ Hso)) as Hok.
  destruct (up_open_tcp (lp_up s) t) as [up [stream| |]]; cbn in Hok; try done.
  rewrite try_send_fresh in H. cbn in H. set (c2 := set_state Relaying _) in H.
  match type of H with context [acquire_fake h f now ?s2] => set (s2' := s2) in H end.
  destruct (acquire_fake_run h f now s2' c2) as (s3 & E3 & Hs3); [by apply lookup_insert_eq|].
  unfold mthen in H. rewrite E3 in H. subst s3. unfold spawn_remote_relay, mupd in H. injection H as <- <-.
  eapply up_at_written; cbn; [by rewrite lookup_insert_eq|done|done|].
  assert (∀ f, up_slot (lp_relays s ++ [mk_Relay h stream [payload] [] RelayRunning relay_diag_default]) h (give_fake f c2) sock) as Hx;
    [|apply Hx].
  intros g. assert (cx_state (give_fake g c2) = Relaying ∧ cx_uplink_buffer (give_fake g c2) = [] ∧
    cx_uplink_tx (give_fake g c2) = Some (length (lp_relays s))) as (E1 & E2 & E4) by (by destruct g).
  unfold up_slot. rewrite E1, E2, E4. split; [done|]. do 2 eexists. split; [done|].
  split; [by apply list_lookup_middle|]. split; [done|]. unfold relay_carries. cbn. by rewrite app_nil_r.
Qed.

Lemma open_spawned_up h payload t f c now s s' r sock :
  open_spawned h payload t f c now s = (s', r) → lp_sockets s !! h = Some sock →
  cx_uplink_tx c = None → cx_downlink_pending c = [] → cx_uplink_buffer c = [] →
  len payload ≤ MAX_UPLINK_BUFFER → taken sock = payload → up_at h s'.
Proof.
  unfold open_spawned. mrun. intros H Hs Htx Hp Hb Hl Ht. set (c2 := set_epoch _ _) in H.
  match type of H with context [acquire_fake h f now ?s2] => set (s2' := s2) in H end.
  destruct (acquire_fake_run h f now s2' c2) as (s3 & E3 & Hs3); [by apply lookup_insert_eq|].
  unfold mthen in H. rewrite E3 in H. subst s3. cbn in H. injection H as <- <-.
  eapply up_at_written; cbn; [by rewrite lookup_alter_eq, lookup_insert_eq|done|done|].
  assert (∀ g, cx_uplink_buffer (give_fake g c2) = [] ∧ cx_uplink_tx (give_fake g c2) = None ∧
    cx_downlink_pending (give_fake g c2) = [] ∧ cx_state (give_fake g c2) = HandshakePending) as Hg by (by intros []).
  destruct (Hg f) as (G1 & G2 & G3 & G4). destruct (buffer_uplink_fields payload (give_fake f c2)) as (_ & F2 & F3 & _ & _ & F6).
  unfold up_slot. rewrite F2, G4, F3, F6. split_and!; try done. unfold buffer_uplink.
  rewrite G1, bool_decide_false by (rewrite len_nil; lia). done.
Qed.

Lemma handle_local_payload_up h payload t f now s s' r sock sock0 :
  handle_local_payload h payload (Some t) f now s = (s', r) → r ≠ Panic → sends_ok I s →
  lp_sockets s !! h = Some sock → taken sock = taken sock0 ++ payload →
  (∀ c, lp_ctxs s !! h = Some c → up_slot (lp_relays s) h c sock0 ∧ cx_uplink_tx c = None ∧
     len (cx_uplink_buffer c) + len payload ≤ MAX_UPLINK_BUFFER) →
  up_at h s'.
Proof.
  unfold handle_local_payload. intros H Hnp Hso Hs Ht Hc.
  rewrite (mthen_step _ _ _ s (lp_ctxs s !! h)) in H by done.
  destruct (lp_ctxs s !! h) as [c|] eqn:Ec.
  2:{ unfold mret, mlift in H. simplify_eq. intros c0 sk Hc0. by rewrite Ec in Hc0. }
  destruct (Hc c eq_refl) as (Hu & Htx & Hl). unfold up_slot in Hu. case_bool_decide as Hst.
  - rewrite Hst in Hu. destruct Hu as (_ & Hp & Hb). unfold put_ctx, mupd in H. simplify_eq.
    eapply up_at_written; cbn; [by rewrite lookup_insert_eq|done|done|].
    destruct (buffer_uplink_fields payload c) as (_ & F2 & F3 & _ & _ & F6).
    unfold up_slot. rewrite F2, Hst, F3, F6. split_and!; try done. unfold buffer_uplink.
    rewrite bool_decide_false by lia. cbn. by rewrite Ht, Hb.
  - assert (cx_state c = Listening) as Hli.
    { destruct (cx_state c); try done. destruct Hu as (_ & i & r0 & Hi & _). congruence. }
    rewrite Hli in Hu. destruct Hu as (_ & Hb & Hp & Ht0). rewrite Ht0 in Ht. rewrite Hb, len_nil in Hl.
    destruct (up_open_is_cheap U) eqn:Ech.
    + by eapply open_inline_up.
    + eapply open_spawned_up; try done; lia.
Qed.

Lemma forward_first_up h now s s' r :
  forward_first h now s = (s', r) → r ≠ Panic → sends_ok I s → up_at h s → fits s h →
  (∀ c, lp_ctxs s !! h = Some c → cx_uplink_tx c = None) → up_at h s'.
Proof.
  intros H Hnp Hso Hu Hf Hn. unfold forward_first in H.
  destruct (lp_sockets s !! h) as [sock|] eqn:Hs; [|revert H; mrun; rewrite Hs; cbn; by intros [= <- <-]].
  rewrite (mthen_step _ _ _ s sock) in H by (mrun; by rewrite Hs). pose proof (lookup_lt_Some _ _ _ Hs) as Hlt.
  destruct (extract_socket_payload (E:=ClientError) sock) as [[p sock1]|e|] eqn:Ee;
    [|unfold mthen at 1, mlift in H; by simplify_eq..].
  rewrite (mthen_step _ _ _ s (p, sock1)) in H by done.
  set (s1 := set_sockets (<[h := sock1]> (lp_sockets s)) s) in H.
  rewrite (mthen_step _ _ _ s1 tt) in H by done.
  assert (lp_sockets s1 !! h = Some sock1) as Hs1 by (by apply list_lookup_insert_eq).
  apply extract_payload_cases in Ee as [[-> ->]|(data & -> & Hcr & Hrecv)].
  { unfold mret, mlift in H. simplify_eq. intros c sk Hc Hsk. rewrite Hs1 in Hsk. simplify_eq. by apply (Hu c sk). }
  destruct (recv_endpoint _ _ _ Hcr Hrecv) as [ep Hep]. rewrite Hep in H.
  rewrite (mthen_step _ _ _ s1 s1) in H by done.
  destruct (resolve_target ep (lp_pool s1)); [|by eapply rearm_up..].
  eapply (handle_local_payload_up h data target fake_ip now s1 s' r sock1 sock); try done; [by destruct Hso|by eapply taken_recv|].
  intros c Hc. split_and!; [by apply Hu|by apply Hn|]. eapply Hf; eauto.
Qed.

Lemma process_listener_up h now s s' r :
  process_listener_activity h now s = (s', r) → r ≠ Panic → sends_ok I s → up_at h s → fits s h → up_at h s'.
Proof.
  intros H Hnp Hso Hu Hf. unfold process_listener_activity in H.
  destruct (advance_downlink h s) as [s1 r1] eqn:Ea. destruct (advance_up _ _ _ _ Ea Hu) as (Hu1 & Hf1 & _). specialize (Hf1 Hf).
  pose proof (keeps_advance_downlink I h s Hso) as Hso1. rewrite Ea in Hso1.
  unfold mthen in H at 1. rewrite Ea in H. destruct r1 as [[]|e|]; [|by simplify_eq..].
  rewrite (mthen_step _ _ _ s1 (lp_ctxs s1 !! h)) in H by done.
  destruct (lp_ctxs s1 !! h) as [c|] eqn:Hc; [|unfold mret, mlift in H; by simplify_eq].
  destruct (cx_uplink_tx c) as [tx|] eqn:Htx.
  - by eapply forward_established_up.
  - eapply forward_first_up; try done. intros c0 Hc0. by simplify_eq.
Qed.

(** A slot's sender leads to a relay of the slot. *)
Lemma up_slot_owner relays h c sock i r :
  up_slot relays h c sock → cx_uplink_tx c = Some i → relays !! i = Some r → ry_handle r = h.
Proof. unfold up_slot. intros Hu Hi Hr. destruct (cx_state c); naive_solver. Qed.

Lemma frame_process_listener h now s :
  up_at h s → slot_frame h s (process_listener_activity h now s).1.
Proof.
  intros Hu. unfold process_listener_activity. pose proof (frame_advance h s s (slot_frame_refl h s)) as Hfr.
  destruct (advance_downlink h s) as [s1 r1] eqn:Ea. cbn in Hfr. unfold mthen at 1. rewrite Ea.
  destruct (advance_up _ _ _ _ Ea Hu) as (Hu1 & _ & Hrel & Hsk).
  destruct r1 as [[]|e|]; [|done..]. destruct (Hsk eq_refl) as [sock Hs1].
  rewrite (mthen_step _ _ _ s1 (lp_ctxs s1 !! h)) by done.
  destruct (lp_ctxs s1 !! h) as [c|] eqn:Hc; [|done].
  destruct (cx_uplink_tx c) as [tx|] eqn:Htx; [|by apply frame_forward_first].
  apply frame_forward_established; [|done]. intros r Hr. rewrite <-Hrel in Hr.
  by eapply up_slot_owner; [apply (Hu1 c sock)| |].
Qed.

(** ** The dirty set *)

(** The test for remaining work changes only the dirty set. *)
Definition but_dirty (s1 s : Loop) : Prop := ∃ d, s = set_dirty d s1.

Lemma process_dirty_handle_up now h s s' r :
  process_dirty_handle now h s = (s', r) → r ≠ Panic → sends_ok I s → uplink_inv s → fits s h →
  uplink_inv s' ∧ slot_frame h s s'.
Proof.
  intros H Hnp Hso Hu Hf. unfold process_dirty_handle in H.
  pose proof (frame_process_listener h now s (Hu h)) as Hfr. pose proof (process_listener_up h now s) as Hup.
  unfold mthen at 1, log_err in H. destruct (process_listener_activity h now s) as [s1 r1]. cbn in Hfr.
  assert (r1 ≠ Panic) as Hnp1 by (intros ->; by simplify_eq).
  assert (uplink_inv s1) as Hu1 by (eapply uplink_frame; [done|done|by eapply Hup; [..|exact (Hu h)|]]).
  match type of H with (match ?x with (_, _) => _ end) = _ => assert (∃ r1', x = (s1, Ok r1')) as [[] Ex] end.
  { destruct r1; naive_solver. }
  rewrite Ex in H. match type of H with ?m s1 = _ => assert (keeps (but_dirty s1) m) as Hk end.
  { unfold get_sock, get_ctx, mret. walk ltac:(intros ? [d ->]; by eexists). }
  specialize (Hk s1). rewrite H in Hk. cbn [fst] in Hk. destruct Hk as [d ->]; [exists (lp_dirty s1); by destruct s1|].
  split; [exact Hu1|]. by destruct Hfr.
Qed.

Lemma fits_frame h h' s s' : slot_frame h s s' → h' ≠ h → fits s h' → fits s' h'.
Proof.
  intros [Fc Fs _] Hne Hf c sock data sock' Hc Hs. rewrite Fc in Hc by done. rewrite Fs in Hs by done. by eapply Hf.
Qed.

Lemma process_dirty_handles_up now hs s s' r :
  process_dirty_handles now hs s = (s', r) → r ≠ Panic → sends_ok I s → NoDup hs → uplink_inv s →
  (∀ h, h ∈ hs → fits s h) → uplink_inv s'.
Proof.
  intros H Hnp Hso Hnd Hu Hf. revert s H Hso Hu Hf. induction hs as [|h hs IH]; cbn; intros s H Hso Hu Hf.
  { unfold mret, mlift in H. by simplify_eq. }
  apply NoDup_cons in Hnd as [Hni Hnd]. destruct (process_dirty_handle now h s) as [s1 r1] eqn:E1.
  unfold mthen in H. rewrite E1 in H. assert (r1 ≠ Panic) as Hnp1 by (intros ->; by simplify_eq).
  destruct (process_dirty_handle_up _ _ _ _ _ E1 Hnp1 Hso Hu) as [Hu1 Hfr]; [apply Hf; by left|].
  pose proof (keeps_process_dirty_handle I (si_kept I Hop) now h s Hso) as Hso1. rewrite E1 in Hso1.
  destruct r1 as [[]|e|]; [|by simplify_eq..]. eapply IH; try done.
  intros h' Hh'. eapply fits_frame; [done|by intros ->|]. apply Hf. by right.
Qed.

Lemma process_dirty_relay_up order now s s' r :
  process_dirty_relay order now s = (s', r) → r ≠ Panic → sends_ok I s → (∀ l, order l ≡ₚ l) → uplink_inv s →
  (∀ h, fits s h) → uplink_inv s'.
Proof.
  intros H Hnp Hso Ho Hu Hf. unfold process_dirty_relay in H. rewrite (mthen_step _ _ _ s s) in H by done.
  eapply process_dirty_handles_up; try done. rewrite Ho. apply NoDup_elements.
Qed.

(** ** The stack *)

(** [iface.poll] does not receive on behalf of the application. *)
Definition log_kept (env : @poll_env TS) : Prop := ∀ h sock, taken (pe_sock env h sock) = taken sock.

Lemma poll_up env s : log_kept env → uplink_inv s → uplink_inv (iface_poll macos env s).1.
Proof.
  intros Hk Hu h c sock Hc Hs. cbn in Hc, Hs. rewrite list_lookup_imap in Hs.
  destruct (lp_sockets s !! h) as [sock0|] eqn:Hs0; cbn in Hs; [|done]. simplify_eq.
  specialize (Hu h c sock0 Hc Hs0). unfold up_slot in *. by rewrite Hk.
Qed.

Lemma rearm_slot_inv h now s s' r : rearm_slot h now s = (s', r) → r ≠ Panic → uplink_inv s → uplink_inv s'.
Proof.
  intros H Hnp Hu. eapply (uplink_frame h); [done| |by eapply rearm_up].
  pose proof (frame_rearm h s now s (slot_frame_refl h s)) as Hf. by rewrite H in Hf.
Qed.

(** ** The remote side *)

Lemma set_pending_up relays h c sock p d : cx_uplink_tx c ≠ None → up_slot relays h c sock → up_slot relays h (set_pending p d c) sock.
Proof. unfold up_slot. cbn. intros Hn Hu. destruct (cx_state c); naive_solver. Qed.

Lemma dev_flush_up ws : keeps uplink_inv (dev_flush ws).
Proof. intros s H. unfold dev_flush. destruct (flush_tx ws (lp_dev s)). exact H. Qed.

Lemma diag_up h f (s : Loop) :
  uplink_inv s → uplink_inv (set_ctxs (alter (λ c, set_diag (f c) c) h (lp_ctxs s)) s).
Proof.
  intros Hu h' c sock. cbn. rewrite lookup_alter. case_decide as Hd; [|apply Hu]. subst h'.
  destruct (lp_ctxs s !! h) as [c0|] eqn:Hc; [|done]. intros [= <-] Hs. exact (Hu h c0 sock Hc Hs).
Qed.

Lemma handle_remote_payload_up h payload env now s s' r :
  handle_remote_payload macos h payload env now s = (s', r) → r ≠ Panic → log_kept env → uplink_inv s → uplink_inv s'.
Proof.
  intros H Hnp Hk Hu. unfold handle_remote_payload in H.
  destruct (lp_sockets s !! h) as [sock|] eqn:Hs; [|revert H; mrun; rewrite Hs; cbn; by intros [= <- <-]].
  rewrite (mthen_step _ _ _ s sock), (mthen_step _ _ _ s (lp_ctxs s !! h)) in H by (mrun; by rewrite ?Hs).
  destruct (lp_ctxs s !! h) as [c|] eqn:Hc; [|unfold mret, mlift in H; by simplify_eq].
  case_bool_decide as Hp; [by eapply rearm_slot_inv|].
  destruct (cx_uplink_tx c) as [tx|] eqn:Htx; [|unfold mret, mlift in H; by simplify_eq].
  set (c1 := set_pending _ _ c) in H. pose proof (Hu h c sock Hc Hs) as Hu0.
  assert (cx_state c = Relaying) as Hst.
  { unfold up_slot in Hu0. destruct (cx_state c); naive_solver. }
  assert (up_slot (lp_relays s) h c1 sock) as Hu1 by (apply set_pending_up; [congruence|done]).
  pose proof (flush_up _ _ _ _ Hu1) as Hu2. destruct (flush_downlink_shape sock c1) as (p & d & Hsh & _).
  destruct (flush_downlink sock c1) as [sock2 c2]. cbn [fst snd] in Hu2, Hsh.
  set (s2 := set_ctxs (<[h := set_state Relaying c2]> (lp_ctxs s)) (set_sockets (<[h := sock2]> (lp_sockets s)) s)).
  rewrite (mthen_step _ _ _ (set_sockets (<[h := sock2]> (lp_sockets s)) s) tt), (mthen_step _ _ _ s2 tt) in H by done.
  assert (set_state Relaying c2 = c2) as E2 by (subst c2; rewrite <-Hst; by destruct c).
  assert (uplink_inv s2) as Hu3.
  { eapply (uplink_frame h s); [done|split; cbn; intros; rewrite ?lookup_insert_ne, ?list_lookup_insert_ne by done; done|].
    intros c0 sk. cbn. rewrite lookup_insert_eq, list_lookup_insert_eq by (by eapply lookup_lt_Some).
    intros [= <-] [= <-]. by rewrite E2. }
  pose proof (poll_up env s2 Hk Hu3) as Hu4. erewrite (mthen_step _ _ s2) in H by done.
  set (s3 := (iface_poll macos env s2).1) in Hu4. pose proof (dev_flush_up (pe_writes env) s3 Hu4) as Hu5.
  change (set_sockets _ (set_dev _ s2)) with s3 in H. unfold mthen in H.
  destruct (dev_flush (pe_writes env) s3) as [s4 [ok|e|]]; [|by simplify_eq..].
  unfold mupd in H. simplify_eq. by apply diag_up.
Qed.

Lemma handle_handshake_done_up done now s s' r :
  handle_handshake_done done now s = (s', r) → r ≠ Panic → uplink_inv s → uplink_inv s'.
Proof.
  intros H Hnp Hu. set (h := hd_handle done).
  pose proof (frame_handshake_done h s done now eq_refl s (slot_frame_refl h s)) as Hf. rewrite H in Hf. cbn [fst] in Hf.
  eapply (uplink_frame h); [done..|]. clear Hf. unfold handle_handshake_done in H. fold h in H. cbn zeta in H.
  rewrite (mthen_step _ _ _ s (lp_ctxs s !! h)) in H by done.
  assert (∀ c sock, lp_ctxs s !! h = Some c → lp_sockets s !! h = Some sock → up_slot (lp_relays s) h c sock) as Hh by apply Hu.
  destruct (lp_ctxs s !! h) as [c|] eqn:Hc; [|unfold mret, mlift in H; simplify_eq; intros c0 sk Hc0; by rewrite Hc in Hc0].
  case_bool_decide; [unfold mret, mlift in H; simplify_eq; intros c0 sk Hc0; rewrite Hc in Hc0; by apply Hh|].
  case_bool_decide as Hst; [unfold mret, mlift in H; simplify_eq; intros c0 sk Hc0; rewrite Hc in Hc0; by apply Hh|].
  destruct (hd_result done) as [stream|e]; [|by eapply rearm_up].
  assert (∃ c1 q, (if bool_decide (cx_uplink_buffer c = []) then Some (c, [])
     else match try_send [] (cx_uplink_buffer c) with Some q => Some (set_buffer [] c, q) | None => None end) = Some (c1, q) ∧
     cx_uplink_buffer c1 = [] ∧ concat q = cx_uplink_buffer c) as (c1 & q & E & Hb & Hq).
  { case_bool_decide as Hb; [by exists c, []; rewrite Hb|]. rewrite try_send_fresh. do 2 eexists. split; [done|].
    cbn. by rewrite app_nil_r. }
  rewrite E in H. rewrite (mthen_step _ _ _ s s) in H by done. erewrite (mthen_step _ _ s) in H by done.
  unfold spawn_remote_relay, mupd in H. injection H as <- <-. intros c0 sk. cbn. rewrite lookup_insert_eq.
  intros [= <-] Hs. specialize (Hh c sk eq_refl Hs). unfold up_slot in Hh. rewrite Hst in Hh. destruct Hh as (_ & _ & Ht).
  unfold up_slot. cbn. split; [done|]. do 2 eexists. split; [done|]. split; [by apply list_lookup_middle|]. split; [done|].
  unfold relay_carries. cbn. congruence.
Qed.

(** ** Listeners and dead slots *)

Lemma add_listener_up {E} relays port sl h sl' :
  add_listener (E:=E) port sl = Ok (h, sl') → up_slots relays sl → up_slots relays sl'.
Proof.
  unfold add_listener, build_listener_socket. intros H Hu. inv_res. simplify_eq. intros h' c sock. cbn.
  destruct (decide (h' = length sl.1)) as [->|Hne].
  - rewrite lookup_insert_eq, list_lookup_middle by done. intros [= <-] [= <-]. cbn. split_and!; try done. by eapply taken_new.
  - rewrite lookup_insert_ne by done. intros Hc Hs. apply (Hu h' c sock Hc).
    apply lookup_app_Some in Hs as [?|[? Hs]]; [done|]. apply lookup_lt_Some in Hs as Hlt. cbn in Hlt. lia.
Qed.

Lemma add_listeners_up {E} relays n port sl hs sl' :
  add_listeners (E:=E) n port sl = Ok (hs, sl') → up_slots relays sl → up_slots relays sl'.
Proof.
  revert sl hs. induction n as [|n IH]; cbn; intros sl hs H Hu; [by simplify_eq|]. inv_res. repeat case_match; inv_res.
  repeat case_match; simplify_eq. inv_res. simplify_eq. eauto using add_listener_up.
Qed.

Lemma grow_listeners_up {E} relays n port r sl r' sl' b :
  grow_listeners (E:=E) n port r sl = Ok (r', sl', b) → up_slots relays sl → up_slots relays sl'.
Proof.
  revert r sl. induction n as [|n IH]; cbn; intros r sl H Hu; [by simplify_eq|].
  case_bool_decide; [by simplify_eq|]. inv_res. repeat case_match; inv_res. eauto using add_listener_up.
Qed.

Lemma ensure_port_up {E} relays r port sl r' sl' b :
  ensure_port (E:=E) r port sl = Ok (r', sl', b) → up_slots relays sl → up_slots relays sl'.
Proof.
  unfold ensure_port. intros H Hu. destruct (lr_ports r !! port); [by simplify_eq|].
  case_bool_decide; [by simplify_eq|]. inv_res. repeat case_match; simplify_eq. eauto using add_listeners_up.
Qed.

Lemma ensure_spare_up {E} relays r port m sl r' sl' b :
  ensure_spare_listeners (E:=E) r port m sl = Ok (r', sl', b) → up_slots relays sl → up_slots relays sl'.
Proof.
  unfold ensure_spare_listeners. intros H Hu. destruct (lr_ports r !! port); [|by simplify_eq].
  inv_res. case_bool_decide; [by simplify_eq|]. eauto using grow_listeners_up.
Qed.

Lemma inspect_up buf : keeps uplink_inv (inspect_and_mark buf).
Proof.
  intros s Hu. unfold inspect_and_mark. destruct (inspect_inbound_tcp buf) as [[port [|]]|]; [|exact Hu..].
  mrun. destruct (ensure_port (lp_registry s) port (lp_sockets s, lp_ctxs s)) as [[[r1 sl1] b1]| |] eqn:E1; [|exact Hu..]. cbn.
  destruct (ensure_spare_listeners r1 port MIN_SPARE_LISTENERS sl1) as [[[r2 [sk2 cx2]] b2]| |] eqn:E2; [|exact Hu..].
  apply (ensure_spare_up (lp_relays s) _ _ _ _ _ _ _ E2). by apply (ensure_port_up (lp_relays s) _ _ _ _ _ _ E1).
Qed.

Lemma reap_slot_up {E} relays now h sl pool n sl' pool' n' :
  reap_slot (E:=E) now h sl pool n = Ok (sl', pool', n') → up_slots relays sl → up_slots relays sl'.
Proof.
  unfold reap_slot. intros H Hu. destruct (sl.1 !! h) as [sock|] eqn:Hs; cbn in H; [|done].
  destruct (sl.2 !! h) as [c|] eqn:Hc; [|by simplify_eq]. destruct (slot_dead sock c); [|by simplify_eq].
  destruct (rearm_socket_with_reason sock c pool now) as [[[sk c1] p1]| |] eqn:Er; cbn in H; [|done..].
  simplify_eq. intros h' c0 sock0. cbn. destruct (decide (h' = h)) as [->|Hne].
  - rewrite lookup_insert_eq, list_lookup_insert_eq by (by eapply lookup_lt_Some). intros [= <-] [= <-].
    by eapply rearm_socket_up.
  - rewrite lookup_insert_ne, list_lookup_insert_ne by done. apply Hu.
Qed.

Lemma reap_loop_up {E} relays now hs sl pool n sl' pool' n' :
  reap_loop (E:=E) now hs sl pool n = Ok (sl', pool', n') → up_slots relays sl → up_slots relays sl'.
Proof.
  revert sl pool n. induction hs as [|h hs IH]; cbn; intros sl pool n H Hu; [by simplify_eq|].
  inv_res. repeat case_match; simplify_eq. eauto using reap_slot_up.
Qed.

(** ** Relay tasks *)

(** A relay keeps its handle and carries at least what it carried. *)
Lemma set_relay_up i r r' (s : Loop) :
  uplink_inv s → lp_relays s !! i = Some r → ry_handle r' = ry_handle r →
  (∀ bytes, relay_carries r bytes → relay_carries r' bytes) →
  uplink_inv (set_relays (<[i := r']> (lp_relays s)) s).
Proof.
  intros Hu Hr Hh Hca h c sock Hc Hs. specialize (Hu h c sock Hc Hs). unfold up_slot in *. cbn in *.
  destruct (cx_state c); try done. destruct Hu as (Hb & j & rj & Hj & Hrj & Hhj & Hcj). split; [done|].
  destruct (decide (j = i)) as [->|Hne].
  - exists i, r'. rewrite list_lookup_insert_eq by (by eapply lookup_lt_Some). simplify_eq. split_and!; eauto.
  - exists j, rj. rewrite list_lookup_insert_ne by done. done.
Qed.

Lemma carries_prefix r bytes : relay_carries r bytes → ry_written r `prefix_of` bytes.
Proof. unfold relay_carries. destruct (ry_phase r); [intros <-; by apply prefix_app_r|done..]. Qed.

Lemma relay_break_carries r bytes : relay_carries r bytes → relay_carries (relay_break r) bytes.
Proof. intros H%carries_prefix. exact H. Qed.

Lemma run_relay_up i a : keeps uplink_inv (run_relay i a).
Proof.
  intros s Hu. unfold run_relay. rewrite (mthen_step _ _ _ s s) by done.
  destruct (lp_relays s !! i) as [r|] eqn:Hr; [|exact Hu].
  assert (∀ r' g, ry_handle r' = ry_handle r → (∀ bytes, relay_carries r bytes → relay_carries r' bytes) →
    uplink_inv (set_relays (<[i := r']> (lp_relays s)) (set_global g s))) as Hset.
  { intros r' g Hh Hc. exact (set_relay_up i r r' s Hu Hr Hh Hc). }
  assert (∀ r', ry_handle r' = ry_handle r → (∀ bytes, relay_carries r bytes → relay_carries r' bytes) →
    uplink_inv (set_relay i r' s).1) as Hset'.
  { intros r' Hh Hc. exact (set_relay_up i r r' s Hu Hr Hh Hc). }
  destruct (ry_phase r) eqn:Hph, a as [ok|[data|] w| |]; try exact Hu.
  - destruct (ry_queue r) as [|p q] eqn:Hq; [destruct (sender_alive s i); [exact Hu|by apply Hset'; [|apply relay_break_carries]]|].
    destruct ok; apply Hset'; try done; intros bytes Hb; unfold relay_carries in *; rewrite Hph in Hb; cbn.
    + rewrite <-Hb, Hq. cbn. by rewrite app_assoc.
    + rewrite <-Hb. by apply prefix_app_r.
  - case_bool_decide; [|exact Hu]. case_bool_decide; mrun; apply Hset; try done; [apply relay_break_carries|].
    intros bytes Hb. unfold relay_carries in *. by rewrite Hph in Hb.
  - by apply Hset'; [|apply relay_break_carries].
  - by apply Hset'; [|apply relay_break_carries].
  - apply Hset'; [done|]. intros bytes Hb%carries_prefix. exact Hb.
Qed.

(** ** All events *)

(** What an event may do to the log, and the room it must leave in the buffers. *)
Definition uplink_ok (s : Loop) (e : @loop_event TS) : Prop :=
  match e with
  | EvGlobal env _ => log_kept env
  | EvTimer env _ => order_ok env ∧ log_kept env ∧ ∀ h, fits (iface_poll macos env s).1 h
  | EvRx read env _ => order_ok env ∧ log_kept env ∧
      let dev := (wait_for_rx macos read (lp_dev s)).1 in
      ∀ buf h, rx_peek dev = Some buf → classify_inbound buf = InOther →
        fits (iface_poll macos env (inspect_and_mark buf (set_dev dev s)).1).1 h
  | _ => True
  end.

Ltac neutral := intros ? Hkept; exact Hkept.

Lemma on_global_up env now s s' r :
  on_global macos env now s = (s', r) → r ≠ Panic → log_kept env → uplink_inv s → uplink_inv s'.
Proof.
  intros H Hnp Hk Hu. unfold on_global in H. rewrite (mthen_step _ _ _ s s) in H by done.
  destruct (lp_global s) as [|[h payload] rest]; [unfold mret, mlift in H; by simplify_eq|].
  rewrite (mthen_step _ _ _ (set_global rest s) tt) in H by done. unfold mthen at 1, log_err in H.
  pose proof (handle_remote_payload_up h payload env now (set_global rest s)) as Hp.
  destruct (handle_remote_payload macos h payload env now (set_global rest s)) as [s1 r1].
  assert (r1 ≠ Panic) as Hnp1 by (intros ->; by simplify_eq). specialize (Hp s1 r1 eq_refl Hnp1 Hk Hu).
  assert (keeps uplink_inv (mark_if_pending h)) as Hm.
  { unfold mark_if_pending, get_ctx, mret. walk neutral. }
  specialize (Hm s1 Hp). destruct r1 as [[]| |]; [by rewrite H in Hm..|done].
Qed.

Lemma poll_and_flush_up env s s' r :
  poll_and_flush macos env s = (s', r) → log_kept env → uplink_inv s →
  uplink_inv s' ∧ ((∀ h, fits (iface_poll macos env s).1 h) → ∀ h, fits s' h).
Proof.
  intros H Hk Hu. pose proof (poll_up env s Hk Hu) as Hp. unfold poll_and_flush in H.
  rewrite (mthen_step _ _ _ (iface_poll macos env s).1 tt) in H by done. set (s1 := (iface_poll macos env s).1) in *.
  set (φ := λ s, uplink_inv s ∧ ((∀ h, fits s1 h) → ∀ h, fits s h)).
  assert (∀ f, keeps φ (dev_flush f)) as Hd.
  { intros f s2 H2. unfold dev_flush. destruct (flush_tx f (lp_dev s2)). exact H2. }
  match type of H with ?m s1 = _ => assert (keeps φ m) as Hm end.
  { unfold mret. walk neutral. }
  specialize (Hm s1). rewrite H in Hm. apply Hm. by split.
Qed.

Lemma on_timer_up env now s s' r :
  on_timer macos env now s = (s', r) → r ≠ Panic → sends_ok I s → uplink_ok s (EvTimer env now) →
  uplink_inv s → uplink_inv s'.
Proof.
  intros H Hnp Hso (Ho & Hk & Hf) Hu. unfold on_timer in H. pose proof (keeps_poll_and_flush macos I env s Hso) as Hso1.
  destruct (poll_and_flush macos env s) as [s1 r1] eqn:E1.
  destruct (poll_and_flush_up _ _ _ _ E1 Hk Hu) as [Hu1 Hf1]. unfold mthen in H. rewrite E1 in H.
  destruct r1 as [[]| |]; [|by simplify_eq..]. by eapply process_dirty_relay_up; eauto.
Qed.

(** The datagram handlers do not touch the slots. *)
Lemma inject_up pkt ws : keeps uplink_inv (inject_and_flush macos pkt ws).
Proof. apply keeps_mupd. neutral. Qed.
#[local] Hint Resolve inject_up : keeps.

Lemma dns_up pkt ws now : keeps uplink_inv (handle_dns_hijack macos pkt ws now).
Proof. unfold handle_dns_hijack, mret. walk neutral. Qed.

Lemma udp_up pkt now : keeps uplink_inv (handle_tuic_udp_uplink pkt now).
Proof. unfold handle_tuic_udp_uplink, mret. walk neutral. Qed.

Lemma downlink_up dg ws now : keeps uplink_inv (handle_downlink macos dg ws now).
Proof. unfold handle_downlink, mret. walk neutral. Qed.

Lemma on_task_up i : keeps uplink_inv (on_task i).
Proof. unfold on_task, mret. walk neutral. Qed.

Lemma on_udp_sweep_up now : keeps uplink_inv (on_udp_sweep now).
Proof.
  unfold on_udp_sweep. intros s Hu. rewrite (mthen_step _ _ _ s s) by done.
  destruct (assoc_sweep (lp_assoc s) now UDP_FLOW_IDLE_SECS) as [ips table].
  do 3 (erewrite mthen_step by done). erewrite mthen_step by done. cbn.
  unfold mthen, mlift. destruct (reap_dead_slots _ _ _ _) as [[[sl pool] n]| |] eqn:Er; [|exact Hu..].
  cbn. unfold uplink_inv. cbn. rewrite <-surjective_pairing. by eapply reap_loop_up.
Qed.

Lemma on_rx_up read env now s s' r :
  on_rx macos read env now s = (s', r) → r ≠ Panic → sends_ok I s → uplink_ok s (EvRx read env now) →
  uplink_inv s → uplink_inv s'.
Proof.
  intros H Hnp Hso (Ho & Hk & Hf) Hu. unfold on_rx in H. rewrite (mthen_step _ _ _ s s) in H by done.
  destruct (wait_for_rx macos read (lp_dev s)) as [dev r0] eqn:Ew. cbn [fst] in Hf. cbn zeta in Hf.
  rewrite (mthen_step _ _ _ (set_dev dev s) tt) in H by done. set (s0 := set_dev dev s) in H.
  assert (uplink_inv s0) as Hu0 by exact Hu.
  destruct r0 as [[]| |]; [|unfold mret, mlift in H; by simplify_eq..].
  assert (∃ pkt, rx_peek dev = Some pkt) as [pkt Ep].
  { unfold wait_for_rx in Ew. repeat case_match; simplify_eq; cbn; eauto. }
  rewrite Ep in H. cbn [fmap option_fmap option_map] in H.
  pose proof (λ h, Hf pkt h Ep) as Hf'. unfold rx_take in H. unfold rx_peek in Ep. rewrite Ep in H.
  destruct (classify_inbound pkt).
  - rewrite (mthen_step _ _ _ (set_dev (set_rx None dev) s0) tt) in H by done.
    pose proof (dns_up pkt (pe_writes env) now (set_dev (set_rx None dev) s0) Hu0) as Hd. by rewrite H in Hd.
  - rewrite (mthen_step _ _ _ (set_dev (set_rx None dev) s0) tt) in H by done.
    pose proof (udp_up pkt now (set_dev (set_rx None dev) s0) Hu0) as Hd. by rewrite H in Hd.
  - fold s0 in Hf'. pose proof (inspect_up pkt s0 Hu0) as Hu1.
    assert (sends_ok I s0) as Hso0 by (by destruct Hso). pose proof (keeps_inspect I pkt s0 Hso0) as Hso1. unfold mthen at 1 in H.
    destruct (inspect_and_mark pkt s0) as [s1 [[]| |]]; [|by simplify_eq; exact Hu1..].
    cbn [fst] in Hu1, Hf'. eapply (on_timer_up env now s1); try done. split_and!; eauto.
Qed.

(** Every event keeps the invariant. *)
Lemma loop_step_up e s s' :
  loop_step macos e s = (s', Ok tt) → sends_ok I s → uplink_ok s e → uplink_inv s → uplink_inv s'.
Proof.
  intros H Hso Hok Hu. destruct e; cbn [loop_step] in H.
  - by eapply on_global_up.
  - by eapply on_rx_up.
  - unfold on_done in H. rewrite (mthen_step _ _ _ s s) in H by done.
    destruct (lp_done s) as [|d rest]; [unfold mret, mlift in H; by simplify_eq|].
    rewrite (mthen_step _ _ _ (set_done rest s) tt) in H by done. by eapply handle_handshake_done_up.
  - pose proof (downlink_up dg writes now_secs s Hu) as Hd. by rewrite H in Hd.
  - pose proof (on_udp_sweep_up now_secs s Hu) as Hd. by rewrite H in Hd.
  - unfold on_fake_ip_sweep, mupd in H. by simplify_eq.
  - unfold on_metrics, mupd in H. by simplify_eq.
  - by eapply on_timer_up.
  - pose proof (on_task_up i s Hu) as Hd. by rewrite H in Hd.
  - pose proof (run_relay_up i a s Hu) as Hd. by rewrite H in Hd.
Qed.

(** ** Runs *)

(** A run in which the stack keeps the log and no buffer overflows, from an upstream that is in [I]. *)
Inductive uplink_reachable : Loop → Prop :=
| ur_init pool_size mtu up : I up → uplink_reachable (loop_init pool_size mtu up)
| ur_step s e s' : uplink_reachable s → uplink_ok s e → loop_step macos e s = (s', Ok tt) → uplink_reachable s'.

Lemma uplink_reachable_inv s : uplink_reachable s → uplink_inv s ∧ sends_ok I s.
Proof.
  induction 1 as [pool_size mtu up Hup|s e s' _ [Hu Hso] Hok Hs].
  - split; [by intros h c sock; cbn; rewrite lookup_empty|]. split; [done|constructor|apply pool_new_ok].
  - split; [by eapply loop_step_up|]. pose proof (keeps_loop_step macos I (si_kept I Hop) e s Hso) as H'. by rewrite Hs in H'.
Qed.

End opens.

(** A relay whose writes succeed empties its channel. *)
Lemma drain_relay i q s r :
  lp_relays s !! i = Some r → ry_phase r = RelayRunning → ry_queue r = q →
  ∃ s' r', loop_run macos (replicate (length q) (EvRelay i (RelayLocal true))) s = (s', Ok tt) ∧
    lp_sockets s' = lp_sockets s ∧ lp_relays s' !! i = Some r' ∧ ry_queue r' = [] ∧
    ry_written r' = ry_written r ++ concat q.
Proof.
  revert s r. induction q as [|p q IH]; cbn [length replicate loop_run]; intros s r Hr Hp Hq.
  { exists s, r. by rewrite app_nil_r. }
  set (r1 := mk_Relay (ry_handle r) (ry_stream r) q (ry_written r ++ p) RelayRunning
               (note_uplink_write (len p) (ry_diag r))).
  destruct (IH (set_relays (<[i := r1]> (lp_relays s)) s) r1) as (s' & r' & E & Hs & Hr' & Hq' & Hw); [|done..|].
  { by apply list_lookup_insert_eq, (lookup_lt_Some _ _ _ Hr). }
  exists s', r'. rewrite Hw, concat_cons, (assoc_L (++)). split_and!; try done.
  rewrite (mthen_step _ _ _ (set_relays (<[i := r1]> (lp_relays s)) s) tt); [done|].
  cbn [loop_step]. unfold run_relay. rewrite (mthen_step _ _ _ s s) by done. by rewrite Hr, Hp, Hq.
Qed.


(** The room in the buffers is decidable. *)
Definition fits_all (s : Loop) : bool :=
  forallb (λ '(h, c),
    match lp_sockets s !! h with
    | Some sock =>
        match recv_all sock with
        | Some (data, _) => bool_decide (len (cx_uplink_buffer c) + len data ≤ MAX_UPLINK_BUFFER)
        | None => true
        end
    | None => true
    end) (map_to_list (lp_ctxs s)).

Lemma fits_all_sound s h : fits_all s = true → fits s h.
Proof.
  unfold fits_all. intros Hf c sock data sock' Hc Hs _ Hr. rewrite forallb_forall in Hf.
  specialize (Hf (h, c)). cbn in Hf. rewrite Hs, Hr in Hf. eapply bool_decide_eq_true_1, Hf.
  by apply list_elem_of_In, elem_of_map_to_list.
Qed.

End uplink.

(** A TUIC connection that is open and opens streams serves the client inline, and REALITY and the
    failover pair, which never open inline, serve it in any state. *)
Lemma tuic_serves_inline {Q : QuicLib} (k : Conn) :
  close_reason k = false → open_in_time = true → bi_open k = true → (∀ l, bi_write k l = true) →
  serves_inline (λ u : TuicLeg Q, tl_conn u = k).
Proof.
  intros Hc Ht Hb Hw.
  assert (∀ (u : TuicLeg Q) t, tl_conn u = k → is_ok (up_open_tcp u t).2 = true ∧ tl_conn (up_open_tcp u t).1 = k) as Ho.
  { intros u t <-. unfold up_open_tcp, tuic_proxy, tuic_open_tcp, live_conn. by rewrite Hc, Ht, Hb, Hw. }
  split; [|split]; cbn; intros.
  - by apply Ho.
  - by apply Ho.
  - unfold up_send_udp, tuic_datagram. by destruct (send_udp _ _ _ _ _).
Qed.

Lemma spawned_serves_inline {U : Type} `{!ProxyUpstream U, !DatagramUpstream U} :
  up_open_is_cheap U = false → serves_inline (λ _ : U, True).
Proof. intros Hc. split; [by rewrite Hc|done]. Qed.

(** ** Instrumenting a stack

    Every stack whose sockets have an endpoint when they receive can keep the log. *)
Definition logged (TS : Smoltcp) : Smoltcp := {|
  TcpSocket := @TcpSocket TS * list byte;
  tcp_new := (tcp_new, []);
  tcp_listen s port := (λ k, (k, [])) <$> tcp_listen s.1 port;
  tcp_abort s := (tcp_abort s.1, s.2);
  tcp_state s := tcp_state s.1;
  is_active s := is_active s.1;
  can_send s := can_send s.1;
  can_recv s := can_recv s.1;
  send_slice s l := (λ '(n, k), (n, (k, s.2))) <$> send_slice s.1 l;
  recv_all s := (λ '(data, k), (data, (k, s.2 ++ data))) <$> recv_all s.1;
  local_endpoint s := local_endpoint s.1
|}.

Lemma logged_ok (TS : Smoltcp) :
  (∀ s data s', @can_recv TS s = true → recv_all s = Some (data, s') → is_Some (local_endpoint s')) →
  LoggedStack (logged TS).
Proof.
  intros Hep. apply (Build_LoggedStack (logged TS) snd); cbn.
  - intros port s H. by destruct (tcp_listen _ _); simplify_eq/=.
  - intros s port s' H. by destruct (tcp_listen _ _); simplify_eq/=.
  - intros s l n s' H. destruct (send_slice _ _) as [[]|]; by simplify_eq/=.
  - intros s data s' H. destruct (recv_all _) as [[]|]; by simplify_eq/=.
  - intros s data s' Hc H. destruct (recv_all _) as [[]|] eqn:E; simplify_eq/=. eauto.
Defined.

(** ** A run

    Two bytes are received while no stream is open; the handshake ends, a third byte is received, and
    the relay writes the first two. *)

(** The concrete stack, in which only a connected socket (one with an endpoint) has data to receive. *)
Definition connected_stack : Smoltcp := {|
  TcpSocket := demo_sock; tcp_new := @tcp_new demo_stack; tcp_listen := @tcp_listen demo_stack;
  tcp_abort := @tcp_abort demo_stack; tcp_state := @tcp_state demo_stack; is_active := @is_active demo_stack;
  can_send := @can_send demo_stack;
  can_recv s := @can_recv demo_stack s && bool_decide (is_Some (dk_ep s));
  send_slice := @send_slice demo_stack; recv_all := @recv_all demo_stack;
  local_endpoint := @local_endpoint demo_stack
|}.

Lemma connected_endpoint s data s' :
  @can_recv connected_stack s = true → @recv_all connected_stack s = Some (data, s') →
  is_Some (@local_endpoint connected_stack s').
Proof.
  cbn. intros [_ H]%andb_true_iff. apply bool_decide_eq_true_1 in H. destruct (demo_open s); [|done]. by intros [= _ <-].
Qed.

Definition up_stack : Smoltcp := logged connected_stack.
#[local] Instance up_logged : LoggedStack up_stack := logged_ok connected_stack connected_endpoint.

Definition up_env (f : nat → demo_sock → demo_sock) : @poll_env up_stack :=
  @mk_poll_env up_stack (λ h s, (f h s.1, s.2)) [] [] (λ l, l).
Definition up_quiet : @poll_env up_stack := up_env (λ _ s, s).
Definition up_accepts (data : list byte) : @poll_env up_stack :=
  up_env (λ h s, if bool_decide (h = 0%nat)
                 then mk_demo_sock TsEstablished data 65535 [] (Some (V4 demo_fake 443)) else s).
Definition up_start : @Loop up_stack demo_up _ := loop_init 2 1500 (mk_demo_up 3 []).
Definition up_events : list (@loop_event up_stack) :=
  [EvRx (Some demo_query) up_quiet 1; EvRx (Some (demo_syn 443)) (up_accepts [x16; x03]) 2; EvTask 0%nat; EvDone 3;
   EvRx (Some (demo_syn 443)) (up_accepts [x05]) 3; EvRelay 0%nat (RelayLocal true)].
Definition up_run (n : nat) : @Loop up_stack demo_up _ := (loop_run false (take n up_events) up_start).1.

Lemma up_order f : order_ok (up_env f).
Proof. by intros l. Qed.
Lemma up_log f : log_kept (L:=up_logged) (up_env f).
Proof. by intros h s. Qed.

Ltac up_rx :=
  split_and!; [apply up_order|apply up_log|];
  intros dev buf h Hb Hc; vm_compute in Hb; injection Hb as <-;
  first [vm_compute in Hc; discriminate Hc | apply fits_all_sound; vm_compute; reflexivity].

Lemma up_next n e s :
  uplink_reachable (L:=up_logged) false (λ _, True) (up_run n) → uplink_ok (L:=up_logged) false (up_run n) e →
  loop_step false e (up_run n) = (s, Ok tt) → uplink_reachable (L:=up_logged) false (λ _, True) s.
Proof. apply ur_step. Qed.

(** The relay of the connection has just been started. *)
Lemma up_run_started : uplink_reachable (L:=up_logged) false (λ _, True) (up_run 4).
Proof.
  assert (uplink_reachable (L:=up_logged) false (λ _, True) (up_run 0)) as H by (by apply ur_init).
  eapply (up_next 0%nat (EvRx (Some demo_query) up_quiet 1) (up_run 1)) in H; [|up_rx|vm_compute; reflexivity].
  eapply (up_next 1%nat (EvRx (Some (demo_syn 443)) (up_accepts [x16; x03]) 2) (up_run 2)) in H; [|up_rx|vm_compute; reflexivity].
  eapply (up_next 2%nat (EvTask 0%nat) (up_run 3)) in H; [|exact Logic.I|vm_compute; reflexivity].
  eapply (up_next 3%nat (EvDone 3) (up_run 4)) in H; [exact H|exact Logic.I|vm_compute; reflexivity].
Qed.

Lemma up_run_second : uplink_ok (L:=up_logged) false (up_run 4) (EvRx (Some (demo_syn 443)) (up_accepts [x05]) 3).
Proof. up_rx. Qed.

Lemma up_run_reachable : uplink_reachable (L:=up_logged) false (λ _, True) (up_run 6).
Proof.
  pose proof up_run_started as H.
  eapply (up_next 4%nat (EvRx (Some (demo_syn 443)) (up_accepts [x05]) 3) (up_run 5)) in H; [|apply up_run_second|vm_compute; reflexivity].
  eapply (up_next 5%nat (EvRelay 0%nat (RelayLocal true)) (up_run 6)) in H; [exact H|exact Logic.I|vm_compute; reflexivity].
Qed.


(** ** Why inline opens must not fail

    An upstream that opens inline and fails the first time: the bytes taken from the socket for the
    failed open are gone, the slot stays in use, and the stream of the next open starts after them. *)

Record flaky_up := mk_flaky_up { fl_fails : nat }.
#[local] Instance flaky_proxy : ProxyUpstream flaky_up := {|
  RelayStream := unit;
  up_open_tcp u _ := match fl_fails u with O => (u, Ok tt) | S n => (mk_flaky_up n, Err (Io tuic_io)) end;
  up_open_is_cheap := true;
  up_failover_leg _ := NO_FAILOVER
|}.
#[local] Instance flaky_datagram : DatagramUpstream flaky_up := {|
  up_send_udp u _ := u; up_drops _ := 0; up_stream_fallbacks _ := 0
|}.

Definition flaky_events : list (@loop_event up_stack) :=
  [EvRx (Some demo_query) up_quiet 1; EvRx (Some (demo_syn 443)) (up_accepts [x16; x03]) 2;
   EvRx (Some (demo_syn 443)) (up_accepts [x05]) 3; EvRelay 0%nat (RelayLocal true)].

(** Two bytes and then a third were received; the stream carries the third alone. *)
Lemma inline_open_failure_loses_bytes :
  let s := (loop_run false flaky_events (loop_init 2 1500 (mk_flaky_up 1))).1 in
  taken (LoggedStack:=up_logged) <$> (lp_sockets s !! 0%nat) = Some [x16; x03; x05] ∧
  cx_state <$> (lp_ctxs s !! 0%nat) = Some Relaying ∧
  (λ r, (ry_written r, ry_queue r)) <$> (lp_relays s !! 0%nat) = Some ([x05], []).
Proof. vm_compute. by split_and!. Qed.
