(* ===== verification/TunDownlink.v ===== *)
(** * TunDownlink: every byte of the server reaches the socket of its connection, in order

    The TCP stack is extended with a log: [given sock] is what was handed to the socket since it last
    started to listen.  Beside the state of the loop a history is kept: what each relay task sent to the
    loop, and whether the slot was quiet when the relay started.  The invariant says where the bytes of a
    relay are: handed to the socket, in the slot's backlog, or in the loop's queue. *)

From S2P Require Import Prelude Shared Text Dns FakeIp TuicCodec Frag Assoc Metrics UdpRelay Device TunSlot Upstream ClientTun TunInv TunStep TunProps.

Class DeliveryLog (TS : Smoltcp) := {
  given : TcpSocket → list byte;
  given_new : ∀ port s, tcp_listen tcp_new port = Some s → given s = [];
  given_abort : ∀ s port s', tcp_listen (tcp_abort s) port = Some s' → given s' = [];
  given_send : ∀ s l n s', send_slice s l = Some (n, s') → given s' = given s ++ ztake n l;
  given_recv : ∀ s data s', recv_all s = Some (data, s') → given s' = given s;
  (** a socket that can send does not refuse a slice *)
  send_accepted : ∀ s l, can_send s = true → is_Some (send_slice s l)
}.

#[global] Instance relay_phase_eq_dec : EqDecision relay_phase.
Proof. solve_decision. Defined.

(** The messages under a key, in order. *)
Definition under {K} `{EqDecision K} (k : K) (l : list (K * list byte)) : list (list byte) :=
  snd <$> filter (λ m, m.1 = k) l.

Lemma under_app {K} `{EqDecision K} (k : K) l l' : under k (l ++ l') = under k l ++ under k l'.
Proof. unfold under. by rewrite filter_app, fmap_app. Qed.
Lemma under_one {K} `{EqDecision K} (k : K) m : under k [(k, m)] = [m].
Proof. unfold under. by rewrite filter_cons_True. Qed.
Lemma under_other {K} `{EqDecision K} (k k' : K) m : k' ≠ k → under k [(k', m)] = [].
Proof. intros H. unfold under. by rewrite filter_cons_False. Qed.

Section downlink.
Context {TS : Smoltcp} {D : DeliveryLog TS} {P : EtherParse} {U : Type} `{!ProxyUpstream U, !DatagramUpstream U}.
Abbreviation Loop := (@Loop TS U _).
Abbreviation Relay := (@Relay U _).
Variable macos : bool.

(** ** The history of a run *)

(** The slot [h] is quiet: no relay of it runs and no message for it waits. *)
Definition quiet_slot (s : Loop) (h : nat) : bool :=
  forallb (λ r, negb (bool_decide (ry_handle r = h ∧ ry_phase r = RelayRunning))) (lp_relays s) &&
  forallb (λ m, negb (bool_decide (m.1 = h))) (lp_global s).

(** What an event makes a relay task send to the loop. *)
Definition relay_sends (e : @loop_event TS) (s : Loop) : list (nat * list byte) :=
  match e with
  | EvRelay i (RelayRemote (Some data) _) =>
      match lp_relays s !! i with
      | Some r => if bool_decide (ry_phase r = RelayRunning) && bool_decide (len (lp_global s) < RELAY_CHANNEL_CAPACITY)
                  then [(i, ztake RELAY_BUF data)] else []
      | None => []
      end
  | _ => []
  end.

Record history := mk_history {
  hy_sent : list (nat * list byte);  (** what the relays sent, by relay *)
  hy_quiet : list bool               (** whether the slot of each relay was quiet when it started *)
}.

Definition history_step (e : @loop_event TS) (s : Loop) (y : history) : history :=
  mk_history (hy_sent y ++ relay_sends e s)
    (hy_quiet y ++ (quiet_slot s ∘ ry_handle <$> drop (length (lp_relays s)) (lp_relays (loop_step macos e s).1))).

(** ** The invariant *)

(** [clean i h]: relay [i] started when slot [h] was quiet; [sent i]: the bytes it sent to the loop. *)
Section invariant.
Variables (sent : nat → list byte) (clean : nat → nat → Prop).

Definition down_slot (relays : list Relay) (q : list (nat * list byte)) (h : nat) (c : SocketCtx) (sock : TcpSocket) : Prop :=
  match cx_uplink_tx c with
  | None => given sock = [] ∧ cx_downlink_pending c = []
  | Some i => cx_state c ≠ HandshakePending ∧ ∃ r, relays !! i = Some r ∧ ry_handle r = h ∧
      (clean i h →
       given sock ++ cx_downlink_pending c ++ concat (under h q) = sent i ∧
       ∀ j r', relays !! j = Some r' → ry_handle r' = h → ry_phase r' = RelayRunning → j = i)
  end.

Definition down_at (h : nat) (s : Loop) : Prop :=
  ∀ c sock, lp_ctxs s !! h = Some c → lp_sockets s !! h = Some sock → down_slot (lp_relays s) (lp_global s) h c sock.

Definition down_slots (relays : list Relay) (q : list (nat * list byte)) (sl : slots) : Prop :=
  ∀ h c sock, sl.2 !! h = Some c → sl.1 !! h = Some sock → down_slot relays q h c sock.

Definition down_all (s : Loop) : Prop := down_slots (lp_relays s) (lp_global s) (lp_sockets s, lp_ctxs s).

(** ** Frames *)

(** Between [s0] and [s] only slot [h] and its relays changed; the queue of the loop did not. *)
Record only_slot (h : nat) (s0 s : Loop) : Prop := {
  os_ctxs : ∀ h', h' ≠ h → lp_ctxs s !! h' = lp_ctxs s0 !! h';
  os_socks : ∀ h', h' ≠ h → lp_sockets s !! h' = lp_sockets s0 !! h';
  os_relays : ∀ i r, ry_handle r ≠ h → lp_relays s !! i = Some r ↔ lp_relays s0 !! i = Some r;
  os_length : (length (lp_relays s0) ≤ length (lp_relays s))%nat;
  os_global : lp_global s = lp_global s0
}.

Lemma only_slot_refl h s : only_slot h s s.
Proof. by split. Qed.

Lemma down_frame h s0 s : (∀ h', h' ≠ h → down_at h' s0) → only_slot h s0 s → down_at h s → down_all s.
Proof.
  intros H0 [Fc Fs Fr _ Fg] Hh h' c sock Hc Hs. cbn in Hc, Hs. destruct (decide (h' = h)) as [->|Hne]; [by apply Hh|].
  rewrite Fc in Hc by done. rewrite Fs in Hs by done. specialize (H0 h' Hne c sock Hc Hs). unfold down_slot in *.
  destruct (cx_uplink_tx c) as [i|]; [|done]. destruct H0 as (Hst & r & Hr & Hrh & Hcl). split; [done|]. exists r.
  split; [by apply Fr; [congruence|]|]. split; [done|]. intros Hi. destruct (Hcl Hi) as [Hb Ho]. rewrite Fg. split; [done|].
  intros j r' Hj Hrh' Hp. eapply Ho; [apply Fr in Hj; [exact Hj|congruence]|done..].
Qed.

Section frame.
Variables (h : nat) (s0 : Loop).

Ltac upd :=
  intros;
  match goal with H : only_slot _ _ _ |- _ => destruct H end;
  split; cbn; intros;
  rewrite ?lookup_insert_ne, ?lookup_alter_ne, ?list_lookup_insert_ne by done;
  eauto.

Lemma only_put_sock sock : keeps (only_slot h s0) (put_sock h sock).
Proof. apply keeps_mupd. upd. Qed.
Lemma only_put_ctx c : keeps (only_slot h s0) (put_ctx h c).
Proof. apply keeps_mupd. upd. Qed.
Lemma only_get_sock : keeps (only_slot h s0) (get_sock h).
Proof. unfold get_sock. walk upd. Qed.
Lemma only_get_ctx : keeps (only_slot h s0) (get_ctx h).
Proof. unfold get_ctx, mret. walk upd. Qed.
Lemma only_mret {B} (a : B) : keeps (only_slot h s0) (mret a).
Proof. apply keeps_mlift. Qed.

(** A relay of the slot is added. *)
Lemma only_spawn st q : keeps (only_slot h s0) (spawn_remote_relay h st q).
Proof.
  apply keeps_mupd. intros s [Fc Fs Fr Fl Fg]. split; cbn; [done..| | |done].
  - intros i r Hr. rewrite <-Fr by done. rewrite lookup_app_Some. split; [|by left].
    intros [?|[_ Hi]]; [done|]. apply list_lookup_singleton_Some in Hi as [_ <-]. done.
  - rewrite length_app. lia.
Qed.
#[local] Hint Resolve only_put_sock only_put_ctx only_get_sock only_get_ctx only_mret only_spawn : keeps.
Ltac go := walk upd.

Lemma only_rearm now : keeps (only_slot h s0) (rearm_slot h now).
Proof. unfold rearm_slot. go. Qed.
Lemma only_acquire f now : keeps (only_slot h s0) (acquire_fake h f now).
Proof. unfold acquire_fake. go. Qed.
#[local] Hint Resolve only_rearm only_acquire : keeps.
Lemma only_open_inline p t f c now : keeps (only_slot h s0) (open_inline h p t f c now).
Proof. unfold open_inline. go. Qed.
Lemma only_open_spawned p t f c now : keeps (only_slot h s0) (open_spawned h p t f c now).
Proof. unfold open_spawned. go. Qed.
#[local] Hint Resolve only_open_inline only_open_spawned : keeps.
Lemma only_handle_local_payload p t f now : keeps (only_slot h s0) (handle_local_payload h p t f now).
Proof. unfold handle_local_payload. go. Qed.
#[local] Hint Resolve only_handle_local_payload : keeps.
Lemma only_forward_first now : keeps (only_slot h s0) (forward_first h now).
Proof. unfold forward_first. go. Qed.
Lemma only_advance : keeps (only_slot h s0) (advance_downlink h).
Proof. unfold advance_downlink. go. Qed.
Lemma only_handshake_done done now : hd_handle done = h → keeps (only_slot h s0) (handle_handshake_done done now).
Proof. intros Hd. unfold handle_handshake_done. rewrite Hd. cbn zeta. go. Qed.

(** The relay pushed to is the slot's own. *)
Lemma only_push tx payload s r :
  only_slot h s0 s → lp_relays s !! tx = Some r → ry_handle r = h → only_slot h s0 (push_uplink tx payload s).1.
Proof.
  intros [Fc Fs Fr Fl Fg] Hr Hh. split; cbn; [done..| | |done]; [|by rewrite length_alter].
  intros i r0 Hne. rewrite <-Fr by done. destruct (decide (i = tx)) as [->|Hit]; [|by rewrite list_lookup_alter_ne].
  rewrite list_lookup_alter_eq, Hr. split; intros Heq; simplify_eq/=; done.
Qed.

End frame.

(** ** One slot *)

(** Handing bytes to the socket moves them from the backlog to the log. *)
Lemma flush_moves sock c :
  given (flush_downlink sock c).1 ++ cx_downlink_pending (flush_downlink sock c).2 = given sock ++ cx_downlink_pending c.
Proof.
  unfold flush_downlink. case_bool_decide; [done|]. destruct (can_send sock) eqn:Hcs; [|done].
  destruct (send_accepted sock (cx_downlink_pending c) Hcs) as [[n sock'] Es]. rewrite Es.
  pose proof (given_send _ _ _ _ Es) as Hg. case_bool_decide as Hn; cbn; rewrite Hg.
  - subst n. by rewrite app_nil_r.
  - by rewrite <-app_assoc, ztake_zdrop.
Qed.

Lemma flush_kept sock c :
  cx_uplink_tx (flush_downlink sock c).2 = cx_uplink_tx c ∧ cx_state (flush_downlink sock c).2 = cx_state c.
Proof. destruct (flush_downlink_shape sock c) as (p & d & -> & _). done. Qed.

(** The slot with the same bytes in other places. *)
Lemma down_slot_moved relays q h c sock c' sock' :
  cx_uplink_tx c' = cx_uplink_tx c → cx_state c' = cx_state c ∨ cx_state c' = Relaying →
  given sock' ++ cx_downlink_pending c' = given sock ++ cx_downlink_pending c →
  down_slot relays q h c sock → down_slot relays q h c' sock'.
Proof.
  unfold down_slot. intros -> Hst E H. destruct (cx_uplink_tx c) as [i|].
  - rewrite app_assoc, E, <-app_assoc. destruct H as [Hs H]. split; [by destruct Hst as [-> | ->]|exact H].
  - destruct H as [Hg Hp]. rewrite Hg, Hp in E. by apply app_eq_nil in E.
Qed.

Lemma flush_down relays q h sock c :
  down_slot relays q h c sock → down_slot relays q h (flush_downlink sock c).2 (flush_downlink sock c).1.
Proof. apply down_slot_moved; [apply flush_kept|left; apply flush_kept|apply flush_moves]. Qed.

(** The slot while its relays go on: no relay changes its slot or runs again. *)
Lemma down_slot_relays relays relays' q h c sock :
  (∀ i r, relays !! i = Some r → ry_handle r = h → ∃ r', relays' !! i = Some r' ∧ ry_handle r' = h) →
  (∀ i r', relays' !! i = Some r' → ry_handle r' = h → ry_phase r' = RelayRunning →
     ∃ r, relays !! i = Some r ∧ ry_handle r = h ∧ ry_phase r = RelayRunning) →
  down_slot relays q h c sock → down_slot relays' q h c sock.
Proof.
  unfold down_slot. intros Hf Hb H. destruct (cx_uplink_tx c) as [i|]; [|done]. destruct H as (Hst & r & Hr & Hh & Hc).
  destruct (Hf i r Hr Hh) as (r' & Hr' & Hh'). split; [done|]. exists r'. split; [done|]. split; [done|]. intros Hi.
  destruct (Hc Hi) as [He Ho]. split; [done|]. intros j rj Hj Hhj Hp. destruct (Hb j rj Hj Hhj Hp) as (r0 & H0 & Hh0 & Hp0). by eapply Ho.
Qed.

Lemma rearm_socket_down {E} sock c pool now sock' c' pool' relays q h :
  rearm_socket_with_reason (E:=E) sock c pool now = Ok (sock', c', pool') → down_slot relays q h c' sock'.
Proof.
  unfold rearm_socket_with_reason, rearm_socket. cbn. intros H.
  destruct (cx_fake_ip c); inv_res; simplify_eq; cbn; (split; [by eapply given_abort|done]).
Qed.

(** The slot after its context and socket are written. *)
Lemma down_at_written h s c sock :
  lp_ctxs s !! h = Some c → lp_sockets s !! h = Some sock → down_slot (lp_relays s) (lp_global s) h c sock → down_at h s.
Proof. intros Hc Hs Hu c0 sock0 Hc0 Hs0. by simplify_eq. Qed.

Lemma rearm_down h now s s' r : rearm_slot h now s = (s', r) → r ≠ Panic → down_at h s'.
Proof.
  unfold rearm_slot. mrun. destruct (lp_sockets s !! h) as [sock|] eqn:Hs; cbn; [|by intros [= <- <-]].
  destruct (lp_ctxs s !! h) as [c|] eqn:Hc; cbn.
  2:{ intros [= <- <-] _ c0 sock0 Hc0. by rewrite Hc in Hc0. }
  destruct (rearm_socket_with_reason sock c (lp_pool s) now) as [[[sock1 c1] pool1]|e|] eqn:Er; cbn;
    [| |by intros [= <- <-]].
  - intros [= <- <-] _. pose proof (lookup_lt_Some _ _ _ Hs).
    eapply down_at_written; cbn; [by rewrite lookup_insert_eq|by apply list_lookup_insert_eq|by eapply rearm_socket_down].
  - exfalso. unfold rearm_socket_with_reason, rearm_socket in Er. cbn in Er. destruct (cx_fake_ip c), (tcp_listen _ _); done.
Qed.

Lemma advance_down h s s' r :
  advance_downlink h s = (s', r) → down_at h s → down_at h s' ∧ lp_relays s' = lp_relays s ∧
  (r = Ok tt → is_Some (lp_sockets s' !! h)).
Proof.
  unfold advance_downlink. mrun. intros H Hu.
  destruct (lp_sockets s !! h) as [sock|] eqn:Hs; cbn in H; [|by simplify_eq].
  destruct (lp_ctxs s !! h) as [c|] eqn:Hc; cbn in H; [|simplify_eq; eauto].
  pose proof (flush_down _ _ _ _ _ (Hu c sock Hc Hs)) as Hu'. pose proof (lookup_lt_Some _ _ _ Hs).
  destruct (flush_downlink sock c) as [sock1 c1]. cbn in Hu'. injection H as <- <-. split_and!; [|done|].
  - eapply down_at_written; cbn; [by rewrite lookup_insert_eq|by apply list_lookup_insert_eq|done].
  - intros _. cbn. rewrite list_lookup_insert_eq by done. eauto.
Qed.

Lemma extract_given {E} sock p sock' : extract_socket_payload (E:=E) sock = Ok (p, sock') → given sock' = given sock.
Proof.
  unfold extract_socket_payload. destruct (can_recv sock); intros H; [|by simplify_eq].
  destruct (recv_all sock) as [[data s']|] eqn:Er; cbn in H; [|done]. simplify_eq. by eapply given_recv.
Qed.

(** A message to the slot's relay changes neither its slot nor its phase. *)
Lemma push_down h tx payload relays q c sock :
  down_slot relays q h c sock →
  down_slot (alter (λ r, mk_Relay (ry_handle r) (ry_stream r) (ry_queue r ++ [payload]) (ry_written r) (ry_phase r) (ry_diag r)) tx relays)
    q h c sock.
Proof.
  apply down_slot_relays.
  - intros i r Hr Hh. destruct (decide (i = tx)) as [->|Hne].
    + rewrite list_lookup_alter_eq, Hr. cbn. eauto.
    + rewrite list_lookup_alter_ne by done. eauto.
  - intros i r' Hr' Hh Hp. destruct (decide (i = tx)) as [->|Hne].
    + rewrite list_lookup_alter_eq in Hr'. destruct (relays !! tx) as [r|] eqn:Hr; simplify_eq/=. eauto.
    + rewrite list_lookup_alter_ne in Hr' by done. eauto.
Qed.

Lemma forward_established_down h tx c now s s' r :
  forward_established h tx c now s = (s', r) → r ≠ Panic →
  lp_ctxs s !! h = Some c → cx_uplink_tx c = Some tx → is_Some (lp_sockets s !! h) → down_at h s →
  down_at h s' ∧ only_slot h s s'.
Proof.
  intros H Hnp Hc Htx [sock Hs] Hu. unfold forward_established in H. rewrite (mthen_step _ _ _ s s) in H by done.
  destruct (try_reserve s tx); [|unfold mret, mlift in H; simplify_eq; split; [done|apply only_slot_refl]|].
  2:{ split; [by eapply rearm_down|]. pose proof (only_rearm h s now s (only_slot_refl h s)) as Hf. by rewrite H in Hf. }
  specialize (Hu c sock Hc Hs). pose proof (lookup_lt_Some _ _ _ Hs) as Hlt.
  rewrite (mthen_step _ _ _ s sock) in H by (mrun; by rewrite Hs).
  destruct (extract_socket_payload (E:=ClientError) sock) as [[p sock1]|e|] eqn:Ee.
  2:{ unfold mthen at 1, mlift in H. simplify_eq. split; [by eapply down_at_written|apply only_slot_refl]. }
  2:{ unfold mthen at 1, mlift in H. by simplify_eq. }
  rewrite (mthen_step _ _ _ s (p, sock1)) in H by done.
  set (s1 := set_sockets (<[h := sock1]> (lp_sockets s)) s) in H. rewrite (mthen_step _ _ _ s1 tt) in H by done.
  apply extract_given in Ee. pose proof (only_put_sock h s sock1 s (only_slot_refl h s)) as Hf1. cbn in Hf1. fold s1 in Hf1.
  assert (down_slot (lp_relays s1) (lp_global s1) h c sock1) as Hu1 by (eapply down_slot_moved; [done|by left| |exact Hu]; by rewrite Ee).
  assert (lp_sockets s1 !! h = Some sock1) as Hs1 by (by apply list_lookup_insert_eq).
  destruct p as [payload|].
  - unfold down_slot in Hu. rewrite Htx in Hu. destruct Hu as (_ & r0 & Hr0 & Hh & _).
    pose proof (only_push h s tx payload s1 r0 Hf1 Hr0 Hh) as Hf2. erewrite (mthen_step _ _ s1) in H by done.
    unfold put_ctx, mupd in H. injection H as <- <-. split.
    + eapply down_at_written; cbn; [by rewrite lookup_insert_eq|done|]. apply push_down. eapply down_slot_moved; [| | |exact Hu1]; eauto.
    + exact (only_put_ctx h s (set_state Relaying c) _ Hf2).
  - unfold mret, mlift in H. simplify_eq. split; [|done]. by eapply down_at_written.
Qed.

(** A relay that starts now for slot [h] has sent nothing, and it is clean only if the slot is quiet. *)
Definition may_start (h : nat) (s : Loop) : Prop :=
  ∀ i, (length (lp_relays s) ≤ i)%nat → sent i = [] ∧ (clean i h → quiet_slot s h = true).

Lemma quiet_slot_spec s h :
  quiet_slot s h = true ↔
  (∀ j r, lp_relays s !! j = Some r → ry_handle r = h → ry_phase r ≠ RelayRunning) ∧ (∀ m, m ∈ lp_global s → m.1 ≠ h).
Proof.
  unfold quiet_slot. rewrite andb_true_iff, !forallb_forall. split; intros [Hr Hm]; (split; [|intros m Hin]).
  - intros j r Hj Hh Hp. apply list_elem_of_lookup_2, list_elem_of_In, Hr in Hj.
    apply negb_true_iff, bool_decide_eq_false_1 in Hj. by apply Hj.
  - apply list_elem_of_In, Hm, negb_true_iff, bool_decide_eq_false_1 in Hin. done.
  - intros r Hin%list_elem_of_In. apply list_elem_of_lookup_1 in Hin as [j Hj]. apply negb_true_iff, bool_decide_eq_false_2.
    intros [? ?]. by eapply Hr.
  - apply list_elem_of_In in Hin. apply negb_true_iff, bool_decide_eq_false_2. by apply Hm.
Qed.

Lemma under_none {K} `{EqDecision K} (k : K) l : (∀ m, m ∈ l → m.1 ≠ k) → under k l = [].
Proof.
  induction l as [|m l IH]; intros H; [done|]. unfold under in *. rewrite filter_cons_False by (apply H; by left).
  apply IH. intros. apply H. by right.
Qed.

(** A relay starts. *)
Lemma start_down h s c sock r :
  may_start h s → ry_handle r = h → cx_uplink_tx c = Some (length (lp_relays s)) → cx_state c ≠ HandshakePending →
  given sock = [] → cx_downlink_pending c = [] →
  down_slot (lp_relays s ++ [r]) (lp_global s) h c sock.
Proof.
  intros Hm Hh Htx Hst Hg Hp. unfold down_slot. rewrite Htx. split; [done|]. exists r. split; [by apply list_lookup_middle|]. split; [done|].
  intros Hc. destruct (Hm (length (lp_relays s)) (Nat.le_refl _)) as [Hsent Hq]. apply Hq, quiet_slot_spec in Hc as [Hr Hg'].
  rewrite Hg, Hp, Hsent, under_none by done. split; [done|]. intros j r' Hj Hh' Hrun.
  apply lookup_app_Some in Hj as [Hj|[Hge Hj]]; [by edestruct Hr|]. apply list_lookup_singleton_Some in Hj as [Hj _]. lia.
Qed.

Lemma no_relay_down relays q h c sock :
  cx_uplink_tx c = None → given sock = [] → cx_downlink_pending c = [] → down_slot relays q h c sock.
Proof. intros Htx ? ?. unfold down_slot. by rewrite Htx. Qed.

Lemma give_fake_down f c :
  cx_uplink_tx (give_fake f c) = cx_uplink_tx c ∧ cx_downlink_pending (give_fake f c) = cx_downlink_pending c ∧
  cx_state (give_fake f c) = cx_state c.
Proof. by destruct f. Qed.

Lemma open_inline_down h payload t f c now s s' r sock :
  open_inline h payload t f c now s = (s', r) → r ≠ Panic → may_start h s →
  lp_sockets s !! h = Some sock → cx_uplink_tx c = None → given sock = [] → cx_downlink_pending c = [] → down_at h s'.
Proof.
  unfold open_inline. mrun. intros H Hnp Hms Hs Htx Hg Hp.
  destruct (up_open_tcp (lp_up s) t) as [up [stream|e|]]; [| |by simplify_eq].
  2:{ injection H as <- <-. eapply down_at_written; cbn; [by rewrite lookup_insert_eq|done|by apply no_relay_down]. }
  rewrite try_send_fresh in H. cbn in H. set (c2 := set_state Relaying _) in H.
  match type of H with context [acquire_fake h f now ?s2] => set (s2' := s2) in H end.
  destruct (acquire_fake_run h f now s2' c2) as (s3 & E3 & Hs3); [by apply lookup_insert_eq|].
  unfold mthen in H. rewrite E3 in H. subst s3. unfold spawn_remote_relay, mupd in H. injection H as <- <-.
  destruct (give_fake_down f c2) as (G1 & G2 & G3).
  eapply down_at_written; cbn; [by rewrite lookup_insert_eq|done|]. by apply (start_down h s); rewrite ?G1, ?G2, ?G3.
Qed.

Lemma open_spawned_down h payload t f c now s s' r sock :
  open_spawned h payload t f c now s = (s', r) → lp_sockets s !! h = Some sock →
  cx_uplink_tx c = None → given sock = [] → cx_downlink_pending c = [] → down_at h s'.
Proof.
  unfold open_spawned. mrun. intros H Hs Htx Hg Hp. set (c2 := set_epoch _ _) in H.
  match type of H with context [acquire_fake h f now ?s2] => set (s2' := s2) in H end.
  destruct (acquire_fake_run h f now s2' c2) as (s3 & E3 & Hs3); [by apply lookup_insert_eq|].
  unfold mthen in H. rewrite E3 in H. subst s3. cbn in H. injection H as <- <-. destruct (give_fake_down f c2) as (G1 & G2 & _).
  eapply down_at_written; cbn; [by rewrite lookup_alter_eq, lookup_insert_eq|done|].
  destruct (buffer_uplink_fields payload (give_fake f c2)) as (_ & _ & F3 & _ & _ & F6).
  apply no_relay_down; [by rewrite F3, G1|done|by rewrite F6, G2].
Qed.

Lemma handle_local_payload_down h payload t f now s s' r sock :
  handle_local_payload h payload t f now s = (s', r) → r ≠ Panic → may_start h s →
  lp_sockets s !! h = Some sock → given sock = [] →
  (∀ c, lp_ctxs s !! h = Some c → cx_uplink_tx c = None ∧ cx_downlink_pending c = []) → down_at h s'.
Proof.
  unfold handle_local_payload. intros H Hnp Hms Hs Hg Hc. rewrite (mthen_step _ _ _ s (lp_ctxs s !! h)) in H by done.
  destruct (lp_ctxs s !! h) as [c|] eqn:Ec.
  2:{ unfold mret, mlift in H. simplify_eq. intros c0 sk Hc0. by rewrite Ec in Hc0. }
  destruct (Hc c eq_refl) as [Htx Hp]. case_bool_decide.
  - unfold put_ctx, mupd in H. injection H as <- <-. destruct (buffer_uplink_fields payload c) as (_ & _ & F3 & _ & _ & F6).
    eapply down_at_written; cbn; [by rewrite lookup_insert_eq|done|]. apply no_relay_down; congruence.
  - destruct t as [t|].
    + destruct (up_open_is_cheap U); [by eapply open_inline_down|by eapply open_spawned_down].
    + unfold mret, mlift in H. simplify_eq. eapply down_at_written; [done..|]. by apply no_relay_down.
Qed.

Lemma forward_first_down h now s s' r :
  forward_first h now s = (s', r) → r ≠ Panic → may_start h s → down_at h s →
  (∀ c, lp_ctxs s !! h = Some c → cx_uplink_tx c = None) → down_at h s'.
Proof.
  intros H Hnp Hms Hu Hn. unfold forward_first in H.
  destruct (lp_sockets s !! h) as [sock|] eqn:Hs; [|revert H; mrun; rewrite Hs; cbn; by intros [= <- <-]].
  rewrite (mthen_step _ _ _ s sock) in H by (mrun; by rewrite Hs). pose proof (lookup_lt_Some _ _ _ Hs) as Hlt.
  destruct (extract_socket_payload (E:=ClientError) sock) as [[p sock1]|e|] eqn:Ee;
    [|unfold mthen at 1, mlift in H; by simplify_eq..].
  rewrite (mthen_step _ _ _ s (p, sock1)) in H by done. apply extract_given in Ee.
  set (s1 := set_sockets (<[h := sock1]> (lp_sockets s)) s) in H. rewrite (mthen_step _ _ _ s1 tt) in H by done.
  assert (lp_sockets s1 !! h = Some sock1) as Hs1 by (by apply list_lookup_insert_eq).
  assert (down_at h s1) as Hu1.
  { intros c sk Hc Hsk. rewrite Hs1 in Hsk. simplify_eq. eapply down_slot_moved; [done|by left|by rewrite Ee|by apply (Hu c sock)]. }
  destruct p as [data|]; [|unfold mret, mlift in H; by simplify_eq].
  destruct (local_endpoint sock1) as [ep|]; [|unfold mret, mlift in H; by simplify_eq].
  rewrite (mthen_step _ _ _ s1 s1) in H by done.
  destruct (resolve_target ep (lp_pool s1)); [|by eapply rearm_down..].
  assert (∀ c, lp_ctxs s1 !! h = Some c → given sock1 = [] ∧ cx_downlink_pending c = []) as Hempty.
  { intros c Hc. specialize (Hu1 c sock1 Hc Hs1). unfold down_slot in Hu1. by rewrite (Hn c Hc) in Hu1. }
  destruct (lp_ctxs s1 !! h) as [c|] eqn:Hc1.
  - eapply handle_local_payload_down; try done; [by eapply Hempty|]. intros c0 Hc0. split; [by apply Hn|].
    apply Hempty. congruence.
  - unfold handle_local_payload in H. rewrite (mthen_step _ _ _ s1 None) in H by (mrun; cbn in Hc1; by rewrite Hc1).
    unfold mret, mlift in H. by simplify_eq.
Qed.

Lemma process_listener_down h now s s' r :
  process_listener_activity h now s = (s', r) → r ≠ Panic → may_start h s → down_at h s → down_at h s' ∧ only_slot h s s'.
Proof.
  intros H Hnp Hms Hu. unfold process_listener_activity in H.
  pose proof (only_advance h s s (only_slot_refl h s)) as Hf. destruct (advance_downlink h s) as [s1 r1] eqn:Ea. cbn in Hf.
  destruct (advance_down _ _ _ _ Ea Hu) as (Hu1 & Hrel & Hsk). unfold mthen at 1 in H. rewrite Ea in H.
  destruct r1 as [[]|e|]; [|by simplify_eq..]. specialize (Hsk eq_refl).
  rewrite (mthen_step _ _ _ s1 (lp_ctxs s1 !! h)) in H by done.
  destruct (lp_ctxs s1 !! h) as [c|] eqn:Hc; [|unfold mret, mlift in H; by simplify_eq].
  assert (may_start h s1) as Hms1.
  { unfold may_start, quiet_slot. rewrite Hrel, (os_global _ _ _ Hf). exact Hms. }
  destruct (cx_uplink_tx c) as [tx|] eqn:Htx.
  - destruct (forward_established_down _ _ _ _ _ _ _ H Hnp Hc Htx Hsk Hu1) as [Hu2 Hf2]. split; [done|].
    destruct Hf as [A1 A2 A3 A4 A5], Hf2 as [B1 B2 B3 B4 B5]. split; intros.
    + by rewrite B1, A1.
    + by rewrite B2, A2.
    + by rewrite B3, A3.
    + lia.
    + by rewrite B5.
  - split; [eapply forward_first_down; try done; intros c0 Hc0; by simplify_eq|].
    pose proof (only_forward_first h s now s1 Hf) as Hf2. by rewrite H in Hf2.
Qed.

(** ** The dirty set *)

Lemma process_dirty_handle_down now h s s' r :
  process_dirty_handle now h s = (s', r) → r ≠ Panic → down_all s → may_start h s → down_all s' ∧ only_slot h s s'.
Proof.
  intros H Hnp Hu Hms. unfold process_dirty_handle in H. pose proof (process_listener_down h now s) as Hup.
  unfold mthen at 1, log_err in H. destruct (process_listener_activity h now s) as [s1 r1].
  assert (r1 ≠ Panic) as Hnp1 by (intros ->; by simplify_eq).
  destruct (Hup s1 r1 eq_refl Hnp1 Hms (Hu h)) as [Hu1 Hf1].
  assert (down_all s1) as Ha by (apply (down_frame h s); [intros h' _; exact (Hu h')|done..]).
  match type of H with (match ?x with (_, _) => _ end) = _ => assert (∃ r1', x = (s1, Ok r1')) as [[] Ex] end.
  { destruct r1 as [[]| |]; [by exists tt..|done]. }
  rewrite Ex in H. match type of H with ?m s1 = _ => assert (keeps (λ s', down_all s' ∧ only_slot h s s') m) as Hk end.
  { unfold get_sock, get_ctx, mret. walk ltac:(intros ? [Hx [? ? ? ? ?]]; split; [exact Hx|by split]). }
  specialize (Hk s1). rewrite H in Hk. by apply Hk.
Qed.

(** A slot that was not visited may start a relay as before. *)
Lemma may_start_frame h h' s s' : only_slot h s s' → h' ≠ h → may_start h' s → may_start h' s'.
Proof.
  intros [_ _ Fr Fl Fg] Hne Hm i Hi. destruct (Hm i) as [Hs Hq]; [lia|]. split; [done|]. intros Hc.
  apply Hq, quiet_slot_spec in Hc as [Hr Hg]. apply quiet_slot_spec. rewrite Fg. split; [|done].
  intros j r Hj Hh. apply (Hr j); [|done]. apply Fr; [congruence|done].
Qed.

Lemma process_dirty_handles_down now hs s s' r :
  process_dirty_handles now hs s = (s', r) → r ≠ Panic → NoDup hs → down_all s → (∀ h, may_start h s) → down_all s'.
Proof.
  intros H Hnp Hnd Hu Hms. assert (∀ h, h ∈ hs → may_start h s) as Hm by auto. clear Hms.
  revert s H Hu Hm. induction hs as [|h hs IH]; cbn; intros s H Hu Hm.
  { unfold mret, mlift in H. by simplify_eq. }
  apply NoDup_cons in Hnd as [Hni Hnd]. destruct (process_dirty_handle now h s) as [s1 r1] eqn:E1.
  unfold mthen in H. rewrite E1 in H. assert (r1 ≠ Panic) as Hnp1 by (intros ->; by simplify_eq).
  destruct (process_dirty_handle_down _ _ _ _ _ E1 Hnp1 Hu) as [Hu1 Hf]; [apply Hm; by left|].
  destruct r1 as [[]|e|]; [|by simplify_eq..]. eapply IH; try done.
  intros h' Hh'. eapply may_start_frame; [done|by intros ->|]. apply Hm. by right.
Qed.

Lemma process_dirty_relay_down order now s s' r :
  process_dirty_relay order now s = (s', r) → r ≠ Panic → (∀ l, order l ≡ₚ l) → down_all s → (∀ h, may_start h s) → down_all s'.
Proof.
  intros H Hnp Ho Hu Hm. unfold process_dirty_relay in H. rewrite (mthen_step _ _ _ s s) in H by done.
  eapply process_dirty_handles_down; try done. rewrite Ho. apply NoDup_elements.
Qed.

(** ** The stack and the remote side *)

(** [iface.poll] does not send on behalf of the client. *)
Definition delivery_kept (env : @poll_env TS) : Prop := ∀ h sock, given (pe_sock env h sock) = given sock.

Lemma poll_down env s : delivery_kept env → down_all s → down_all (iface_poll macos env s).1.
Proof.
  intros Hk Hu h c sock Hc Hs. cbn in Hc, Hs. rewrite list_lookup_imap in Hs.
  destruct (lp_sockets s !! h) as [sock0|] eqn:Hs0; cbn in Hs; [|done]. simplify_eq.
  specialize (Hu h c sock0 Hc Hs0). eapply down_slot_moved; [done|by left|by rewrite Hk|exact Hu].
Qed.

Lemma dev_flush_down ws : keeps down_all (dev_flush ws).
Proof. intros s H. unfold dev_flush. destruct (flush_tx ws (lp_dev s)). exact H. Qed.

Lemma diag_down h f (s : Loop) : down_all s → down_all (set_ctxs (alter (λ c, set_diag (f c) c) h (lp_ctxs s)) s).
Proof.
  intros Hu h' c sock. cbn. rewrite lookup_alter. case_decide as Hd; [|apply Hu]. subst h'.
  destruct (lp_ctxs s !! h) as [c0|] eqn:Hc; [|done]. intros [= <-] Hs. exact (Hu h c0 sock Hc Hs).
Qed.

(** A message leaves the queue: for another slot, or into the backlog of its own. *)
Lemma pop_other relays h m q h' c sock : h' ≠ h → down_slot relays ((h, m) :: q) h' c sock → down_slot relays q h' c sock.
Proof.
  intros Hne. unfold down_slot, under. by rewrite filter_cons_False by (by cbn).
Qed.

Lemma pop_own relays h m q c sock d :
  cx_uplink_tx c ≠ None → down_slot relays ((h, m) :: q) h c sock →
  down_slot relays q h (set_pending (cx_downlink_pending c ++ m) d c) sock.
Proof.
  intros Hn. unfold down_slot, under. rewrite filter_cons_True by done. cbn. destruct (cx_uplink_tx c); [|done].
  by rewrite <-!(assoc_L (++)).
Qed.

Lemma handle_remote_payload_down h payload rest env now s0 s' r :
  lp_global s0 = (h, payload) :: rest →
  handle_remote_payload macos h payload env now (set_global rest s0) = (s', r) → r ≠ Panic →
  delivery_kept env → down_all s0 → down_all s'.
Proof.
  intros Hg H Hnp Hk Hu0. set (s := set_global rest s0) in H.
  assert (∀ h', h' ≠ h → down_at h' s) as Hoth.
  { intros h' Hne c sock Hc Hs. eapply pop_other; [done|]. pose proof (Hu0 h' c sock Hc Hs) as Hx. by rewrite Hg in Hx. }
  assert (∀ c sock, lp_ctxs s !! h = Some c → lp_sockets s !! h = Some sock → down_slot (lp_relays s) ((h, payload) :: rest) h c sock) as Hown.
  { intros c sock Hc Hs. rewrite <-Hg. by apply Hu0. }
  unfold handle_remote_payload in H.
  destruct (lp_sockets s !! h) as [sock|] eqn:Hs.
  2:{ revert H. unfold get_sock, mthen, mget. rewrite Hs. cbn. by intros [= <- <-]. }
  rewrite (mthen_step _ _ _ s sock), (mthen_step _ _ _ s (lp_ctxs s !! h)) in H by (unfold get_sock, mthen, mget; by rewrite ?Hs).
  destruct (lp_ctxs s !! h) as [c|] eqn:Hc.
  2:{ unfold mret, mlift in H. injection H as <- <-. apply (down_frame h s); [done|apply only_slot_refl|].
      intros c sk Hc'. by rewrite Hc in Hc'. }
  case_bool_decide as Hp.
  { apply (down_frame h s); [done| |by eapply rearm_down].
    pose proof (only_rearm h s now s (only_slot_refl h s)) as Hf. by rewrite H in Hf. }
  specialize (Hown c sock eq_refl eq_refl). destruct (cx_uplink_tx c) as [tx|] eqn:Htx.
  2:{ unfold mret, mlift in H. injection H as <- <-. apply (down_frame h s); [done|apply only_slot_refl|].
      eapply down_at_written; [done..|]. unfold down_slot in *. by rewrite Htx in *. }
  set (d := note_remote_payload _ _ _) in H. pose proof (pop_own _ _ _ _ _ _ d ltac:(by rewrite Htx) Hown) as Hu1.
  set (c1 := set_pending _ d c) in *. apply flush_down in Hu1. destruct (flush_downlink sock c1) as [sock2 c2]. cbn [fst snd] in Hu1.
  set (s2 := set_ctxs (<[h := set_state Relaying c2]> (lp_ctxs s)) (set_sockets (<[h := sock2]> (lp_sockets s)) s)).
  rewrite (mthen_step _ _ _ (set_sockets (<[h := sock2]> (lp_sockets s)) s) tt), (mthen_step _ _ _ s2 tt) in H by done.
  assert (down_all s2) as Hu2.
  { eapply (down_frame h s); [done|split; cbn; intros; rewrite ?lookup_insert_ne, ?list_lookup_insert_ne by done; done|].
    eapply down_at_written; cbn; [by rewrite lookup_insert_eq|by apply list_lookup_insert_eq, (lookup_lt_Some _ _ _ Hs)|].
    eapply down_slot_moved; [| | |exact Hu1]; eauto. }
  pose proof (poll_down env s2 Hk Hu2) as Hu3. erewrite (mthen_step _ _ s2) in H by done.
  set (s3 := (iface_poll macos env s2).1) in Hu3. pose proof (dev_flush_down (pe_writes env) s3 Hu3) as Hu4.
  change (set_sockets _ (set_dev _ s2)) with s3 in H. unfold mthen in H.
  destruct (dev_flush (pe_writes env) s3) as [s4 [ok|e|]]; [|by simplify_eq..].
  unfold mupd in H. injection H as <- <-. by apply diag_down.
Qed.

Lemma handle_handshake_done_down done now s s' r :
  handle_handshake_done done now s = (s', r) → r ≠ Panic → down_all s → (∀ h, may_start h s) → down_all s'.
Proof.
  intros H Hnp Hu Hms. set (h := hd_handle done).
  pose proof (only_handshake_done h s done now eq_refl s (only_slot_refl h s)) as Hf. rewrite H in Hf. cbn [fst] in Hf.
  eapply (down_frame h s); [intros h' _; exact (Hu h')|done|]. clear Hf. unfold handle_handshake_done in H. fold h in H. cbn zeta in H.
  rewrite (mthen_step _ _ _ s (lp_ctxs s !! h)) in H by done. pose proof (Hu h : down_at h s) as Hh.
  destruct (lp_ctxs s !! h) as [c|] eqn:Hc; [|unfold mret, mlift in H; by simplify_eq].
  case_bool_decide; [unfold mret, mlift in H; by simplify_eq|].
  case_bool_decide as Hst; [unfold mret, mlift in H; by simplify_eq|].
  destruct (hd_result done) as [stream|e]; [|by eapply rearm_down].
  assert (∃ c1 q, (if bool_decide (cx_uplink_buffer c = []) then Some (c, [])
     else match try_send [] (cx_uplink_buffer c) with Some q => Some (set_buffer [] c, q) | None => None end) = Some (c1, q) ∧
     cx_downlink_pending c1 = cx_downlink_pending c) as (c1 & q & E & Hp).
  { case_bool_decide; [by exists c, []|]. rewrite try_send_fresh. by do 2 eexists. }
  rewrite E in H. rewrite (mthen_step _ _ _ s s) in H by done. erewrite (mthen_step _ _ s) in H by done.
  unfold spawn_remote_relay, mupd in H. injection H as <- <-. intros c0 sk. cbn. rewrite lookup_insert_eq.
  intros [= <-] Hs. specialize (Hh c sk Hc Hs). unfold down_slot in Hh.
  destruct (cx_uplink_tx c) as [i|] eqn:Htx; [by destruct Hh|]. destruct Hh as [Hg Hp0].
  apply start_down; cbn; try done; congruence.
Qed.

(** ** Listeners and dead slots *)

Lemma add_listener_down {E} relays q port sl h sl' :
  add_listener (E:=E) port sl = Ok (h, sl') → down_slots relays q sl → down_slots relays q sl'.
Proof.
  unfold add_listener, build_listener_socket. intros H Hu. inv_res. simplify_eq. intros h' c sock. cbn.
  destruct (decide (h' = length sl.1)) as [->|Hne].
  - rewrite lookup_insert_eq, list_lookup_middle by done. intros [= <-] [= <-]. apply no_relay_down; try done. by eapply given_new.
  - rewrite lookup_insert_ne by done. intros Hc Hs. apply (Hu h' c sock Hc).
    apply lookup_app_Some in Hs as [?|[? Hs]]; [done|]. apply lookup_lt_Some in Hs as Hlt. cbn in Hlt. lia.
Qed.

Lemma add_listeners_down {E} relays q n port sl hs sl' :
  add_listeners (E:=E) n port sl = Ok (hs, sl') → down_slots relays q sl → down_slots relays q sl'.
Proof.
  revert sl hs. induction n as [|n IH]; cbn; intros sl hs H Hu; [by simplify_eq|]. inv_res. repeat case_match; inv_res.
  repeat case_match; simplify_eq. inv_res. simplify_eq. eauto using add_listener_down.
Qed.

Lemma grow_listeners_down {E} relays q n port r sl r' sl' b :
  grow_listeners (E:=E) n port r sl = Ok (r', sl', b) → down_slots relays q sl → down_slots relays q sl'.
Proof.
  revert r sl. induction n as [|n IH]; cbn; intros r sl H Hu; [by simplify_eq|].
  case_bool_decide; [by simplify_eq|]. inv_res. repeat case_match; inv_res. eauto using add_listener_down.
Qed.

Lemma inspect_down buf : keeps down_all (inspect_and_mark buf).
Proof.
  intros s Hu. unfold inspect_and_mark. destruct (inspect_inbound_tcp buf) as [[port [|]]|]; [|exact Hu..].
  mrun. destruct (ensure_port (lp_registry s) port (lp_sockets s, lp_ctxs s)) as [[[r1 sl1] b1]| |] eqn:E1; [|exact Hu..]. cbn.
  destruct (ensure_spare_listeners r1 port MIN_SPARE_LISTENERS sl1) as [[[r2 [sk2 cx2]] b2]| |] eqn:E2; [|exact Hu..].
  assert (down_slots (lp_relays s) (lp_global s) sl1) as H1.
  { unfold ensure_port in E1. destruct (lr_ports (lp_registry s) !! port); [by simplify_eq|].
    case_bool_decide; [by simplify_eq|]. inv_res. repeat case_match; simplify_eq. by eapply add_listeners_down. }
  unfold ensure_spare_listeners in E2. destruct (lr_ports r1 !! port); [|simplify_eq; exact H1].
  inv_res. case_bool_decide; [simplify_eq; exact H1|]. by eapply (grow_listeners_down _ _ _ _ _ _ _ (sk2, cx2)).
Qed.

(** The inspector leaves relays and queue alone. *)
Lemma inspect_frame buf s : lp_relays (inspect_and_mark buf s).1 = lp_relays s ∧ lp_global (inspect_and_mark buf s).1 = lp_global s.
Proof.
  assert (keeps (λ s', lp_relays s' = lp_relays s ∧ lp_global s' = lp_global s) (inspect_and_mark buf)) as Hk; [|by apply Hk].
  unfold inspect_and_mark, mret. walk ltac:(intros ? Hx; exact Hx).
Qed.

Lemma reap_slot_down {E} relays q now h sl pool n sl' pool' n' :
  reap_slot (E:=E) now h sl pool n = Ok (sl', pool', n') → down_slots relays q sl → down_slots relays q sl'.
Proof.
  unfold reap_slot. intros H Hu. destruct (sl.1 !! h) as [sock|] eqn:Hs; cbn in H; [|done].
  destruct (sl.2 !! h) as [c|] eqn:Hc; [|by simplify_eq]. destruct (slot_dead sock c); [|by simplify_eq].
  destruct (rearm_socket_with_reason sock c pool now) as [[[sk c1] p1]| |] eqn:Er; cbn in H; [|done..].
  simplify_eq. intros h' c0 sock0. cbn. destruct (decide (h' = h)) as [->|Hne].
  - rewrite lookup_insert_eq, list_lookup_insert_eq by (by eapply lookup_lt_Some). intros [= <-] [= <-].
    by eapply rearm_socket_down.
  - rewrite lookup_insert_ne, list_lookup_insert_ne by done. apply Hu.
Qed.

Lemma reap_loop_down {E} relays q now hs sl pool n sl' pool' n' :
  reap_loop (E:=E) now hs sl pool n = Ok (sl', pool', n') → down_slots relays q sl → down_slots relays q sl'.
Proof.
  revert sl pool n. induction hs as [|h hs IH]; cbn; intros sl pool n H Hu; [by simplify_eq|].
  inv_res. repeat case_match; simplify_eq. eauto using reap_slot_down.
Qed.

(** ** The events of the loop *)

(** What an event may do to the log. *)
Definition delivery_ok (e : @loop_event TS) : Prop :=
  match e with
  | EvGlobal env _ => delivery_kept env
  | EvTimer env _ | EvRx _ env _ => order_ok env ∧ delivery_kept env
  | _ => True
  end.

Ltac neutral := intros ? Hkept; exact Hkept.

Lemma on_global_down env now s s' r :
  on_global macos env now s = (s', r) → r ≠ Panic → delivery_kept env → down_all s → down_all s'.
Proof.
  intros H Hnp Hk Hu. unfold on_global in H. rewrite (mthen_step _ _ _ s s) in H by done.
  destruct (lp_global s) as [|[h payload] rest] eqn:Hg; [unfold mret, mlift in H; by simplify_eq|].
  rewrite (mthen_step _ _ _ (set_global rest s) tt) in H by done. unfold mthen at 1, log_err in H.
  pose proof (handle_remote_payload_down h payload rest env now s) as Hp.
  destruct (handle_remote_payload macos h payload env now (set_global rest s)) as [s1 r1].
  assert (r1 ≠ Panic) as Hnp1 by (intros ->; by simplify_eq). specialize (Hp s1 r1 Hg eq_refl Hnp1 Hk Hu).
  assert (keeps down_all (mark_if_pending h)) as Hm.
  { unfold mark_if_pending, get_ctx, mret. walk neutral. }
  specialize (Hm s1 Hp). destruct r1 as [[]| |]; [by rewrite H in Hm..|done].
Qed.

Lemma on_timer_down env now s s' r :
  on_timer macos env now s = (s', r) → r ≠ Panic → order_ok env → delivery_kept env →
  down_all s → (∀ h, may_start h s) → down_all s'.
Proof.
  intros H Hnp Ho Hk Hu Hm. unfold on_timer in H.
  set (φ := λ s', down_all s' ∧ lp_relays s' = lp_relays s ∧ lp_global s' = lp_global s).
  assert (keeps φ (poll_and_flush macos env)) as Hpf.
  { intros s2 (H2 & Hr2 & Hg2). unfold poll_and_flush. rewrite (mthen_step _ _ _ (iface_poll macos env s2).1 tt) by done.
    assert (φ (iface_poll macos env s2).1) as Hφ by (split; [by apply poll_down|done]). revert Hφ.
    generalize (iface_poll macos env s2).1. match goal with |- ∀ s3, φ s3 → φ (?m s3).1 => change (keeps φ m) end.
    assert (∀ f, keeps φ (dev_flush f)) as Hd; [|unfold mret; walk neutral].
    intros f s3 H3. unfold dev_flush. destruct (flush_tx f (lp_dev s3)). exact H3. }
  specialize (Hpf s ltac:(by split)). unfold mthen in H. destruct (poll_and_flush macos env s) as [s1 [[]| |]]; cbn [fst] in Hpf.
  - destruct Hpf as (H1 & Hr1 & Hg1). eapply process_dirty_relay_down; try done.
    unfold may_start, quiet_slot. by rewrite Hr1, Hg1.
  - simplify_eq. apply Hpf.
  - by simplify_eq.
Qed.

Lemma inject_down pkt ws : keeps down_all (inject_and_flush macos pkt ws).
Proof. apply keeps_mupd. neutral. Qed.
#[local] Hint Resolve inject_down : keeps.

Lemma dns_down pkt ws now : keeps down_all (handle_dns_hijack macos pkt ws now).
Proof. unfold handle_dns_hijack, mret. walk neutral. Qed.
Lemma udp_down pkt now : keeps down_all (handle_tuic_udp_uplink pkt now).
Proof. unfold handle_tuic_udp_uplink, mret. walk neutral. Qed.
Lemma datagram_down dg ws now : keeps down_all (handle_downlink macos dg ws now).
Proof. unfold handle_downlink, mret. walk neutral. Qed.
Lemma on_task_down i : keeps down_all (on_task i).
Proof. unfold on_task, mret. walk neutral. Qed.

Lemma on_udp_sweep_down now : keeps down_all (on_udp_sweep now).
Proof.
  unfold on_udp_sweep. intros s Hu. rewrite (mthen_step _ _ _ s s) by done.
  destruct (assoc_sweep (lp_assoc s) now UDP_FLOW_IDLE_SECS) as [ips table].
  do 3 (erewrite mthen_step by done). erewrite mthen_step by done. cbn.
  unfold mthen, mlift. destruct (reap_dead_slots _ _ _ _) as [[[sl pool] n]| |] eqn:Er; [|exact Hu..].
  cbn. unfold down_all. cbn. rewrite <-surjective_pairing. by eapply reap_loop_down.
Qed.

Lemma on_rx_down read env now s s' r :
  on_rx macos read env now s = (s', r) → r ≠ Panic → order_ok env → delivery_kept env →
  down_all s → (∀ h, may_start h s) → down_all s'.
Proof.
  intros H Hnp Ho Hk Hu Hm. unfold on_rx in H. rewrite (mthen_step _ _ _ s s) in H by done.
  destruct (wait_for_rx macos read (lp_dev s)) as [dev r0] eqn:Ew.
  rewrite (mthen_step _ _ _ (set_dev dev s) tt) in H by done. set (s0 := set_dev dev s) in H.
  assert (down_all s0) as Hu0 by exact Hu.
  destruct r0 as [[]| |]; [|unfold mret, mlift in H; by simplify_eq..].
  assert (∃ pkt, rx_peek dev = Some pkt) as [pkt Ep].
  { unfold wait_for_rx in Ew. repeat case_match; simplify_eq; cbn; eauto. }
  rewrite Ep in H. cbn [fmap option_fmap option_map] in H. unfold rx_take in H. unfold rx_peek in Ep. rewrite Ep in H.
  destruct (classify_inbound pkt).
  - rewrite (mthen_step _ _ _ (set_dev (set_rx None dev) s0) tt) in H by done.
    pose proof (dns_down pkt (pe_writes env) now (set_dev (set_rx None dev) s0) Hu0) as Hd. by rewrite H in Hd.
  - rewrite (mthen_step _ _ _ (set_dev (set_rx None dev) s0) tt) in H by done.
    pose proof (udp_down pkt now (set_dev (set_rx None dev) s0) Hu0) as Hd. by rewrite H in Hd.
  - pose proof (inspect_down pkt s0 Hu0) as Hu1. destruct (inspect_frame pkt s0) as [Hr Hg]. unfold mthen at 1 in H.
    destruct (inspect_and_mark pkt s0) as [s1 [[]| |]]; [|by simplify_eq; exact Hu1..].
    cbn [fst] in Hu1, Hr, Hg. eapply (on_timer_down env now s1); try done.
    unfold may_start, quiet_slot. rewrite Hr, Hg. exact Hm.
Qed.

(** Every event of the loop itself keeps the invariant; the steps of the relays follow. *)
Lemma loop_step_down e s s' :
  loop_step macos e s = (s', Ok tt) → (∀ i a, e ≠ EvRelay i a) → delivery_ok e →
  down_all s → (∀ h, may_start h s) → down_all s'.
Proof.
  intros H Hne Hok Hu Hm. destruct e; cbn [loop_step] in H.
  - by eapply on_global_down.
  - destruct Hok. by eapply on_rx_down.
  - unfold on_done in H. rewrite (mthen_step _ _ _ s s) in H by done.
    destruct (lp_done s) as [|d rest]; [unfold mret, mlift in H; by simplify_eq|].
    rewrite (mthen_step _ _ _ (set_done rest s) tt) in H by done. by eapply handle_handshake_done_down.
  - pose proof (datagram_down dg writes now_secs s Hu) as Hd. by rewrite H in Hd.
  - pose proof (on_udp_sweep_down now_secs s Hu) as Hd. by rewrite H in Hd.
  - unfold on_fake_ip_sweep, mupd in H. by simplify_eq.
  - unfold on_metrics, mupd in H. by simplify_eq.
  - destruct Hok. by eapply on_timer_down.
  - pose proof (on_task_down i s Hu) as Hd. by rewrite H in Hd.
  - by destruct (Hne i a).
Qed.

End invariant.
(** ** Relay tasks *)

(** A relay goes on: it keeps its slot, does not run again, and sends [d] only while it runs. *)
Lemma relay_goes_on sent clean i r r' (d : option (list byte)) (s : Loop) :
  lp_relays s !! i = Some r → ry_handle r' = ry_handle r →
  (ry_phase r' = RelayRunning → ry_phase r = RelayRunning) → (d ≠ None → ry_phase r = RelayRunning) →
  down_all sent clean s →
  down_all (λ k, sent k ++ concat (under k (option_list (pair i <$> d)))) clean
    (set_relays (<[i := r']> (lp_relays s)) (set_global (lp_global s ++ option_list (pair (ry_handle r) <$> d)) s)).
Proof.
  intros Hr Hh Hph Hd Hu h c sock Hc Hs. specialize (Hu h c sock Hc Hs). pose proof (lookup_lt_Some _ _ _ Hr) as Hlt.
  cbn [lp_relays set_relays lp_global set_global].
  apply (down_slot_relays _ _ (lp_relays s)).
  - intros j rj Hj Hhj. destruct (decide (j = i)) as [->|Hne]; [rewrite list_lookup_insert_eq by done|rewrite list_lookup_insert_ne by done]; naive_solver congruence.
  - intros j rj Hj Hhj Hp. destruct (decide (j = i)) as [->|Hne].
    + rewrite list_lookup_insert_eq in Hj by done. simplify_eq. exists r. eauto with congruence.
    + rewrite list_lookup_insert_ne in Hj by done. eauto.
  - unfold down_slot in *. destruct (cx_uplink_tx c) as [k|]; [|done]. destruct Hu as (Hst & rk & Hk & Hhk & Hcl).
    split; [done|]. exists rk. split; [done|]. split; [done|]. intros Hck. destruct (Hcl Hck) as [He Ho]. split; [|done].
    rewrite <-He, under_app, concat_app, !(assoc_L (++)). f_equal. destruct d as [d|]; [|done]. cbn [fmap option_fmap option_map]. cbn [option_list option_rect].
    destruct (decide (ry_handle r = h)) as [Hrh|Hrh].
    + assert (i = k) as -> by (eapply Ho; eauto). by rewrite Hrh, !under_one.
    + rewrite !under_other; [done| |done]. intros ->. congruence.
Qed.

Lemma run_relay_down sent clean i a s s' r :
  run_relay i a s = (s', r) → down_all sent clean s →
  down_all (λ k, sent k ++ concat (under k (relay_sends (EvRelay i a) s))) clean s'.
Proof.
  intros H Hu. unfold run_relay in H. rewrite (mthen_step _ _ _ s s) in H by done.
  assert (relay_sends (EvRelay i a) s = [] → down_all (λ k, sent k ++ concat (under k (relay_sends (EvRelay i a) s))) clean s) as Hid.
  { intros ->. cbn. intros h c sock Hc Hs. specialize (Hu h c sock Hc Hs). unfold down_slot in *.
    destruct (cx_uplink_tx c); [|done]. by rewrite app_nil_r. }
  assert (∀ r0 r', lp_relays s !! i = Some r0 → ry_handle r' = ry_handle r0 → ry_phase r' ≠ RelayRunning ∨ ry_phase r' = ry_phase r0 →
    relay_sends (EvRelay i a) s = [] → set_relay i r' s = (s', r) →
    down_all (λ k, sent k ++ concat (under k (relay_sends (EvRelay i a) s))) clean s') as Hset.
  { intros r0 r' Hr0 Hh Hp -> E. unfold set_relay, mupd in E. injection E as <- <-.
    eapply (relay_goes_on sent clean i r0 r' None s) in Hu; [|done|done|intros Hr; by destruct Hp; congruence|done].
    cbn [option_list option_rect fmap option_fmap option_map] in Hu. rewrite app_nil_r in Hu. exact Hu. }
  unfold relay_sends in *. destruct (lp_relays s !! i) as [r0|] eqn:Hr0.
  2:{ unfold mret, mlift in H. simplify_eq. apply Hid. by repeat case_match. }
  assert (∀ m, m = (s', r) → m = mret tt s → match a with RelayRemote (Some _) _ => False | _ => True end →
    down_all (λ k, sent k ++ concat (under k match a with RelayRemote (Some data) _ =>
      if bool_decide (ry_phase r0 = RelayRunning) && bool_decide (len (lp_global s) < RELAY_CHANNEL_CAPACITY)
      then [(i, ztake RELAY_BUF data)] else [] | _ => [] end)) clean s') as Hnop.
  { intros m -> Em Ha. unfold mret, mlift in Em. simplify_eq. apply Hid. by repeat case_match. }
  destruct a as [ok|[data|] w| |].
  - destruct (ry_phase r0) eqn:Hph; [|by eapply Hnop..].
    destruct (ry_queue r0) as [|p q]; [destruct (sender_alive s i); [by eapply Hnop|]|destruct ok];
      (eapply Hset; [done| | |done|exact H]); cbn; auto.
  - destruct (ry_phase r0) eqn:Hph; rewrite ?bool_decide_true, ?(bool_decide_false (_ = RelayRunning)) in * by done; cbn [andb] in *.
    2-3: unfold mret, mlift in H; simplify_eq; by apply Hid.
    destruct (bool_decide (len (lp_global s) < RELAY_CHANNEL_CAPACITY)).
    2:{ unfold mret, mlift in H. simplify_eq. by apply Hid. }
    case_bool_decide as Hd; revert H; mrun; intros [= <- <-].
    + subst data. eapply (relay_goes_on sent clean i r0 (relay_break r0) (Some []) s) in Hu; done.
    + match goal with |- context [<[i := ?r1]> _] =>
        eapply (relay_goes_on sent clean i r0 r1 (Some (ztake RELAY_BUF data)) s) in Hu; [exact Hu|done..] end.
  - destruct (ry_phase r0) eqn:Hph; [|by eapply Hnop..]. eapply Hset; [done| | |done|exact H]; cbn; auto.
  - destruct (ry_phase r0) eqn:Hph; [|by eapply Hnop..]. eapply Hset; [done| | |done|exact H]; cbn; auto.
  - destruct (ry_phase r0) eqn:Hph; [by eapply Hnop| |by eapply Hnop]. eapply Hset; [done| | |done|exact H]; cbn; auto.
Qed.

(** ** Runs *)

(** Relays are never removed. *)
Section length.
Variable n : nat.
Let more (s : Loop) : Prop := (n ≤ length (lp_relays s))%nat.

Ltac grow := unfold more; cbn; intros; rewrite ?length_app, ?length_insert, ?length_alter; lia.
Ltac go := walk grow.

Lemma more_get_sock h : keeps more (get_sock h).
Proof. unfold get_sock. go. Qed.
Lemma more_mret {B} (a : B) : keeps more (mret a).
Proof. apply keeps_mlift. Qed.
#[local] Hint Resolve more_get_sock more_mret : keeps.
Lemma more_rearm h now : keeps more (rearm_slot h now).
Proof. unfold rearm_slot, get_ctx, put_sock, put_ctx. go. Qed.
Lemma more_dev_flush ws : keeps more (dev_flush ws).
Proof. intros s H. unfold dev_flush. destruct (flush_tx ws (lp_dev s)). exact H. Qed.
Lemma more_inject pkt ws : keeps more (inject_and_flush macos pkt ws).
Proof. unfold inject_and_flush. go. Qed.
Lemma more_poll env : keeps more (iface_poll macos env).
Proof. unfold iface_poll. go. Qed.
#[local] Hint Resolve more_rearm more_dev_flush more_inject more_poll : keeps.
Lemma more_local h p t f now : keeps more (handle_local_payload h p t f now).
Proof. unfold handle_local_payload, open_inline, open_spawned, acquire_fake, spawn_remote_relay, get_ctx, put_ctx. go. Qed.
#[local] Hint Resolve more_local : keeps.
Lemma more_listener h now : keeps more (process_listener_activity h now).
Proof.
  unfold process_listener_activity, advance_downlink, forward_established, forward_first, push_uplink, get_ctx, put_sock, put_ctx. go.
Qed.
Lemma more_log m : keeps more m → keeps more (log_err (U:=U) m).
Proof. intros Hm s Hs. specialize (Hm s Hs). unfold log_err. by destruct (m s) as [? []]. Qed.
#[local] Hint Resolve more_listener more_log : keeps.
Lemma more_dirty_handles now hs : keeps more (process_dirty_handles now hs).
Proof. induction hs as [|h hs IH]; cbn [process_dirty_handles]; [|unfold process_dirty_handle, get_ctx]; go. Qed.
#[local] Hint Resolve more_dirty_handles : keeps.
Lemma more_timer env now : keeps more (on_timer macos env now).
Proof. unfold on_timer, poll_and_flush, process_dirty_relay. go. Qed.
Lemma more_remote h p env now : keeps more (handle_remote_payload macos h p env now).
Proof. unfold handle_remote_payload, get_ctx, put_sock, put_ctx. go. Qed.
#[local] Hint Resolve more_remote : keeps.

Lemma more_relays e : keeps more (loop_step macos e).
Proof.
  destruct e; cbn [loop_step].
  - unfold on_global, mark_if_pending, get_ctx. go.
  - unfold on_rx, handle_tuic_udp_uplink, handle_dns_hijack, inspect_and_mark, poll_and_flush, process_dirty_relay. go.
  - unfold on_done, handle_handshake_done, spawn_remote_relay, get_ctx, put_ctx. cbn zeta. go.
  - unfold handle_downlink. go.
  - unfold on_udp_sweep. go.
  - unfold on_fake_ip_sweep. go.
  - unfold on_metrics. go.
  - apply more_timer.
  - unfold on_task. go.
  - unfold run_relay, set_relay. go.
Qed.
End length.

Lemma down_clean sent clean clean' s :
  (∀ i r, lp_relays s !! i = Some r → clean' i (ry_handle r) → clean i (ry_handle r)) →
  down_all sent clean s → down_all sent clean' s.
Proof.
  intros Hcl Hu h c sock Hc Hs. specialize (Hu h c sock Hc Hs). unfold down_slot in *. destruct (cx_uplink_tx c) as [i|]; [|done].
  destruct Hu as (Hst & r & Hr & Hh & Hi). split; [done|]. exists r. split; [done|]. split; [done|]. intros Hi'. apply Hi.
  rewrite <-Hh in *. by apply (Hcl i r).
Qed.

(** A run from the start, with its history, in which the stack keeps the log. *)
Inductive down_reachable : history → Loop → Prop :=
| dr_init pool_size mtu up : down_reachable (mk_history [] []) (loop_init pool_size mtu up)
| dr_step y s e s' : down_reachable y s → delivery_ok e → loop_step macos e s = (s', Ok tt) →
    down_reachable (history_step e s y) s'.

Record history_inv (y : history) (s : Loop) : Prop := {
  hi_down : down_all (λ i, concat (under i (hy_sent y))) (λ i _, hy_quiet y !! i = Some true) s;
  hi_length : length (hy_quiet y) = length (lp_relays s);
  hi_sent : ∀ m, m ∈ hy_sent y → (m.1 < length (lp_relays s))%nat
}.

(** What the history says of the relays a step started. *)
Lemma history_quiet e s s' y i r :
  length (hy_quiet y) = length (lp_relays s) → loop_step macos e s = (s', Ok tt) → lp_relays s' !! i = Some r →
  hy_quiet (history_step e s y) !! i = Some true →
  if decide (i < length (lp_relays s))%nat then hy_quiet y !! i = Some true else quiet_slot s (ry_handle r) = true.
Proof.
  intros Hl E Hr Hq. cbn in Hq. rewrite E in Hq. cbn [fst] in Hq. case_decide as Hi.
  - by rewrite lookup_app_l in Hq by lia.
  - rewrite lookup_app_r in Hq by lia. rewrite list_lookup_fmap, lookup_drop, Hl in Hq.
    replace (length (lp_relays s) + (i - length (lp_relays s)))%nat with i in Hq by lia. rewrite Hr in Hq. by injection Hq.
Qed.

Lemma history_step_inv e s s' y :
  delivery_ok e → loop_step macos e s = (s', Ok tt) → history_inv y s → history_inv (history_step e s y) s'.
Proof.
  intros Hok E [Hu Hl Hs]. pose proof (more_relays (length (lp_relays s)) e s (Nat.le_refl _)) as Hmore. rewrite E in Hmore. cbn [fst] in Hmore.
  split.
  - set (clean := λ i h, if decide (i < length (lp_relays s))%nat then hy_quiet y !! i = Some true else quiet_slot s h = true).
    apply (down_clean _ clean); [intros i r Hr; by apply (history_quiet e s s' y)|].
    apply (down_clean _ _ clean) in Hu.
    2:{ intros i r Hr%lookup_lt_Some. unfold clean. by rewrite decide_True. }
    assert ((∃ i a, e = EvRelay i a) ∨ ∀ i a, e ≠ EvRelay i a) as [(i & a & ->)|Hne] by (destruct e; eauto).
    + cbn [hy_sent history_step]. apply (run_relay_down _ _ _ _ _ _ _ E) in Hu. intros h c sock Hc Hsk. specialize (Hu h c sock Hc Hsk).
      unfold down_slot in *. destruct (cx_uplink_tx c); [|done]. by rewrite under_app, concat_app.
    + assert (relay_sends e s = []) as Hns by (destruct e; try done; by edestruct Hne).
      unfold history_step. rewrite Hns, app_nil_r. cbn [hy_sent].
      eapply loop_step_down; try done. intros h i Hi. split.
      * rewrite under_none; [done|]. intros m Hm%Hs. lia.
      * unfold clean. rewrite decide_False by lia. done.
  - cbn. rewrite E, length_app, length_fmap, length_drop. cbn [fst]. lia.
  - intros m. cbn. rewrite elem_of_app. intros [Hm|Hm]; [specialize (Hs m Hm); lia|].
    unfold relay_sends in Hm. repeat case_match; try (by apply elem_of_nil in Hm).
    apply list_elem_of_singleton in Hm as ->. cbn. eapply Nat.lt_le_trans; [by eapply lookup_lt_Some|done].
Qed.

Lemma down_reachable_inv y s : down_reachable y s → history_inv y s.
Proof.
  induction 1 as [pool_size mtu up|y s e s' _ IH Hok E]; [|by eapply history_step_inv].
  split; cbn; [|done|by intros m Hm%elem_of_nil]. intros h c sock. cbn. by rewrite lookup_empty.
Qed.

(** C4: No byte of the server is lost, repeated or reordered between its relay task and the socket of the
    connection.  In every state the loop reaches, with every relay that started when its slot was quiet
    (the slot's earlier relays had stopped and none of their messages was waiting): what was handed to the
    socket since it started to listen, then the slot's backlog, then the messages for the slot in the
    loop's queue, are exactly the bytes the relay sent, as long as the slot belongs to it.  Without a
    relay nothing is handed over and nothing is kept.  (What a relay that does not start quietly may get
    is [TunServe.late_eof_resets_new_connection].) *)
Theorem downlink_exact y s h c sock :
  down_reachable y s → lp_ctxs s !! h = Some c → lp_sockets s !! h = Some sock →
  match cx_uplink_tx c with
  | None => given sock = [] ∧ cx_downlink_pending c = []
  | Some i => (∃ r, lp_relays s !! i = Some r ∧ ry_handle r = h) ∧
      (hy_quiet y !! i = Some true →
       given sock ++ cx_downlink_pending c ++ concat (under h (lp_global s)) = concat (under i (hy_sent y)))
  end.
Proof.
  intros Hr Hc Hs. pose proof (hi_down _ _ (down_reachable_inv y s Hr) h c sock Hc Hs) as Hd. unfold down_slot in Hd.
  destruct (cx_uplink_tx c) as [i|]; [|done]. destruct Hd as (_ & r & Hri & Hh & Hcl). split; [by exists r|].
  intros Hq. by apply Hcl.
Qed.

(** C38: The end of a stream throws away what the application has not been given yet.  When the message
    that says so is handled, the socket is reset and the slot listens again at once: the backlog, which
    the server sent before it closed and the socket had no room for, is dropped. *)
Theorem eof_discards_backlog y s env now s' h rest c sock i :
  down_reachable y s → lp_global s = (h, []) :: rest → lp_ctxs s !! h = Some c → lp_sockets s !! h = Some sock →
  cx_uplink_tx c = Some i → hy_quiet y !! i = Some true →
  loop_step macos (EvGlobal env now) s = (s', Ok tt) →
  (given sock ++ cx_downlink_pending c) `prefix_of` concat (under i (hy_sent y)) ∧
  ∃ sock' c', tcp_listen (tcp_abort sock) (cx_local_port c) = Some sock' ∧
    lp_sockets s' !! h = Some sock' ∧ lp_ctxs s' !! h = Some c' ∧ cx_state c' = Listening ∧ cx_downlink_pending c' = [].
Proof.
  intros Hr Hg Hc Hs Htx Hq E. split.
  - pose proof (hi_down _ _ (down_reachable_inv y s Hr) h c sock Hc Hs) as Hd. unfold down_slot in Hd. rewrite Htx in Hd.
    destruct Hd as (_ & r & _ & _ & Hcl). destruct (Hcl Hq) as [<- _]. rewrite app_assoc. by apply prefix_app_r.
  - cbn [loop_step] in E. unfold on_global in E. rewrite (mthen_step _ _ _ s s), Hg in E by done.
    rewrite (mthen_step _ _ _ (set_global rest s) tt) in E by done. unfold mthen at 1, log_err, handle_remote_payload in E.
    rewrite (mthen_step _ _ _ (set_global rest s) sock), (mthen_step _ _ _ (set_global rest s) (Some c)) in E
      by (mrun; by rewrite ?Hs, ?Hc).
    rewrite bool_decide_true in E by done. revert E. unfold rearm_slot, mark_if_pending. mrun. rewrite Hs, Hc. cbn.
    pose proof (lookup_lt_Some _ _ _ Hs) as Hlt. unfold rearm_socket_with_reason, rearm_socket. cbn.
    destruct (cx_fake_ip c); cbn; (destruct (tcp_listen _ _) as [sock'|] eqn:El; cbn; [|done]);
      rewrite lookup_insert_eq; cbn; intros [= <-]; cbn; rewrite lookup_insert_eq, list_lookup_insert_eq by done; by eauto 10.
Qed.

(** The history of a run. *)
Fixpoint history_run (es : list (@loop_event TS)) (s : Loop) (y : history) : history :=
  match es with
  | [] => y
  | e :: es => history_run es (loop_step macos e s).1 (history_step e s y)
  end.

(** What was said of a relay when it started stays said. *)
Lemma history_run_quiet es s y i :
  hy_quiet y !! i = Some true → hy_quiet (history_run es s y) !! i = Some true.
Proof.
  revert s y. induction es as [|e es IH]; intros s y Hq; [done|]. cbn [history_run]. apply IH. cbn. by apply lookup_app_l_Some.
Qed.

Lemma history_run_reachable es s y :
  Forall delivery_ok es → (loop_run macos es s).2 = Ok tt → down_reachable y s →
  down_reachable (history_run es s y) (loop_run macos es s).1.
Proof.
  revert s y. induction es as [|e es IH]; intros s y Hok Hr Hy; [exact Hy|]. apply Forall_cons in Hok as [He Hes].
  cbn [loop_run history_run] in *. unfold mthen in *. destruct (loop_step macos e s) as [s1 [[]| |]] eqn:E; [|done..].
  cbn [fst]. apply IH; [done..|]. by apply dr_step.
Qed.

(** ** The backlog drains *)

Section drains.
Variables (h0 i : nat) (c0 : SocketCtx) (sock0 : @TcpSocket TS).

(** The slot [h0] as it is, with relay [i] there to take messages. *)
Definition slot_is (s : Loop) : Prop :=
  lp_ctxs s !! h0 = Some c0 ∧ lp_sockets s !! h0 = Some sock0 ∧
  ∃ r, lp_relays s !! i = Some r ∧ ry_phase r ≠ RelayFinished.

Ltac upd :=
  intros ? (? & ? & ? & ? & ?); unfold slot_is; cbn;
  rewrite ?lookup_insert_ne, ?lookup_alter_ne, ?list_lookup_insert_ne by done;
  split; [done|]; split; [done|]; eauto using lookup_app_l_Some.

Section other.
Variable h : nat.
Hypothesis Hne : h ≠ h0.

Lemma other_put_sock sock : keeps slot_is (put_sock h sock).
Proof. apply keeps_mupd. upd. Qed.
Lemma other_put_ctx c : keeps slot_is (put_ctx h c).
Proof. apply keeps_mupd. upd. Qed.
Lemma other_get_sock : keeps slot_is (get_sock h).
Proof. unfold get_sock. walk upd. Qed.
Lemma other_get_ctx : keeps slot_is (get_ctx h).
Proof. unfold get_ctx, mret. walk upd. Qed.
Lemma other_mret {B} (a : B) : keeps slot_is (mret a).
Proof. apply keeps_mlift. Qed.
Lemma other_spawn st q : keeps slot_is (spawn_remote_relay h st q).
Proof. unfold spawn_remote_relay. walk upd. Qed.
Lemma other_push tx payload : keeps slot_is (push_uplink tx payload).
Proof.
  apply keeps_mupd. intros s (Hc & Hs & r & Hr & Hp). split; [done|]. split; [done|]. cbn.
  destruct (decide (i = tx)) as [->|Hi]; [|rewrite list_lookup_alter_ne by done; eauto].
  rewrite list_lookup_alter_eq, Hr. eexists. by split.
Qed.
#[local] Hint Resolve other_put_sock other_put_ctx other_get_sock other_get_ctx other_mret other_spawn other_push : keeps.
Ltac go := walk upd.

Lemma other_rearm now : keeps slot_is (rearm_slot h now).
Proof. unfold rearm_slot. go. Qed.
Lemma other_acquire f now : keeps slot_is (acquire_fake h f now).
Proof. unfold acquire_fake. go. Qed.
#[local] Hint Resolve other_rearm other_acquire : keeps.
Lemma other_local p t f now : keeps slot_is (handle_local_payload h p t f now).
Proof. unfold handle_local_payload, open_inline, open_spawned. go. Qed.
#[local] Hint Resolve other_local : keeps.
Lemma other_listener now : keeps slot_is (process_listener_activity h now).
Proof. unfold process_listener_activity, advance_downlink, forward_established, forward_first. go. Qed.
Lemma other_log m : keeps slot_is m → keeps slot_is (log_err (U:=U) m).
Proof. intros Hm s Hs. specialize (Hm s Hs). unfold log_err. by destruct (m s) as [? []]. Qed.
#[local] Hint Resolve other_listener other_log : keeps.

Lemma other_dirty now : keeps slot_is (process_dirty_handle now h).
Proof. unfold process_dirty_handle. go. Qed.
End other.

Lemma others_dirty now hs : h0 ∉ hs → keeps slot_is (process_dirty_handles now hs).
Proof.
  induction hs as [|h hs IH]; intros Hn; cbn [process_dirty_handles]; [apply other_mret|].
  apply not_elem_of_cons in Hn as [Hne Hn]. apply keeps_mthen; [by apply other_dirty|]. intros _. by apply IH.
Qed.
End drains.

Lemma process_dirty_handles_app now hs1 hs2 s s' :
  process_dirty_handles now (hs1 ++ hs2) s = (s', Ok tt) →
  ∃ s1, process_dirty_handles now hs1 s = (s1, Ok tt) ∧ process_dirty_handles now hs2 s1 = (s', Ok tt).
Proof.
  revert s. induction hs1 as [|h hs1 IH]; cbn [process_dirty_handles app]; intros s H; [by exists s|].
  apply mthen_Ok in H as (s1 & [] & E & H). destruct (IH s1 H) as (s2 & E2 & H2). exists s2. by rewrite (mthen_step _ _ _ _ _ E).
Qed.

(** The slot itself: the backlog goes to a socket that takes all of it. *)
Lemma own_dirty `{!SmoltcpLaws TS} now h i c sock sock1 s s' r :
  process_dirty_handle now h s = (s', r) → r ≠ Panic → slot_is h i c sock s → cx_uplink_tx c = Some i →
  cx_downlink_pending c ≠ [] → can_send sock = true →
  send_slice sock (cx_downlink_pending c) = Some (len (cx_downlink_pending c), sock1) →
  r = Ok tt ∧ ∃ c' sock', slot_is h i c' sock' s' ∧ cx_uplink_tx c' = Some i ∧ cx_downlink_pending c' = [] ∧
    given sock' = given sock ++ cx_downlink_pending c.
Proof.
  intros H Hnp (Hc & Hs & r0 & Hr & Hph) Htx Hp Hcs Es. pose proof (lookup_lt_Some _ _ _ Hs) as Hlt.
  pose proof (given_send _ _ _ _ Es) as Hg.
  assert (len (cx_downlink_pending c) ≠ 0) as Hl0 by (unfold len; destruct (cx_downlink_pending c); cbn; [done|lia]).
  set (G := given sock ++ cx_downlink_pending c) in *.
  assert (given sock1 = G) as Hg1 by (rewrite Hg; unfold G, ztake, len; by rewrite Nat2Z.id, firstn_all).
  assert (flush_downlink sock c =
    (sock1, set_pending [] (note_send_slice_ok (len (cx_downlink_pending c)) 0
       (note_pending (len (cx_downlink_pending c)) (cx_downlink_diag c))) c)) as Ef.
  { unfold flush_downlink. rewrite bool_decide_false, Hcs, Es, bool_decide_false by done.
    unfold zdrop, len. by rewrite Nat2Z.id, drop_all. }
  set (c1 := set_pending [] _ c) in Ef.
  set (s1 := set_ctxs (<[h := c1]> (lp_ctxs s)) (set_sockets (<[h := sock1]> (lp_sockets s)) s)).
  assert (∃ c' sock' s2, log_err (process_listener_activity h now) s = (s2, Ok tt) ∧ slot_is h i c' sock' s2 ∧
    cx_uplink_tx c' = Some i ∧ cx_downlink_pending c' = [] ∧ given sock' = G) as (c' & sock' & s2 & E2 & Hs2 & ? & ? & ?).
  { unfold log_err, process_listener_activity. unfold mthen at 1, advance_downlink.
    rewrite (mthen_step _ _ _ s sock), (mthen_step _ _ _ s (Some c)) by (mrun; by rewrite ?Hs, ?Hc). rewrite Ef.
    erewrite (mthen_step _ _ s) by done. cbn [put_ctx mupd]. fold s1.
    rewrite (mthen_step _ _ _ s1 (Some c1)) by (mrun; by rewrite lookup_insert_eq).
    change (cx_uplink_tx c1) with (cx_uplink_tx c). rewrite Htx. unfold forward_established.
    rewrite (mthen_step _ _ _ s1 s1) by done.
    assert (lp_sockets s1 !! h = Some sock1) as Hs1 by (by apply list_lookup_insert_eq).
    assert (slot_is h i c1 sock1 s1) as Hsl by (split; [by apply lookup_insert_eq|split; [done|by exists r0]]).
    unfold try_reserve. cbn [lp_relays s1 set_ctxs set_sockets]. rewrite Hr.
    assert (∀ X Y Z : reserve, match ry_phase r0 with RelayFinished => X | RelayRunning | RelayShutdown => if bool_decide (len (ry_queue r0) < RELAY_CHANNEL_CAPACITY) then Y else Z end =
      if bool_decide (len (ry_queue r0) < RELAY_CHANNEL_CAPACITY) then Y else Z) as -> by (by intros; destruct (ry_phase r0)).
    case_bool_decide; [|by exists c1, sock1, s1].
    rewrite (mthen_step _ _ _ s1 sock1) by (unfold get_sock, mthen, mget; by rewrite Hs1).
    assert (∃ p sock2, extract_socket_payload (E:=ClientError) sock1 = Ok (p, sock2)) as (p & sock2 & Ee).
    { unfold extract_socket_payload. destruct (can_recv sock1) eqn:Ecr; [|eauto].
      destruct (recv_can _ Ecr) as [[d k] Er]. rewrite Er. cbn. eauto. }
    rewrite (mthen_step _ _ _ s1 (p, sock2)) by (unfold mlift; by rewrite Ee). apply extract_given in Ee.
    erewrite (mthen_step _ _ s1) by done. destruct p as [payload|].
    - erewrite mthen_step by done. cbn. eexists (set_state Relaying c1), sock2, _. split; [reflexivity|]. split_and!; [|done|done|congruence].
      split; cbn; [by apply lookup_insert_eq|]. split; [apply list_lookup_insert_eq; by rewrite length_insert|].
      rewrite list_lookup_alter_eq, Hr. eexists. by split.
    - eexists c1, sock2, _. split; [reflexivity|]. split_and!; [|done|done|congruence].
      split; cbn; [by apply lookup_insert_eq|]. split; [apply list_lookup_insert_eq; by rewrite length_insert|by exists r0]. }
  unfold process_dirty_handle in H. rewrite (mthen_step _ _ _ s2 tt E2) in H. pose proof Hs2 as (Hc2 & Hsk2 & _).
  rewrite (mthen_step _ _ _ s2 sock'), (mthen_step _ _ _ s2 (Some c')) in H by (unfold get_sock, get_ctx, mthen, mget; by rewrite ?Hsk2, ?Hc2).
  destruct (can_recv sock' || _) in H; unfold mret, mlift, mupd in H; injection H as <- <-; (split; [done|]); by exists c', sock'.
Qed.

(** C6: The backlog drains.  When the stack has made room, the next turn of the loop hands the whole
    backlog of a connection over to the socket, and nothing else: a slot with a backlog is always
    marked, whatever the other slots do in the same turn does not disturb it, and it is visited. *)
Theorem backlog_drains `{!SmoltcpLaws TS, !EtherParseLaws P, !UpstreamLaws U} s env now h i r c sock sock1 :
  loop_reachable macos s → event_ok macos s (EvTimer env now) → lp_ctxs s !! h = Some c → lp_sockets s !! h = Some sock → cx_uplink_tx c = Some i →
  lp_relays s !! i = Some r → ry_phase r ≠ RelayFinished → cx_downlink_pending c ≠ [] →
  delivery_kept env → can_send (pe_sock env h sock) = true →
  send_slice (pe_sock env h sock) (cx_downlink_pending c) = Some (len (cx_downlink_pending c), sock1) →
  ∃ s' c' sock', loop_step macos (EvTimer env now) s = (s', Ok tt) ∧ lp_ctxs s' !! h = Some c' ∧ lp_sockets s' !! h = Some sock' ∧ cx_uplink_tx c' = Some i ∧
    cx_downlink_pending c' = [] ∧ given sock' = given sock ++ cx_downlink_pending c.
Proof.
  intros Hr He Hc Hs Htx Hri Hph Hp Hk Hcs Es. pose proof (reachable_ok macos s Hr) as Hok.
  destruct (loop_step_ok macos (EvTimer env now) s Hok He) as (s' & E & _). exists s'. rewrite E.
  destruct He as [_ Ho]. destruct Hok as [_ Hd]. specialize (Hd h c Hc Hp).
  cbn [loop_step] in E. unfold on_timer in E.
  set (φ := λ s2 : Loop, slot_is h i c (pe_sock env h sock) s2 ∧ lp_dirty s2 = lp_dirty s).
  assert (∃ s2, poll_and_flush macos env s = (s2, Ok tt) ∧ φ s2) as (s2 & E2 & Hs2 & Hd2).
  { unfold poll_and_flush. rewrite (mthen_step _ _ _ (iface_poll macos env s).1 tt) by done.
    erewrite mthen_step by done. unfold mthen, dev_flush. destruct (flush_tx _ _) as [d [|]]; unfold mret, mlift, mupd;
      (eexists; split; [reflexivity|]; split; [|done]; split; [done|]; split; [cbn; by rewrite list_lookup_imap, Hs|by exists r]). }
  rewrite (mthen_step _ _ _ s2 tt E2) in E. unfold process_dirty_relay in E. rewrite (mthen_step _ _ _ s2 s2) in E by done.
  rewrite Hd2 in E. assert (NoDup (pe_order env (elements (lp_dirty s)))) as Hnd by (rewrite (Ho _); apply NoDup_elements).
  assert (h ∈ pe_order env (elements (lp_dirty s))) as Hin by (rewrite (Ho _); by apply elem_of_elements).
  apply list_elem_of_split in Hin as (hs1 & hs2 & Hsp). rewrite Hsp in E, Hnd.
  apply NoDup_app in Hnd as (_ & Hn1 & [Hn2 _]%NoDup_cons).
  assert (h ∉ hs1) as Hn1' by (intros Hx; apply (Hn1 h Hx); by left).
  destruct (process_dirty_handles_app now hs1 (h :: hs2) s2 s' E) as (s3 & E3 & E4).
  pose proof (others_dirty h i c (pe_sock env h sock) now hs1 Hn1' s2 Hs2) as Hs3. rewrite E3 in Hs3. cbn [fst] in Hs3.
  cbn [process_dirty_handles] in E4. destruct (process_dirty_handle now h s3) as [s4 r4] eqn:E5. unfold mthen in E4. rewrite E5 in E4.
  destruct (own_dirty now h i c (pe_sock env h sock) sock1 s3 s4 r4 E5) as (-> & c' & sock' & Hs4 & Ht & Hp' & Hg); try done.
  { by intros ->. }
  pose proof (others_dirty h i c' sock' now hs2 Hn2 s4 Hs4) as (Hc5 & Hs5 & _). rewrite E4 in Hc5, Hs5.
  exists c', sock'. split_and!; try done. by rewrite Hg, Hk.
Qed.

End downlink.

(** ** A run

    The server answers with three bytes over a socket that has room for two, and then with a fourth. *)

#[local] Instance demo_delivery : DeliveryLog demo_stack.
Proof.
  apply (Build_DeliveryLog demo_stack dk_sent); cbn.
  - intros port s H. by destruct (_ || _); simplify_eq/=.
  - intros _ port s' H. by destruct (_ || _); simplify_eq/=.
  - intros s l n s' H. by destruct (demo_open s); simplify_eq/=.
  - intros s data s' H. by destruct (demo_open s); simplify_eq/=.
  - intros s l [H _]%andb_true_iff. rewrite H. eauto.
Defined.

(** The application connects to socket 0, sends [data] and has [room] for the answer. *)
Definition connects (data : list byte) (room : Z) : @poll_env demo_stack :=
  mk_poll_env (λ h s, if bool_decide (h = 0%nat)
                      then mk_demo_sock TsEstablished data room (dk_sent s) (Some (V4 demo_fake 443)) else s) [] [] (λ l, l).

Definition down_events (first last : list byte) : list demo_event :=
  [EvRx (Some demo_query) quiet 1; EvRx (Some (demo_syn 443)) (connects [x16; x03] 2) 2; EvTask 0%nat; EvDone 3;
   EvRelay 0%nat (RelayLocal true); EvRelay 0%nat (RelayRemote (Some first) 10); EvGlobal quiet 4;
   EvRelay 0%nat (RelayRemote (Some last) 10)].

Definition down_state (first last : list byte) : demo_loop := demo_run (down_events first last).
Definition down_history (first last : list byte) : history := history_run false (down_events first last) demo_start (mk_history [] []).

Lemma connects_ok data room : order_ok (connects data room) ∧ delivery_kept (connects data room).
Proof. split; [by intros l|]. intros h s. cbn. by case_bool_decide. Qed.

Lemma down_run_reachable first last :
  (loop_run false (down_events first last) demo_start).2 = Ok tt → down_reachable false (down_history first last) (down_state first last).
Proof.
  intros H. apply history_run_reachable; [clear H|exact H|apply dr_init].
  unfold down_events. apply Forall_cons_2; [split; by intros ?|].
  apply Forall_cons_2; [exact (connects_ok [x16; x03] 2)|].
  repeat (apply Forall_cons_2; [done|]). apply Forall_nil_2.
Qed.

Lemma down_reachable_data : down_reachable false (down_history [x17; x18; x19] [x20]) (down_state [x17; x18; x19] [x20]).
Proof. apply down_run_reachable. vm_compute. reflexivity. Qed.
Lemma down_reachable_eof : down_reachable false (down_history [x17; x18; x19] []) (down_state [x17; x18; x19] []).
Proof. apply down_run_reachable. vm_compute. reflexivity. Qed.

Lemma downlink_exact_witness :
  ∃ c sock, lp_ctxs (down_state [x17; x18; x19] [x20]) !! 0%nat = Some c ∧ lp_sockets (down_state [x17; x18; x19] [x20]) !! 0%nat = Some sock ∧
    given sock = [x17; x18] ∧ cx_downlink_pending c = [x19] ∧ lp_global (down_state [x17; x18; x19] [x20]) = [(0%nat, [x20])] ∧
    given sock ++ cx_downlink_pending c ++ concat (under 0%nat (lp_global (down_state [x17; x18; x19] [x20]))) = [x17; x18; x19; x20].
Proof.
  destruct (lp_ctxs (down_state [x17; x18; x19] [x20]) !! 0%nat) as [c|] eqn:Hc; [|vm_compute in Hc; discriminate Hc].
  destruct (lp_sockets (down_state [x17; x18; x19] [x20]) !! 0%nat) as [sock|] eqn:Hs; [|vm_compute in Hs; discriminate Hs].
  assert (cx_uplink_tx c = Some 0%nat ∧ cx_downlink_pending c = [x19] ∧ given sock = [x17; x18]) as (Ht & Hp & Hg).
  { vm_compute in Hc, Hs. injection Hc as <-. injection Hs as <-. split_and!; reflexivity. }
  pose proof (downlink_exact false (down_history [x17; x18; x19] [x20]) (down_state [x17; x18; x19] [x20]) 0%nat c sock down_reachable_data Hc Hs) as H.
  rewrite Ht in H. destruct H as [_ H]. exists c, sock. split; [reflexivity|]. split; [reflexivity|]. split; [exact Hg|]. split; [exact Hp|].
  split; [vm_compute; reflexivity|]. rewrite H by (vm_compute; reflexivity). vm_compute. reflexivity.
Defined.

(** The same answer, but the server closes after three bytes: the third never reaches the application. *)
Lemma eof_discards_backlog_witness :
  ∃ s' c', loop_step false (EvGlobal quiet 5) (down_state [x17; x18; x19] []) = (s', Ok tt) ∧
    concat (under 0%nat (hy_sent (down_history [x17; x18; x19] []))) = [x17; x18; x19] ∧
    lp_ctxs s' !! 0%nat = Some c' ∧ cx_state c' = Listening ∧ cx_downlink_pending c' = [].
Proof.
  destruct (loop_step false (EvGlobal quiet 5) (down_state [x17; x18; x19] [])) as [s' r] eqn:E.
  assert (r = Ok tt) as ->.
  { apply (f_equal snd) in E. vm_compute in E. rewrite <-E. reflexivity. }
  destruct (lp_ctxs (down_state [x17; x18; x19] []) !! 0%nat) as [c|] eqn:Hc; [|vm_compute in Hc; discriminate Hc].
  destruct (lp_sockets (down_state [x17; x18; x19] []) !! 0%nat) as [sock|] eqn:Hs; [|vm_compute in Hs; discriminate Hs].
  assert (cx_uplink_tx c = Some 0%nat) as Ht by (vm_compute in Hc; injection Hc as <-; reflexivity).
  destruct (eof_discards_backlog false (down_history [x17; x18; x19] []) (down_state [x17; x18; x19] []) quiet 5 s' 0%nat [] c sock 0%nat
    down_reachable_eof ltac:(vm_compute; reflexivity) Hc Hs Ht ltac:(vm_compute; reflexivity) E)
    as [_ (sock' & c' & _ & _ & Hc' & Hst & Hp)].
  exists s', c'. split; [reflexivity|]. split; [vm_compute; reflexivity|]. split; [exact Hc'|]. split; [exact Hst|exact Hp].
Defined.

(** The demo connection has a byte in its backlog; the application reads, and the stack has room again. *)
Definition drains : @poll_env demo_stack := connects [] 10.

Lemma down_loop_reachable : loop_reachable false (down_state [x17; x18; x19] [x20]).
Proof.
  assert (loop_reachable false demo_start) as H by (by apply lr_init).
  unfold down_state, demo_run, down_events. do 2 demo_next H demo_rx. do 6 demo_next H demo_free.
  rewrite demo_nil. exact H.
Qed.

Lemma backlog_drains_witness :
  ∃ s' c' sock', loop_step false (EvTimer drains 9) (down_state [x17; x18; x19] [x20]) = (s', Ok tt) ∧
    lp_ctxs s' !! 0%nat = Some c' ∧ lp_sockets s' !! 0%nat = Some sock' ∧ cx_downlink_pending c' = [] ∧
    given sock' = [x17; x18; x19].
Proof.
  destruct (lp_ctxs (down_state [x17; x18; x19] [x20]) !! 0%nat) as [c|] eqn:Hc; [|vm_compute in Hc; discriminate Hc].
  destruct (lp_sockets (down_state [x17; x18; x19] [x20]) !! 0%nat) as [sock|] eqn:Hs; [|vm_compute in Hs; discriminate Hs].
  destruct (lp_relays (down_state [x17; x18; x19] [x20]) !! 0%nat) as [r|] eqn:Hr; [|vm_compute in Hr; discriminate Hr].
  assert (cx_uplink_tx c = Some 0%nat ∧ cx_downlink_pending c = [x19]) as [Ht Hp].
  { vm_compute in Hc. injection Hc as <-. split; reflexivity. }
  assert (ry_phase r ≠ RelayFinished) as Hph by (vm_compute in Hr; injection Hr as <-; discriminate).
  assert (given sock = [x17; x18]) as Hg by (vm_compute in Hs; injection Hs as <-; reflexivity).
  destruct (backlog_drains false (down_state [x17; x18; x19] [x20]) drains 9 0 0 r c sock
    (mk_demo_sock TsEstablished [] 9 [x17; x18; x19] (Some (V4 demo_fake 443))) down_loop_reachable)
    as (s' & c' & sock' & E & Hc' & Hs' & _ & Hp' & Hg').
  - split; [apply room_b_ok; vm_compute; reflexivity|exact (proj1 (connects_ok [] 10))].
  - exact Hc.
  - exact Hs.
  - exact Ht.
  - exact Hr.
  - exact Hph.
  - rewrite Hp. discriminate.
  - exact (proj2 (connects_ok [] 10)).
  - reflexivity.
  - rewrite Hp. vm_compute in Hs. injection Hs as <-. reflexivity.
  - exists s', c', sock'. split; [exact E|]. split; [exact Hc'|]. split; [exact Hs'|]. split; [exact Hp'|].
    rewrite Hg', Hg, Hp. reflexivity.
Defined.
