(* ===== verification/RelayTask.v ===== *)
(** * RelayTask: the relay task over a REALITY stream ([run_relay] of [src/client_tun.rs])

    [ClientTun] runs a relay task one action at a time and takes a write for granted.  Here the body of
    [run_relay] is polled over the [RealityStream] of [RealityStream]: the [select!] over the channel, the
    stream and the idle timer, the loop of [write_all] over [poll_write], and [shutdown].  The file shows
    that what the server decrypts is exactly what the task took from its channel, that what the loop gets
    is exactly what the server sent, and that the polled task performs the actions of [ClientTun]. *)

From S2P Require Import Prelude Text Shared Dns FakeIp TuicCodec Frag Assoc Metrics UdpRelay Device TunSlot Upstream ClientTun.
From S2P Require Import Crypto Record Auth KeySchedule Vless Reassembly RealityStream.

Inductive task_phase : Type :=
| TkSelect
| TkWriting (rest : list byte)
| TkShutdown
| TkGone
| TkAborted.

(** [tk_rx] is the content of the channel and [tk_open] whether its sender lives; [tk_taken] are the
    messages taken from it, [tk_back] what was sent to the loop. *)
Record relay_task := mk_relay_task {
  tk_stream : RealityStream;
  tk_rx : list (list byte);
  tk_open : bool;
  tk_phase : task_phase;
  tk_taken : list (list byte);
  tk_back : list (list byte)
}.

Definition tk_at (st : RealityStream) (ph : task_phase) (k : relay_task) : relay_task :=
  mk_relay_task st (tk_rx k) (tk_open k) ph (tk_taken k) (tk_back k).
Definition tk_send_back (data : list byte) (k : relay_task) : relay_task :=
  mk_relay_task (tk_stream k) (tk_rx k) (tk_open k) (tk_phase k) (tk_taken k) (tk_back k ++ [data]).

Section task.
Context `{C : Crypto}.

(** A poll of [write_all(rest)]: [Ready] when everything was accepted, else what is left. *)
Fixpoint write_all_poll (fuel : nat) (rest : list byte) : SM (poll unit * list byte) :=
  match rest with
  | [] => mlift (Ok (Ready tt, []))
  | _ =>
      match fuel with
      | O => mlift Panic
      | S fuel =>
          let! r := poll_write rest in
          match r with
          | Pending => mlift (Ok (Pending, rest))
          | Ready n => if bool_decide (n = 0) then mlift (Err WriteZero) else write_all_poll fuel (zdrop n rest)
          end
      end
  end.

(** The branch of the [select!] that took [rest] from the channel, polled again. *)
Definition continue_write (rest : list byte) (k : relay_task) : relay_task :=
  let '(st, r) := write_all_poll (length rest) rest (tk_stream k) in
  match r with
  | Ok (Ready _, _) => tk_at st TkSelect k
  | Ok (Pending, rest) => tk_at st (TkWriting rest) k
  | Err _ => tk_at st TkShutdown k
  | Panic => tk_at st TkAborted k
  end.

(** [rx.recv()]; [None] when it has to wait. *)
Definition poll_local (k : relay_task) : option relay_task :=
  match tk_rx k with
  | m :: rx =>
      Some (continue_write m (mk_relay_task (tk_stream k) rx (tk_open k) (tk_phase k) (tk_taken k ++ [m]) (tk_back k)))
  | [] => if tk_open k then None else Some (tk_at (tk_stream k) TkShutdown k)
  end.

(** [stream.read(&mut buf)], and whether the branch ran.  The loop's queue has room. *)
Definition poll_remote (k : relay_task) : relay_task * bool :=
  let '(st, r) := poll_read RELAY_BUF (tk_stream k) in
  match r with
  | Ok Pending => (tk_at st (tk_phase k) k, false)
  | Ok (Ready []) => (tk_send_back [] (tk_at st TkShutdown k), true)
  | Ok (Ready data) => (tk_send_back data (tk_at st TkSelect k), true)
  | Err _ => (tk_at st TkShutdown k, true)
  | Panic => (tk_at st TkAborted k, true)
  end.

(** One poll of the task: [select!] tries its branches in a random order; [sock] is what the shutdown of
    the socket returns. *)
Definition task_poll (local_first : bool) (sock : res io_error (poll unit)) (k : relay_task) : relay_task :=
  match tk_phase k with
  | TkSelect =>
      if local_first then match poll_local k with Some k => k | None => (poll_remote k).1 end
      else let '(k, ran) := poll_remote k in
           if ran then k else match poll_local k with Some k => k | None => k end
  | TkWriting rest => continue_write rest k
  | TkShutdown =>
      let '(st, r) := poll_shutdown sock (tk_stream k) in
      match r with
      | Ok Pending => tk_at st TkShutdown k
      | Ok (Ready _) | Err _ => tk_at st TkGone k
      | Panic => tk_at st TkAborted k
      end
  | _ => k
  end.

Inductive task_event : Type :=
| TkPoll (local_first : bool) (sock : res io_error (poll unit))
| TkIdle
| TkReady (rin : list rd_poll) (win : list wr_poll)
| TkMessage (m : list byte)
| TkSenderGone.

Definition task_step (e : task_event) (k : relay_task) : relay_task :=
  match e with
  | TkPoll local_first sock => task_poll local_first sock k
  | TkIdle => match tk_phase k with TkSelect => tk_at (tk_stream k) TkShutdown k | _ => k end
  | TkReady rin win =>
      let st := tk_stream k in
      tk_at (set_sockets (rs_rin st ++ rin) (rs_win st ++ win) (rs_wout st) st) (tk_phase k) k
  | TkMessage m =>
      mk_relay_task (tk_stream k) (tk_rx k ++ [m]) (tk_open k) (tk_phase k) (tk_taken k) (tk_back k)
  | TkSenderGone => mk_relay_task (tk_stream k) (tk_rx k) false (tk_phase k) (tk_taken k) (tk_back k)
  end.

Definition task_run (es : list task_event) (k : relay_task) : relay_task := fold_left (λ k e, task_step e k) es k.

(** ** The idle timer

    Each turn of the loop builds a new [sleep]: it counts from the last turn, which is from the last branch
    that ran to its end.  [tt_since] is when the present turn began. *)
Definition RELAY_IDLE_TIMEOUT_SECS : Z := 90.
Record timed_task := mk_timed_task { tt_task : relay_task; tt_since : Z }.

(** Whether a branch took a message or sent data to the loop, or the write it waited for is done. *)
Definition branch_ended (k k' : relay_task) : bool :=
  match tk_phase k, tk_phase k' with
  | TkWriting _, TkSelect => true
  | TkSelect, TkSelect =>
      negb (bool_decide (len (tk_taken k') = len (tk_taken k)) && bool_decide (len (tk_back k') = len (tk_back k)))
  | _, _ => false
  end.

Definition timed_step (now : Z) (e : task_event) (t : timed_task) : timed_task :=
  match e with
  | TkIdle =>
      if bool_decide (tt_since t + RELAY_IDLE_TIMEOUT_SECS ≤ now)
      then mk_timed_task (task_step TkIdle (tt_task t)) (tt_since t) else t
  | _ =>
      let k := task_step e (tt_task t) in
      mk_timed_task k (if branch_ended (tt_task t) k then now else tt_since t)
  end.
Definition timed_run (es : list (Z * task_event)) (t : timed_task) : timed_task :=
  fold_left (λ t e, timed_step e.1 e.2 t) es t.

(** The task [spawn_remote_relay] starts. *)
Definition task_new (st : RealityStream) (q : list (list byte)) : relay_task :=
  mk_relay_task st q true TkSelect [] [].

(** ** Lemmas *)

#[local] Arguments released : simpl never.

(** What was taken and is not yet in a record. *)
Definition unsent (k : relay_task) : list byte := match tk_phase k with TkWriting rest => rest | _ => [] end.
(** Bytes that may still have to be sealed. *)
Definition to_write (k : relay_task) : Z := len (unsent k) + len (concat (tk_rx k)).

Context `{!CryptoLaws C}.

(** The task and the server in step: [base] was sent before the task started, [avail] is what the server
    had to say then. *)
Record in_step (k : relay_task) (d0 : dir) (base avail : list byte) (later : list byte) (budget : Z) : Prop := {
  is_dirs : ∃ outs its, synced (tk_stream k) d0 outs its later ∧
    items_data outs ++ unsent k = base ++ concat (tk_taken k) ∧
    concat (tk_back k) ++ released (tk_stream k) (items_data its) = avail ∧
    rk_seq (rs_send_keys (tk_stream k)) + to_write k + budget + Z.of_nat (requests its) < 2 ^ 64 - 1;
  is_alive : tk_phase k ≠ TkAborted;
  is_flushed : tk_phase k = TkGone → rs_write_pending (tk_stream k) = []
}.

Lemma write_all_poll_sync rest st d0 outs its later fuel :
  synced st d0 outs its later → (length rest ≤ fuel)%nat →
  rk_seq (rs_send_keys st) + len rest + Z.of_nat (requests its) < 2 ^ 64 - 1 →
  ∃ st' p rest' outs', write_all_poll fuel rest st = (st', Ok (p, rest')) ∧ synced st' d0 outs' its later ∧
    items_data outs' ++ rest' = items_data outs ++ rest ∧ (∀ data, released st' data = released st data) ∧
    rk_seq (rs_send_keys st') + len rest' ≤ rk_seq (rs_send_keys st) + len rest ∧
    (p = Ready tt → rest' = []).
Proof.
  revert rest st outs. induction fuel as [|fuel IH]; intros rest st outs Hsy Hf Hb.
  { destruct rest; [|cbn in Hf; lia]. cbn. eexists st, _, _, outs. split; [done|]. split_and!; try done. }
  destruct rest as [|b rest']; [cbn; eexists st, _, _, outs; split; [done|]; split_and!; done|].
  set (rest := b :: rest') in *. cbn [write_all_poll]. unfold rest at 1. fold rest.
  assert (0 < len rest) as Hpos by (unfold rest; rewrite len_cons; pose proof (len_nonneg rest'); lia).
  destruct (poll_write_sync st d0 outs its later rest Hsy) as (s1 & r & E & Hrel1 & Hr); [lia|].
  rewrite (mthen_step _ _ _ _ _ E). destruct r as [n|].
  2:{ destruct Hr as [Hsy1 Hk]. eexists s1, _, _, outs. split; [done|]. rewrite Hk. split_and!; try done. }
  destruct Hr as (Hn & Hsy1 & Hk). rewrite bool_decide_false in Hsy1 by done.
  rewrite bool_decide_false by (unfold MAX_PLAINTEXT in Hn; lia).
  assert (1 ≤ n ≤ len rest) as Hn' by (unfold MAX_PLAINTEXT in Hn; lia).
  destruct (IH (zdrop n rest) s1 _ Hsy1) as (s2 & p & rest2 & outs2 & E2 & Hsy2 & Hd2 & Hrel2 & Hk2 & Hp2).
  { unfold zdrop. rewrite length_drop. lia. }
  { rewrite len_zdrop by lia. lia. }
  exists s2, p, rest2, outs2. split; [done|]. split_and!; try done.
  - rewrite Hd2, items_data_app. cbn. rewrite app_nil_r, <-app_assoc, ztake_zdrop. done.
  - intros data. by rewrite Hrel2, Hrel1.
  - rewrite len_zdrop in Hk2 by lia. lia.
Qed.

Lemma continue_write_ok rest k d0 base avail later budget outs its :
  synced (tk_stream k) d0 outs its later → items_data outs ++ rest = base ++ concat (tk_taken k) →
  concat (tk_back k) ++ released (tk_stream k) (items_data its) = avail → 0 ≤ budget →
  rk_seq (rs_send_keys (tk_stream k)) + (len rest + len (concat (tk_rx k))) + budget + Z.of_nat (requests its) < 2 ^ 64 - 1 →
  in_step (continue_write rest k) d0 base avail later budget.
Proof.
  intros Hsy Hd Hb H0 Hr. unfold continue_write. pose proof (len_nonneg (concat (tk_rx k))).
  destruct (write_all_poll_sync rest (tk_stream k) d0 outs its later (length rest) Hsy ltac:(done))
    as (st & p & rest' & outs' & -> & Hsy' & Hd' & Hrel & Hk & Hp); [lia|].
  destruct p as [[]|].
  - specialize (Hp eq_refl). subst rest'. rewrite app_nil_r in Hd'. split; [|done|done]. exists outs', its.
    unfold to_write. cbn. rewrite app_nil_r, Hd', Hrel. split_and!; try done. rewrite len_nil in *. lia.
  - split; [|done|done]. exists outs', its. unfold to_write. cbn. rewrite Hd', Hrel. split_and!; try done. lia.
Qed.

Lemma poll_local_ok k k' d0 base avail later budget :
  in_step k d0 base avail later budget → 0 ≤ budget → tk_phase k = TkSelect → poll_local k = Some k' →
  in_step k' d0 base avail later budget.
Proof.
  intros [(outs & its & Hsy & Hd & Hb & Hr) Ha Hf] H0 Hph. unfold poll_local. unfold to_write, unsent in *.
  rewrite Hph in Hd, Hr. rewrite app_nil_r in Hd. destruct (tk_rx k) as [|m rx] eqn:Erx.
  - destruct (tk_open k); [done|]. intros [= <-]. split; [|done|done]. exists outs, its. unfold to_write. cbn.
    rewrite Erx. cbn. rewrite ?app_nil_r. split_and!; done.
  - intros [= <-]. eapply (continue_write_ok m); cbn; try done.
    + rewrite concat_app, Hd, <-app_assoc. cbn. by rewrite app_nil_r.
    + cbn in Hr. rewrite len_app, len_nil in Hr. lia.
Qed.

Lemma poll_remote_ok k d0 base avail later budget :
  in_step k d0 base avail later budget → tk_phase k = TkSelect →
  in_step (poll_remote k).1 d0 base avail later budget ∧ tk_phase (poll_remote k).1 = TkSelect ∧
  tk_rx (poll_remote k).1 = tk_rx k ∧ tk_open (poll_remote k).1 = tk_open k.
Proof.
  intros [(outs & its & Hsy & Hd & Hb & Hr) Ha Hf] Hph. unfold poll_remote.
  destruct (poll_read_sync RELAY_BUF (tk_stream k) d0 outs its later Hsy ltac:(done))
    as (st & r & its' & n & -> & Hn & Hsy' & Hres & Hk).
  destruct (replies_replicate n) as [_ Hrep].
  assert (items_data (outs ++ replicate n reply) = items_data outs) as Hout by (by rewrite items_data_app, Hrep, app_nil_r).
  unfold to_write, unsent in *. rewrite Hph in Hd, Hr. destruct r as [bs|].
  - destruct Hres as [Hne Hrel]. destruct bs as [|b bs]; [done|]. cbn. split_and!; try done. split; [|done|done].
    exists (outs ++ replicate n reply), its'. unfold to_write. cbn. rewrite Hout. split_and!; try done; [|lia].
    rewrite concat_app. cbn. rewrite app_nil_r, <-app_assoc. by rewrite Hrel.
  - destruct Hres as (Hrel & _). cbn. split_and!; try done. rewrite Hph. split; [|done|done].
    exists (outs ++ replicate n reply), its'. unfold to_write. cbn. rewrite Hout, Hrel. split_and!; try done. lia.
Qed.

Lemma task_poll_ok local_first sock k d0 base avail later budget :
  in_step k d0 base avail later budget → 0 ≤ budget → sock ≠ Panic →
  in_step (task_poll local_first sock k) d0 base avail later budget.
Proof.
  intros Hi H0 Hsock. pose proof Hi as [(outs & its & Hsy & Hd & Hb & Hr) Ha Hf]. unfold task_poll.
  destruct (tk_phase k) as [|rest| | |] eqn:Hph; try done.
  - destruct (poll_remote_ok k d0 base avail later budget Hi Hph) as (Hi' & Hph' & Hrx & Hop). destruct local_first.
    + destruct (poll_local k) as [k'|] eqn:E; [by eapply (poll_local_ok k)|done].
    + destruct (poll_remote k) as [k1 ran]. cbn in *. destruct ran; [done|].
      destruct (poll_local k1) as [k'|] eqn:E; [by eapply (poll_local_ok k1)|done].
  - unfold to_write, unsent in *. rewrite Hph in *. by eapply continue_write_ok.
  - unfold poll_shutdown. destruct (poll_flush_sync _ _ _ _ _ Hsy) as (st & p & E & Hsy' & Hp & _ & _ & _ & Hk & Hrel).
    rewrite (mthen_step _ _ _ _ _ E). unfold to_write, unsent in *. rewrite Hph in *.
    assert (∀ ph, ph = TkShutdown ∨ (ph = TkGone ∧ p = Ready tt) → in_step (tk_at st ph k) d0 base avail later budget) as Hw.
    { intros ph Hc. split.
      - exists outs, its. unfold to_write, unsent. destruct Hc as [->|[-> _]]; cbn; rewrite Hrel, Hk; split_and!; done.
      - by destruct Hc as [->|[-> _]].
      - destruct Hc as [->|[-> ->]]; [done|]. intros _. by apply Hp. }
    destruct p as [[]|]; [|by apply Hw; left]. destruct sock as [[[]|]|e|]; [apply Hw; auto..|done].
Qed.

Definition task_event_ok (e : task_event) : Prop :=
  match e with
  | TkPoll _ sock => sock ≠ Panic
  | TkReady rin win => Forall rd_ok rin ∧ Forall wr_ok win
  | _ => True
  end.

Definition event_bytes (e : task_event) : list byte := match e with TkReady rin _ => rd_bytes rin | _ => [] end.
Definition event_message (e : task_event) : list (list byte) := match e with TkMessage m => [m] | _ => [] end.

Lemma task_step_ok e k d0 base avail later budget :
  in_step k d0 base avail (event_bytes e ++ later) (len (concat (event_message e)) + budget) → 0 ≤ budget → task_event_ok e →
  in_step (task_step e k) d0 base avail later budget.
Proof.
  intros Hi H0 He. destruct e as [lf sock| |rin win|m|]; cbn [task_step event_bytes event_message] in *.
  - apply task_poll_ok; done.
  - destruct (tk_phase k) eqn:Hph; try done. destruct Hi as [(outs & its & Hsy & Hd & Hb & Hr) Ha Hf].
    split; [|done|done]. exists outs, its. unfold to_write, unsent in *. rewrite Hph in *. cbn. split_and!; done.
  - destruct He as [Hrin Hwin]. destruct Hi as [(outs & its & Hsy & Hd & Hb & Hr) Ha Hf]. split; [|done|done].
    exists outs, its. split_and!; [|done..]. destruct Hsy as [[dl Hin] Hits Hout Hrs Hs Hri Hwi].
    split; try done; [|by apply Forall_app..]. exists dl. cbn [tk_at tk_stream].
    cbn [rs_server_ap_secret rs_recv_keys rs_read_raw rs_rin set_sockets]. rewrite rd_bytes_app, <-!app_assoc in *. done.
  - destruct Hi as [(outs & its & Hsy & Hd & Hb & Hr) Ha Hf]. split; [|done|done]. exists outs, its. split_and!; try done.
    unfold to_write, unsent in *. cbn in *. rewrite concat_app. cbn. rewrite len_app. lia.
  - destruct Hi as [(outs & its & Hsy & Hd & Hb & Hr) Ha Hf]. split; [|done|done]. by exists outs, its.
Qed.

(** The channel is first in, first out. *)
Lemma task_step_channel e k :
  tk_taken (task_step e k) ++ tk_rx (task_step e k) = (tk_taken k ++ tk_rx k) ++ event_message e.
Proof.
  assert (∀ rest k, tk_taken (continue_write rest k) = tk_taken k ∧ tk_rx (continue_write rest k) = tk_rx k) as Hw.
  { intros rest k0. unfold continue_write. by repeat case_match. }
  assert (∀ k k', poll_local k = Some k' → tk_taken k' ++ tk_rx k' = tk_taken k ++ tk_rx k) as Hl.
  { intros k0 k'. unfold poll_local. destruct (tk_rx k0) as [|m rx] eqn:E.
    - destruct (tk_open k0); [done|]. intros [= <-]. cbn. by rewrite E.
    - intros [= <-]. match goal with |- context [continue_write ?r ?x] => destruct (Hw r x) as [-> ->] end.
      cbn. by rewrite <-app_assoc. }
  assert (∀ k, tk_taken (poll_remote k).1 = tk_taken k ∧ tk_rx (poll_remote k).1 = tk_rx k) as Hr.
  { intros k0. unfold poll_remote. by repeat case_match. }
  destruct e as [lf sock| |rin win|m|]; cbn [task_step event_message]; rewrite ?app_nil_r; [| |done| |done].
  - unfold task_poll. destruct (Hr k) as [Hr1 Hr2]. destruct (tk_phase k); try done.
    + destruct lf; [destruct (poll_local k) eqn:E; [by apply Hl|by rewrite Hr1, Hr2]|].
      destruct (poll_remote k) as [k1 []]; cbn in *; [by rewrite Hr1, Hr2|].
      destruct (poll_local k1) eqn:E; [apply Hl in E; by rewrite E, Hr1, Hr2|by rewrite Hr1, Hr2].
    + destruct (Hw rest k) as [-> ->]. done.
    + by repeat case_match.
  - by destruct (tk_phase k).
  - cbn. by rewrite app_assoc.
Qed.

Lemma task_run_ok es k d0 base avail later :
  in_step k d0 base avail (concat (event_bytes <$> es) ++ later) (len (concat (concat (event_message <$> es)))) →
  Forall task_event_ok es →
  in_step (task_run es k) d0 base avail later 0 ∧
  tk_taken (task_run es k) ++ tk_rx (task_run es k) = (tk_taken k ++ tk_rx k) ++ concat (event_message <$> es).
Proof.
  revert k. induction es as [|e es IH]; intros k Hi He; cbn [task_run fold_left]; [by rewrite app_nil_r|].
  apply Forall_cons in He as [He Hes]. cbn [fmap list_fmap concat] in Hi. rewrite <-app_assoc, concat_app, len_app in Hi.
  apply task_step_ok in Hi; [|apply len_nonneg|done]. destruct (IH _ Hi Hes) as [Hi' Hc]. split; [done|].
  change (fold_left (λ k e, task_step e k) es (task_step e k)) with (task_run es (task_step e k)).
  rewrite Hc, task_step_channel. cbn. by rewrite <-app_assoc.
Qed.

Lemma task_new_ok es st q d0 outs its later :
  synced st d0 outs its (concat (event_bytes <$> es) ++ later) → Forall task_event_ok es →
  rk_seq (rs_send_keys st) + len (concat (q ++ concat (event_message <$> es))) + Z.of_nat (requests its) < 2 ^ 64 - 1 →
  in_step (task_run es (task_new st q)) d0 (items_data outs) (released st (items_data its)) later 0 ∧
  tk_taken (task_run es (task_new st q)) ++ tk_rx (task_run es (task_new st q)) = q ++ concat (event_message <$> es).
Proof.
  intros Hsy He Hr. apply (task_run_ok es (task_new st q)); [|done]. split; [|done|done]. exists outs, its.
  unfold to_write. cbn. rewrite app_nil_r. split_and!; try done. rewrite concat_app, len_app in Hr. rewrite len_nil. lia.
Qed.

End task.

(** ** Properties *)

(** C13: Over a REALITY stream whose socket neither ends nor fails while the task runs, and brings the
    records of the server, the relay task loses and invents nothing.  However the channel, the socket
    and the polls of the task interleave, and however small the pieces the socket takes, the task takes
    its messages in order; the application records it has sealed and what is left of the message in
    hand are exactly the messages taken; what it sent to the event loop and what it will still read are
    exactly the server's data behind the response header; it never panics; and once it is gone,
    everything is on the wire: the server that opens those records reads exactly the bytes taken. *)
Theorem relay_task_exact `{C : Crypto, !CryptoLaws C} es st q d0 outs its later :
  synced st d0 outs its (concat (event_bytes <$> es) ++ later) → Forall task_event_ok es →
  rk_seq (rs_send_keys st) + len (concat (q ++ concat (event_message <$> es))) + Z.of_nat (requests its) < 2 ^ 64 - 1 →
  let k := task_run es (task_new st q) in
  ∃ outs' its', synced (tk_stream k) d0 outs' its' later ∧
    tk_taken k ++ tk_rx k = q ++ concat (event_message <$> es) ∧
    items_data outs' ++ unsent k = items_data outs ++ concat (tk_taken k) ∧
    concat (tk_back k) ++ released (tk_stream k) (items_data its') = released st (items_data its) ∧
    tk_phase k ≠ TkAborted ∧
    (tk_phase k = TkGone → ∃ d, send_items d0 outs' = Ok (rs_wout (tk_stream k), d) ∧
       items_data outs' = items_data outs ++ concat (tk_taken k)).
Proof.
  intros Hsy He Hr k.
  destruct (task_new_ok es st q d0 outs its later Hsy He Hr) as [[(outs' & its' & Hsy' & Hd & Hb & _) Ha Hf] Hc].
  exists outs', its'. fold k in Hsy', Hd, Hb, Ha, Hf, Hc. split_and!; try done. intros Hg. specialize (Hf Hg).
  exists (rs_client_ap_secret (tk_stream k), rs_send_keys (tk_stream k)). split.
  - pose proof (sy_out _ _ _ _ _ Hsy') as Ho. unfold out_sync in Ho. by rewrite Hf, app_nil_r in Ho.
  - unfold unsent in Hd. by rewrite Hg, app_nil_r in Hd.
Qed.

(** ** The polled task and the relay of the event loop *)

Definition abs_phase (ph : task_phase) : relay_phase :=
  match ph with
  | TkSelect | TkWriting _ => RelayRunning
  | TkShutdown => RelayShutdown
  | TkGone | TkAborted => RelayFinished
  end.

(** ** What the stream, the channel and the timer do to the task, as actions of the event-loop model *)

Section actions.
Context `{C : Crypto}.

(** [write_all(rest)]: a failed write is a failure of the stream, like a failed read; the message counts as
    written when it is taken. *)
Definition write_actions (rest : list byte) (st : RealityStream) : list relay_action :=
  match (write_all_poll (length rest) rest st).2 with
  | Ok _ => []
  | Err _ => [RelayRemote None 0]
  | Panic => [RelayRemote None 0; RelayClose]
  end.

(** [rx.recv()]: the next message, or the closed channel. *)
Definition local_actions (k : relay_task) : option (list relay_action) :=
  match tk_rx k with
  | m :: _ => Some (RelayLocal true :: write_actions m (tk_stream k))
  | [] => if tk_open k then None else Some [RelayLocal true]
  end.

(** [stream.read(&mut buf)]: data, the end of the stream as no bytes, an error; whether the branch runs. *)
Definition read_actions (st : RealityStream) : list relay_action * bool :=
  match (poll_read RELAY_BUF st).2 with
  | Ok Pending => ([], false)
  | Ok (Ready data) => ([RelayRemote (Some data) 0], true)
  | Err _ => ([RelayRemote None 0], true)
  | Panic => ([RelayRemote None 0; RelayClose], true)
  end.

Definition task_actions (e : task_event) (k : relay_task) : list relay_action :=
  match e, tk_phase k with
  | TkPoll local_first _, TkSelect =>
      let '(acts, ran) := read_actions (tk_stream k) in
      if local_first then default acts (local_actions k)
      else if ran then acts else default [] (local_actions (poll_remote k).1)
  | TkPoll _ _, TkWriting rest => write_actions rest (tk_stream k)
  | TkPoll _ sock, TkShutdown =>
      match (poll_shutdown sock (tk_stream k)).2 with Ok Pending => [] | _ => [RelayClose] end
  | TkIdle, TkSelect => [RelayIdle]
  | _, _ => []
  end.

Lemma task_actions_few e k : (length (task_actions e k) ≤ 3)%nat.
Proof.
  assert (∀ rest st, (length (write_actions rest st) ≤ 2)%nat) as Hw.
  { intros. unfold write_actions. case_match; cbn; lia. }
  assert (∀ k, (length (default [] (local_actions k)) ≤ 3)%nat) as Hl.
  { intros k0. unfold local_actions. destruct (tk_rx k0) as [|m rx]; [destruct (tk_open k0); cbn; lia|].
    cbn. specialize (Hw m (tk_stream k0)). lia. }
  assert (∀ st, (length (read_actions st).1 ≤ 3)%nat) as Hr.
  { intros. unfold read_actions. repeat case_match; cbn; lia. }
  unfold task_actions. destruct e as [lf sock| |rin win|m|]; try (cbn; lia).
  - destruct (tk_phase k) as [|rest| | |]; try (cbn; lia).
    + specialize (Hr (tk_stream k)). destruct (read_actions (tk_stream k)) as [acts ran]. cbn in Hr. destruct lf.
      * specialize (Hl k). destruct (local_actions k); cbn in *; lia.
      * destruct ran; [done|]. apply Hl.
    + specialize (Hw rest (tk_stream k)). lia.
    + repeat case_match; cbn; lia.
  - destruct (tk_phase k); cbn; lia.
Qed.

End actions.

Section refine.
Context `{C : Crypto}.
Context {TS : Smoltcp} {P : EtherParse} {U : Type} `{!ProxyUpstream U, !DatagramUpstream U}.
Abbreviation Loop := (@Loop TS U _).
Variable macos : bool.

(** Relay [i] of the loop stands for the task [k]; a message counts as written when it is taken. *)
Record models (s : Loop) (i : nat) (k : relay_task) : Prop := {
  mo_relay : ∃ r, lp_relays s !! i = Some r ∧ ry_queue r = tk_rx k ∧ ry_written r = concat (tk_taken k) ∧
    ry_phase r = abs_phase (tk_phase k);
  mo_open : sender_alive s i = tk_open k
}.

(** The actions [acts] of relay [i] bring the loop from standing for [k] to standing for [k'], with what
    the task sent put in the loop's queue, under the handle of the relay's slot. *)
Definition matched (acts : list relay_action) (s : Loop) (i : nat) (k k' : relay_task) : Prop :=
  ∃ r s' new, lp_relays s !! i = Some r ∧ loop_run macos (EvRelay i <$> acts) s = (s', Ok tt) ∧ models s' i k' ∧
    lp_ctxs s' = lp_ctxs s ∧ lp_sockets s' = lp_sockets s ∧
    tk_back k' = tk_back k ++ new ∧ lp_global s' = lp_global s ++ ((ry_handle r,.) <$> new) ∧
    (∃ r', lp_relays s' !! i = Some r' ∧ ry_handle r' = ry_handle r).

Lemma poll_read_le cap st st' bs :
  0 ≤ cap → poll_read cap st = (st', Ok (Ready bs)) → len bs ≤ cap.
Proof.
  intros Hc. unfold poll_read. rewrite (mthen_step _ _ _ st st) by done. generalize (read_fuel st). intros fuel. revert st.
  induction fuel as [|fuel IH]; intros st; cbn [poll_read_loop]; [done|]. intros H.
  apply mthen_Ok in H as (s1 & p & _ & H). apply mthen_Ok in H as (s2 & s2' & [= <- <-] & H). cbv zeta in H.
  case_bool_decide.
  - apply mthen_Ok in H as (s3 & ? & _ & H). apply mlift_Ok in H as [_ [= <-]].
    pose proof (len_nonneg (rs_plaintext_out s1)). rewrite len_ztake; lia.
  - apply mthen_Ok in H as (s3 & d & _ & H). destruct d as [[c| |]|].
    + apply mthen_Ok in H as (s4 & ? & _ & H). by eapply IH.
    + by eapply IH.
    + apply mlift_Ok in H as [_ [= <-]]. rewrite len_nil. lia.
    + apply mthen_Ok in H as (s4 & e & _ & H). apply mthen_Ok in H as (s5 & s5' & [= <- <-] & H).
      destruct e as [[|b l]| |]; [| |by apply mlift_Ok in H as [_ H]..].
      * case_bool_decide; apply mlift_Ok in H as [_ H]; [|done]. injection H as <-. rewrite len_nil. lia.
      * apply mthen_Ok in H as (s6 & ? & _ & H). by eapply IH.
Qed.

(** What [models] sees of a task. *)
Record same_view (k k' : relay_task) : Prop := {
  sv_rx : tk_rx k' = tk_rx k;
  sv_open : tk_open k' = tk_open k;
  sv_taken : tk_taken k' = tk_taken k;
  sv_back : tk_back k' = tk_back k;
  sv_phase : abs_phase (tk_phase k') = abs_phase (tk_phase k)
}.

Lemma models_view s i k k' : models s i k → same_view k k' → models s i k'.
Proof.
  intros [(r & Hr & Hq & Hw & Hp) Ho] []. split; [exists r; split_and!|]; congruence.
Qed.

Lemma matched_nil s i k k' : models s i k → same_view k k' → matched [] s i k k'.
Proof.
  intros Hm Hv. pose proof Hm as [(r & Hr & _) _]. exists r, s, []. cbn. rewrite !app_nil_r.
  split_and!; try done; [by eapply models_view|apply Hv|by exists r].
Qed.

Lemma loop_run_app es1 es2 (s : Loop) :
  loop_run macos (es1 ++ es2) s = (let! _ := loop_run macos es1 in loop_run macos es2) s.
Proof.
  revert s. induction es1 as [|e es1 IH]; intros s; cbn [loop_run app]; [done|].
  unfold mthen in *. destruct (loop_step macos e s) as [s1 [[]| |]]; [apply IH|done..].
Qed.

Lemma matched_trans a1 a2 s i k k1 k2 :
  matched a1 s i k k1 →
  (∀ s1, models s1 i k1 → len (lp_global s1) = len (lp_global s) + len (tk_back k1) - len (tk_back k) →
     matched a2 s1 i k1 k2) →
  matched (a1 ++ a2) s i k k2.
Proof.
  intros (r & s1 & n1 & Hr & E1 & Hm1 & Hc1 & Hs1 & Hb1 & Hg1 & r1 & Hr1 & Hh1) H2.
  destruct (H2 s1 Hm1) as (r1' & s2 & n2 & Hr1' & E2 & Hm2 & Hc2 & Hs2 & Hb2 & Hg2 & r2 & Hr2 & Hh2).
  { rewrite Hb1, Hg1, !len_app. unfold len. rewrite length_fmap. lia. }
  simplify_eq. exists r, s2, (n1 ++ n2). split_and!; try done; [|congruence..| | |].
  - rewrite fmap_app, loop_run_app. by rewrite (mthen_step _ _ _ _ _ E1).
  - by rewrite Hb2, Hb1, app_assoc.
  - rewrite Hg2, Hg1, fmap_app, app_assoc. by rewrite Hh1.
  - exists r2. split; [done|]. congruence.
Qed.

(** One action that changes relay [i] alone, and perhaps the loop's queue. *)
Lemma matched_one s i k k' r r' a new :
  models s i k → lp_relays s !! i = Some r →
  run_relay i a s = (set_relays (<[i := r']> (lp_relays s)) (set_global (lp_global s ++ ((ry_handle r,.) <$> new)) s), Ok tt) →
  ry_handle r' = ry_handle r → ry_queue r' = tk_rx k' → ry_written r' = concat (tk_taken k') →
  ry_phase r' = abs_phase (tk_phase k') → tk_open k' = tk_open k → tk_back k' = tk_back k ++ new →
  matched [a] s i k k'.
Proof.
  intros [_ Ho] Hr Hs Hh Hq Hw Hp Ho' Hb. assert (<[i := r']> (lp_relays s) !! i = Some r') as Hr'.
  { apply list_lookup_insert_eq. by eapply lookup_lt_Some. }
  eexists r, _, new. split; [done|]. split.
  { cbn [fmap list_fmap loop_run loop_step]. rewrite (mthen_step _ _ _ _ _ Hs). done. }
  split_and!; try done; [|by exists r'].
  split; [by exists r'|]. unfold sender_alive in *. cbn. congruence.
Qed.

Lemma matched_quiet s i k k' r r' a :
  models s i k → lp_relays s !! i = Some r →
  run_relay i a s = (set_relays (<[i := r']> (lp_relays s)) s, Ok tt) →
  ry_handle r' = ry_handle r → ry_queue r' = tk_rx k' → ry_written r' = concat (tk_taken k') →
  ry_phase r' = abs_phase (tk_phase k') → tk_open k' = tk_open k → tk_back k' = tk_back k →
  matched [a] s i k k'.
Proof.
  intros Hm Hr Hs Hh Hq Hw Hp Ho Hb. eapply (matched_one s i k k' r r' a []); try done; [|by rewrite app_nil_r].
  rewrite Hs. cbn. rewrite app_nil_r. by destruct s.
Qed.

(** The actions, one by one. *)
Definition view_at (ph : task_phase) (k : relay_task) : relay_task := tk_at (tk_stream k) ph k.

Ltac relay_act Hri Hp :=
  unfold run_relay; match goal with s : Loop |- _ => rewrite (mthen_step _ _ _ s s) by done end; rewrite Hri, Hp.

Lemma matched_take s i k m rx k' :
  models s i k → abs_phase (tk_phase k) = RelayRunning → tk_rx k = m :: rx →
  same_view (mk_relay_task (tk_stream k) rx (tk_open k) TkSelect (tk_taken k ++ [m]) (tk_back k)) k' →
  matched [RelayLocal true] s i k k'.
Proof.
  intros Hm Hrun Erx []. pose proof Hm as [(r & Hri & Hq & Hw & Hp) Ho]. rewrite Hrun in Hp. rewrite Erx in Hq.
  eapply (matched_quiet s i k _ r (mk_Relay (ry_handle r) (ry_stream r) rx (ry_written r ++ m) RelayRunning
    (note_uplink_write (len m) (ry_diag r)))); try done.
  - relay_act Hri Hp. by rewrite Hq.
  - cbn in sv_taken0. rewrite sv_taken0, concat_app. cbn. by rewrite app_nil_r, Hw.
Qed.

Lemma matched_send s i k data k' :
  models s i k → abs_phase (tk_phase k) = RelayRunning → len (lp_global s) < RELAY_CHANNEL_CAPACITY →
  len data ≤ RELAY_BUF →
  same_view (tk_send_back data (view_at (if bool_decide (data = []) then TkShutdown else TkSelect) k)) k' →
  matched [RelayRemote (Some data) 0] s i k k'.
Proof.
  intros Hm Hrun Hroom Hlen []. pose proof Hm as [(r & Hri & Hq & Hw & Hp) Ho]. rewrite Hrun in Hp.
  destruct (decide (data = [])) as [->|Hne].
  - eapply (matched_one s i k _ r (relay_break r) _ [[]]); try done; [|by cbn in *; congruence..].
    relay_act Hri Hp. by rewrite bool_decide_true by done.
  - rewrite bool_decide_false in * by done.
    eapply (matched_one s i k _ r (mk_Relay (ry_handle r) (ry_stream r) (ry_queue r) (ry_written r) RelayRunning
      (note_global_rx_wait 0 PRESSURE_MICROS (note_remote_read (len data) (ry_diag r)))) _ [data]);
      try done; [|by cbn in *; congruence..].
    relay_act Hri Hp. rewrite bool_decide_true by done. rewrite bool_decide_false by done.
    assert (ztake RELAY_BUF data = data) as -> by (unfold ztake; apply take_ge; unfold len, RELAY_BUF in *; lia).
    done.
Qed.

Lemma matched_stop a s i k k' :
  a = RelayIdle ∨ a = RelayRemote None 0 →
  models s i k → abs_phase (tk_phase k) = RelayRunning → same_view (view_at TkShutdown k) k' →
  matched [a] s i k k'.
Proof.
  intros Ha Hm Hrun []. pose proof Hm as [(r & Hri & Hq & Hw & Hp) Ho]. rewrite Hrun in Hp.
  eapply (matched_quiet s i k _ r (relay_break r)); try done; [|by cbn in *; congruence..].
  relay_act Hri Hp. by destruct Ha as [->| ->].
Qed.

Lemma matched_close s i k k' :
  models s i k → abs_phase (tk_phase k) = RelayShutdown → same_view (view_at TkGone k) k' →
  matched [RelayClose] s i k k'.
Proof.
  intros Hm Hsh []. pose proof Hm as [(r & Hri & Hq & Hw & Hp) Ho]. rewrite Hsh in Hp.
  eapply (matched_quiet s i k _ r (mk_Relay (ry_handle r) (ry_stream r) (ry_queue r) (ry_written r) RelayFinished (ry_diag r)));
    try done; [|by cbn in *; congruence..].
  by relay_act Hri Hp.
Qed.

(** The branch that writes. *)
Lemma write_matched rest s i k :
  models s i k → abs_phase (tk_phase k) = RelayRunning →
  matched (write_actions rest (tk_stream k)) s i k (continue_write rest k).
Proof.
  intros Hm Hrun. unfold write_actions, continue_write.
  destruct (write_all_poll (length rest) rest (tk_stream k)) as [st [[[[]|] rest']|err|]]; cbn [snd].
  - apply matched_nil; [done|]. by split; rewrite ?Hrun.
  - apply matched_nil; [done|]. by split; rewrite ?Hrun.
  - by apply matched_stop; auto.
  - apply (matched_trans [RelayRemote None 0] [RelayClose] s i k (tk_at st TkShutdown k)); [by apply matched_stop; auto|].
    intros s1 Hm1 _. by apply matched_close.
Qed.

Lemma local_matched s i k :
  models s i k → tk_phase k = TkSelect →
  match poll_local k, local_actions k with
  | Some k', Some acts => matched acts s i k k'
  | None, None => True
  | _, _ => False
  end.
Proof.
  intros Hm Hph. pose proof Hm as [(r & Hri & Hq & Hw & Hp) Ho]. rewrite Hph in Hp. cbn in Hp.
  unfold poll_local, local_actions. destruct (tk_rx k) as [|m rx] eqn:Erx.
  - destruct (tk_open k) eqn:Eo; [done|].
    eapply (matched_quiet s i k _ r (relay_break r)); try done; [|cbn; congruence..].
    relay_act Hri Hp. by rewrite Hq, Ho.
  - set (k1 := mk_relay_task _ _ _ _ _ _).
    apply (matched_trans [RelayLocal true] (write_actions m (tk_stream k)) s i k k1).
    + apply (matched_take s i k m rx); try done; [by rewrite Hph|]. by split; cbn; rewrite ?Hph.
    + intros s1 Hm1 _. apply (write_matched m s1 i k1); [done|]. cbn. by rewrite Hph.
Qed.

Lemma remote_ran k : (poll_remote k).2 = (read_actions (tk_stream k)).2.
Proof. unfold poll_remote, read_actions. by destruct (poll_read RELAY_BUF (tk_stream k)) as [st [[[]|]| |]]. Qed.

Lemma remote_matched s i k :
  models s i k → tk_phase k = TkSelect →
  tk_back (poll_remote k).1 = tk_back k ∨ len (lp_global s) < RELAY_CHANNEL_CAPACITY →
  matched (read_actions (tk_stream k)).1 s i k (poll_remote k).1 ∧
  ((poll_remote k).2 = false → same_view k (poll_remote k).1 ∧ tk_phase (poll_remote k).1 = TkSelect).
Proof.
  intros Hm Hph. assert (abs_phase (tk_phase k) = RelayRunning) as Hrun by (by rewrite Hph).
  unfold poll_remote, read_actions. destruct (poll_read RELAY_BUF (tk_stream k)) as [st r] eqn:E. cbn [snd]. intros Hroom.
  destruct r as [[data|]|err|].
  - assert (len data ≤ RELAY_BUF) as Hlen by (by eapply poll_read_le in E).
    set (k' := tk_send_back data (tk_at st (if bool_decide (data = []) then TkShutdown else TkSelect) k)).
    assert (match data with
            | [] => (tk_send_back [] (tk_at st TkShutdown k), true)
            | _ :: _ => (tk_send_back data (tk_at st TkSelect k), true)
            end = (k', true)) as Ek by (by destruct data).
    rewrite Ek in *. split; [|done]. cbn [fst] in *. apply matched_send; try done.
    destruct Hroom as [Hb|]; [|done]. apply (f_equal len) in Hb. cbn in Hb. rewrite len_app in Hb. unfold len in Hb. cbn in Hb. lia.
  - cbn [fst]. split; [by apply matched_nil|done].
  - split; [by apply matched_stop; auto|done].
  - split; [|done].
    apply (matched_trans [RelayRemote None 0] [RelayClose] s i k (tk_at st TkShutdown k)); [by apply matched_stop; auto|].
    intros s1 Hm1 _. by apply matched_close.
Qed.

Lemma matched_view a s i k k1 k2 : same_view k k1 → matched a s i k1 k2 → matched a s i k k2.
Proof. intros [] (r & s' & new & H). exists r, s', new. by rewrite <-sv_back0. Qed.

Lemma task_poll_matched lf sock s i k :
  let k' := task_poll lf sock k in
  models s i k → tk_back k' = tk_back k ∨ len (lp_global s) < RELAY_CHANNEL_CAPACITY →
  matched (task_actions (TkPoll lf sock) k) s i k k'.
Proof.
  intros k' Hm Hroom. unfold k', task_poll, task_actions in *.
  destruct (tk_phase k) as [|rest| | |] eqn:Hph; [| | |by apply matched_nil..].
  - pose proof (remote_matched s i k Hm Hph) as Hr. pose proof (local_matched s i k Hm Hph) as Hl.
    destruct (read_actions (tk_stream k)) as [acts ran] eqn:Ea. cbn [fst snd] in Hr. destruct lf.
    + destruct (poll_local k) as [k1|], (local_actions k) as [a|]; try done. by apply Hr.
    + destruct (poll_remote k) as [k1 ran1] eqn:Er. cbn [fst snd] in *.
      pose proof (remote_ran k) as Hran. rewrite Er, Ea in Hran. cbn in Hran. subst ran1.
      destruct ran; [by apply Hr|].
      assert (tk_back k1 = tk_back k) as Hb1 by (revert Er; unfold poll_remote; repeat case_match; by intros [= <-]).
      destruct Hr as [_ Hv]; [by left|]. destruct (Hv eq_refl) as [Hv1 Hph1].
      pose proof (local_matched s i k1 (models_view s i k k1 Hm Hv1) Hph1) as Hl1.
      destruct (poll_local k1) as [k2|], (local_actions k1) as [a|]; try done; cbn [default].
      * by eapply matched_view.
      * by apply matched_nil.
  - apply write_matched; [done|by rewrite Hph].
  - destruct (poll_shutdown sock (tk_stream k)) as [st r]. cbn [snd].
    assert (∀ ph, abs_phase ph = RelayFinished → matched [RelayClose] s i k (tk_at st ph k)) as Hsh.
    { intros ph Hf. apply matched_close; [done|by rewrite Hph|]. by split. }
    destruct r as [[[]|]|err|]; [by apply Hsh| |by apply Hsh..].
    apply matched_nil; [done|]. by split; cbn; rewrite ?Hph.
Qed.

Lemma task_step_matched e s i k :
  let k' := task_step e k in
  models s i k → tk_back k' = tk_back k ∨ len (lp_global s) < RELAY_CHANNEL_CAPACITY →
  match e with
  | TkMessage m => ∃ s', push_uplink i m s = (s', Ok tt) ∧ models s' i k'
  | TkSenderGone => ∀ s', lp_relays s' = lp_relays s → sender_alive s' i = false → models s' i k'
  | _ => matched (task_actions e k) s i k k'
  end.
Proof.
  intros k' Hm Hroom. pose proof Hm as [(r & Hri & Hq & Hw & Hp) Ho]. unfold k' in *. destruct e as [lf sock| |rin win|m|].
  - by apply task_poll_matched.
  - cbn [task_step task_actions] in *. unfold task_actions. destruct (tk_phase k) eqn:Hph; try by apply matched_nil.
    by apply matched_stop; rewrite ?Hph; auto.
  - by apply matched_nil.
  - eexists. split; [reflexivity|]. split; [|done]. eexists. cbn. rewrite list_lookup_alter_eq, Hri. cbn. split; [done|].
    cbn. by rewrite Hq.
  - intros s' Hrel Hal. split; [|done]. exists r. by rewrite Hrel.
Qed.

End refine.

(** C12: The polled relay task refines the relay of the event-loop model, over any REALITY stream and
    whatever its socket does.  Whenever relay [i] of the loop stands for the task, and the loop's queue
    has room if the step sends to it, each poll of the task, its idle timer and the readiness of its
    socket amount to at most three actions of that relay, given by what the channel and the stream answer:
    a message taken or the closed channel ([RelayLocal]); data, the end of the stream, a failed read or
    write ([RelayRemote]); the idle timer ([RelayIdle]); the end of the shutdown or a panic
    ([RelayClose]).  Afterwards the relay stands for the task again, what the task sent back is what the
    actions put in the loop's queue under the handle of its slot, and the slots are as they were.  A message
    the loop sends arrives in both, and so does the end of the channel when the loop drops its sender. *)
Theorem relay_task_refines `{C : Crypto} {TS : Smoltcp} {P : EtherParse}
    `{!ProxyUpstream U, !DatagramUpstream U} macos (s : @Loop TS U _) i e k :
  let k' := task_step e k in
  models s i k → tk_back k' = tk_back k ∨ len (lp_global s) < RELAY_CHANNEL_CAPACITY →
  match e with
  | TkMessage m => ∃ s', push_uplink i m s = (s', Ok tt) ∧ models s' i k'
  | TkSenderGone => ∀ s', lp_relays s' = lp_relays s → sender_alive s' i = false → models s' i k'
  | _ => (length (task_actions e k) ≤ 3)%nat ∧
      ∃ r s' new, lp_relays s !! i = Some r ∧
        loop_run macos (EvRelay i <$> task_actions e k) s = (s', Ok tt) ∧ models s' i k' ∧
        lp_ctxs s' = lp_ctxs s ∧ lp_sockets s' = lp_sockets s ∧
        tk_back k' = tk_back k ++ new ∧ lp_global s' = lp_global s ++ ((ry_handle r,.) <$> new)
  end.
Proof.
  intros k' Hm Hroom. pose proof (task_step_matched macos e s i k Hm Hroom) as Hx.
  pose proof (task_actions_few e k) as Hl.
  destruct e; try exact Hx; (split; [exact Hl|]); destruct Hx as (r & s' & new & ? & ? & ? & ? & ? & ? & ? & _); by exists r, s', new.
Qed.

(** ** A write that does not get through *)

(** The socket takes no byte: none of its answers to a write is more than "not now". *)
Definition blocked (win : list wr_poll) : Prop := Forall (.= WrPend) win.
Definition write_blocked (e : task_event) : Prop := match e with TkReady _ win => blocked win | _ => True end.
Definition event_reads (e : task_event) : list rd_poll := match e with TkReady rin _ => rin | _ => [] end.

(** The task waits in [write_all], with [rest] to go and a record that the socket has not taken. *)
Record stalled (rest : list byte) (k : relay_task) : Prop := {
  sd_phase : tk_phase k = TkWriting rest;
  sd_rest : rest ≠ [];
  sd_pending : rs_write_pending (tk_stream k) ≠ [];
  sd_blocked : blocked (rs_win (tk_stream k))
}.

Lemma flush_loop_blocked win pending wout :
  blocked win → pending ≠ [] → ∃ win', blocked win' ∧ flush_loop win pending wout = (win', pending, wout, Ok Pending).
Proof.
  intros Hb Hp. destruct pending as [|b l]; [done|]. destruct win as [|w win]; [by exists []|].
  apply Forall_cons in Hb as [-> Hb]. by exists win.
Qed.

Lemma continue_write_blocked `{C : Crypto} rest k :
  stalled rest k →
  ∃ win', blocked win' ∧ let st := tk_stream k in
    continue_write rest k = tk_at (set_send (rs_send_keys st) (rs_client_ap_secret st) (rs_write_pending st)
      (RealityStream.set_sockets (rs_rin st) win' (rs_wout st) st)) (TkWriting rest) k.
Proof.
  intros [Hp Hr Hw Hb]. destruct (flush_loop_blocked _ _ (rs_wout (tk_stream k)) Hb Hw) as (win' & Hb' & E).
  exists win'. split; [done|]. unfold continue_write. destruct rest as [|b l]; [done|]. cbn [length write_all_poll].
  unfold poll_write, mthen, poll_flush_pending. rewrite E. done.
Qed.

Lemma stalled_step `{C : Crypto} rest e k :
  stalled rest k → write_blocked e →
  stalled rest (task_step e k) ∧ tk_back (task_step e k) = tk_back k ∧ tk_taken (task_step e k) = tk_taken k ∧
  rs_wout (tk_stream (task_step e k)) = rs_wout (tk_stream k) ∧
  rs_rin (tk_stream (task_step e k)) = rs_rin (tk_stream k) ++ event_reads e.
Proof.
  intros Hs He. pose proof Hs as [Hp Hr Hw Hb]. destruct e as [lf sock| |rin win|m|]; cbn [task_step event_reads].
  - unfold task_poll. rewrite Hp. destruct (continue_write_blocked rest k Hs) as (win' & Hb' & ->). cbn.
    rewrite app_nil_r. by repeat split.
  - rewrite Hp, app_nil_r. by repeat split.
  - cbn in *. repeat split; cbn; try done. by apply Forall_app.
  - rewrite app_nil_r. by repeat split.
  - rewrite app_nil_r. by repeat split.
Qed.

(** C39: A relay whose write is stuck is not timed out, and hears nothing.  The idle timer and the read are
    branches of the [select!], and the task is inside the branch that writes: as long as the socket takes no byte,
    whatever else happens (the timer, polls, data from the server, messages from the client, the client
    going away), the task stays where it is, sends nothing to the event loop, takes no message, and leaves
    everything that arrives on the socket unread. *)
Theorem stalled_write_never_times_out `{C : Crypto} rest es k :
  stalled rest k → Forall write_blocked es →
  let k' := task_run es k in
  stalled rest k' ∧ tk_back k' = tk_back k ∧ tk_taken k' = tk_taken k ∧ rs_wout (tk_stream k') = rs_wout (tk_stream k) ∧
  rs_rin (tk_stream k') = rs_rin (tk_stream k) ++ concat (event_reads <$> es).
Proof.
  unfold task_run. revert k. induction es as [|e es IH]; intros k Hs He; cbn.
  - rewrite app_nil_r. by split_and!.
  - apply Forall_cons in He as [He Hes]. destruct (stalled_step rest e k Hs He) as (Hs' & Hb & Ht & Hw & Hr).
    destruct (IH _ Hs' Hes) as (? & -> & -> & -> & ->). rewrite Hb, Ht, Hw, Hr, <-app_assoc. by split_and!.
Qed.

(** ** A concrete run

    The task gets two messages over a socket that takes ten bytes, then a hundred; the server's data
    comes in two pieces, with a KeyUpdate in between. *)
Definition demo_task_events : list task_event :=
  [TkMessage [x70; x71]; TkPoll true (Ok (Ready tt)); TkPoll false (Ok (Ready tt)); TkMessage [x72];
   TkReady [RdData (zdrop 30 demo_wire)] [WrOk 100; WrOk 100]; TkPoll true (Ok (Ready tt)); TkPoll false (Ok (Ready tt));
   TkPoll true (Ok (Ready tt)); TkIdle; TkReady [] [WrOk 200]; TkPoll true (Ok (Ready tt))].
Definition demo_task : relay_task := @task_run demo_crypto demo_task_events (task_new demo_reality []).

Example demo_task_ends :
  tk_phase demo_task = TkGone ∧ tk_taken demo_task = [[x70; x71]; [x72]] ∧ concat (tk_back demo_task) = [x68; x69].
Proof. vm_compute. repeat split. Qed.

Lemma relay_task_exact_witness :
  tk_phase demo_task = TkGone ∧
  ∃ outs' d, @send_items demo_crypto demo_dir outs' = Ok (rs_wout (tk_stream demo_task), d) ∧ items_data outs' = [x70; x71; x72].
Proof.
  split; [vm_compute; reflexivity|].
  destruct (relay_task_exact (C:=demo_crypto) demo_task_events demo_reality [] demo_dir [] demo_sent [])
    as (outs' & its' & _ & _ & _ & _ & _ & Hg).
  - apply demo_synced. vm_compute. reflexivity.
  - repeat constructor; vm_compute; try congruence.
  - vm_compute. reflexivity.
  - destruct (Hg ltac:(vm_compute; reflexivity)) as (d & E & Hd). exists outs', d. split; [exact E|]. rewrite Hd. vm_compute. reflexivity.
Defined.

(** A loop whose relay 0 stands for a task that was just started; the server has closed its side. *)
Definition closing_stream : RealityStream := RealityStream.set_sockets [RdData []] [WrErr] [] demo_reality.
Definition demo_relay_loop : @Loop demo_stack demo_up _ :=
  set_ctxs {[0%nat := set_uplink (Some 0%nat) (ctx_new 443)]}
    (set_relays [mk_Relay 0%nat (0%nat : RelayStream demo_up) [] [] RelayRunning relay_diag_default]
       (loop_init 2 1500 (mk_demo_up 3 []))).

Lemma relay_task_refines_witness :
  let k := task_new closing_stream [] in
  let k' := @task_step demo_crypto (TkPoll false (Ok (Ready tt))) k in
  tk_phase k' = TkShutdown ∧ tk_back k' = [[]] ∧
  ∃ s', loop_run false [EvRelay 0%nat (RelayRemote (Some []) 0)] demo_relay_loop = (s', Ok tt) ∧
    models s' 0 k'.
Proof.
  intros k k'. split; [vm_compute; reflexivity|]. split; [vm_compute; reflexivity|].
  destruct (relay_task_refines (C:=demo_crypto) false demo_relay_loop 0 (TkPoll false (Ok (Ready tt))) k)
    as (_ & r & s' & new & _ & E & Hm & _).
  - split; [|vm_compute; reflexivity]. eexists. split; [reflexivity|]. vm_compute. repeat split.
  - right. vm_compute. reflexivity.
  - exists s'. split; [|exact Hm]. rewrite <-E. vm_compute. reflexivity.
Defined.

(** Two messages for a socket that takes nothing: the first fills the record buffer, the second waits; the
    server's data and ninety seconds of silence change nothing. *)
Definition stall_start : relay_task :=
  @task_run demo_crypto [TkMessage [x70; x71]; TkPoll true (Ok (Ready tt)); TkMessage [x72]; TkPoll true (Ok (Ready tt))]
    (task_new (RealityStream.set_sockets [] [] (rs_wout demo_reality) demo_reality) []).
Definition stall_events : list task_event :=
  [TkIdle; TkReady [RdData demo_wire] [WrPend]; TkPoll true (Ok (Ready tt)); TkPoll false (Ok (Ready tt)); TkIdle; TkSenderGone; TkIdle].

Lemma stalled_write_never_times_out_witness :
  let k := @task_run demo_crypto stall_events stall_start in
  tk_phase k = TkWriting [x72] ∧ tk_back k = [] ∧ rs_rin (tk_stream k) = [RdData demo_wire].
Proof.
  destruct (stalled_write_never_times_out (C:=demo_crypto) [x72] stall_events stall_start) as (Hs & Hb & _ & _ & Hr).
  - split; [vm_compute; reflexivity|done|vm_compute; discriminate|vm_compute; constructor].
  - unfold stall_events. repeat constructor.
  - split; [exact (sd_phase _ _ Hs)|]. split; [exact Hb|exact Hr].
Defined.
