(* ===== verification/Joint.v ===== *)
(** * Joint: runs of the event loop together with the polled task of one of its relays

    [ClientTun] models the task of a relay by actions; [RelayTask] polls its body over the REALITY
    stream.  A joint run starts when the relay does and interleaves the events of the loop with the
    polls of the task: what the loop puts into the channel of the relay, and the end of the channel,
    reach the task, and what the task does the relay does by the actions of [task_actions].  This file
    shows that in every joint run the relay stands for the task. *)

From S2P Require Import Prelude Text Shared Dns FakeIp TuicCodec Frag Assoc Metrics UdpRelay Device TunSlot Upstream ClientTun.
From S2P Require Import Crypto Record Auth KeySchedule Vless Reassembly RealityStream RelayTask.

(** ** Slots that lose their sender do not get it back *)

Definition keeps_dead {TS : Smoltcp} (i : nat) (cs cs' : gmap nat SocketCtx) : Prop :=
  ∀ h c, cs' !! h = Some c → cs !! h = Some c ∨ cx_uplink_tx c ≠ Some i.

Section slots.
Context {TS : Smoltcp}.

Lemma keeps_dead_trans i cs cs1 cs2 : keeps_dead i cs cs1 → keeps_dead i cs1 cs2 → keeps_dead i cs cs2.
Proof. intros H1 H2 h c Hc. destruct (H2 h c Hc) as [H|H]; [by apply H1|by right]. Qed.

Lemma keeps_dead_insert i cs h c : cx_uplink_tx c ≠ Some i → keeps_dead i cs (<[h := c]> cs).
Proof. intros Hc h' c' [[<- <-]|[_ H]]%lookup_insert_Some; [by right|by left]. Qed.

Lemma rearm_socket_tx {E} sock c pool now sock' c' pool' :
  rearm_socket_with_reason (E:=E) sock c pool now = Ok (sock', c', pool') → cx_uplink_tx c' = None.
Proof.
  unfold rearm_socket_with_reason, rearm_socket. cbn zeta.
  destruct (cx_fake_ip _); cbn; destruct (tcp_listen _ _); cbn; try done; intros [= _ <- _]; done.
Qed.

Lemma flush_downlink_tx sock c : cx_uplink_tx (flush_downlink sock c).2 = cx_uplink_tx c.
Proof. unfold flush_downlink. cbn zeta. by repeat (case_bool_decide || case_match). Qed.

Lemma buffer_uplink_tx payload c : cx_uplink_tx (buffer_uplink payload c).1 = cx_uplink_tx c.
Proof. unfold buffer_uplink. by repeat (case_bool_decide || case_match). Qed.

Lemma add_listener_dead {E} i port sl h sl' :
  add_listener (E:=E) port sl = Ok (h, sl') → keeps_dead i sl.2 sl'.2.
Proof. unfold add_listener. destruct (build_listener_socket port); try done. intros [= _ <-]. by apply keeps_dead_insert. Qed.

Lemma add_listeners_dead {E} i n port sl hs sl' :
  add_listeners (E:=E) n port sl = Ok (hs, sl') → keeps_dead i sl.2 sl'.2.
Proof.
  revert sl hs. induction n as [|n IH]; intros sl hs; cbn [add_listeners]; [intros [= _ <-]; by left|].
  destruct (add_listener port sl) as [[h sl1]| |] eqn:E1; try done. cbn [rbind].
  destruct (add_listeners n port sl1) as [[hs1 sl2]| |] eqn:E2; try done. intros [= _ <-].
  eapply keeps_dead_trans; [by eapply add_listener_dead|by eapply IH].
Qed.

Lemma ensure_port_dead {E} i r port sl r' sl' b :
  ensure_port (E:=E) r port sl = Ok (r', sl', b) → keeps_dead i sl.2 sl'.2.
Proof.
  unfold ensure_port. destruct (lr_ports r !! port); [intros [= _ <- _]; by left|].
  case_bool_decide; [intros [= _ <- _]; by left|].
  destruct (add_listeners _ port sl) as [[hs sl1]| |] eqn:E1; try done. intros [= _ <- _]. by eapply add_listeners_dead.
Qed.

Lemma grow_listeners_dead {E} i n port r sl r' sl' b :
  grow_listeners (E:=E) n port r sl = Ok (r', sl', b) → keeps_dead i sl.2 sl'.2.
Proof.
  revert r sl. induction n as [|n IH]; intros r sl; cbn [grow_listeners]; [intros [= _ <- _]; by left|].
  case_bool_decide; [intros [= _ <- _]; by left|].
  destruct (add_listener port sl) as [[h sl1]| |] eqn:E1; try done. cbn [rbind].
  destruct (lr_ports r !! port); try done. cbn [expect rbind]. intros Hg.
  eapply keeps_dead_trans; [by eapply add_listener_dead|by eapply IH].
Qed.

Lemma ensure_spare_dead {E} i r port spare sl r' sl' b :
  ensure_spare_listeners (E:=E) r port spare sl = Ok (r', sl', b) → keeps_dead i sl.2 sl'.2.
Proof.
  unfold ensure_spare_listeners. destruct (lr_ports r !! port); [|intros [= _ <- _]; by left].
  destruct (count_listening _ _) as [n| |]; try done. cbn [rbind].
  case_bool_decide; [intros [= _ <- _]; by left|]. apply grow_listeners_dead.
Qed.

Lemma reap_loop_dead {E} i now hs sl pool n sl' pool' n' :
  reap_loop (E:=E) now hs sl pool n = Ok (sl', pool', n') → keeps_dead i sl.2 sl'.2.
Proof.
  revert sl pool n. induction hs as [|h hs IH]; intros sl pool n; cbn [reap_loop]; [intros [= <- _ _]; by left|].
  unfold reap_slot. destruct (sl.1 !! h) as [sock|]; try done. cbn [expect rbind].
  destruct (sl.2 !! h) as [c|]; [|apply IH]. destruct (slot_dead sock c); [|apply IH].
  destruct (rearm_socket_with_reason sock c pool now) as [[[sock1 c1] pool1]| |] eqn:Er; try done. cbn [rbind].
  intros H. eapply keeps_dead_trans; [|by eapply IH]. apply keeps_dead_insert. by rewrite (rearm_socket_tx _ _ _ _ _ _ _ Er).
Qed.

End slots.

(** ** What the loop does to a relay it does not run *)

Section track.
Context {TS : Smoltcp} {P : EtherParse} {U : Type} `{!ProxyUpstream U, !DatagramUpstream U}.
Abbreviation Loop := (@Loop TS U _).
Abbreviation Relay := (@Relay U _).
Variable macos : bool.
Variables (i : nat) (r0 : Relay) (dead : Prop).

(** Relay [i] was [r0] and has only got messages since; once its sender is [dead] no slot holds it. *)
Record tracked (s : Loop) : Prop := {
  tr_relay : ∃ r new, lp_relays s !! i = Some r ∧ ry_handle r = ry_handle r0 ∧ ry_queue r = ry_queue r0 ++ new ∧
    ry_written r = ry_written r0 ∧ ry_phase r = ry_phase r0;
  tr_dead : dead → ∀ h c, lp_ctxs s !! h = Some c → cx_uplink_tx c ≠ Some i
}.

Lemma tracked_length s : tracked s → (i < length (lp_relays s))%nat.
Proof. intros [(r & new & Hr & _) _]. by eapply lookup_lt_Some. Qed.

Lemma tracked_ctxs s cs : tracked s → keeps_dead i (lp_ctxs s) cs → tracked (set_ctxs cs s).
Proof. intros [Hr Hd] Hk. split; [done|]. intros Hx h c Hc. destruct (Hk h c Hc) as [H|H]; [by eapply Hd|done]. Qed.

Lemma tracked_get_ctx {B} h (k : option SocketCtx → sm Loop ClientError B) :
  (∀ s, tracked s → keeps tracked (k (lp_ctxs s !! h))) → keeps tracked (mthen (get_ctx h) k).
Proof. intros Hk s Hs. by apply Hk. Qed.

Lemma tracked_put_ctx h c : (dead → cx_uplink_tx c ≠ Some i) → keeps tracked (put_ctx h c).
Proof.
  intros Hc. apply keeps_mupd. intros s Hs. pose proof Hs as [Hr Hd]. split; [done|]. intros Hx h' c'.
  cbn. intros [[<- <-]|[_ H]]%lookup_insert_Some; [by apply Hc|by eapply Hd].
Qed.

Lemma tracked_alter_ctx f h s :
  (∀ c, cx_uplink_tx (f c) = cx_uplink_tx c) → tracked s → tracked (set_ctxs (alter f h (lp_ctxs s)) s).
Proof.
  intros Hf [Hr Hd]. split; [done|]. intros Hx h' c'. cbn. rewrite lookup_alter. case_decide; [|by apply Hd].
  intros (c & Hc & ->)%fmap_Some. rewrite Hf. by eapply Hd.
Qed.

Lemma tracked_push j payload : keeps tracked (push_uplink j payload).
Proof.
  apply keeps_mupd. intros s [(r & new & Hr & Hh & Hq & Hw & Hp) Hd]. split; [|done]. cbn.
  destruct (decide (j = i)) as [->|Hne].
  - rewrite list_lookup_alter_eq, Hr. cbn. eexists _, (new ++ [payload]). split; [done|]. cbn. by rewrite Hq, app_assoc.
  - rewrite list_lookup_alter_ne by done. by exists r, new.
Qed.

Lemma tracked_spawn h st q : keeps tracked (spawn_remote_relay h st q).
Proof.
  apply keeps_mupd. intros s [(r & new & Hr & Hx) Hd]. split; [|done]. exists r, new. split; [|done].
  cbn. by apply lookup_app_l_Some.
Qed.

Lemma tracked_dev_flush ws : keeps tracked (dev_flush ws).
Proof. intros s []. unfold dev_flush. by destruct (flush_tx ws (lp_dev s)). Qed.

Lemma tracked_log m : keeps tracked m → keeps tracked (log_err (U:=U) m).
Proof. intros Hm s Hs. specialize (Hm s Hs). unfold log_err. by destruct (m s) as [? []]. Qed.

Lemma tracked_mret {B} (a : B) : keeps tracked (mret (U:=U) a).
Proof. apply keeps_mlift. Qed.
Lemma tracked_get_sock h : keeps tracked (get_sock (U:=U) h).
Proof. unfold get_sock. walk idtac. Qed.
Lemma tracked_put_sock h sock : keeps tracked (put_sock (U:=U) h sock).
Proof. apply keeps_mupd. by intros s []. Qed.
Hint Resolve tracked_push tracked_spawn tracked_dev_flush tracked_log tracked_mret tracked_get_sock tracked_put_sock : keeps.

(** Walk; a context that was read is known to hold no dead sender. *)
Ltac known :=
  intros;
  repeat match goal with
  | H : rearm_socket_with_reason _ _ _ _ = Ok _ |- _ => apply rearm_socket_tx in H
  | H : flush_downlink ?sock ?c = (_, ?c') |- _ =>
      let E := fresh in assert (cx_uplink_tx c' = cx_uplink_tx c) as E by (by rewrite <-(flush_downlink_tx sock c), H); clear H
  | H : tracked ?s |- _ => pose proof (tracked_length s H); pose proof (tr_dead s H); clear H
  end;
  cbn in *; rewrite ?buffer_uplink_tx; cbn;
  first [congruence|intros [= ?]; lia|solve [eauto]|match goal with E : cx_uplink_tx _ = cx_uplink_tx _ |- _ => rewrite E; eauto end].
Ltac upd := intros; first [apply tracked_alter_ctx; [intros; cbn; rewrite ?buffer_uplink_tx; done|done]
  |match goal with H : tracked _ |- _ => destruct H end; split; [done|]; cbn; try done; eauto].
Ltac go :=
  repeat match goal with
  | |- ∀ _, _ => intros ?
  | |- keeps _ (mthen (get_ctx _) _) => apply tracked_get_ctx
  | |- keeps _ (mthen mget _) => apply keeps_mget
  | |- keeps _ (mthen (mlift _) _) => apply keeps_mlift_then
  | |- keeps _ (mthen _ _) => apply keeps_mthen
  | |- keeps _ (put_ctx _ _) => apply tracked_put_ctx; solve [known]
  | |- keeps _ (mupd _) => apply keeps_mupd; solve [upd]
  | |- keeps _ (match ?x with _ => _ end) => destruct x eqn:?
  | |- keeps _ _ => solve [eauto with keeps]
  end.

Lemma tracked_rearm h now : keeps tracked (rearm_slot h now).
Proof. unfold rearm_slot. go. Qed.
Lemma tracked_acquire h f now : keeps tracked (acquire_fake h f now).
Proof.
  unfold acquire_fake. destruct f; [|apply tracked_mret]. apply keeps_mupd. intros s Hs.
  refine (tracked_alter_ctx _ h (set_pool _ s) _ _); [done|]. by destruct Hs.
Qed.
Hint Resolve tracked_rearm tracked_acquire : keeps.
Lemma tracked_local h p t f now : keeps tracked (handle_local_payload h p t f now).
Proof. unfold handle_local_payload, open_inline, open_spawned. cbn zeta. go. Qed.
Hint Resolve tracked_local : keeps.
Lemma tracked_listener h now : keeps tracked (process_listener_activity h now).
Proof. unfold process_listener_activity, advance_downlink, forward_established, forward_first. go. Qed.
Hint Resolve tracked_listener : keeps.
Lemma tracked_dirty_handles now hs : keeps tracked (process_dirty_handles now hs).
Proof. induction hs as [|h hs IH]; cbn [process_dirty_handles]; [|unfold process_dirty_handle]; go. Qed.
Lemma tracked_poll env : keeps tracked (iface_poll macos env).
Proof. unfold iface_poll. go. Qed.
Lemma tracked_inject pkt ws : keeps tracked (inject_and_flush macos pkt ws).
Proof. unfold inject_and_flush. go. Qed.
Hint Resolve tracked_dirty_handles tracked_poll tracked_inject : keeps.
Lemma tracked_timer env now : keeps tracked (on_timer macos env now).
Proof. unfold on_timer, poll_and_flush, process_dirty_relay. go. Qed.
Lemma tracked_remote h p env now : keeps tracked (handle_remote_payload macos h p env now).
Proof. unfold handle_remote_payload. go. Qed.
Lemma tracked_inspect buf : keeps tracked (inspect_and_mark buf).
Proof.
  unfold inspect_and_mark. destruct (inspect_inbound_tcp buf) as [[port []]|]; [| |apply tracked_mret]; [|go].
  intros s Hs. unfold mthen, mlift. cbn.
  destruct (ensure_port _ _ _) as [[[r1 sl1] b1]| |] eqn:E1; [|done..].
  destruct (ensure_spare_listeners _ _ _ _) as [[[r2 sl2] b2]| |] eqn:E2; [|done..]. cbn.
  pose proof (ensure_port_dead i _ _ _ _ _ _ E1) as D1. pose proof (ensure_spare_dead i _ _ _ _ _ _ _ E2) as D2.
  destruct Hs as [Hr Hd]. split; [done|]. cbn. intros Hx h c Hc.
  destruct (keeps_dead_trans i _ _ _ D1 D2 h c Hc) as [H|H]; [by eapply Hd|done].
Qed.
Hint Resolve tracked_timer tracked_remote tracked_inspect : keeps.

Lemma tracked_sweep now : keeps tracked (on_udp_sweep now).
Proof.
  intros s [Hr Hd]. unfold on_udp_sweep. mrun. destruct (assoc_sweep _ _ _) as [ips table]. mrun.
  destruct (reap_dead_slots _ _ _ _) as [[[sl pool] n]| |] eqn:E; cbn; [|by split..].
  split; [done|]. cbn. intros Hx h c Hc.
  destruct (reap_loop_dead i _ _ _ _ _ _ _ _ E h c Hc) as [H|H]; [by eapply Hd|done].
Qed.

(** The action of another relay. *)
Lemma tracked_relay j a : j ≠ i → keeps tracked (run_relay j a).
Proof.
  intros Hne. assert (∀ r g s, tracked s → tracked (set_relays (<[j := r]> (lp_relays s)) (set_global g s))) as Hset.
  { intros r g s [(r1 & new & Hr & Hx) Hd]. split; [|done]. exists r1, new. split; [|done].
    cbn. by rewrite list_lookup_insert_ne. }
  assert (∀ r s, tracked s → tracked (set_relays (<[j := r]> (lp_relays s)) s)) as Hset'.
  { intros r s [(r1 & new & Hr & Hx) Hd]. split; [|done]. exists r1, new. split; [|done].
    cbn. by rewrite list_lookup_insert_ne. }
  intros s Hs. unfold run_relay. rewrite (mthen_step _ _ _ s s) by done. destruct (lp_relays s !! j) as [r|]; [|done].
  unfold set_relay, mret. destruct (ry_phase r), a as [ok|[data|] w| |]; try done; repeat case_match; mrun; try done;
    first [by apply Hset|by apply Hset'].
Qed.

(** Every event but an action of relay [i] itself leaves the relay tracked. *)
Lemma tracked_step e : (∀ a, e ≠ EvRelay i a) → keeps tracked (loop_step macos e).
Proof.
  intros Hne. destruct e as [env now|read env now|now|dg ws now|now|now| |env now|j|j a]; cbn [loop_step].
  - unfold on_global, mark_if_pending. go.
  - unfold on_rx, handle_tuic_udp_uplink, handle_dns_hijack, poll_and_flush, process_dirty_relay. go.
  - unfold on_done, handle_handshake_done. cbn zeta. go.
  - unfold handle_downlink. go.
  - apply tracked_sweep.
  - unfold on_fake_ip_sweep. go.
  - unfold on_metrics. go.
  - apply tracked_timer.
  - unfold on_task. go.
  - apply tracked_relay. intros ->. by apply (Hne a).
Qed.

End track.

(** ** Joint runs *)

(** Relay [i] has just been started, with the messages [q] in its channel. *)
Record started {TS : Smoltcp} `{!ProxyUpstream U} (s : @Loop TS U _) (i : nat) (q : list (list byte)) : Prop := {
  sr_relay : ∃ r, lp_relays s !! i = Some r ∧ ry_queue r = q ∧ ry_written r = [] ∧ ry_phase r = RelayRunning;
  sr_sender : sender_alive s i = true
}.

Lemma started_models {TS : Smoltcp} `{!ProxyUpstream U} (s : @Loop TS U _) i q st :
  started s i q → models s i (task_new st q).
Proof. intros [(r & ? & ? & ? & ?) ?]. split; [by exists r|done]. Qed.

Section joint.
Context `{C : Crypto} {TS : Smoltcp} {P : EtherParse} {U : Type} `{!ProxyUpstream U, !DatagramUpstream U}.
Abbreviation Loop := (@Loop TS U _).
Variable macos : bool.
Variable i : nat.

(** What a step of the loop from [s] to [s'] does to the task of relay [i]: the messages put into its
    channel, and the end of the channel when the last sender is dropped. *)
Definition heard (s s' : Loop) : list task_event :=
  match lp_relays s !! i, lp_relays s' !! i with
  | Some r, Some r' => TkMessage <$> drop (length (ry_queue r)) (ry_queue r')
  | _, _ => []
  end ++ (if sender_alive s i && negb (sender_alive s' i) then [TkSenderGone] else []).

(** The events of the task itself. *)
Definition of_task (e : task_event) : Prop :=
  match e with TkPoll _ _ | TkIdle | TkReady _ _ => True | _ => False end.

(** [joint es ts s k]: from [s0] and [k0], the loop has run the events [es], the actions of relay [i]
    among them, and the task the events [ts]; [ok] limits the events of the loop.  The task is not polled
    to send while the loop's queue is full: its [send().await] waits. *)
Variable ok : Loop → @loop_event TS → Prop.
Variables (s0 : Loop) (k0 : relay_task).

Inductive joint : list (@loop_event TS) → list task_event → Loop → relay_task → Prop :=
| jt_start : joint [] [] s0 k0
| jt_loop es ts s k e s' :
    joint es ts s k → ok s e → (∀ a, e ≠ EvRelay i a) → loop_step macos e s = (s', Ok tt) →
    joint (es ++ [e]) (ts ++ heard s s') s' (task_run (heard s s') k)
| jt_task es ts s k e s' :
    joint es ts s k → of_task e →
    tk_back (task_step e k) = tk_back k ∨ len (lp_global s) < RELAY_CHANNEL_CAPACITY →
    loop_run macos (EvRelay i <$> task_actions e k) s = (s', Ok tt) →
    joint (es ++ (EvRelay i <$> task_actions e k)) (ts ++ [e]) s' (task_step e k).

(** The task is the task that ran [ts]. *)
Lemma joint_task es ts s k : joint es ts s k → k = task_run ts k0.
Proof.
  induction 1 as [|es ts s k e s' _ -> _ _ _|es ts s k e s' _ -> _ _ _]; [done|..]; unfold task_run; by rewrite fold_left_app.
Qed.

Lemma run_messages ms k :
  task_run (TkMessage <$> ms) k =
  mk_relay_task (tk_stream k) (tk_rx k ++ ms) (tk_open k) (tk_phase k) (tk_taken k) (tk_back k).
Proof.
  revert k. induction ms as [|m ms IH]; intros k; cbn; [rewrite app_nil_r; by destruct k|].
  unfold task_run in IH. rewrite IH. cbn. by rewrite <-app_assoc.
Qed.

Lemma sender_alive_false (s : Loop) :
  sender_alive s i = false ↔ ∀ h c, lp_ctxs s !! h = Some c → cx_uplink_tx c ≠ Some i.
Proof.
  unfold sender_alive. rewrite <-not_true_iff_false, existsb_exists. split.
  - intros Hn h c Hc Ht. apply Hn. exists (h, c). split; [by apply list_elem_of_In, elem_of_map_to_list|].
    by apply bool_decide_eq_true_2.
  - intros Hd ([h c] & Hin%list_elem_of_In%elem_of_map_to_list & Ht%bool_decide_eq_true_1). by eapply Hd.
Qed.

(** A step of the loop keeps the correspondence when the task hears of it. *)
Lemma heard_models s s' k e :
  models s i k → (∀ a, e ≠ EvRelay i a) → loop_step macos e s = (s', Ok tt) →
  models s' i (task_run (heard s s') k) ∧ tk_back (task_run (heard s s') k) = tk_back k.
Proof.
  intros [(r & Hr & Hq & Hw & Hp) Ho] Hne E.
  assert (tracked i r (sender_alive s i = false) s) as Ht.
  { split; [exists r, []; by rewrite app_nil_r|]. by intros Hd; apply sender_alive_false. }
  pose proof (tracked_step macos i r _ e Hne s Ht) as Ht'. rewrite E in Ht'. cbn [fst] in Ht'.
  destruct Ht' as [(r' & new & Hr' & Hh & Hq' & Hw' & Hp') Hd].
  unfold heard. rewrite Hr, Hr', Hq', drop_app_length. unfold task_run. rewrite fold_left_app.
  change (fold_left (λ k e, task_step e k) (TkMessage <$> new) k) with (task_run (TkMessage <$> new) k).
  rewrite run_messages.
  assert (sender_alive s i = false → sender_alive s' i = false) as Hdead by (intros H; by apply sender_alive_false, Hd).
  destruct (sender_alive s i) eqn:E1, (sender_alive s' i) eqn:E2; cbn [andb negb fold_left task_step]; try (by discriminate Hdead);
    (split; [|done]); (split; cbn; [exists r'; split_and!; [done|congruence..]|congruence]).
Qed.

(** The loop ran [es]. *)
Lemma joint_run es ts s k : joint es ts s k → loop_run macos es s0 = (s, Ok tt).
Proof.
  induction 1 as [|es ts s k e s' _ IH _ _ E|es ts s k e s' _ IH _ _ E]; [done|..]; rewrite loop_run_app, (mthen_step _ _ _ _ _ IH);
    [|exact E]. cbn [loop_run]. by rewrite (mthen_step _ _ _ _ _ E).
Qed.

(** A property of states that the events of the loop and the actions of relay [i] keep. *)
Lemma joint_keeps (φ : Loop → Prop) es ts s k :
  (∀ s e s', φ s → ok s e → loop_step macos e s = (s', Ok tt) → φ s') →
  (∀ s a s', φ s → loop_step macos (EvRelay i a) s = (s', Ok tt) → φ s') →
  φ s0 → joint es ts s k → φ s.
Proof.
  intros Hloop Hrelay H0. induction 1 as [|es ts s k e s' _ IH Hok _ E|es ts s k e s' _ IH _ _ E]; [done|by eapply Hloop|].
  revert s IH E. generalize (task_actions e k). induction l as [|a acts IHa]; intros s Hs E.
  - by injection E as <-.
  - cbn [fmap list_fmap loop_run] in E. unfold mthen in E.
    destruct (loop_step macos (EvRelay i a) s) as [s1 [[]| |]] eqn:E1; [|done..]. by eapply IHa; [eapply Hrelay|].
Qed.

(** In every joint run the relay stands for the task. *)
Lemma joint_models es ts s k : models s0 i k0 → joint es ts s k → models s i k.
Proof.
  intros H0. induction 1 as [|es ts s k e s' _ IH _ Hne E|es ts s k e s' _ IH Hown Hroom E]; [done|by eapply heard_models|].
  pose proof (task_step_matched macos e s i k IH Hroom) as H.
  destruct e; try done; destruct H as (r & s1 & new & _ & E1 & Hm & _); rewrite E in E1; by injection E1 as ->.
Qed.

(** A joint run can always go on with a step of the task: the actions it amounts to succeed. *)
Lemma joint_task_goes_on es ts s k e :
  models s0 i k0 → joint es ts s k → of_task e →
  tk_back (task_step e k) = tk_back k ∨ len (lp_global s) < RELAY_CHANNEL_CAPACITY →
  ∃ s', joint (es ++ (EvRelay i <$> task_actions e k)) (ts ++ [e]) s' (task_step e k).
Proof.
  intros H0 Hj Hown Hroom. pose proof (task_step_matched macos e s i k (joint_models _ _ _ _ H0 Hj) Hroom) as H.
  destruct e; try done; destruct H as (r & s1 & new & _ & E1 & _); exists s1; by econstructor.
Qed.

End joint.
