(* ===== verification/EndToEnd.v ===== *)
(** * EndToEnd: between the application's socket and the server

    The event loop ([TunUplink], [TunDownlink]), the relay task ([RelayTask]) and the REALITY stream
    ([RealityStream]) put together, in joint runs ([Joint]): the bytes an application sends to an
    intercepted connection are, in order and complete, the application data the server decrypts from the
    stream of that connection, and what the server sends is what is handed to the application's socket. *)

From S2P Require Import Prelude Text Shared Dns FakeIp TuicCodec Frag Assoc Metrics UdpRelay Device TunSlot Upstream ClientTun.
From S2P Require Import TunInv TunSend TunStep TunProps TunUplink TunDownlink Crypto Record Auth KeySchedule Vless Reassembly RealityStream RelayTask Joint.

(** ** From the application to the server *)

(** C3: From the application to the server nothing is lost, repeated or reordered.  Take a state of the
    client in which the relay of a connection has just been started, and any joint run from there of the
    event loop and of the relay's task, polled over a REALITY stream: as long as inline opens succeed,
    what arrives before the stream is open fits the buffer of the slot, and the socket neither ends nor
    fails, the application data of the records the stream has sealed since the task started, followed by
    what is left of the message in the task's hand, is a prefix of what was received from the
    application's socket since it started to listen; and while the task is in its loop, that followed by
    what waits in its channel is exactly what was received. *)
Theorem app_to_server_exact `{C : Crypto, !CryptoLaws C} {TS : Smoltcp} {L : LoggedStack TS} {P : EtherParse}
    `{!ProxyUpstream U, !DatagramUpstream U} macos I (s0 s : @Loop TS U _) i q es ts k h c sock st d0 outs its later :
  serves_inline I → uplink_reachable macos I s0 → started s0 i q →
  joint macos i (uplink_ok macos) s0 (task_new st q) es ts s k →
  synced st d0 outs its (concat (event_bytes <$> ts) ++ later) → Forall task_event_ok ts →
  rk_seq (rs_send_keys st) + len (concat (q ++ concat (event_message <$> ts))) + Z.of_nat (requests its) < 2 ^ 64 - 1 →
  lp_ctxs s !! h = Some c → lp_sockets s !! h = Some sock → cx_uplink_tx c = Some i →
  ∃ outs' its', synced (tk_stream k) d0 outs' its' later ∧
    items_data outs' ++ unsent k `prefix_of` items_data outs ++ taken sock ∧
    (abs_phase (tk_phase k) = RelayRunning →
       items_data outs' ++ unsent k ++ concat (tk_rx k) = items_data outs ++ taken sock).
Proof.
  intros Hop Hr Hst Hj Hsy He Hb Hc Hs Hi.
  destruct (joint_models _ _ _ _ _ _ _ _ _ (started_models s0 i q st Hst) Hj) as [(r & Hri & Hq & Hw & Hp) _].
  assert (uplink_reachable macos I s) as Hr'.
  { eapply (joint_keeps _ _ _ _ _ (uplink_reachable macos I)); [| |exact Hr|exact Hj].
    - intros s1 e s2 H1 Hok E. exact (ur_step _ _ _ _ _ H1 Hok E).
    - intros s1 a s2 H1 E. exact (ur_step _ _ _ (EvRelay i a) _ H1 Logic.I E). }
  destruct (uplink_reachable_inv macos I Hop s Hr') as [Hinv _].
  pose proof (Hinv h c sock Hc Hs) as Hu. unfold up_slot in Hu.
  assert (relay_carries r (taken sock)) as Hca.
  { destruct (cx_state c); try done; try (by destruct Hu as [? _]; congruence).
    destruct Hu as (_ & i' & r' & Hi' & Hr0 & _ & Hca). by simplify_eq. }
  rewrite (joint_task _ _ _ _ _ _ _ _ _ Hj) in *.
  destruct (task_new_ok ts st q d0 outs its later Hsy He Hb) as [[(outs' & its' & Hsy' & Hd & _ & _) _ _] _].
  exists outs', its'. split; [done|]. rewrite Hd, <-Hw. split.
  - by apply prefix_app, carries_prefix.
  - intros Hrun. unfold relay_carries in Hca. rewrite Hp, Hrun in Hca. by rewrite !app_assoc, Hd, <-Hw, <-Hq, <-app_assoc, Hca.
Qed.

(** The demo connection: the application sends three bytes in two pieces, the task has taken the first. *)
#[local] Existing Instance up_logged.
Definition e2e_events : list task_event := [TkMessage [x05]; TkPoll true (Ok (Ready tt))].
Definition e2e_task : relay_task := @task_run demo_crypto e2e_events (task_new demo_reality [[x16; x03]]).

Lemma up_started : started (up_run 4) 0 [[x16; x03]].
Proof. split; [eexists; split; [vm_compute; reflexivity|repeat split]|vm_compute; reflexivity]. Qed.

Lemma e2e_joint :
  joint (C:=demo_crypto) false 0 (uplink_ok (L:=up_logged) false) (up_run 4) (task_new demo_reality [[x16; x03]])
    [EvRx (Some (demo_syn 443)) (up_accepts [x05]) 3; EvRelay 0%nat (RelayLocal true)] e2e_events (up_run 6) e2e_task.
Proof.
  pose proof (jt_start (C:=demo_crypto) false 0 (uplink_ok (L:=up_logged) false) (up_run 4) (task_new demo_reality [[x16; x03]])) as H.
  apply (jt_loop (C:=demo_crypto) _ _ _ _ _ _ _ _ _ (EvRx (Some (demo_syn 443)) (up_accepts [x05]) 3) (up_run 5)) in H;
    [|exact up_run_second|done|vm_compute; reflexivity].
  replace (heard 0 (up_run 4) (up_run 5)) with [TkMessage [x05]] in H by (vm_compute; reflexivity).
  apply (jt_task (C:=demo_crypto) _ _ _ _ _ _ _ _ _ (TkPoll true (Ok (Ready tt))) (up_run 6)) in H;
    [|exact Logic.I|left; vm_compute; reflexivity|vm_compute; reflexivity].
  exact H.
Qed.

Lemma app_to_server_exact_witness :
  ∃ sock outs' its', lp_sockets (up_run 6) !! 0%nat = Some sock ∧ taken sock = [x16; x03; x05] ∧
    @synced demo_crypto (tk_stream e2e_task) demo_dir outs' its' (zdrop 30 demo_wire) ∧
    items_data outs' ++ unsent e2e_task ++ concat (tk_rx e2e_task) = taken sock.
Proof.
  eassert (lp_sockets (up_run 6) !! 0%nat = Some _) as Hs by (vm_compute; reflexivity).
  eassert (lp_ctxs (up_run 6) !! 0%nat = Some _) as Hc by (vm_compute; reflexivity).
  assert (@synced demo_crypto demo_reality demo_dir [] demo_sent (concat (event_bytes <$> e2e_events) ++ zdrop 30 demo_wire)) as Hsy
    by (apply demo_synced; reflexivity).
  assert (Forall task_event_ok e2e_events) as Hev by (repeat constructor; vm_compute; congruence).
  destruct (app_to_server_exact (C:=demo_crypto) false (λ _, True) (up_run 4) (up_run 6) 0 [[x16; x03]] _ e2e_events e2e_task 0 _ _
    demo_reality demo_dir [] demo_sent (zdrop 30 demo_wire)
    (@spawned_serves_inline demo_up demo_proxy demo_datagram eq_refl) up_run_started up_started e2e_joint
    Hsy Hev ltac:(vm_compute; reflexivity) Hc Hs eq_refl) as (outs' & its' & Hsy' & _ & E).
  eexists _, outs', its'. split; [exact Hs|]. split; [reflexivity|]. split; [exact Hsy'|].
  apply E. vm_compute. reflexivity.
Defined.

(** ** From the server to the application *)

Section history.
Context `{C : Crypto} {TS : Smoltcp} {P : EtherParse} {U : Type} `{!ProxyUpstream U, !DatagramUpstream U}.
Abbreviation Loop := (@Loop TS U _).
Variable macos : bool.

(** A step of a relay puts into the loop's queue what the history says it sent. *)
Lemma relay_step_queue (s s' : Loop) i a :
  loop_step macos (EvRelay i a) s = (s', Ok tt) →
  (lp_global s' = lp_global s ∧ relay_sends (EvRelay i a) s = []) ∨
  ∃ h m, lp_global s' = lp_global s ++ [(h, m)] ∧ relay_sends (EvRelay i a) s = [(i, m)].
Proof.
  cbn [loop_step]. unfold run_relay, relay_sends. rewrite (mthen_step _ _ _ s s) by done.
  destruct (lp_relays s !! i) as [r|]; [|intros [= <-]; left; split; [done|by repeat case_match]].
  destruct (ry_phase r) eqn:Hp, a as [ok|[data|] w| |]; rewrite ?bool_decide_true, ?(bool_decide_false (_ = RelayRunning)) by done;
    cbn [andb]; unfold set_relay, mret, mlift, mupd; repeat case_match; mrun; intros [= <-]; try (by left); try done; right.
  - match goal with H : bool_decide (data = []) = true |- _ => apply bool_decide_eq_true_1 in H as -> end.
    eexists _, _. split; reflexivity.
  - eexists _, _. split; reflexivity.
Qed.

Lemma relay_run_queue acts (s s' : Loop) i y :
  loop_run macos (EvRelay i <$> acts) s = (s', Ok tt) →
  ∃ ms, lp_global s' = lp_global s ++ ms ∧
    under i (hy_sent (history_run macos (EvRelay i <$> acts) s y)) = under i (hy_sent y) ++ ms.*2.
Proof.
  revert s y. induction acts as [|a acts IH]; intros s y E.
  - injection E as <-. exists []. by rewrite !app_nil_r.
  - cbn [fmap list_fmap loop_run history_run] in *. unfold mthen in E.
    destruct (loop_step macos (EvRelay i a) s) as [s1 [[]| |]] eqn:E1; [|done..]. cbn [fst].
    destruct (IH s1 (history_step macos (EvRelay i a) s y) E) as (ms & Hg & Hu).
    cbn [hy_sent history_step] in Hu. rewrite under_app in Hu.
    destruct (relay_step_queue s s1 i a E1) as [[Hs1 Hn]|(h & m & Hs1 & Hn)]; rewrite Hn in Hu; rewrite Hs1 in Hg.
    + exists ms. split; [done|]. by rewrite app_nil_r in Hu.
    + exists ((h, m) :: ms). rewrite Hg, <-app_assoc. split; [done|].
      rewrite under_one, <-app_assoc in Hu. exact Hu.
Qed.

(** Another event adds nothing under relay [i]. *)
Lemma other_sends_nothing i e (s : Loop) : (∀ a, e ≠ EvRelay i a) → under i (relay_sends e s) = [].
Proof.
  intros Hne. unfold relay_sends. repeat case_match; try done. apply under_other. intros ->. by edestruct Hne.
Qed.

Lemma history_run_app es1 es2 (s : Loop) y s1 :
  loop_run macos es1 s = (s1, Ok tt) →
  history_run macos (es1 ++ es2) s y = history_run macos es2 s1 (history_run macos es1 s y).
Proof.
  revert s y. induction es1 as [|e es1 IH]; intros s y E; cbn [app history_run loop_run] in *; [by injection E as ->|].
  unfold mthen in E. destruct (loop_step macos e s) as [s2 [[]| |]]; [|done..]. by apply IH.
Qed.

(** What the relay sent over a joint run is what its task sent. *)
Lemma joint_sent i ok (s0 s : Loop) k0 es ts k y :
  models s0 i k0 → joint macos i ok s0 k0 es ts s k →
  ∃ new, tk_back k = tk_back k0 ++ new ∧
    under i (hy_sent (history_run macos es s0 y)) = under i (hy_sent y) ++ new.
Proof.
  intros H0. induction 1 as [|es ts s k e s' Hj (new & Hb & Hu) _ Hne E|es ts s k e s' Hj (new & Hb & Hu) Hown Hroom E].
  - exists []. by rewrite !app_nil_r.
  - exists new. destruct (heard_models macos i s s' k e (joint_models _ _ _ _ _ _ _ _ _ H0 Hj) Hne E) as [_ ->].
    split; [done|]. rewrite (history_run_app _ _ _ _ _ (joint_run _ _ _ _ _ _ _ _ _ Hj)). cbn [history_run hy_sent history_step].
    by rewrite under_app, other_sends_nothing, app_nil_r by done.
  - rewrite (history_run_app _ _ _ _ _ (joint_run _ _ _ _ _ _ _ _ _ Hj)).
    pose proof (task_step_matched macos e s i k (joint_models _ _ _ _ _ _ _ _ _ H0 Hj) Hroom) as Hm.
    assert (matched macos (task_actions e k) s i k (task_step e k)) as Hm' by (by destruct e). clear Hm.
    destruct Hm' as (r & s1 & new' & _ & E1 & _ & _ & _ & Hb' & Hg & _). rewrite E in E1. injection E1 as <-.
    destruct (relay_run_queue _ s s' i (history_run macos es s0 y) E) as (ms & Hg' & Hu').
    exists (new ++ new'). rewrite Hb', Hb, app_assoc. split; [done|]. rewrite Hu', Hu.
    rewrite Hg in Hg'. apply app_inv_head in Hg' as <-. rewrite <-list_fmap_compose.
    change (snd ∘ (ry_handle r,.)) with (@id (list byte)). by rewrite list_fmap_id, app_assoc.
Qed.

End history.

(** A joint run of events that keep the delivery log is a run of the client. *)
Lemma joint_delivery `{C : Crypto} {TS : Smoltcp} {D : DeliveryLog TS} {P : EtherParse} `{!ProxyUpstream U, !DatagramUpstream U}
    macos i (s0 s : @Loop TS U _) k0 es ts k :
  joint macos i (λ _ e, delivery_ok e) s0 k0 es ts s k → Forall delivery_ok es.
Proof.
  induction 1 as [|es ts s k e s' _ IH Hok _ _|es ts s k e s' _ IH _ _ _]; [by constructor|..]; apply Forall_app; (split; [done|]).
  - by constructor.
  - apply Forall_fmap, Forall_true. done.
Qed.

(** C5: From the server to the application nothing is lost, repeated or reordered.  Take a state of the
    client in which the relay of a connection has just been started on a quiet slot (no older relay of
    the slot runs and no message for it waits), and any joint run from there of the event loop and of the
    relay's task, polled over a REALITY stream whose socket neither ends nor fails: what was handed to the
    application's socket, then the slot's backlog, then what waits for the slot in the loop's queue, then
    what the task can still read from its stream, is exactly the data of the server behind the response
    header. *)
Theorem server_to_app_exact `{C : Crypto, !CryptoLaws C} {TS : Smoltcp} {D : DeliveryLog TS} {P : EtherParse}
    `{!ProxyUpstream U, !DatagramUpstream U} macos y (s0 s : @Loop TS U _) i q es ts k h c sock st d0 outs its later :
  down_reachable macos y s0 → started s0 i q → under i (hy_sent y) = [] → hy_quiet y !! i = Some true →
  joint macos i (λ _ e, delivery_ok e) s0 (task_new st q) es ts s k →
  synced st d0 outs its (concat (event_bytes <$> ts) ++ later) → Forall task_event_ok ts →
  rk_seq (rs_send_keys st) + len (concat (q ++ concat (event_message <$> ts))) + Z.of_nat (requests its) < 2 ^ 64 - 1 →
  lp_ctxs s !! h = Some c → lp_sockets s !! h = Some sock → cx_uplink_tx c = Some i →
  ∃ outs' its', synced (tk_stream k) d0 outs' its' later ∧
    given sock ++ cx_downlink_pending c ++ concat (under h (lp_global s)) ++ released (tk_stream k) (items_data its') =
    released st (items_data its).
Proof.
  intros Hr Hst Hnone Hq Hj Hsy He Hb Hc Hs Hi. pose proof (joint_run _ _ _ _ _ _ _ _ _ Hj) as Erun.
  assert (down_reachable macos (history_run macos es s0 y) s) as Hr'.
  { pose proof (history_run_reachable macos es s0 y (joint_delivery _ _ _ _ _ _ _ _ Hj)) as H. rewrite Erun in H. by apply H. }
  pose proof (hi_down _ _ (down_reachable_inv macos _ s Hr') h c sock Hc Hs) as Hd. unfold down_slot in Hd. rewrite Hi in Hd.
  destruct Hd as (_ & r & _ & _ & Hcl).
  destruct (Hcl (history_run_quiet macos es s0 y i Hq)) as [Hx _].
  destruct (joint_sent macos i _ s0 s _ es ts k y (started_models s0 i q st Hst) Hj) as (new & Hback & Hu).
  cbn in Hback. rewrite Hnone in Hu. cbn [app] in Hu. subst new.
  rewrite (joint_task _ _ _ _ _ _ _ _ _ Hj) in *.
  destruct (task_new_ok ts st q d0 outs its later Hsy He Hb) as [[(outs' & its' & Hsy' & _ & Hbk & _) _ _] _].
  exists outs', its'. split; [done|]. rewrite Hu in Hx. rewrite <-Hbk, <-Hx. by rewrite <-!(assoc_L (++)).
Qed.

(** The demo connection: its task takes the request, reads two bytes of the server in two records; the
    first is handed over, the second waits in the loop's queue. *)
#[local] Existing Instance demo_delivery.
Definition reading_start : demo_loop := demo_run (take 4 (down_events [] [])).
Definition reading_history : history := history_run false (take 4 (down_events [] [])) demo_start (mk_history [] []).
Definition reading_loop : list demo_event :=
  [EvRelay 0%nat (RelayLocal true); EvRelay 0%nat (RelayRemote (Some [x68]) 0); EvGlobal quiet 4;
   EvRelay 0%nat (RelayRemote (Some [x69]) 0)].
Definition reading_events : list task_event :=
  [TkPoll true (Ok (Ready tt)); TkPoll false (Ok (Ready tt)); TkReady [RdData (zdrop 30 demo_wire)] [WrOk 100; WrOk 100];
   TkPoll false (Ok (Ready tt)); TkPoll false (Ok (Ready tt))].
Definition reading_task (n : nat) : relay_task :=
  @task_run demo_crypto (take n reading_events) (task_new demo_reality [[x16; x03]]).
Definition reading_state (n : nat) : demo_loop := (loop_run false (take n reading_loop) reading_start).1.

Lemma reading_started : started reading_start 0 [[x16; x03]].
Proof. split; [eexists; split; [vm_compute; reflexivity|repeat split]|vm_compute; reflexivity]. Qed.

Lemma reading_start_reachable : down_reachable false reading_history reading_start.
Proof.
  apply history_run_reachable; [|vm_compute; reflexivity|apply dr_init].
  cbn [take down_events]. apply Forall_cons_2; [split; by intros ?|].
  apply Forall_cons_2; [exact (connects_ok [x16; x03] 2)|]. repeat (apply Forall_cons_2; [done|]). apply Forall_nil_2.
Qed.

Lemma reading_joint :
  joint (C:=demo_crypto) false 0 (λ _ e, delivery_ok e) reading_start (task_new demo_reality [[x16; x03]])
    reading_loop reading_events (reading_state 4) (reading_task 5).
Proof.
  pose proof (jt_start (C:=demo_crypto) (U:=demo_up) false 0 (λ _ e, delivery_ok e) reading_start (task_new demo_reality [[x16; x03]])) as H.
  apply (jt_task (C:=demo_crypto) _ _ _ _ _ _ _ _ _ (TkPoll true (Ok (Ready tt))) (reading_state 1)) in H;
    [|exact Logic.I|left; vm_compute; reflexivity|vm_compute; reflexivity].
  apply (jt_task (C:=demo_crypto) _ _ _ _ _ _ _ _ _ (TkPoll false (Ok (Ready tt))) (reading_state 1)) in H;
    [|exact Logic.I|left; vm_compute; reflexivity|vm_compute; reflexivity].
  apply (jt_task (C:=demo_crypto) _ _ _ _ _ _ _ _ _ (TkReady [RdData (zdrop 30 demo_wire)] [WrOk 100; WrOk 100]) (reading_state 1)) in H;
    [|exact Logic.I|left; vm_compute; reflexivity|vm_compute; reflexivity].
  apply (jt_task (C:=demo_crypto) _ _ _ _ _ _ _ _ _ (TkPoll false (Ok (Ready tt))) (reading_state 2)) in H;
    [|exact Logic.I|right; vm_compute; reflexivity|vm_compute; reflexivity].
  apply (jt_loop (C:=demo_crypto) _ _ _ _ _ _ _ _ _ (EvGlobal quiet 4) (reading_state 3)) in H;
    [|by intros ?|done|vm_compute; reflexivity].
  apply (jt_task (C:=demo_crypto) _ _ _ _ _ _ _ _ _ (TkPoll false (Ok (Ready tt))) (reading_state 4)) in H;
    [|exact Logic.I|right; vm_compute; reflexivity|vm_compute; reflexivity].
  match type of H with joint _ _ _ _ _ ?es ?ts _ ?k =>
    replace es with reading_loop in H by (vm_compute; reflexivity);
    replace ts with reading_events in H by (vm_compute; reflexivity);
    replace k with (reading_task 5) in H by (vm_compute; reflexivity)
  end.
  exact H.
Qed.

Lemma server_to_app_exact_witness :
  ∃ c sock its', lp_ctxs (reading_state 4) !! 0%nat = Some c ∧ lp_sockets (reading_state 4) !! 0%nat = Some sock ∧
    given sock = [x68] ∧
    given sock ++ cx_downlink_pending c ++ concat (under 0%nat (lp_global (reading_state 4))) ++
      released (tk_stream (reading_task 5)) (items_data its') = [x68; x69].
Proof.
  eassert (lp_sockets (reading_state 4) !! 0%nat = Some _) as Hs by (vm_compute; reflexivity).
  eassert (lp_ctxs (reading_state 4) !! 0%nat = Some _) as Hc by (vm_compute; reflexivity).
  assert (@synced demo_crypto demo_reality demo_dir [] demo_sent (concat (event_bytes <$> reading_events) ++ [])) as Hsy
    by (apply demo_synced; vm_compute; reflexivity).
  assert (Forall task_event_ok reading_events) as Hev by (repeat constructor; vm_compute; congruence).
  destruct (server_to_app_exact (C:=demo_crypto) false reading_history reading_start (reading_state 4) 0 [[x16; x03]]
    reading_loop reading_events (reading_task 5) 0 _ _ demo_reality demo_dir [] demo_sent []
    reading_start_reachable reading_started ltac:(vm_compute; reflexivity) ltac:(vm_compute; reflexivity) reading_joint
    Hsy Hev ltac:(vm_compute; reflexivity) Hc Hs eq_refl) as (outs' & its' & _ & E).
  eexists _, _, its'. split; [exact Hc|]. split; [exact Hs|]. split; [reflexivity|]. rewrite E. vm_compute. reflexivity.
Defined.
