(* ===== verification/Sink.v ===== *)
(** * Sink: the timing hooks of the event loop

    [MetricsSink] of [src/client_tun.rs] with its implementations: [NoopSink], [LoopProfiler]
    ([src/loop_profiler.rs]) and [RecordingSink] ([src/harness.rs]).  A method reads the monotonic
    clock; its reading (in nanoseconds) is an argument.  Durations are nanoseconds whose addition
    aborts above [DURATION_MAX], as [Duration]'s does.  Fractions are IEEE 754 doubles, by the
    executable specification of the Standard Library. *)

From Stdlib Require Import SpecFloat.
From S2P Require Import Prelude Shared Text Dns FakeIp TuicCodec Frag Assoc Metrics UdpRelay Device TunSlot Upstream ClientTun TunInv TunStep TunProps.

(** ** Durations and instants *)

Definition DURATION_MAX : Z := 2 ^ 64 * 10 ^ 9 - 1.
Definition duration_add (a b : Z) : res unit Z :=
  if bool_decide (a + b ≤ DURATION_MAX) then Ok (a + b) else Panic.
Definition saturating_duration_since (now earlier : Z) : Z := Z.max 0 (now - earlier).

(** ** The hooks *)

Inductive sink_call : Type :=
| EnterPoll | LeavePoll | EnterRelay | LeaveRelay | NoteListeners (n : Z) | ParkBegin | ParkEnd | Report.

(** One snapshot per printed line. *)
Record LoopProfileSnapshot := mk_LoopProfileSnapshot {
  ps_poll : Z; ps_relay : Z; ps_park : Z; ps_wall : Z; ps_iters : Z
}.

(** The hooks of a sink: from the clock and its state to its state and the line it prints. *)
Class MetricsSink (M : Type) := sink_hook : sink_call → Z → M → res unit (M * option LoopProfileSnapshot).

Fixpoint sink_run {M} `{MetricsSink M} (calls : list (Z * sink_call)) (m : M)
  : res unit (M * list LoopProfileSnapshot) :=
  match calls with
  | [] => Ok (m, [])
  | (now, c) :: calls =>
      let? '(m, line) := sink_hook c now m in
      let? '(m, lines) := sink_run calls m in
      Ok (m, option_list line ++ lines)
  end.

(** Every method of the trait has an empty default. *)
Record NoopSink := mk_NoopSink {}.
#[global] Instance noop_sink : MetricsSink NoopSink := λ _ _ m, Ok (m, None).

(** ** [LoopProfiler] *)

Record LoopProfiler := mk_LoopProfiler {
  pf_period_start : Z;
  pf_poll : Z; pf_relay : Z; pf_park : Z;
  pf_iters : Z;
  pf_poll_mark : option Z; pf_relay_mark : option Z; pf_park_mark : option Z
}.

Definition profiler_new (now : Z) : LoopProfiler := mk_LoopProfiler now 0 0 0 0 None None None.

Definition take_period (now : Z) (p : LoopProfiler) : LoopProfileSnapshot * LoopProfiler :=
  (mk_LoopProfileSnapshot (pf_poll p) (pf_relay p) (pf_park p)
     (saturating_duration_since now (pf_period_start p)) (pf_iters p),
   mk_LoopProfiler now 0 0 0 0 (pf_poll_mark p) (pf_relay_mark p) (pf_park_mark p)).

Definition MIN_REPORT_WALL : Z := 500 * 10 ^ 6.

(** [if let Some(m) = mark.take() { acc += now.saturating_duration_since(m) }] *)
Definition charge (now : Z) (mark : option Z) (acc : Z) : res unit Z :=
  match mark with
  | Some m => duration_add acc (saturating_duration_since now m)
  | None => Ok acc
  end.

(** [iters += 1], on 64 bits. *)
Definition incr_u64 (n : Z) : res unit Z := if bool_decide (n < u64_max) then Ok (n + 1) else Panic.

Definition profiler_hook (c : sink_call) (now : Z) (p : LoopProfiler)
  : res unit (LoopProfiler * option LoopProfileSnapshot) :=
  let '(mk_LoopProfiler start poll relay park iters pm rm km) := p in
  match c with
  | EnterPoll => Ok (mk_LoopProfiler start poll relay park iters (Some now) rm km, None)
  | LeavePoll =>
      let? poll := charge now pm poll in
      Ok (mk_LoopProfiler start poll relay park iters None rm km, None)
  | EnterRelay => Ok (mk_LoopProfiler start poll relay park iters pm (Some now) km, None)
  | LeaveRelay =>
      let? relay := charge now rm relay in
      Ok (mk_LoopProfiler start poll relay park iters pm None km, None)
  | NoteListeners _ => Ok (p, None)
  | ParkBegin => Ok (mk_LoopProfiler start poll relay park iters pm rm (Some now), None)
  | ParkEnd =>
      let? park := charge now km park in
      let? iters := incr_u64 iters in
      Ok (mk_LoopProfiler start poll relay park iters pm rm None, None)
  | Report =>
      let '(snap, p) := take_period now p in
      Ok (p, if bool_decide (MIN_REPORT_WALL ≤ ps_wall snap) then Some snap else None)
  end.
#[global] Instance loop_profiler : MetricsSink LoopProfiler := profiler_hook.

(** ** Fractions *)

Definition f64_of_Z (z : Z) : spec_float := binary_normalize 53 1024 z 0 false.
Definition f64_zero : spec_float := S754_zero false.
Definition f64_one : spec_float := f64_of_Z 1.

(** [Duration::as_secs_f64] *)
Definition as_secs_f64 (d : Z) : spec_float :=
  SFadd 53 1024 (f64_of_Z (d / 10 ^ 9)) (SFdiv 53 1024 (f64_of_Z (d mod 10 ^ 9)) (f64_of_Z (10 ^ 9))).

Definition ratio (num den : Z) : spec_float :=
  let d := as_secs_f64 den in
  if SFleb d f64_zero then f64_zero else SFdiv 53 1024 (as_secs_f64 num) d.

(** [f64::clamp] *)
Definition f64_clamp (x lo hi : spec_float) : spec_float :=
  let x := if SFltb x lo then lo else x in
  if SFltb hi x then hi else x.

Definition poll_fraction (s : LoopProfileSnapshot) : spec_float := ratio (ps_poll s) (ps_wall s).
Definition relay_fraction (s : LoopProfileSnapshot) : spec_float := ratio (ps_relay s) (ps_wall s).
Definition park_fraction (s : LoopProfileSnapshot) : spec_float := ratio (ps_park s) (ps_wall s).
Definition loop_active_fraction (s : LoopProfileSnapshot) : spec_float :=
  if bool_decide (ps_wall s = 0) then f64_zero
  else f64_clamp (SFsub 53 1024 f64_one (ratio (ps_park s) (ps_wall s))) f64_zero f64_one.

(** ** [RecordingSink] *)

Record Recorded := mk_Recorded {
  rc_poll_time : Z; rc_poll_calls : Z;
  rc_relay_time : Z; rc_relay_calls : Z;
  rc_max_listeners : Z; rc_listener_sum : Z; rc_listener_obs : Z;
  rc_park_time : Z; rc_iters : Z
}.
Definition recorded_default : Recorded := mk_Recorded 0 0 0 0 0 0 0 0 0.

Record RecordingSink := mk_RecordingSink {
  rs_shared : Recorded;
  rs_poll_start : option Z; rs_relay_start : option Z; rs_park_start : option Z
}.
Definition recording_new (shared : Recorded) : RecordingSink := mk_RecordingSink shared None None None.

Definition recording_hook (c : sink_call) (now : Z) (k : RecordingSink)
  : res unit (RecordingSink * option LoopProfileSnapshot) :=
  let '(mk_RecordingSink (mk_Recorded pt pc rt rc ml ls lo kt it as r) ps rs ks) := k in
  match c with
  | EnterPoll => Ok (mk_RecordingSink r (Some now) rs ks, None)
  | LeavePoll =>
      match ps with
      | Some _ =>
          let? pt := charge now ps pt in
          let? pc := incr_u64 pc in
          Ok (mk_RecordingSink (mk_Recorded pt pc rt rc ml ls lo kt it) None rs ks, None)
      | None => Ok (k, None)
      end
  | EnterRelay => Ok (mk_RecordingSink r ps (Some now) ks, None)
  | LeaveRelay =>
      match rs with
      | Some _ =>
          let? rt := charge now rs rt in
          let? rc := incr_u64 rc in
          Ok (mk_RecordingSink (mk_Recorded pt pc rt rc ml ls lo kt it) ps None ks, None)
      | None => Ok (k, None)
      end
  | NoteListeners n =>
      let? ls := expect (checked_add_u64 ls n) in
      let? lo := incr_u64 lo in
      Ok (mk_RecordingSink (mk_Recorded pt pc rt rc (Z.max ml n) ls lo kt it) ps rs ks, None)
  | ParkBegin => Ok (mk_RecordingSink r ps rs (Some now), None)
  | ParkEnd =>
      let? kt := charge now ks kt in
      let? it := incr_u64 it in
      Ok (mk_RecordingSink (mk_Recorded pt pc rt rc ml ls lo kt it) ps rs None, None)
  | Report => Ok (k, None)
  end.
#[global] Instance recording_sink : MetricsSink RecordingSink := recording_hook.

(** [Report::loop_profile] *)
Definition loop_profile (r : Recorded) (wall : Z) : LoopProfileSnapshot :=
  mk_LoopProfileSnapshot (rc_poll_time r) (rc_relay_time r) (rc_park_time r) wall (rc_iters r).

(** ** What an iteration of the event loop calls *)

(** The branch of [select!] taken: one that polls the stack and visits the dirty slots ([n] of them),
    the metrics branch, or another. *)
Inductive arm : Type := ArmPoll (n : Z) | ArmReport | ArmOther.

Definition arm_calls (a : arm) : list sink_call :=
  [ParkEnd] ++
  match a with
  | ArmPoll n => [EnterPoll; LeavePoll; EnterRelay; NoteListeners n; LeaveRelay]
  | ArmReport => [Report]
  | ArmOther => []
  end ++
  [ParkBegin].

(** ** The clock *)

(** The readings do not go back, and fit a [Duration]. *)
Fixpoint clock_ok (t : Z) (calls : list (Z * sink_call)) : Prop :=
  match calls with
  | [] => True
  | (now, _) :: calls => t ≤ now ≤ DURATION_MAX ∧ clock_ok now calls
  end.

Fixpoint clock_end (t : Z) (calls : list (Z * sink_call)) : Z :=
  match calls with [] => t | (now, _) :: calls => clock_end now calls end.

Lemma clock_ok_app t a b : clock_ok t (a ++ b) ↔ clock_ok t a ∧ clock_ok (clock_end t a) b.
Proof. revert t. induction a as [|[now c] a IH]; cbn; intros t; [tauto|]. rewrite IH. tauto. Qed.

Lemma clock_end_app t a b : clock_end t (a ++ b) = clock_end (clock_end t a) b.
Proof. revert t. induction a as [|[now c] a IH]; cbn; intros t; [done|]. apply IH. Qed.

Lemma sink_run_app {M} `{MetricsSink M} a b (m : M) m1 l1 m2 l2 :
  sink_run a m = Ok (m1, l1) → sink_run b m1 = Ok (m2, l2) → sink_run (a ++ b) m = Ok (m2, l1 ++ l2).
Proof.
  revert m l1. induction a as [|[now c] a IH]; cbn; intros m l1 Ha Hb; [by simplify_eq|].
  destruct (sink_hook c now m) as [[m' o]| |]; cbn in *; [|done..].
  destruct (sink_run a m') as [[m'' lines]| |] eqn:E; cbn in *; [|done..]. injection Ha as <- <-.
  rewrite (IH m' lines E Hb). cbn. by rewrite app_assoc.
Qed.

(** The calls of one iteration, cut off a run. *)
Lemma calls_cut {A} (calls : list (Z * A)) cs ds :
  calls.*2 = cs ++ ds → ∃ a b, calls = a ++ b ∧ a.*2 = cs ∧ b.*2 = ds.
Proof. intros H. apply fmap_app_inv in H as (a & b & -> & -> & ->). eauto. Qed.

(** ** The profiler between two iterations *)

Definition profiled (p : LoopProfiler) : Z := pf_poll p + pf_relay p + pf_park p.

Record prof_at (t : Z) (p : LoopProfiler) : Prop := {
  pa_nonneg : 0 ≤ pf_poll p ∧ 0 ≤ pf_relay p ∧ 0 ≤ pf_park p ∧ 0 ≤ pf_iters p;
  pa_start : 0 ≤ pf_period_start p;
  pa_marks : pf_poll_mark p = None ∧ pf_relay_mark p = None;
  pa_sum : profiled p + pf_period_start p ≤ default t (pf_park_mark p);
  pa_mark : default t (pf_park_mark p) ≤ t
}.

Definition snapshot_ok (l : LoopProfileSnapshot) : Prop :=
  0 ≤ ps_poll l ∧ 0 ≤ ps_relay l ∧ 0 ≤ ps_park l ∧ 0 ≤ ps_iters l ∧ ps_poll l + ps_relay l + ps_park l ≤ ps_wall l ∧
  MIN_REPORT_WALL ≤ ps_wall l.

Lemma charge_ok now mark acc :
  acc + (if mark is Some m then Z.max 0 (now - m) else 0) ≤ DURATION_MAX →
  charge now mark acc = Ok (acc + (if mark is Some m then Z.max 0 (now - m) else 0)).
Proof.
  intros H. unfold charge, duration_add, saturating_duration_since. destruct mark; [by rewrite bool_decide_true|].
  by rewrite Z.add_0_r.
Qed.

Lemma incr_u64_ok n : n < u64_max → incr_u64 n = Ok (n + 1).
Proof. intros H. unfold incr_u64. by rewrite bool_decide_true. Qed.

Definition lines_iters (lines : list LoopProfileSnapshot) : Z := foldr (λ l n, ps_iters l + n) 0 lines.

Lemma sink_run_cons {M} `{MetricsSink M} now c calls (m m1 m2 : M) line lines :
  sink_hook c now m = Ok (m1, line) → sink_run calls m1 = Ok (m2, lines) →
  sink_run ((now, c) :: calls) m = Ok (m2, option_list line ++ lines).
Proof. intros H1 H2. cbn. rewrite H1. cbn. by rewrite H2. Qed.

(** A run of hooks, one at a time. *)
Ltac hook :=
  unfold sink_hook, loop_profiler, profiler_hook; cbn [take_period pf_period_start pf_poll pf_relay pf_park pf_iters pf_poll_mark pf_relay_mark pf_park_mark];
  rewrite ?charge_ok by (cbn; lia); rewrite ?incr_u64_ok by lia; cbn [rbind]; reflexivity.
Ltac hooks := repeat (eapply sink_run_cons; [hook|]); reflexivity.

(** One iteration: nothing aborts, a printed line is right, and the iterations are counted. *)
Lemma arm_profiled t p a calls :
  prof_at t p → calls.*2 = arm_calls a → clock_ok t calls → pf_iters p < u64_max →
  ∃ p' lines, sink_run calls p = Ok (p', lines) ∧ prof_at (clock_end t calls) p' ∧ Forall snapshot_ok lines ∧
    pf_iters p' + lines_iters lines ≤ pf_iters p + 1.
Proof.
  destruct p as [start poll relay park iters pm rm km]. intros [Hn Hst [Hpm Hrm] Hsum Hmark] Hc Hk Hi.
  unfold profiled in Hsum. cbn in *. subst pm rm.
  assert (∀ k, km = Some k → k ≤ t) as Hkm by (intros k ->; done).
  destruct a as [n| |]; cbn in Hc.
  all: repeat match goal with H : fmap _ ?l = _ :: _ |- _ => destruct l as [|[? ?] ?]; [discriminate H|]; cbn in H; injection H as -> H end.
  all: match goal with H : fmap _ ?l = [] |- _ => apply fmap_nil_inv in H; subst l end.
  all: cbn in Hk; cbn [clock_end]; destruct km as [k|]; cbn in Hsum, Hmark.
  all: do 2 eexists; split; [hooks|].
  all: (split; [split; unfold profiled; cbn; first [done|lia]|]).
  all: unfold snapshot_ok, saturating_duration_since; cbn [ps_wall]; repeat case_bool_decide; cbn [option_list app].
  all: (split; [repeat constructor; cbn; lia|cbn; lia]).
Qed.

Lemma lines_iters_app a b : lines_iters (a ++ b) = lines_iters a + lines_iters b.
Proof. unfold lines_iters. induction a as [|l a IH]; cbn; lia. Qed.

Lemma lines_iters_nonneg l : Forall snapshot_ok l → 0 ≤ lines_iters l.
Proof. unfold lines_iters. induction 1 as [|x l (? & ? & ? & ? & _) _ IH]; cbn; lia. Qed.

Lemma arms_profiled arms t p calls :
  prof_at t p → calls.*2 = concat (arm_calls <$> arms) → clock_ok t calls → pf_iters p + len arms ≤ u64_max →
  ∃ p' lines, sink_run calls p = Ok (p', lines) ∧ prof_at (clock_end t calls) p' ∧ Forall snapshot_ok lines ∧
    pf_iters p' + lines_iters lines ≤ pf_iters p + len arms.
Proof.
  revert t p calls. induction arms as [|a arms IH]; intros t p calls Hp Hc Hk Hi.
  { apply fmap_nil_inv in Hc as ->. exists p, []. split; [done|]. split; [exact Hp|]. split; [by apply Forall_nil|]. cbn. unfold len. cbn. lia. }
  apply calls_cut in Hc as (x & y & -> & Hx & Hy). apply clock_ok_app in Hk as [Hkx Hky]. rewrite len_cons in *.
  pose proof (len_nonneg arms).
  destruct (arm_profiled t p a x Hp Hx Hkx) as (p1 & l1 & R1 & P1 & F1 & I1); [lia|].
  pose proof (lines_iters_nonneg l1 F1).
  destruct (IH (clock_end t x) p1 y P1 Hy Hky) as (p2 & l2 & R2 & P2 & F2 & I2); [lia|].
  exists p2, (l1 ++ l2). rewrite (sink_run_app x y p p1 l1 p2 l2 R1 R2), lines_iters_app.
  rewrite clock_end_app. split_and!; [done|done|by apply Forall_app|lia].
Qed.

(** ** The event loop *)

Section arms.
Context {TS : Smoltcp} {P : EtherParse} {U : Type} `{!ProxyUpstream U, !DatagramUpstream U}.
Abbreviation Loop := (@Loop TS U _).
Variable macos : bool.

(** The branch an event of the loop takes; the background tasks are not branches. *)
Definition event_arm (s : Loop) (e : @loop_event TS) : option arm :=
  match e with
  | EvRx read env _ =>
      let '(dev, r) := wait_for_rx macos read (lp_dev s) in
      Some (match r with
            | Ok _ =>
                match classify_inbound <$> rx_peek dev with
                | Some InUdpRelay | Some InDns => ArmOther
                | _ =>
                    let s := match rx_peek dev with
                             | Some buf => (inspect_and_mark buf (set_dev dev s)).1
                             | None => set_dev dev s
                             end in
                    ArmPoll (Z.of_nat (size (lp_dirty s)))
                end
            | _ => ArmOther
            end)
  | EvTimer _ _ => Some (ArmPoll (Z.of_nat (size (lp_dirty s))))
  | EvMetrics => Some ArmReport
  | EvGlobal _ _ | EvDone _ | EvDownlink _ _ _ | EvUdpSweep _ | EvFakeIpSweep _ => Some ArmOther
  | EvTask _ | EvRelay _ _ => None
  end.

(** The calls of the event loop to its sink over a run. *)
Fixpoint loop_calls (es : list (@loop_event TS)) (s : Loop) : list sink_call :=
  match es with
  | [] => []
  | e :: es => match event_arm s e with Some a => arm_calls a | None => [] end ++ loop_calls es (loop_step macos e s).1
  end.

Lemma loop_calls_arms es s : ∃ arms, loop_calls es s = concat (arm_calls <$> arms) ∧ len arms ≤ len es.
Proof.
  revert s. induction es as [|e es IH]; intros s; [exists []; by cbn|]. cbn [loop_calls].
  destruct (IH (loop_step macos e s).1) as (arms & -> & Hl). rewrite len_cons.
  destruct (event_arm s e) as [a|]; [exists (a :: arms)|exists arms]; rewrite ?len_cons; split; try done; lia.
Qed.

(** C34: The attribution of the main loop's time adds up.  Over any run of the event loop from any
    state, with a clock that does not go back, the profiler never aborts, and in every line it prints
    the times spent polling the stack, visiting slots and waiting are not negative and together are
    at most the wall time of the period, which is half a second at least; the periods together count
    no more iterations than the loop made. *)
Theorem profiler_accounts es (s : Loop) start calls :
  calls.*2 = loop_calls es s → 0 ≤ start → clock_ok start calls → len es ≤ u64_max →
  ∃ p lines, sink_run calls (profiler_new start) = Ok (p, lines) ∧ Forall snapshot_ok lines ∧
    pf_iters p + lines_iters lines ≤ len es.
Proof.
  intros Hc Hs Hk Hl. destruct (loop_calls_arms es s) as (arms & Ha & Hal). rewrite Ha in Hc.
  assert (prof_at start (profiler_new start)) as Hp.
  { split; unfold profiled; cbn; first [done|lia]. }
  destruct (arms_profiled arms start (profiler_new start) calls Hp Hc Hk) as (p & lines & R & _ & F & I).
  - cbn. lia.
  - exists p, lines. split_and!; try done. cbn in I. lia.
Qed.

End arms.

(** A timer tick, a quiet branch, and the metrics tick a second later. *)
Definition sink_events : list (@loop_event demo_stack) := [EvTimer quiet 1; EvFakeIpSweep 1; EvMetrics].
Definition sink_times : list Z := [10; 20; 70; 80; 90; 120; 130; 500000000; 500000040; 1000000000; 1000000050; 1000000060].
Definition sink_demo : list (Z * sink_call) := zip sink_times (loop_calls false sink_events demo_start).

Lemma profiler_accounts_witness :
  ∃ p lines, sink_run sink_demo (profiler_new 0) = Ok (p, lines) ∧ Forall snapshot_ok lines ∧
    lines = [mk_LoopProfileSnapshot 50 40 (499999870 + 499999960) 1000000050 3].
Proof.
  destruct (profiler_accounts false sink_events demo_start 0 sink_demo) as (p & lines & H & F & _).
  - vm_compute. reflexivity.
  - lia.
  - vm_compute. repeat split; discriminate.
  - vm_compute. discriminate.
  - exists p, lines. split; [exact H|]. split; [exact F|].
    vm_compute in H. injection H as _ <-. reflexivity.
Defined.

(** ** The two sinks keep the same books *)

Record same_books (k : RecordingSink) (p : LoopProfiler) : Prop := {
  sb_poll : rc_poll_time (rs_shared k) = pf_poll p;
  sb_relay : rc_relay_time (rs_shared k) = pf_relay p;
  sb_park : rc_park_time (rs_shared k) = pf_park p;
  sb_iters : rc_iters (rs_shared k) = pf_iters p;
  sb_poll_mark : rs_poll_start k = pf_poll_mark p;
  sb_relay_mark : rs_relay_start k = pf_relay_mark p;
  sb_park_mark : rs_park_start k = pf_park_mark p
}.

Lemma hook_books c now k k' line p :
  c ≠ Report → sink_hook c now k = Ok (k', line) → same_books k p →
  ∃ p', sink_hook c now p = Ok (p', None) ∧ same_books k' p' ∧ pf_period_start p' = pf_period_start p.
Proof.
  destruct k as [[pt pc rt rc ml ls lo kt it] ps rs ks], p as [start poll relay park iters pm rm km].
  intros Hr H [B1 B2 B3 B4 B5 B6 B7]. cbn in *. subst.
  destruct c; unfold sink_hook, recording_sink, recording_hook, loop_profiler, profiler_hook in *; try done.
  all: repeat case_match; try done; inv_res; simplify_eq; eexists; (split; [done|]); by split.
Qed.

(** The harness measures what production would report: on any sequence of hooks (other than the
    report itself) that the recording sink survives, the profiler survives too, and the profile
    computed from the recording is the snapshot the profiler takes at that moment. *)
Theorem recorder_agrees calls start k lines :
  Forall (λ c, c.2 ≠ Report) calls →
  sink_run calls (recording_new recorded_default) = Ok (k, lines) →
  ∃ p, sink_run calls (profiler_new start) = Ok (p, []) ∧
    ∀ now, start ≤ now → loop_profile (rs_shared k) (now - start) = (take_period now p).1.
Proof.
  intros Hc H.
  assert (∀ k0 p0, same_books k0 p0 → sink_run calls k0 = Ok (k, lines) → ∃ p, sink_run calls p0 = Ok (p, []) ∧
    same_books k p ∧ pf_period_start p = pf_period_start p0) as Hsim.
  { clear H. revert lines. induction Hc as [|[now c] calls Hc0 Hc IH]; intros lines k0 p0 Hb H; [cbn in H; simplify_eq; eauto|].
    cbn in H. destruct (sink_hook c now k0) as [[k1 l1]| |] eqn:E1; cbn in H; [|done..].
    destruct (sink_run calls k1) as [[k2 l2]| |] eqn:E2; cbn in H; [|done..]. simplify_eq.
    destruct (hook_books c now k0 k1 l1 p0 Hc0 E1 Hb) as (p1 & R1 & B1 & S1).
    destruct (IH l2 k1 p1 B1 E2) as (p2 & R2 & B2 & S2). exists p2. split; [|split; [done|congruence]].
    by apply (sink_run_cons now c calls p0 p1 p2 None []). }
  destruct (Hsim (recording_new recorded_default) (profiler_new start)) as (p & Hp & [B1 B2 B3 B4 _ _ _] & Hst); [by split|done|].
  exists p. split; [done|]. intros now Hn. unfold loop_profile, take_period, saturating_duration_since. cbn.
  rewrite B1, B2, B3, B4, Hst. cbn. f_equal. lia.
Qed.

Lemma recorder_agrees_witness :
  let calls := take 9 sink_demo in
  ∃ k p, sink_run calls (recording_new recorded_default) = Ok (k, []) ∧ sink_run calls (profiler_new 0) = Ok (p, []) ∧
    loop_profile (rs_shared k) 1000 = (take_period 1000 p).1 ∧ rc_poll_time (rs_shared k) = 50.
Proof.
  intros calls. destruct (sink_run calls (recording_new recorded_default)) as [[k l]| |] eqn:E; [|vm_compute in E; discriminate E..].
  destruct (recorder_agrees calls 0 k l) as (p & Hp & Ht); [vm_compute; repeat constructor; discriminate|exact E|].
  exists k, p. assert (l = [] ∧ rc_poll_time (rs_shared k) = 50) as [-> Hk]; [vm_compute in E; injection E as <- <-; split; reflexivity|].
  split; [reflexivity|]. split; [exact Hp|]. split; [apply (Ht 1000); lia|exact Hk].
Defined.

(** The fractions of the unit tests: 600, 100 and 300 of 1000 ms; waiting beyond the wall time; an
    empty period. *)
Example fractions_basic :
  let s := mk_LoopProfileSnapshot 600000000 100000000 300000000 1000000000 50 in
  poll_fraction s = SFdiv 53 1024 (f64_of_Z 6) (f64_of_Z 10) ∧
  relay_fraction s = SFdiv 53 1024 (f64_of_Z 1) (f64_of_Z 10) ∧
  loop_active_fraction s = SFdiv 53 1024 (f64_of_Z 7) (f64_of_Z 10) ∧
  loop_active_fraction (mk_LoopProfileSnapshot 0 0 1300000000 1000000000 1) = f64_zero ∧
  loop_active_fraction (mk_LoopProfileSnapshot 0 0 0 0 0) = f64_zero.
Proof. vm_compute. repeat split. Qed.
