(* ===== verification/Harness.v ===== *)
(** * Harness: the stress harness of [src/harness.rs]

    The parts of the harness that stand in for the network: the packet links, the in-memory TUN
    device, the mock upstream with its native fragmentation, and the payloads it checks.  The
    scenarios themselves only start tasks and wait for them.

    A link is the queue of the packets pushed and not yet popped.  The device's [flush_tx] pushes to
    the outbound link; its synthetic CPU cost has no effect on data.  The TCP side of the mock (an
    echo task per stream) is the stream it hands out. *)

From S2P Require Import Prelude Shared Text Dns FakeIp TuicCodec Frag Assoc Metrics UdpRelay Device TunSlot Upstream ClientTun TunInv TunStep TunProps TunFlows.

(** ** Packet links and the loopback device *)

Definition PacketLink : Type := list (list byte).
Definition link_new : PacketLink := [].
Definition link_push (l : PacketLink) (pkt : list byte) : PacketLink := l ++ [pkt].
Definition link_pop (l : PacketLink) : option (list byte) * PacketLink :=
  match l with [] => (None, []) | pkt :: l => (Some pkt, l) end.

Record LoopbackTunDevice := mk_LoopbackTunDevice {
  lb_rx_buffer : option (list byte);
  lb_tx_queue : list (list byte);
  lb_inbound : PacketLink;
  lb_outbound : PacketLink
}.

Definition loopback_new (inbound outbound : PacketLink) : LoopbackTunDevice :=
  mk_LoopbackTunDevice None [] inbound outbound.

(** Checksums are computed on sending and not checked on receiving, for TCP and IPv4; the others keep the
    default. *)
Definition loopback_caps : DeviceCapabilities :=
  mk_DeviceCapabilities MediumIp 1500 ChecksumTx ChecksumBoth ChecksumTx ChecksumBoth.

(** The TUN device treats ICMP like TCP; the loopback device checks ICMP on receiving too. *)
Example loopback_caps_differ_in_icmp :
  let tun := device_capabilities_for_mtu 1500 in
  dc_medium loopback_caps = dc_medium tun ∧ dc_max_transmission_unit loopback_caps = dc_max_transmission_unit tun ∧
  dc_checksum_ipv4 loopback_caps = dc_checksum_ipv4 tun ∧ dc_checksum_udp loopback_caps = dc_checksum_udp tun ∧
  dc_checksum_tcp loopback_caps = dc_checksum_tcp tun ∧ dc_checksum_icmpv4 loopback_caps ≠ dc_checksum_icmpv4 tun.
Proof. by split_and!. Qed.

(** [false]: the task waits for a packet. *)
Definition lb_wait_for_rx (d : LoopbackTunDevice) : LoopbackTunDevice * bool :=
  match link_pop (lb_inbound d) with
  | (Some pkt, rest) => (mk_LoopbackTunDevice (Some pkt) (lb_tx_queue d) rest (lb_outbound d), true)
  | (None, _) => (d, false)
  end.

Definition lb_rx_peek (d : LoopbackTunDevice) : option (list byte) := lb_rx_buffer d.
Definition lb_rx_take (d : LoopbackTunDevice) : option (list byte) * LoopbackTunDevice :=
  (lb_rx_buffer d, mk_LoopbackTunDevice None (lb_tx_queue d) (lb_inbound d) (lb_outbound d)).

(** The loop [while let Some(pkt) = tx_queue.pop_front()]. *)
Definition lb_flush_tx (d : LoopbackTunDevice) : LoopbackTunDevice :=
  mk_LoopbackTunDevice (lb_rx_buffer d) [] (lb_inbound d) (fold_left link_push (lb_tx_queue d) (lb_outbound d)).

Definition lb_inject_ip_packet (pkt : list byte) (d : LoopbackTunDevice) : LoopbackTunDevice :=
  mk_LoopbackTunDevice (lb_rx_buffer d) (lb_tx_queue d ++ [pkt]) (lb_inbound d) (lb_outbound d).

(** [QueueTxToken::consume] *)
Definition lb_tx_consume (queue : list (list byte)) (pkt : list byte) : list (list byte) := queue ++ [pkt].

(** The device's part of [iface.poll]: [receive] takes the waiting packet, [transmit] queues. *)
Definition lb_poll (emitted : list (list byte)) (d : LoopbackTunDevice) : LoopbackTunDevice :=
  mk_LoopbackTunDevice None (fold_left lb_tx_consume emitted (lb_tx_queue d)) (lb_inbound d) (lb_outbound d).

(** [GeneratorDevice]: [receive] pops the link, [LinkTxToken::consume] pushes to it at once. *)
Definition gen_receive (inbound : PacketLink) : option (list byte) * PacketLink := link_pop inbound.
Definition gen_transmit (outbound : PacketLink) (pkt : list byte) : PacketLink := link_push outbound pkt.

(** ** The mock upstream *)

(** [slice::chunks]: pieces of [n] bytes, the last one shorter. *)
Fixpoint chunks_fuel {A} (fuel n : nat) (l : list A) : list (list A) :=
  match fuel, l with
  | S fuel, _ :: _ => take n l :: chunks_fuel fuel n (drop n l)
  | _, _ => []
  end.
Definition chunks {A} (n : nat) (l : list A) : list (list A) := chunks_fuel (length l) n l.

(** One frame of [fragment_downlink]. *)
Definition downlink_frame (assoc frag_total i : Z) (data : list byte) : list byte :=
  [x05; x02] ++ be16 assoc ++ be16 0 ++ [z2b frag_total; z2b i] ++ be16 (as_u16 (len data)) ++ [xff] ++ data.

(** [debug] is [cfg(debug_assertions)]: the assertion on the number of frames. *)
Definition fragment_downlink (debug : bool) (assoc : Z) (payload : list byte) (chunk : Z) : res unit (list (list byte)) :=
  let chunk := Z.max chunk 1 in
  let cs := if bool_decide (payload = []) then [payload] else chunks (Z.to_nat chunk) payload in
  if debug && negb (bool_decide (len cs ≤ u8_max)) then Panic
  else
    let frag_total := Z.min (len cs) u8_max in
    Ok (imap (λ i data, downlink_frame assoc frag_total (Z.of_nat i) data) (take (Z.to_nat u8_max) cs)).

(** A stalled stream stops reading after [sc_after_bytes] until it is released. *)
Record StallConfig := mk_StallConfig { sc_port : Z; sc_after_bytes : Z }.

Record MockUpstream := mk_MockUpstream {
  mk_tcp_opens : Z;
  mk_udp_uplinks : Z;
  mk_echo_buf : Z;
  mk_frag_chunk : option Z;
  mk_stall : option StallConfig;
  mk_downlink : list (list byte)     (* what was sent to [downlink_tx] *)
}.

Definition mock_with_frag (echo_buf : Z) (frag_chunk : option Z) : MockUpstream :=
  mk_MockUpstream 0 0 echo_buf frag_chunk None [].
Definition mock_new (echo_buf : Z) : MockUpstream := mock_with_frag echo_buf None.
Definition mock_with_stall (echo_buf stall_port stall_after_bytes : Z) : MockUpstream :=
  mk_MockUpstream 0 0 echo_buf None (Some (mk_StallConfig stall_port stall_after_bytes)) [].

(** The stream handed out: the size of its pipe and how its echo task stalls. *)
Record EchoStream := mk_EchoStream { es_buf : Z; es_stall : option StallConfig }.

Definition mock_open_tcp (m : MockUpstream) (t : TargetAddr) : MockUpstream * EchoStream :=
  let stall := match mk_stall m with
               | Some s => if bool_decide (sc_port s = target_port t) then Some s else None
               | None => None
               end in
  let echo_buf := match stall with Some _ => mk_echo_buf m | None => Z.max (mk_echo_buf m) (64 * 1024) end in
  (mk_MockUpstream (wrapping_add_u64 (mk_tcp_opens m) 1) (mk_udp_uplinks m) (mk_echo_buf m) (mk_frag_chunk m)
     (mk_stall m) (mk_downlink m), mk_EchoStream echo_buf stall).

(** The echo task of a stream (two tasks, joined by a queue, when it can stall): the bytes the relay
    wrote and the task has not read, how many it read, whether it stalled before and whether it waits
    now, what waits to be written back, and what was. *)
Record EchoTask := mk_EchoTask {
  ec_unread : list byte;
  ec_read_total : Z;
  ec_stalled_once : bool;
  ec_waiting : bool;
  ec_queue : list (list byte);
  ec_echoed : list byte
}.
Definition echo_new : EchoTask := mk_EchoTask [] 0 false false [] [].

Inductive echo_action : Type :=
| EchoPut (data : list byte)     (* the relay writes *)
| EchoRead (n : Z)               (* the task reads [n] bytes, at most 16 KiB *)
| EchoWrite                      (* the next piece is written back *)
| EchoRelease.                   (* [StallControl::release] *)

Definition echo_step (stall : option StallConfig) (t : EchoTask) (a : echo_action) : EchoTask :=
  let '(mk_EchoTask unread total once waiting queue echoed) := t in
  match a with
  | EchoPut data => mk_EchoTask (unread ++ data) total once waiting queue echoed
  | EchoRead n =>
      let n := Z.min n (Z.min (16 * 1024) (len unread)) in
      (* the plain task writes a piece back before it reads the next *)
      let busy := match stall with Some _ => waiting | None => negb (bool_decide (queue = [])) end in
      if busy || bool_decide (n ≤ 0) then t
      else
        let total := total + n in
        let stalls := match stall with
                      | Some c => negb once && bool_decide (sc_after_bytes c ≤ total)
                      | None => false
                      end in
        mk_EchoTask (zdrop n unread) total (once || stalls) stalls (queue ++ [ztake n unread]) echoed
  | EchoWrite =>
      match queue with
      | data :: queue => mk_EchoTask unread total once waiting queue (echoed ++ data)
      | [] => t
      end
  | EchoRelease => mk_EchoTask unread total once false queue echoed
  end.

(** A datagram goes back as it came, or in fragments; one that does not decode is dropped.  An
    aborted assertion ([fragment_downlink]) leaves nothing sent. *)
Definition mock_send_udp (debug : bool) (m : MockUpstream) (datagram : list byte) : MockUpstream :=
  let out :=
    match mk_frag_chunk m with
    | None => [datagram]
    | Some chunk =>
        match decode_packet datagram with
        | Ok (assoc, payload) => match fragment_downlink debug assoc payload chunk with Ok fs => fs | _ => [] end
        | _ => []
        end
    end in
  mk_MockUpstream (mk_tcp_opens m) (wrapping_add_u64 (mk_udp_uplinks m) 1) (mk_echo_buf m) (mk_frag_chunk m)
    (mk_stall m) (mk_downlink m ++ out).

#[global] Instance mock_proxy : ProxyUpstream MockUpstream := {|
  RelayStream := EchoStream;
  up_open_tcp m t := let '(m, s) := mock_open_tcp m t in (m, Ok s);
  up_open_is_cheap := true;
  up_failover_leg _ := NO_FAILOVER
|}.
#[global] Instance mock_datagram : DatagramUpstream MockUpstream := {|
  up_send_udp := mock_send_udp true;
  up_drops _ := 0;
  up_stream_fallbacks _ := 0
|}.
#[global] Instance mock_laws : UpstreamLaws MockUpstream.
Proof. split. intros m t. done. Qed.

(** ** The payloads of the throughput scenario *)

Definition throughput_payload (i payload_len : Z) : list byte :=
  imap (λ j b, if bool_decide (2 ≤ Z.of_nat j) then z2b (Z.land (i + Z.of_nat j) 255)
               else if bool_decide (2 ≤ payload_len) then nth j (be16 (as_u16 i)) b else b)
    (replicate (Z.to_nat payload_len) x00).

Section drain.
Context {P : EtherParse}.

(** Whether an echoed packet is intact, and its marker. *)
Definition intact_echo (pkt : list byte) (payload_len : Z) : res unit (option Z) :=
  match parse_inbound_udp pkt with
  | None => Ok None
  | Some udp =>
      if negb (bool_decide (len (ui_payload udp) = payload_len)) then Ok None
      else
        let? b0 := idx (ui_payload udp) 0 in
        let? b1 := idx (ui_payload udp) 1 in
        let marker := u16_of b0 b1 in
        Ok (if bool_decide (ui_payload udp = throughput_payload marker payload_len) then Some marker else None)
  end.

(** The loop over the link; the flag tells whether some packet was popped. *)
Fixpoint drain_intact_echoes (link : PacketLink) (payload_len : Z) (intact : gset Z) (any : bool)
  : res unit (gset Z * bool) :=
  match link with
  | [] => Ok (intact, any)
  | pkt :: link =>
      let? o := intact_echo pkt payload_len in
      drain_intact_echoes link payload_len (match o with Some m => {[m]} ∪ intact | None => intact end) true
  end.

End drain.

(** ** The head-of-line scenario *)

Definition hol_payload (seed : Z) (n : Z) : list byte :=
  (λ i, z2b ((seed + Z.land (Z.of_nat i) 255) mod 2 ^ 8)) <$> seq 0 (Z.to_nat n).

(** ** Lemmas *)

Lemma chunks_fuel_concat {A} fuel n (l : list A) :
  (length l ≤ fuel)%nat → (1 ≤ n)%nat → concat (chunks_fuel fuel n l) = l.
Proof.
  revert l. induction fuel as [|fuel IH]; intros [|x l] Hf Hn; cbn in Hf; try done; try lia.
  cbn [chunks_fuel]. rewrite concat_cons, IH by (try rewrite length_drop; cbn; lia). apply take_drop.
Qed.

Lemma chunks_concat {A} n (l : list A) : (1 ≤ n)%nat → concat (chunks n l) = l.
Proof. intros Hn. by apply chunks_fuel_concat. Qed.

Lemma chunks_fuel_sizes {A} fuel n (l : list A) : Forall (λ c, (length c ≤ n)%nat) (chunks_fuel fuel n l).
Proof.
  revert l. induction fuel as [|fuel IH]; intros [|x l]; try apply Forall_nil_2.
  cbn [chunks_fuel]. apply Forall_cons. split; [|apply IH]. rewrite length_take. lia.
Qed.

(** [chunks] gives as few pieces as possible. *)
Lemma chunks_fuel_count {A} fuel n m (l : list A) :
  (1 ≤ n)%nat → (length l ≤ m * n)%nat → (length (chunks_fuel fuel n l) ≤ m)%nat.
Proof.
  intros Hn. revert m l. induction fuel as [|fuel IH]; intros m [|x l] Hl; cbn [chunks_fuel length]; try lia.
  destruct m as [|m]; [cbn in Hl; lia|]. apply le_n_S, IH. rewrite length_drop. cbn in Hl |- *. lia.
Qed.

Lemma downlink_frame_wire assoc total i data :
  is_u16 (len data) → downlink_frame assoc total i data = packet_frame x05 x02 assoc 0 total i (wire_addr None) data.
Proof. intros Hd. unfold downlink_frame, packet_frame, as_u16. rewrite Z.mod_small by ulia. by cbn. Qed.

Lemma decode_downlink_frame assoc total i data :
  is_u16 assoc → is_u8 total → is_u8 i → is_u16 (len data) →
  decode_packet_meta (downlink_frame assoc total i data) = Ok (mk_PacketMeta assoc 0 total i data).
Proof. intros ????. rewrite downlink_frame_wire by done. by apply decode_frame. Qed.

(** Everything handed to the device for sending, in order. *)
Definition dev_out (d : VirtualTunDevice) : list (list byte) := vd_written d ++ vd_tx_queue d.

Lemma flush_all_out (d : VirtualTunDevice) : dev_out (flush_tx [] d).1 = dev_out d.
Proof.
  unfold flush_tx, dev_out. destruct (flush_queue (vd_tx_queue d) [] (vd_written d)) as [[q w] ok] eqn:E. cbn.
  assert (∀ q w, flush_queue q [] w = ([], w ++ q, true)) as Hf.
  { clear. induction q as [|pkt q IH]; intros w; cbn; [by rewrite app_nil_r|]. by rewrite IH, <-app_assoc. }
  rewrite Hf in E. simplify_eq. by rewrite app_nil_r.
Qed.

Section echo.
Context {TS : Smoltcp} {P : EtherParse} {U : Type} `{!ProxyUpstream U, !DatagramUpstream U}.
Context `{!EtherParseLaws P}.
Abbreviation Loop := (@Loop TS U _).
Variable macos : bool.

(** A fragment that does not complete its packet is kept. *)
Lemma downlink_partial (s : Loop) dg m ws now r :
  decode_packet_meta dg = Ok m → frag_accept (lp_reasm s) m now = Ok (None, r) →
  handle_downlink macos dg ws now s = (set_reasm r s, Ok tt).
Proof. intros Hd Ha. unfold handle_downlink. rewrite Hd, (mthen_step _ _ _ s s) by done. by rewrite Ha. Qed.

(** The fragment that does is delivered. *)
Lemma downlink_whole (s : Loop) dg m now data r tu t0 :
  decode_packet_meta dg = Ok m → frag_accept (lp_reasm s) m now = Ok (Some data, r) → len data ≤ UDP_PAYLOAD_MAX →
  is_u32 (ft_src_ip tu) → is_u16 (ft_src_port tu) → is_u32 (ft_dst_ip tu) → is_u16 (ft_dst_port tu) →
  assoc_resolve (lp_assoc s) (pm_assoc_id m) = Some (mk_FlowEntry tu t0) →
  ∃ s' reply,
    handle_downlink macos dg [] now s = (s', Ok tt) ∧
    parse_inbound_udp reply
      = Some (mk_UdpInbound (ft_dst_ip tu) (ft_dst_port tu) (ft_src_ip tu) (ft_src_port tu) data) ∧
    dev_out (lp_dev s') = dev_out (lp_dev s) ++ [frame macos reply].
Proof.
  intros Hd Ha Hl W1 W2 W3 W4 Hr. unfold handle_downlink. rewrite Hd, (mthen_step _ _ _ s s) by done. rewrite Ha.
  rewrite (mthen_step _ _ _ (set_reasm r s) tt) by done. rewrite Hr.
  destruct (build_udp_ip_packet_fits (E:=ClientError) (target_src (mk_FlowEntry tu t0)) (app_endpoint (mk_FlowEntry tu t0)) data)
    as [reply Hb]; [done|].
  rewrite (mthen_step _ _ _ (set_reasm r s) reply) by (unfold mlift; by rewrite Hb).
  eexists _, reply. split; [mrun; reflexivity|]. split.
  - by rewrite (parse_built (E:=ClientError) (target_src (mk_FlowEntry tu t0)) (app_endpoint (mk_FlowEntry tu t0)) data reply).
  - cbn. rewrite flush_all_out. unfold dev_out, inject_ip_packet, push_injected. cbn. by rewrite app_assoc.
Qed.

(** The frames of [fragment_downlink], from the [j]-th on. *)
Lemma frames_delivered cs id now tu t0 j (s : Loop) :
  2 ≤ len cs ≤ 255 → Forall (λ c, is_u16 (len c)) cs → is_u16 id → len (concat cs) ≤ UDP_PAYLOAD_MAX →
  is_u32 (ft_src_ip tu) → is_u16 (ft_src_port tu) → is_u32 (ft_dst_ip tu) → is_u16 (ft_dst_port tu) →
  (j < length cs)%nat → collecting id 0 cs {[(id, 0)]} now (lp_reasm s) (rev (seq 0 j)) →
  assoc_resolve (lp_assoc s) id = Some (mk_FlowEntry tu t0) →
  ∃ s' reply,
    loop_run macos ((λ f, EvDownlink f [] now) <$> drop j (imap (λ i c, downlink_frame id (len cs) (Z.of_nat i) c) cs)) s
      = (s', Ok tt) ∧
    parse_inbound_udp reply
      = Some (mk_UdpInbound (ft_dst_ip tu) (ft_dst_port tu) (ft_src_ip tu) (ft_src_port tu) (concat cs)) ∧
    dev_out (lp_dev s') = dev_out (lp_dev s) ++ [frame macos reply].
Proof.
  intros Hn Hsz Hid Hl W1 W2 W3 W4. remember (length cs - j)%nat as m eqn:Hm.
  revert j s Hm. induction m as [|m IH]; intros j s Hm Hj Hco Has; [lia|].
  destruct (lookup_lt_is_Some_2 cs j Hj) as [c Hc].
  assert (imap (λ i c, downlink_frame id (len cs) (Z.of_nat i) c) cs !! j = Some (downlink_frame id (len cs) (Z.of_nat j) c)) as Hf.
  { by rewrite list_lookup_imap, Hc. }
  rewrite (drop_S _ _ _ Hf). cbn [fmap list_fmap loop_run].
  assert (decode_packet_meta (downlink_frame id (len cs) (Z.of_nat j) c) = Ok (fragment id 0 cs j)) as Hd.
  { unfold fragment, len in *. rewrite (list_lookup_total_correct _ _ _ Hc).
    apply decode_downlink_frame; [done|ulia|ulia|]. by eapply (Forall_lookup_1 _ _ _ _ Hsz). }
  assert (NoDup (j :: rev (seq 0 j))) as Hnd.
  { apply NoDup_cons. rewrite <-Permutation_rev. split; [|apply NoDup_seq]. rewrite elem_of_seq. lia. }
  assert (Forall (λ i, (i < length cs)%nat) (j :: rev (seq 0 j))) as Hall.
  { apply Forall_cons. split; [done|]. apply Forall_rev, Forall_seq. intros i Hi. lia. }
  assert (j :: rev (seq 0 j) = rev (seq 0 (S j))) as Hrev by (by rewrite seq_S, rev_app_distr).
  destruct (collecting_fragment id 0 cs {[(id, 0)]} now Hn (lp_reasm s) (rev (seq 0 j)) j now) as (r & Hr); [set_solver|lia|done..|].
  rewrite length_rev, length_seq in Hr. rewrite Hrev in Hr. case_decide as Hlast.
  - destruct Hr as [Ha Hco']. rewrite (slots_full cs Hn (rev (seq 0 (S j)))) in Ha by (by rewrite <-Permutation_rev, Hlast).
    destruct (downlink_whole s _ _ now (concat cs) r tu t0 Hd Ha Hl W1 W2 W3 W4 Has) as (s1 & reply & E & Hp & Ho).
    exists s1, reply. split; [|done]. unfold mthen. cbn [loop_step]. rewrite E.
    rewrite drop_ge by (rewrite length_imap; lia). done.
  - destruct Hr as [Ha Hco']. unfold mthen. cbn [loop_step]. rewrite (downlink_partial s _ _ [] now r Hd Ha).
    destruct (IH (S j) (set_reasm r s)) as (s1 & reply & E & Hp & Ho); [lia|lia|done|done|].
    exists s1, reply. done.
Qed.

(** All of them, whether one frame is enough or not. *)
Lemma fragments_delivered id payload chunk now tu t0 (s : Loop) :
  1 ≤ chunk ≤ 65535 → len payload ≤ 255 * chunk → len payload ≤ UDP_PAYLOAD_MAX → is_u16 id →
  is_u32 (ft_src_ip tu) → is_u16 (ft_src_port tu) → is_u32 (ft_dst_ip tu) → is_u16 (ft_dst_port tu) →
  frag_wf (lp_reasm s) → fr_partials (lp_reasm s) = ∅ →
  assoc_resolve (lp_assoc s) id = Some (mk_FlowEntry tu t0) →
  ∃ fs s' reply,
    fragment_downlink true id payload chunk = Ok fs ∧
    loop_run macos ((λ f, EvDownlink f [] now) <$> fs) s = (s', Ok tt) ∧
    parse_inbound_udp reply
      = Some (mk_UdpInbound (ft_dst_ip tu) (ft_dst_port tu) (ft_src_ip tu) (ft_src_port tu) payload) ∧
    dev_out (lp_dev s') = dev_out (lp_dev s) ++ [frame macos reply].
Proof.
  intros Hch Hc Hl Hid W1 W2 W3 W4 Hw He Has. unfold fragment_downlink. rewrite Z.max_l by lia.
  set (cs := if bool_decide (payload = []) then _ else _).
  assert (concat cs = payload ∧ Forall (λ c, is_u16 (len c)) cs ∧ 1 ≤ len cs ≤ 255) as (Hcc & Hsz & Hn).
  { subst cs. case_bool_decide as Hp.
    - subst payload. split; [done|]. split; [by apply Forall_singleton|done].
    - split; [apply chunks_concat; lia|]. split.
      + eapply Forall_impl; [apply chunks_fuel_sizes|]. intros c Hlc. cbn in Hlc. unfold len. ulia.
      + pose proof (chunks_fuel_count (length payload) (Z.to_nat chunk) 255 payload) as Hcount.
        unfold len in *. unfold chunks. split; [|lia]. destruct payload as [|b payload]; [done|]. cbn. lia. }
  clearbody cs. rewrite (bool_decide_true (len cs ≤ u8_max)) by (unfold u8_max; lia). cbn [negb andb].
  rewrite Z.min_l by (unfold u8_max; lia). rewrite take_ge by (unfold len, u8_max in *; lia).
  eexists. destruct (decide (len cs = 1)) as [H1|H1].
  - destruct cs as [|c [|c' cs']]; [unfold len in H1; cbn in H1; lia| |unfold len in H1; cbn in H1; lia].
    cbn in Hcc. rewrite app_nil_r in Hcc. subst c. clear Hsz. pose proof (len_nonneg payload).
    destruct (downlink_whole s (downlink_frame id 1 0 payload) (mk_PacketMeta id 0 1 0 payload) now payload
      (lp_reasm s) tu t0) as (s1 & reply & E & Hp & Ho); try done.
    { apply decode_downlink_frame; [done|ulia|ulia|unfold UDP_PAYLOAD_MAX in Hl; ulia]. }
    exists s1, reply. split; [done|]. split; [|done].
    transitivity (mthen (handle_downlink macos (downlink_frame id 1 0 payload) [] now) (λ _, mret tt) s); [reflexivity|].
    unfold mthen. by rewrite E.
  - destruct (frames_delivered cs id now tu t0 0 s) as (s1 & reply & E & Hp & Ho); try done; try lia.
    + by rewrite Hcc.
    + unfold len in *. lia.
    + split; [done|by rewrite He, dom_empty_L; set_solver|rewrite size_singleton; apply Hw|by rewrite He].
    + rewrite Hcc in Hp. exists s1, reply. done.
Qed.

End echo.

(** The echo of the UDP scenarios comes back byte for byte.  Take any state the loop reaches with
    the mock upstream in fragmenting mode and no packet partly reassembled.  A datagram an application
    sends to an allowed target reaches the mock, which queues at most 255 frames; when the loop has
    handled them in order, exactly one more packet has gone to the device, and it carries the
    datagram's own bytes from the address the application had sent to, to the port it sent from. *)
Theorem harness_udp_echo {TS : Smoltcp} {P : EtherParse} `{!SmoltcpLaws TS, !EtherParseLaws P}
    macos (s : @Loop TS MockUpstream _) pkt udp env now target fake_ip chunk :
  loop_reachable macos s → len pkt ≤ vd_mtu (lp_dev s) →
  parse_inbound_udp pkt = Some udp → ui_dst_port udp ≠ 53 →
  resolve_target (V4 (ui_dst_ip udp) (ui_dst_port udp)) (lp_pool s) = Direct target fake_ip → target_wf target →
  mk_frag_chunk (lp_up s) = Some chunk → 1 ≤ chunk ≤ 65535 → len (ui_payload udp) ≤ 255 * chunk →
  fr_partials (lp_reasm s) = ∅ →
  ∃ s1 fs s2 reply,
    loop_step macos (EvRx (Some (frame macos pkt)) env now) s = (s1, Ok tt) ∧
    mk_downlink (lp_up s1) = mk_downlink (lp_up s) ++ fs ∧ len fs ≤ 255 ∧
    loop_run macos ((λ f, EvDownlink f [] now) <$> fs) s1 = (s2, Ok tt) ∧
    parse_inbound_udp reply = Some (mk_UdpInbound (ui_dst_ip udp) (ui_dst_port udp) (ui_src_ip udp) (ui_src_port udp)
      (ui_payload udp)) ∧
    dev_out (lp_dev s2) = dev_out (lp_dev s) ++ [frame macos reply].
Proof.
  intros Hr Hl Hu Hp Ht Hwf Hfc Hch Hpl He. destruct (reachable_ok macos s Hr) as [Hi _].
  assert (loop_inv (set_dev (set_rx None (lp_dev s)) s)) as Hi' by (destruct Hi; by split).
  destruct (udp_uplink_sends (set_dev (set_rx None (lp_dev s)) s) pkt udp now target fake_ip Hi' Hu Ht)
    as (s1 & id & E & Hid & Hup & Has & Hdev & Hre).
  pose proof (parse_inbound_payload _ _ Hu) as Hpp. pose proof (li_mtu _ Hi) as Hm. pose proof (len_nonneg (ui_payload udp)).
  destruct (parse_inbound_widths _ _ Hu) as (W1 & W2 & W3 & W4). unfold MTU_BOUND in Hm.
  destruct (fragments_delivered macos id (ui_payload udp) chunk now (udp_tuple udp) now s1)
    as (fs & s2 & reply & Hf & E2 & Hrep & Ho); try done.
  { unfold UDP_PAYLOAD_MAX. lia. }
  { ulia. }
  { rewrite Hre. apply Hi. }
  { by rewrite Hre. }
  exists s1, fs, s2, reply. split_and!; try done.
  - cbn [loop_step]. rewrite (on_rx_udp macos s pkt udp) by done. by rewrite bool_decide_false.
  - rewrite Hup. cbn. unfold mock_send_udp. rewrite Hfc. unfold decode_packet.
    rewrite encode_packet_frame by ulia. rewrite decode_frame by (done || ulia). cbn. by rewrite Hf.
  - revert Hf. unfold fragment_downlink. case_match; [done|]. intros [= <-]. unfold len, u8_max.
    rewrite length_imap, length_take. lia.
  - rewrite Ho, Hdev. done.
Qed.

(** The scenario's packet: from 10.0.0.9:40000 to 93.184.216.34:5000. *)
Definition echo_packet : list byte :=
  [x45; x00; x00; x00; x00; x00; x00; x00; x40; x11; x00; x00; x0a; x00; x00; x09; x5d; xb8; xd8; x22;
   x9c; x40; x13; x88; x00; x00; x00; x00] ++ [x00; x00; x02; x03; x04].
Definition echo_start : @Loop demo_stack MockUpstream _ := loop_init 2 1500 (mock_with_frag 65536 (Some 2)).

Lemma harness_udp_echo_witness :
  ∃ s1 fs s2 reply,
    loop_step false (EvRx (Some echo_packet) quiet 1) echo_start = (s1, Ok tt) ∧
    mk_downlink (lp_up s1) = fs ∧ len fs = 3 ∧
    loop_run false ((λ f, EvDownlink f [] 1) <$> fs) s1 = (s2, Ok tt) ∧
    vd_written (lp_dev s2) = [reply] ∧
    parse_inbound_udp reply = Some (mk_UdpInbound (ipv4_new 93 184 216 34) 5000 (ipv4_new 10 0 0 9) 40000
      [x00; x00; x02; x03; x04]).
Proof.
  destruct (harness_udp_echo false echo_start echo_packet
    (mk_UdpInbound (ipv4_new 10 0 0 9) 40000 (ipv4_new 93 184 216 34) 5000 [x00; x00; x02; x03; x04]) quiet 1
    (IpPort (V4 (ipv4_new 93 184 216 34) 5000)) None 2) as (s1 & fs & s2 & reply & H1 & H2 & _ & H3 & H4 & H5).
  1: { apply lr_init; vm_compute; split; discriminate. }
  1-9: vm_compute; first [reflexivity | discriminate | repeat split; discriminate].
  change (frame false echo_packet) with echo_packet in H1. exists s1, fs, s2, reply.
  assert (s1 = (loop_step false (EvRx (Some echo_packet) quiet 1) echo_start).1) as Es1 by (rewrite H1; reflexivity).
  assert (fs = mk_downlink (lp_up s1)) as Ef by (rewrite H2; reflexivity).
  assert (s2 = (loop_run false ((λ f, EvDownlink f [] 1) <$> fs) s1).1) as Es2 by (rewrite H3; reflexivity).
  split; [exact H1|]. split; [symmetry; exact Ef|]. split; [rewrite Ef, Es1; vm_compute; reflexivity|]. split; [exact H3|].
  split; [|exact H4]. change (dev_out (lp_dev s2) = [reply]) in H5. rewrite <-H5. unfold dev_out.
  assert (vd_tx_queue (lp_dev s2) = []) as Eq by (rewrite Es2, Ef, Es1; vm_compute; reflexivity).
  rewrite Eq, app_nil_r. reflexivity.
Defined.

(** ** The loopback device stands for the real one *)

Inductive tun_op : Type :=
| TunDeliver (pkt : list byte)       (* a packet arrives and [wait_for_rx] returns *)
| TunTake                            (* [rx_take] *)
| TunInject (pkt : list byte)
| TunPoll (emitted : list (list byte))
| TunFlush.

Definition virtual_op (macos : bool) (d : VirtualTunDevice) (o : tun_op) : VirtualTunDevice :=
  match o with
  | TunDeliver pkt => (wait_for_rx macos (Some (frame macos pkt)) d).1
  | TunTake => (rx_take d).2
  | TunInject pkt => inject_ip_packet macos pkt d
  | TunPoll emitted => device_poll macos emitted d
  | TunFlush => (flush_tx [] d).1
  end.

(** The generator pushes to the link, which is empty between the operations. *)
Definition loopback_op (d : LoopbackTunDevice) (o : tun_op) : LoopbackTunDevice :=
  match o with
  | TunDeliver pkt =>
      (lb_wait_for_rx (mk_LoopbackTunDevice (lb_rx_buffer d) (lb_tx_queue d) (link_push (lb_inbound d) pkt) (lb_outbound d))).1
  | TunTake => (lb_rx_take d).2
  | TunInject pkt => lb_inject_ip_packet pkt d
  | TunPoll emitted => lb_poll emitted d
  | TunFlush => lb_flush_tx d
  end.

Definition op_fits (mtu : Z) (o : tun_op) : Prop :=
  match o with TunDeliver pkt => len pkt ≤ mtu | _ => True end.

Record devices_agree (macos : bool) (mtu : Z) (v : VirtualTunDevice) (l : LoopbackTunDevice) : Prop := {
  da_mtu : vd_mtu v = mtu;
  da_rx : vd_rx_buffer v = lb_rx_buffer l;
  da_tx : vd_tx_queue v = frame macos <$> lb_tx_queue l;
  da_out : vd_written v = frame macos <$> lb_outbound l;
  da_in : lb_inbound l = []
}.

Lemma fold_snoc {A} (f : list A → A → list A) (l q : list A) :
  (∀ q x, f q x = q ++ [x]) → fold_left f l q = q ++ l.
Proof.
  intros Hf. revert q. induction l as [|x l IH]; intros q; cbn; [by rewrite app_nil_r|]. by rewrite IH, Hf, <-app_assoc.
Qed.

Lemma op_agrees macos mtu v l o :
  devices_agree macos mtu v l → op_fits mtu o → devices_agree macos mtu (virtual_op macos v o) (loopback_op l o).
Proof.
  intros [Hm Hr Ht Ho Hi] Hf. destruct o as [pkt| |pkt|emitted|]; cbn [virtual_op loopback_op].
  - rewrite wait_for_rx_framed by (cbn in Hf; lia). unfold lb_wait_for_rx. cbn. rewrite Hi. by split.
  - by split.
  - split; cbn; try done. by rewrite fmap_app, <-Ht.
  - split; cbn; try done. rewrite fold_tx_consume, (fold_snoc lb_tx_consume) by done. by rewrite fmap_app, <-Ht.
  - split; cbn; try done.
    all: unfold flush_tx; destruct (flush_queue (vd_tx_queue v) [] (vd_written v)) as [[q w] ok] eqn:E; cbn; try done.
    all: assert (∀ q w, flush_queue q [] w = ([], w ++ q, true)) as Hq by
      (clear; induction q as [|p q IH]; intros w; cbn; [by rewrite app_nil_r|by rewrite IH, <-app_assoc]).
    all: rewrite Hq in E; simplify_eq; try done.
    rewrite (fold_snoc link_push) by done. by rewrite fmap_app, <-Ht, <-Ho.
Qed.

(** What the harness measures on its in-memory device holds for the real one: under any sequence of
    arrivals (of packets that fit the MTU), takes, injections, polls and flushes, the loopback device and
    the TUN device, on either platform and with writes that succeed, offer the event loop the same
    packet and have let out the same packets in the same order, up to the platform's header. *)
Theorem loopback_device_equivalent macos mtu ops :
  Forall (op_fits mtu) ops →
  let v := fold_left (virtual_op macos) ops (device_new mtu) in
  let l := fold_left loopback_op ops (loopback_new link_new link_new) in
  rx_peek v = lb_rx_peek l ∧ vd_written v = frame macos <$> lb_outbound l ∧
  vd_tx_queue v = frame macos <$> lb_tx_queue l.
Proof.
  intros Hf. assert (devices_agree macos mtu (fold_left (virtual_op macos) ops (device_new mtu))
    (fold_left loopback_op ops (loopback_new link_new link_new))) as [? ? ? ? ?]; [|done].
  assert (devices_agree macos mtu (device_new mtu) (loopback_new link_new link_new)) as H by (by split).
  revert H. generalize (device_new mtu) (loopback_new link_new link_new).
  induction Hf as [|o ops Ho Hf IH]; intros v l H; [done|]. cbn. by apply IH, op_agrees.
Qed.

Lemma loopback_device_equivalent_witness :
  let ops := [TunDeliver [x45; x01]; TunInject [x02]; TunPoll [[x03]; [x04]]; TunFlush; TunDeliver [x05]] in
  let v := fold_left (virtual_op true) ops (device_new 1500) in
  let l := fold_left loopback_op ops (loopback_new link_new link_new) in
  rx_peek v = lb_rx_peek l ∧ lb_rx_peek l = Some [x05] ∧ lb_outbound l = [[x02]; [x03]; [x04]] ∧
  vd_written v = frame true <$> lb_outbound l.
Proof.
  intros ops v l. destruct (loopback_device_equivalent true 1500 ops) as (H1 & H2 & _).
  - repeat constructor; vm_compute; discriminate.
  - split; [exact H1|]. split; [vm_compute; reflexivity|]. split; [vm_compute; reflexivity|exact H2].
Defined.

(** ** The echo task *)

Definition echo_put (a : echo_action) : list byte := match a with EchoPut data => data | _ => [] end.

(** Every byte written to a stream comes back, in order, stalled or not. *)
Lemma echo_conserves stall acts :
  let t := fold_left (echo_step stall) acts echo_new in
  ec_echoed t ++ concat (ec_queue t) ++ ec_unread t = concat (echo_put <$> acts).
Proof.
  cbn zeta. induction acts as [|a acts IH] using rev_ind; [done|].
  rewrite fold_left_app, fmap_app, concat_app, <-IH. cbn [fold_left fmap list_fmap concat]. rewrite app_nil_r.
  destruct (fold_left (echo_step stall) acts echo_new) as [unread total once waiting queue echoed]. cbn [ec_echoed ec_queue ec_unread].
  destruct a as [data|n| |]; cbn [echo_step echo_put ec_echoed ec_queue ec_unread]; rewrite ?app_nil_r.
  - by rewrite <-!app_assoc.
  - destruct (match stall with Some _ => _ | None => _ end || _); cbn; [done|]. rewrite concat_app. cbn. rewrite app_nil_r, <-app_assoc. unfold ztake, zdrop.
    by rewrite take_drop.
  - destruct queue as [|data queue]; [done|]. cbn. by rewrite <-!app_assoc.
  - done.
Qed.

(** ** Echoes are recognised *)

Lemma throughput_payload_len i n : 0 ≤ n → len (throughput_payload i n) = n.
Proof. intros Hn. unfold throughput_payload, len. rewrite length_imap, length_replicate. lia. Qed.

(** The marker keeps 16 bits, which is enough to rebuild the payload. *)
Lemma throughput_payload_marker i n : throughput_payload (as_u16 i) n = throughput_payload i n.
Proof.
  unfold throughput_payload. apply imap_ext. intros j b _. case_bool_decide.
  - f_equal. change 255 with (Z.ones 8). rewrite !Z.land_ones by lia. unfold as_u16.
    rewrite <-Z.add_mod_idemp_l by lia. rewrite Z.mod_mod_divide by (exists (2 ^ 8); lia). by rewrite Z.add_mod_idemp_l by lia.
  - unfold as_u16. by rewrite Z.mod_mod by lia.
Qed.

(** A packet of the scenario that comes back unchanged is counted under its marker. *)
Lemma intact_echo_recognised `{EtherParse} pkt i n src sport dst dport :
  2 ≤ n → parse_inbound_udp pkt = Some (mk_UdpInbound src sport dst dport (throughput_payload i n)) →
  intact_echo pkt n = Ok (Some (as_u16 i)).
Proof.
  intros Hn Hp. unfold intact_echo. rewrite Hp. cbn [ui_payload].
  rewrite throughput_payload_len, (bool_decide_true (n = n)) by lia. cbn [negb].
  assert (∃ rest, throughput_payload i n = be16 (as_u16 i) ++ rest) as [rest Hr].
  { unfold throughput_payload. rewrite (bool_decide_true (2 ≤ n)) by done.
    replace (Z.to_nat n) with (S (S (Z.to_nat (n - 2)))) by lia. cbn [replicate]. rewrite !imap_cons. cbn.
    unfold be16. cbn. eauto. }
  destruct (u16_of_be16 (as_u16 i)) as (a & b & Hb & Hu); [by apply Z.mod_pos_bound|]. rewrite Hb in Hr. cbn in Hr.
  assert (idx (throughput_payload i n) 0 = Ok (E:=unit) a ∧ idx (throughput_payload i n) 1 = Ok (E:=unit) b) as [-> ->] by (by rewrite Hr).
  cbn [rbind]. rewrite Hu, throughput_payload_marker. by rewrite bool_decide_true.
Qed.
