(* ===== verification/Wakeup.v ===== *)
(** * Wakeup: tasks that wait for each other in the stress harness

    [PacketLink] and [StallControl] of [src/harness.rs] share data between tasks and wake each other
    through a [Notify].  The tasks interleave at every shared access, so each is a state machine whose
    actions are the accesses, and the theorems are about all interleavings.

    Of [tokio]'s [Notify] the machines use what its documentation says: [notified()] registers the
    caller when it is called, or consumes a stored permit; [notify_one] wakes a registered caller or
    stores one permit; a registration dropped after it was woken hands the permit back; and
    [notify_waiters] wakes those already registered and stores nothing. *)

From stdpp Require Import relations.
From S2P Require Import Prelude Harness.

(** ** Inevitability

    [P] holds after finitely many steps on every path, and no path stops before. *)
Inductive inevitably {A} (R : relation A) (P : A → Prop) (a : A) : Prop :=
| inev_now : P a → inevitably R P a
| inev_next : (∃ b, R a b) → (∀ b, R a b → inevitably R P b) → inevitably R P a.

(** While [Inv] holds there is a step, and every step reaches [P] or keeps [Inv] at a smaller measure. *)
Lemma inevitably_measure {A} (R : relation A) (P Inv : A → Prop) (m : A → nat) a :
  (∀ a, Inv a → (∃ b, R a b) ∧ ∀ b, R a b → P b ∨ Inv b ∧ (m b < m a)%nat) → Inv a → inevitably R P a.
Proof.
  intros Hs. remember (m a) as n eqn:Hn. revert a Hn. induction (lt_wf n) as [n _ IH]. intros a -> Ha.
  destruct (Hs a Ha) as [He Hstep]. apply inev_next; [done|].
  intros b Hb. destruct (Hstep b Hb) as [HP|[Hi Hlt]]; [by apply inev_now|]. by eapply IH.
Qed.

(** ** The packet link *)

(** Where the receiving task is: outside [wait_for_rx]; about to pop; after a pop that found nothing
    and before [notified()]; registered; or woken and not yet resumed. *)
Inductive receiver : Type := Away | Popping | Missed | Asleep | Woken.
#[global] Instance receiver_eq_dec : EqDecision receiver.
Proof. solve_decision. Defined.

Record LinkState := mk_LinkState {
  lk_queue : PacketLink;
  lk_permit : bool;
  lk_recv : receiver;
  lk_notices : nat;                   (* senders between [push_back] and [notify_one] *)
  lk_pushed : list (list byte);       (* everything pushed, and everything received *)
  lk_got : list (list byte)
}.
Definition lk_init : LinkState := mk_LinkState link_new false Away 0 [] [].

Inductive link_action : Type :=
| PushBack (pkt : list byte)       (* the first half of [push] *)
| NotifyOne                        (* the second half *)
| Enter                            (* [wait_for_rx] is called *)
| Pop
| Notified                         (* [notified()] and its first poll *)
| Resume
| Cancel.                          (* [select!] drops the pending future *)

Definition lk_step (s : LinkState) (a : link_action) : option LinkState :=
  let '(mk_LinkState q p r n pd g) := s in
  match a, r with
  | PushBack pkt, _ => Some (mk_LinkState (link_push q pkt) p r (S n) (pd ++ [pkt]) g)
  | NotifyOne, _ =>
      match n with
      | O => None
      | S n => Some (if bool_decide (r = Asleep) then mk_LinkState q p Woken n pd g else mk_LinkState q true r n pd g)
      end
  | Enter, Away => Some (mk_LinkState q p Popping n pd g)
  | Pop, Popping =>
      match link_pop q with
      | (Some pkt, q) => Some (mk_LinkState q p Away n pd (g ++ [pkt]))
      | (None, q) => Some (mk_LinkState q p Missed n pd g)
      end
  | Notified, Missed =>
      Some (if p then mk_LinkState q false Popping n pd g else mk_LinkState q false Asleep n pd g)
  | Resume, Woken => Some (mk_LinkState q p Popping n pd g)
  | Cancel, Asleep => Some (mk_LinkState q p Away n pd g)
  | Cancel, Woken => Some (mk_LinkState q true Away n pd g)
  | _, _ => None
  end.

Inductive lk_reachable : LinkState → Prop :=
| lkr_init : lk_reachable lk_init
| lkr_step s a s' : lk_reachable s → lk_step s a = Some s' → lk_reachable s'.

(** The steps the two tasks take by themselves: no new packet, no cancellation. *)
Definition lk_internal (s s' : LinkState) : Prop :=
  lk_step s NotifyOne = Some s' ∨ lk_step s Pop = Some s' ∨ lk_step s Notified = Some s' ∨ lk_step s Resume = Some s'.

(** A task that found nothing and will sleep has a wake-up coming whenever a packet waits. *)
Record lk_inv (s : LinkState) : Prop := {
  lki_fifo : lk_got s ++ lk_queue s = lk_pushed s;
  lki_wake : match lk_recv s with
             | Missed => lk_queue s ≠ [] → (0 < lk_notices s)%nat ∨ lk_permit s = true
             | Asleep => lk_permit s = false ∧ (lk_queue s ≠ [] → (0 < lk_notices s)%nat)
             | _ => True
             end
}.

Lemma lk_step_inv s a s' : lk_step s a = Some s' → lk_inv s → lk_inv s'.
Proof.
  destruct s as [q p r n pd g]. intros H [Hf Hw]. cbn in Hf, Hw.
  destruct a, r; cbn in H; try discriminate H;
    try (destruct n as [|n]; [discriminate H|]; case_bool_decide);
    try (destruct q as [|pkt' q]; cbn in H); try destruct p; simplify_eq; split; cbn; try done.
  all: try (unfold link_push; rewrite ?(assoc_L (++)); congruence).
  all: first [by rewrite <-(assoc_L (++)) | intros; first [by left; lia | by right | split; [naive_solver|lia] | naive_solver lia]].
Qed.

Lemma lk_reachable_inv s : lk_reachable s → lk_inv s.
Proof. induction 1; [by split|by eapply lk_step_inv]. Qed.

Definition lk_rank (r : receiver) : nat :=
  match r with Away => 0 | Popping => 0 | Woken => 1 | Asleep => 2 | Missed => 3 end.

(** A receiver that is in [wait_for_rx] with a packet queued can go on, and each step brings it closer
    to the packet. *)
Lemma lk_progress s pkt q g :
  lk_inv s → lk_recv s ≠ Away → lk_queue s = pkt :: q → lk_got s = g →
  (∃ s', lk_internal s s') ∧
  ∀ s', lk_internal s s' → lk_inv s' ∧
    ((lk_got s' = g ++ [pkt] ∧ lk_queue s' = q) ∨
     (lk_recv s' ≠ Away ∧ lk_queue s' = pkt :: q ∧ lk_got s' = g ∧
      (4 * lk_notices s' + lk_rank (lk_recv s') < 4 * lk_notices s + lk_rank (lk_recv s))%nat)).
Proof.
  intros Hi Hr Hq Hg. split.
  - destruct Hi as [_ Hw]. destruct s as [q0 p r n pd g0]. cbn in *. subst. unfold lk_internal. destruct r; cbn; try done.
    + eauto.
    + eauto.
    + destruct Hw as [_ Hn]. destruct n; [by exfalso; specialize (Hn ltac:(done)); lia|]. eauto.
    + eauto.
  - intros s' Hs. split; [by destruct Hs as [H|[H|[H|H]]]; eapply lk_step_inv|].
    destruct s as [q0 p r n pd g0]. cbn in Hr, Hq, Hg. subst.
    destruct Hs as [H|[H|[H|H]]]; destruct r; cbn in H; try discriminate H; try done;
      try (destruct n as [|n]; [discriminate H|]); try destruct p; injection H as <-; cbn;
      first [by left | right; split_and!; (done || lia)].
Qed.


(** C33: The packet link loses no packet and no wake-up, whatever the interleaving of its tasks and
    however often the event loop drops a pending [wait_for_rx]: what was received followed by what is
    queued is what was pushed, in order; and a task that waits while a packet is queued receives the
    first one after finitely many steps of the two tasks, on every schedule. *)
Theorem link_no_lost_wakeup s :
  lk_reachable s →
  lk_got s ++ lk_queue s = lk_pushed s ∧
  (∀ pkt q, lk_queue s = pkt :: q → lk_recv s ≠ Away →
   inevitably lk_internal (λ s', lk_got s' = lk_got s ++ [pkt] ∧ lk_queue s' = q) s).
Proof.
  intros Hi%lk_reachable_inv. split; [apply Hi|]. intros pkt q Hq Hr.
  apply (inevitably_measure _ _
    (λ s', lk_inv s' ∧ lk_recv s' ≠ Away ∧ lk_queue s' = pkt :: q ∧ lk_got s' = lk_got s)
    (λ s', 4 * lk_notices s' + lk_rank (lk_recv s'))%nat); [|by split_and!].
  intros s1 (Hi1 & Hr1 & Hq1 & Hg1).
  destruct (lk_progress s1 pkt q (lk_got s)) as [He Hs]; [done..|].
  split; [done|]. intros s2 H2. destruct (Hs s2 H2) as [Hi2 [HP|(?&?&?&?)]]; [by left|by right].
Qed.

(** A packet is pushed between the pop that missed it and [notified()]. *)
Definition link_race : list link_action := [Enter; Pop; PushBack [x45]; Notified].
Definition link_run (s : LinkState) (l : list link_action) : option LinkState :=
  fold_left (λ o a, o ≫= λ s, lk_step s a) l (Some s).

Lemma link_run_reachable l s s' : link_run s l = Some s' → lk_reachable s → lk_reachable s'.
Proof.
  unfold link_run. revert s. induction l as [|a l IH]; cbn; intros s H Hr; [by simplify_eq|].
  destruct (lk_step s a) as [s1|] eqn:E; [eapply IH; [done|by eapply lkr_step]|].
  assert (∀ l, fold_left (λ o a, o ≫= λ s, lk_step s a) l None = None) as Hn by (clear; induction l; done).
  by rewrite Hn in H.
Qed.

Lemma link_no_lost_wakeup_witness :
  ∃ s, link_run lk_init link_race = Some s ∧ lk_recv s = Asleep ∧ lk_queue s = [[x45]] ∧
    inevitably lk_internal (λ s', lk_got s' = [[x45]] ∧ lk_queue s' = []) s.
Proof.
  destruct (link_run lk_init link_race) as [s|] eqn:E; [|vm_compute in E; discriminate E].
  pose proof (link_run_reachable _ _ _ E lkr_init) as Hr.
  assert (lk_recv s = Asleep ∧ lk_queue s = [[x45]] ∧ lk_got s = []) as (E1 & E2 & E3).
  { vm_compute in E. injection E as <-. repeat split. }
  exists s. split; [reflexivity|]. split; [exact E1|]. split; [exact E2|].
  pose proof (proj2 (link_no_lost_wakeup s Hr) [x45] [] E2) as H. rewrite E1, E3 in H. apply H. discriminate.
Defined.

(** ** The stall gate *)

(** The task that calls [wait_released]: about to load the flag; after a load that gave [false] and
    before [notified()]; registered; woken; or past the gate. *)
Inductive waiter : Type := Checking | Registering | Sleeping | Resuming | Through.
#[global] Instance waiter_eq_dec : EqDecision waiter.
Proof. solve_decision. Defined.

(** The task that calls [release]: before the store, before [notify_waiters], done. *)
Inductive releaser : Type := Storing | Notifying | Finished.
#[global] Instance releaser_eq_dec : EqDecision releaser.
Proof. solve_decision. Defined.

Record StallControl := mk_StallControl { sk_released : bool; sk_stalled : bool; sk_wait : waiter; sk_rel : releaser }.

(** [StallControl::new], and [mark_stalled] before the wait. *)
Definition sk_init : StallControl := mk_StallControl false false Checking Storing.
Definition mark_stalled (s : StallControl) : StallControl := mk_StallControl (sk_released s) true (sk_wait s) (sk_rel s).
Definition is_stalled (s : StallControl) : bool := sk_stalled s.

Inductive stall_action : Type := Load | Register | WakeUp | Store | NotifyWaiters.

Definition sk_step (s : StallControl) (a : stall_action) : option StallControl :=
  let '(mk_StallControl f st w r) := s in
  match a, w, r with
  | Load, Checking, _ => Some (mk_StallControl f st (if f then Through else Registering) r)
  | Register, Registering, _ => Some (mk_StallControl f st Sleeping r)
  | WakeUp, Resuming, _ => Some (mk_StallControl f st Checking r)
  | Store, _, Storing => Some (mk_StallControl true st w Notifying)
  | NotifyWaiters, _, Notifying => Some (mk_StallControl f st (if bool_decide (w = Sleeping) then Resuming else w) Finished)
  | _, _, _ => None
  end.

Definition sk_steps_to (s s' : StallControl) : Prop := ∃ a, sk_step s a = Some s'.
Definition sk_run (s : StallControl) (l : list stall_action) : option StallControl :=
  fold_left (λ o a, o ≫= λ s, sk_step s a) l (Some s).

(** The gate opens only after the release, and the flag tells whether the store happened. *)
Definition sk_inv (s : StallControl) : Prop :=
  (sk_released s = true ↔ sk_rel s ≠ Storing) ∧ (sk_wait s = Through → sk_released s = true).

Lemma sk_step_inv s a s' : sk_step s a = Some s' → sk_inv s → sk_inv s'.
Proof.
  destruct s as [f st w r]. intros H [H1 H2]. destruct a, w, r; cbn in *; simplify_eq; unfold sk_inv; cbn;
    destruct f; naive_solver.
Qed.

Lemma sk_run_inv l s s' : sk_run s l = Some s' → sk_inv s → sk_inv s'.
Proof.
  unfold sk_run. revert s. induction l as [|a l IH]; cbn; intros s H Hi; [by simplify_eq|].
  destruct (sk_step s a) as [s1|] eqn:E; [by eapply IH, sk_step_inv|].
  assert (∀ l, fold_left (λ o a, o ≫= λ s, sk_step s a) l None = None) as Hn by (clear; induction l; done).
  by rewrite Hn in H.
Qed.

Lemma mark_stalled_inv s : sk_inv s → sk_inv (mark_stalled s).
Proof. by destruct s. Qed.

(** A task that has not loaded the flag before the release, or that is registered when it happens,
    gets through: what remains is the load before the store and [notified()] after the wake-up. *)
Definition sk_safe (s : StallControl) : Prop :=
  match sk_rel s, sk_wait s with
  | Storing, Sleeping => True
  | Notifying, (Checking | Sleeping | Resuming | Through) => sk_released s = true
  | Finished, (Checking | Resuming | Through) => sk_released s = true
  | _, _ => False
  end.

Definition sk_left (s : StallControl) : nat :=
  (match sk_wait s with Through => 0 | Checking => 1 | Resuming => 2 | Sleeping => 3 | Registering => 4 end +
   match sk_rel s with Finished => 0 | Notifying => 5 | Storing => 10 end)%nat.

Lemma sk_safe_progress s :
  sk_safe s → sk_wait s ≠ Through →
  (∃ s', sk_steps_to s s') ∧ ∀ s', sk_steps_to s s' → sk_safe s' ∧ (sk_left s' < sk_left s)%nat.
Proof.
  destruct s as [f st w r]. intros Hs Ht. unfold sk_steps_to, sk_safe in *. cbn in *. split.
  - destruct r, w; try done; subst.
    all: first [by exists (mk_StallControl true st Through Notifying), Load | by exists (mk_StallControl true st Through Finished), Load
      | by exists (mk_StallControl true st Sleeping Notifying), Store | by exists (mk_StallControl true st Resuming Finished), NotifyWaiters
      | by exists (mk_StallControl true st Checking Notifying), WakeUp | by exists (mk_StallControl true st Checking Finished), WakeUp].
  - intros s' [a Ha]. destruct r, w, a; try done; subst; cbn in Ha; simplify_eq; try case_bool_decide; try done; cbn;
    split; (done || lia).
Qed.


(** A stalled stream goes on once it is released, provided the waiting task registered before the
    release or looks at the flag after it. *)
Lemma stall_released s : sk_safe s → inevitably sk_steps_to (λ s', sk_wait s' = Through) s.
Proof.
  intros Hs. destruct (decide (sk_wait s = Through)) as [?|Hw]; [by apply inev_now|].
  apply (inevitably_measure _ _ (λ s, sk_safe s ∧ sk_wait s ≠ Through) sk_left); [|done].
  intros s1 [H1 H2]. destruct (sk_safe_progress s1 H1 H2) as [He Hn]. split; [done|]. intros s2 H.
  destruct (Hn s2 H) as [Hs2 Hlt]. destruct (decide (sk_wait s2 = Through)); auto.
Qed.

(** A release can be missed.  When the waiting task loads the flag just before the release stores
    it and calls [notified()] just after [notify_waiters], it sleeps with the flag set and no task left
    to wake it: the stalled stream never goes on, although the flag was added so that a signal sent
    before the wait is not lost.  In no interleaving does the task get through before the release. *)
Theorem stall_release_missed :
  (∃ s, sk_run sk_init [Load; Store; NotifyWaiters; Register] = Some s ∧
     sk_released s = true ∧ sk_rel s = Finished ∧ sk_wait s = Sleeping ∧
     ∀ s', ¬ sk_steps_to s s') ∧
  (∀ l s, sk_run sk_init l = Some s → sk_wait s = Through → sk_released s = true).
Proof.
  split.
  - eexists. split; [vm_compute; reflexivity|]. split_and!; try done. intros s' [a Ha]. by destruct a.
  - intros l s Hr Ht. eapply sk_run_inv in Hr; [|by split]. by apply Hr.
Qed.
