(* ===== verification/Generator.v ===== *)
(** * Generator: the traffic generators of the stress harness

    The TCP side of [src/harness.rs]: the connections of [run_tcp_scenario] ([GenConn]) and of the
    head-of-line scenario ([HolConn]), the loops that drive them over a second TCP stack, and the
    reports; and the UDP throughput scenario.

    The client under test, the links and the scheduler are the environment: a [round] is one turn of a
    driving loop, with the readings of the clocks and what [iface.poll] does to every socket.  A loop
    runs over a list of rounds; that it ends is a theorem (a round past the time limit is enough).
    [Err tt] is a loop that has not ended after the rounds given, or a receive loop out of fuel. *)

From Stdlib Require Import SpecFloat.
From stdpp Require Import sorting.
From S2P Require Import Prelude Shared Text Addr Config UdpRelay Device TunSlot Metrics Sink Harness.

(** What the generator uses of the TCP stack besides [Smoltcp]: [connect] with buffers of a size,
    [close], and [recv_slice] into a buffer of a size. *)
Class GenTcp (TS : Smoltcp) := {
  tcp_connect : Z → SocketAddr → Z → option TcpSocket;
  tcp_close : TcpSocket → TcpSocket;
  recv_slice : TcpSocket → Z → option (list byte * TcpSocket)
}.

(** What a socket has accepted for sending, handed to the application, and holds for it. *)
Class GenTcpLaws (TS : Smoltcp) (G : GenTcp TS) := {
  given : TcpSocket → list byte;
  handed : TcpSocket → list byte;
  held : TcpSocket → list byte;
  connect_fresh : ∀ n a p s, tcp_connect n a p = Some s → given s = [] ∧ handed s = [] ∧ held s = [];
  connect_ok : ∀ n a p, 0 < p → is_Some (tcp_connect n a p);
  send_log : ∀ s l n s', send_slice s l = Some (n, s') →
    0 ≤ n ≤ len l ∧ given s' = given s ++ ztake n l ∧ handed s' = handed s ∧ held s' = held s;
  recv_log : ∀ s d s', can_recv s = true → recv_all s = Some (d, s') →
    d ≠ [] ∧ held s = d ++ held s' ∧ handed s' = handed s ++ d ∧ given s' = given s;
  slice_log : ∀ s n d s', can_recv s = true → recv_slice s n = Some (d, s') →
    (0 < n → d ≠ [] ∧ len d ≤ n) ∧ held s = d ++ held s' ∧ handed s' = handed s ++ d ∧ given s' = given s;
  close_log : ∀ s, given (tcp_close s) = given s ∧ handed (tcp_close s) = handed s ∧ held (tcp_close s) = held s
}.

Section drivers.
Context {TS : Smoltcp} {G : GenTcp TS}.

(** One turn: [start.elapsed()] at the test, [stall_control.is_stalled()], the poll, and the clock. *)
Record round := mk_round {
  rd_elapsed : Z;
  rd_stalled : bool;
  rd_poll : nat → TcpSocket → TcpSocket;
  rd_now : Z
}.

(** [started.elapsed().as_micros() as u64] *)
Definition elapsed_us (now started : Z) : Z := (saturating_duration_since now started / 1000) mod 2 ^ 64.

(** The loop [for c in conns.iter_mut()]: the connections with their sockets, and what the visits
    add to the count of completions. *)
Fixpoint visit_all {C} (visit : C → TcpSocket → res unit (C * TcpSocket * Z)) (l : list (C * TcpSocket))
  : res unit (list (C * TcpSocket) * Z) :=
  match l with
  | [] => Ok ([], 0)
  | (c, sock) :: l =>
      let? '(c, sock, k) := visit c sock in
      let? '(l, k') := visit_all visit l in
      Ok ((c, sock) :: l, k + k')
  end.

Definition poll_all {C} (r : round) (l : list (C * TcpSocket)) : list (C * TcpSocket) :=
  imap (λ i cs, (cs.1, rd_poll r i cs.2)) l.

(** ** [run_tcp_scenario] *)

Record GenConn := mk_GenConn {
  gc_payload_len : Z;
  gc_sent : Z;
  gc_recvd : Z;
  gc_started : Z;
  gc_done_us : option Z;
  gc_closed : bool
}.

(** [while sock.can_recv() { match sock.recv_slice(..) { .. } }] *)
Fixpoint gen_recv (fuel : nat) (buf_sz : Z) (sock : TcpSocket) (recvd : Z) : res unit (TcpSocket * Z) :=
  if can_recv sock then
    match fuel with
    | O => Err tt
    | S fuel =>
        match recv_slice sock buf_sz with
        | Some ([], sock) => Ok (sock, recvd)
        | Some (data, sock) => gen_recv fuel buf_sz sock (recvd + len data)
        | None => Ok (sock, recvd)
        end
    end
  else Ok (sock, recvd).

Definition gen_send (payload : list byte) (c : GenConn) (sock : TcpSocket) : res unit (GenConn * TcpSocket) :=
  if bool_decide (gc_sent c < gc_payload_len c) && can_send sock then
    let? rest := expect (get_from payload (gc_sent c)) in
    match send_slice sock rest with
    | Some (n, sock) =>
        Ok (mk_GenConn (gc_payload_len c) (gc_sent c + n) (gc_recvd c) (gc_started c) (gc_done_us c) (gc_closed c), sock)
    | None => Ok (c, sock)
    end
  else Ok (c, sock).

Definition gen_visit (fuel : nat) (buf_sz : Z) (payload : list byte) (now : Z) (c : GenConn) (sock : TcpSocket)
  : res unit (GenConn * TcpSocket * Z) :=
  if bool_decide (is_Some (gc_done_us c)) && gc_closed c then Ok (c, sock, 0)
  else
    let? '(c, sock) := gen_send payload c sock in
    let? '(sock, recvd) := gen_recv fuel buf_sz sock (gc_recvd c) in
    let '(mk_GenConn plen sent _ started done_us closed) := c in
    let finish := bool_decide (done_us = None) && bool_decide (plen ≤ recvd) in
    let done_us := if finish then Some (elapsed_us now started) else done_us in
    let sock := if finish then tcp_close sock else sock in
    let closed := if bool_decide (is_Some done_us) && negb (is_active sock) then true else closed in
    Ok (mk_GenConn plen sent recvd started done_us closed, sock, if finish then 1 else 0).

Record ScenarioParams := mk_ScenarioParams {
  sp_connections : Z;
  sp_distinct_ports : Z;
  sp_payload_len : Z;
  sp_pool_size : Z;
  sp_timeout : Z;
  sp_cpu_burn_per_flush : Z
}.
Definition params_default : ScenarioParams := mk_ScenarioParams 64 64 1024 8 (30 * 10 ^ 9) 0.

Definition GEN_IP : Z := ipv4_new 10 0 0 9.
Definition TARGET_IP : Z := ipv4_new 93 184 216 34.
Definition TARGET_PORT_BASE : Z := 9000.

(** The ports of the [i]-th connection; the addition is checked. *)
Definition conn_dst_port (p : ScenarioParams) (i : Z) : res unit Z :=
  let port := TARGET_PORT_BASE + as_u16 (i mod Z.max (sp_distinct_ports p) 1) in
  if bool_decide (port ≤ u16_max) then Ok port else Panic.
Definition conn_local_port (i : Z) : Z := wrapping_add_u16 40000 (as_u16 i).

Definition open_conn (p : ScenarioParams) (now : Z) (i : nat) : res unit (GenConn * TcpSocket) :=
  let? port := conn_dst_port p (Z.of_nat i) in
  let? sock := expect (tcp_connect (Z.max (sp_payload_len p * 2) 4096) (V4 TARGET_IP port) (conn_local_port (Z.of_nat i))) in
  Ok (mk_GenConn (sp_payload_len p) 0 0 now None false, sock).

Fixpoint open_conns (p : ScenarioParams) (now : nat → Z) (ids : list nat) : res unit (list (GenConn * TcpSocket)) :=
  match ids with
  | [] => Ok []
  | i :: ids =>
      let? c := open_conn p (now i) i in
      let? cs := open_conns p now ids in
      Ok (c :: cs)
  end.

(** [while completed < params.connections && wall_start.elapsed() < params.timeout]; what comes back
    also holds the wall time. *)
Fixpoint tcp_drive (fuel : nat) (p : ScenarioParams) (rounds : list round) (completed : Z)
    (l : list (GenConn * TcpSocket)) : res unit (list (GenConn * TcpSocket) * Z * Z) :=
  match rounds with
  | [] => Err tt
  | r :: rounds =>
      if bool_decide (completed < sp_connections p) && bool_decide (rd_elapsed r < sp_timeout p) then
        let? '(l, k) := visit_all (gen_visit fuel (Z.max (sp_payload_len p * 2) 4096)
                                     (replicate (Z.to_nat (sp_payload_len p)) xab) (rd_now r)) (poll_all r l) in
        tcp_drive fuel p rounds (completed + k) l
      else Ok (l, completed, rd_elapsed r)
  end.

(** The report, less the counters copied from the sink and the mock. *)
Record ScenarioReport := mk_ScenarioReport {
  rp_connections : Z;
  rp_completed : Z;
  rp_wall : Z;
  rp_bytes_echoed : Z;
  rp_per_socket_buffer_bytes : Z;
  rp_latencies_us : list Z;
  rp_avg_listeners : spec_float
}.

Definition zsum (l : list Z) : Z := foldr Z.add 0 l.

Definition run_tcp_scenario (fuel : nat) (p : ScenarioParams) (now : nat → Z) (rounds : list round) (rec : Recorded)
  : res unit ScenarioReport :=
  let? l := open_conns p now (seq 0 (Z.to_nat (sp_connections p))) in
  let? '(l, completed, wall) := tcp_drive fuel p rounds 0 l in
  let avg := if bool_decide (0 < rc_listener_obs rec)
             then SFdiv 53 1024 (f64_of_Z (rc_listener_sum rec)) (f64_of_Z (rc_listener_obs rec)) else f64_zero in
  Ok (mk_ScenarioReport (sp_connections p) completed wall (zsum (gc_recvd ∘ fst <$> l)) (2 * TCP_SOCKET_BUFFER_SIZE)
        (omap (gc_done_us ∘ fst) l) avg).

(** ** The head-of-line scenario *)

Record HolConn := mk_HolConn {
  hc_payload : list byte;
  hc_send_chunk : Z;
  hc_sent : Z;
  hc_received : list byte;
  hc_started : Z;
  hc_done_us : option Z;
  hc_closed : bool
}.

Definition hol_new (payload : list byte) (send_chunk now : Z) : HolConn :=
  mk_HolConn payload (Z.max send_chunk 1) 0 [] now None false.
Definition hol_done (c : HolConn) : bool := bool_decide (is_Some (hc_done_us c)).
Definition bytes_match (c : HolConn) : bool := bool_decide (hc_received c = hc_payload c).

(** [while sock.can_recv() { match sock.recv(..) { Ok(()) => {} Err(_) => break } }] *)
Fixpoint hol_recv (fuel : nat) (sock : TcpSocket) (received : list byte) : res unit (TcpSocket * list byte) :=
  if can_recv sock then
    match fuel with
    | O => Err tt
    | S fuel =>
        match recv_all sock with
        | Some (data, sock) => hol_recv fuel sock (received ++ data)
        | None => Ok (sock, received)
        end
    end
  else Ok (sock, received).

Definition hol_send (c : HolConn) (sock : TcpSocket) : res unit (Z * TcpSocket) :=
  if bool_decide (hc_sent c < len (hc_payload c)) && can_send sock then
    let end_ := Z.min (hc_sent c + hc_send_chunk c) (len (hc_payload c)) in
    let? piece := slice (hc_payload c) (hc_sent c) end_ in
    match send_slice sock piece with
    | Some (n, sock) => Ok (hc_sent c + n, sock)
    | None => Ok (hc_sent c, sock)
    end
  else Ok (hc_sent c, sock).

Definition hol_visit (fuel : nat) (now : Z) (c : HolConn) (sock : TcpSocket) : res unit (HolConn * TcpSocket * Z) :=
  if hol_done c && hc_closed c then Ok (c, sock, 0)
  else
    let? '(sent, sock) := hol_send c sock in
    let? '(sock, received) := hol_recv fuel sock (hc_received c) in
    let finish := bool_decide (hc_done_us c = None) && bool_decide (len (hc_payload c) ≤ len received) in
    let done_us := if finish then Some (elapsed_us now (hc_started c)) else hc_done_us c in
    let sock := if finish then tcp_close sock else sock in
    let closed := if bool_decide (is_Some done_us) && negb (is_active sock) then true else hc_closed c in
    Ok (mk_HolConn (hc_payload c) (hc_send_chunk c) sent received (hc_started c) done_us closed, sock, 0).

(** [while !stop(conns) && start.elapsed() < timeout]; [stop] also sees the stall flag. *)
Fixpoint drive_hol_generator (fuel : nat) (timeout : Z) (stop : bool → list HolConn → bool) (rounds : list round)
    (l : list (HolConn * TcpSocket)) : res unit (list (HolConn * TcpSocket)) :=
  match rounds with
  | [] => Err tt
  | r :: rounds =>
      if negb (stop (rd_stalled r) l.*1) && bool_decide (rd_elapsed r < timeout) then
        let? '(l, _) := visit_all (hol_visit fuel (rd_now r)) (poll_all r l) in
        drive_hol_generator fuel timeout stop rounds l
      else Ok l
  end.

Definition push_hol_conn (dst_port local_port : Z) (payload : list byte) : res unit TcpSocket :=
  expect (tcp_connect (Z.max (len payload * 2) 4096) (V4 TARGET_IP dst_port) local_port).

Record TcpHolReport := mk_TcpHolReport {
  hr_stall_observed : bool;
  hr_normal_completed_while_stalled : bool;
  hr_stalled_completed_while_stalled : bool;
  hr_stalled_completed_after_release : bool;
  hr_normal_bytes_match : bool;
  hr_stalled_bytes_match : bool;
  hr_normal_sent : Z;
  hr_normal_received : Z;
  hr_stalled_sent : Z;
  hr_stalled_received : Z;
  hr_tcp_opens_while_stalled : Z;
  hr_tcp_opens_after_release : Z
}.

(** What the scenario reads of its surroundings: the rounds of its three drives, the clocks, the stall
    flag after the first drive and the mock's counter after the others. *)
Record hol_env := mk_hol_env {
  he_drive1 : list round; he_drive2 : list round; he_drive3 : list round;
  he_started0 : Z; he_started1 : Z;
  he_stall_observed : bool;
  he_opens_stalled : Z; he_opens_after : Z
}.

Definition run_tcp_hol_scenario (fuel : nat) (e : hol_env) : res unit TcpHolReport :=
  let stall_port := TARGET_PORT_BASE in
  let normal_port := TARGET_PORT_BASE + 1 in
  let stall_payload := hol_payload 160 (16 * 1024) in
  let? sock0 := push_hol_conn stall_port 41000 stall_payload in
  let? l := drive_hol_generator fuel (8 * 10 ^ 9)
              (λ stalled cs, stalled && match cs with c :: _ => bool_decide (8 * 1024 ≤ hc_sent c) | [] => false end)
              (he_drive1 e) [(hol_new stall_payload 4 (he_started0 e), sock0)] in
  let normal_payload := hol_payload 32 (8 * 1024) in
  let? sock1 := push_hol_conn normal_port 41001 normal_payload in
  let? l := drive_hol_generator fuel (5 * 10 ^ 9) (λ _ cs, match cs with [_; c] => hol_done c | _ => false end)
              (he_drive2 e) (l ++ [(hol_new normal_payload 1024 (he_started1 e), sock1)]) in
  let? '(a2, _) := idx l 0 in
  let? '(b2, _) := idx l 1 in
  let? l := drive_hol_generator fuel (10 * 10 ^ 9)
              (λ _ cs, match cs with [a; b] => hol_done a && hol_done b | _ => false end) (he_drive3 e) l in
  let? '(a, _) := idx l 0 in
  let? '(b, _) := idx l 1 in
  Ok (mk_TcpHolReport (he_stall_observed e) (hol_done b2) (hol_done a2) (hol_done a) (bytes_match b) (bytes_match a)
        (hc_sent b) (len (hc_received b)) (hc_sent a) (len (hc_received a)) (he_opens_stalled e) (he_opens_after e)).

End drivers.

(** ** Percentiles *)

(** [x.round() as usize]: halves away from zero, saturating. *)
Definition f64_round_usize (x : spec_float) : Z :=
  match x with
  | S754_finite false m e =>
      Z.min u64_max (if bool_decide (0 ≤ e) then Z.shiftl (Zpos m) e
                     else Z.shiftr (Zpos m + Z.shiftl 1 (- e - 1)) (- e))
  | S754_infinity false => u64_max
  | _ => 0
  end.

Definition percentile (latencies : list Z) (p : spec_float) : res unit Z :=
  if bool_decide (latencies = []) then Ok 0
  else
    let v := merge_sort Z.le latencies in
    let i := Z.min (f64_round_usize (SFmul 53 1024 (SFsub 53 1024 (f64_of_Z (len v)) f64_one) p)) (len v - 1) in
    idx v i.

(** The literals [0.50] and [0.95]. *)
Definition p50_us (latencies : list Z) : res unit Z := percentile latencies (SFdiv 53 1024 (f64_of_Z 50) (f64_of_Z 100)).
Definition p95_us (latencies : list Z) : res unit Z := percentile latencies (SFdiv 53 1024 (f64_of_Z 95) (f64_of_Z 100)).
Definition max_us (latencies : list Z) : Z := foldr Z.max 0 latencies.

(** [bytes * 8 / (secs * 1e6)] *)
Definition throughput_mbps (bytes wall : Z) : spec_float :=
  let secs := as_secs_f64 wall in
  if SFleb secs f64_zero then f64_zero
  else SFdiv 53 1024 (SFmul 53 1024 (f64_of_Z bytes) (f64_of_Z 8)) (SFmul 53 1024 secs (f64_of_Z (10 ^ 6))).

(** ** The UDP scenarios *)

Section udp.
Context {P : EtherParse}.

(** [build_udp_ip], [write(..).unwrap()] *)
Definition build_udp_ip (src src_port dst dst_port : Z) (payload : list byte) : res unit (list byte) :=
  expect (write_ipv4_udp (src, src_port) (dst, dst_port) 64 payload).

Definition udp_packet (i : Z) (payload : list byte) : res unit (list byte) :=
  build_udp_ip GEN_IP (wrapping_add_u16 40000 (as_u16 i)) TARGET_IP 5000 payload.

Record UdpReport := mk_UdpReport { ur_sent : Z; ur_uplinks : Z }.

(** The packets [run_udp_echo_scenario] pushes, and its report; [uplinks] is the mock's counter at the
    end. *)
Fixpoint udp_echo_send (ids : list nat) (payload_len : Z) (link : PacketLink) (sent : Z) : res unit (PacketLink * Z) :=
  match ids with
  | nil => Ok (link, sent)
  | cons i rest =>
      let? pkt := udp_packet (Z.of_nat i) (replicate (Z.to_nat payload_len) xcd) in
      udp_echo_send rest payload_len (link_push link pkt) (sent + 1)
  end.
Definition run_udp_echo_scenario (datagrams payload_len uplinks : Z) : res unit (PacketLink * UdpReport) :=
  let? '(link, sent) := udp_echo_send (seq 0 (Z.to_nat datagrams)) payload_len link_new 0 in
  Ok (link, mk_UdpReport sent uplinks).

(** The sending loop: the packets pushed to the client, and after each a drain of what came back
    ([arrived i]). *)
Fixpoint udp_send_all (ids : list nat) (payload_len : Z) (arrived : nat → PacketLink) (link : PacketLink) (intact : gset Z)
  : res unit (PacketLink * gset Z) :=
  match ids with
  | nil => Ok (link, intact)
  | cons i rest =>
      let? pkt := udp_packet (Z.of_nat i) (throughput_payload (Z.of_nat i) payload_len) in
      let? '(intact, _) := drain_intact_echoes (arrived i) payload_len intact false in
      udp_send_all rest payload_len arrived (link_push link pkt) intact
  end.

(** [while intact.len() < n && start.elapsed() < timeout]: each turn has the clock and what arrived. *)
Fixpoint udp_wait (n payload_len timeout : Z) (rounds : list (Z * PacketLink)) (intact : gset Z)
  : res unit (gset Z * Z) :=
  match rounds with
  | nil => Err tt
  | cons (elapsed, arrived) rest =>
      if bool_decide (Z.of_nat (size intact) < n) && bool_decide (elapsed < timeout) then
        let? '(intact, _) := drain_intact_echoes arrived payload_len intact false in
        udp_wait n payload_len timeout rest intact
      else Ok (intact, elapsed)
  end.

Record UdpThroughputReport := mk_UdpThroughputReport {
  ut_sent : Z; ut_echoed_intact : Z; ut_lost : Z; ut_wall : Z; ut_payload_len : Z; ut_fragmented : bool
}.

Definition run_udp_throughput_scenario (n payload_len : Z) (frag_chunk : option Z) (timeout : Z)
    (arrived : nat → PacketLink) (rounds : list (Z * PacketLink)) : res unit UdpThroughputReport :=
  let? '(_, intact) := udp_send_all (seq 0 (Z.to_nat n)) payload_len arrived link_new ∅ in
  let? '(intact, wall) := udp_wait n payload_len timeout rounds intact in
  let count := Z.of_nat (size intact) in
  if bool_decide (count ≤ n)
  then Ok (mk_UdpThroughputReport n count (n - count) wall payload_len (bool_decide (is_Some frag_chunk)))
  else Panic.

Definition udp_pps (r : UdpThroughputReport) : spec_float :=
  let s := as_secs_f64 (ut_wall r) in
  if SFleb s f64_zero then f64_zero else SFdiv 53 1024 (f64_of_Z (ut_echoed_intact r)) s.
Definition udp_throughput_mbps (r : UdpThroughputReport) : spec_float :=
  let s := as_secs_f64 (ut_wall r) in
  if SFleb s f64_zero then f64_zero
  else SFdiv 53 1024
         (SFmul 53 1024 (SFmul 53 1024 (f64_of_Z (ut_echoed_intact r)) (f64_of_Z (ut_payload_len r))) (f64_of_Z 8))
         (SFmul 53 1024 s (f64_of_Z (10 ^ 6))).

End udp.

(** ** Lemmas on the driving loops *)

Section visits.
Context {TS : Smoltcp} {C : Type}.
Variables (visit : C → TcpSocket → res unit (C * TcpSocket * Z)) (ok : C * TcpSocket → Prop) (goes : C → C → Prop) (f : C → Z).
Hypothesis visit_ok : ∀ c sock, ok (c, sock) →
  ∃ c' sock', visit c sock = Ok (c', sock', f c' - f c) ∧ ok (c', sock') ∧ goes c c'.

Lemma visit_all_ok l :
  Forall ok l →
  ∃ l', visit_all visit l = Ok (l', zsum (f <$> l'.*1) - zsum (f <$> l.*1)) ∧ Forall ok l' ∧ Forall2 goes l.*1 l'.*1.
Proof.
  induction 1 as [|[c sock] l Hc Hl (l' & E & Hok & Hg)]; cbn; [by exists []; rewrite Z.sub_diag|].
  destruct (visit_ok c sock Hc) as (c' & sock' & Ev & Hc' & Hgo). exists ((c', sock') :: l').
  rewrite Ev. cbn [rbind]. rewrite E. cbn [rbind fmap list_fmap fst].
  split_and!; [do 2 f_equal; unfold zsum; cbn [foldr]; lia|by constructor..].
Qed.
End visits.

Lemma poll_all_fst {TS : Smoltcp} {C} (r : round) (l : list (C * TcpSocket)) : (poll_all r l).*1 = l.*1.
Proof.
  unfold poll_all. apply list_eq. intros i. rewrite !list_lookup_fmap, list_lookup_imap. by destruct (l !! i) as [[]|].
Qed.

Section laws.
Context {TS : Smoltcp} {G : GenTcp TS} `{!GenTcpLaws TS G}.

(** The path echoes: a poll changes only what a socket holds, and what the application got followed by
    that is the beginning of what it sent. *)
Definition echoes (sock : TcpSocket) : Prop := handed sock ++ held sock `prefix_of` given sock.
Definition echoing (r : round) : Prop :=
  ∀ i s, given (rd_poll r i s) = given s ∧ handed (rd_poll r i s) = handed s ∧ (echoes s → echoes (rd_poll r i s)).

Lemma poll_all_ok {C} (ok : C * TcpSocket → Prop) r (l : list (C * TcpSocket)) :
  (∀ c i s, ok (c, s) → ok (c, rd_poll r i s)) → Forall ok l → Forall ok (poll_all r l).
Proof.
  intros Hk Hl. rewrite Forall_lookup in Hl |- *. intros i [c s]. unfold poll_all. rewrite list_lookup_imap.
  destruct (l !! i) as [[c0 s0]|] eqn:E; cbn; [|done]. intros [= <- <-]. by eapply Hk, Hl.
Qed.

(** A receive loop takes everything it can, and ends: fuel beyond what the socket holds is enough. *)
Lemma hol_recv_ok fuel sock received :
  (length (held sock) < fuel)%nat →
  ∃ sock' d, hol_recv fuel sock received = Ok (sock', received ++ d) ∧
    held sock = d ++ held sock' ∧ handed sock' = handed sock ++ d ∧ given sock' = given sock.
Proof.
  revert sock received. induction fuel as [|fuel IH]; intros sock received Hf; [lia|]. cbn.
  destruct (can_recv sock) eqn:Hc; [|exists sock, []; by rewrite !app_nil_r].
  destruct (recv_all sock) as [[d sock1]|] eqn:Er; [|exists sock, []; by rewrite !app_nil_r].
  destruct (recv_log _ _ _ Hc Er) as (Hne & Hh & Hd & Hg).
  destruct (IH sock1 (received ++ d)) as (sock2 & d2 & E & H1 & H2 & H3).
  { rewrite Hh, length_app in Hf. destruct d; [done|]. cbn in Hf. lia. }
  exists sock2, (d ++ d2). rewrite E, Hh, H1, H2, Hd, H3. by rewrite !(assoc_L (++)).
Qed.

Lemma gen_recv_ok fuel n sock recvd :
  (length (held sock) < fuel)%nat → 0 < n →
  ∃ sock' d, gen_recv fuel n sock recvd = Ok (sock', recvd + len d) ∧
    held sock = d ++ held sock' ∧ handed sock' = handed sock ++ d ∧ given sock' = given sock.
Proof.
  intros Hf Hn. revert sock recvd Hf. induction fuel as [|fuel IH]; intros sock recvd Hf; [lia|]. cbn.
  assert (∃ sock' d, Ok (E:=unit) (sock, recvd) = Ok (sock', recvd + len d) ∧
    held sock = d ++ held sock' ∧ handed sock' = handed sock ++ d ∧ given sock' = given sock) as Hstop.
  { exists sock, []. rewrite len_nil, Z.add_0_r. by rewrite !app_nil_r. }
  destruct (can_recv sock) eqn:Hc; [|done]. destruct (recv_slice sock n) as [[d sock1]|] eqn:Er; [|done].
  destruct (slice_log _ _ _ _ Hc Er) as (Hne & Hh & Hd & Hg). specialize (Hne Hn) as [Hne _].
  destruct d as [|b d]; [done|].
  destruct (IH sock1 (recvd + len (b :: d))) as (sock2 & d2 & E & H1 & H2 & H3).
  { rewrite Hh, length_app in Hf. cbn in Hf. lia. }
  exists sock2, ((b :: d) ++ d2). rewrite E, Hh, H1, H2, Hd, H3, len_app, !(assoc_L (++)), Z.add_assoc. done.
Qed.

Lemma echoes_recv sock sock' d :
  echoes sock → held sock = d ++ held sock' → handed sock' = handed sock ++ d → given sock' = given sock → echoes sock'.
Proof. unfold echoes. intros He Hh Hd ->. by rewrite Hd, <-(assoc_L (++)), <-Hh. Qed.

Lemma echoes_send sock l n sock' : send_slice sock l = Some (n, sock') → echoes sock → echoes sock'.
Proof.
  intros Hs He. destruct (send_log _ _ _ _ Hs) as (_ & Hg & Hh & Hd). unfold echoes. rewrite Hg, Hh, Hd. by apply prefix_app_r.
Qed.

Lemma echoes_close sock : echoes sock → echoes (tcp_close sock).
Proof. unfold echoes. by destruct (close_log sock) as (-> & -> & ->). Qed.

(** *** The head-of-line connections *)

Record hol_ok (cs : HolConn * TcpSocket) : Prop := {
  ho_chunk : 1 ≤ hc_send_chunk cs.1;
  ho_sent : 0 ≤ hc_sent cs.1 ≤ len (hc_payload cs.1);
  ho_given : given cs.2 = ztake (hc_sent cs.1) (hc_payload cs.1);
  ho_received : hc_received cs.1 = handed cs.2;
  ho_echoes : echoes cs.2;
  ho_done : hol_done cs.1 = true → len (hc_payload cs.1) ≤ len (hc_received cs.1)
}.

(** The payload of a connection stays, and what it did is kept. *)
Definition hol_goes (c c' : HolConn) : Prop :=
  hc_payload c' = hc_payload c ∧ (hol_done c = true → hol_done c' = true).
#[local] Instance hol_goes_preorder : PreOrder hol_goes.
Proof. split; [by intros c|]. intros c1 c2 c3 [P1 D1] [P2 D2]. split; [congruence|auto]. Qed.

Lemma len_prefix {A} (l l' : list A) : l `prefix_of` l' → len l ≤ len l'.
Proof. intros [k ->]. rewrite len_app. pose proof (len_nonneg k). lia. Qed.

Lemma hol_held cs : hol_ok cs → (length (held cs.2) ≤ length (hc_payload cs.1))%nat.
Proof.
  intros [_ Hs Hg _ He _]. apply len_prefix in He. rewrite len_app, Hg, len_ztake in He by lia.
  pose proof (len_nonneg (handed cs.2)). unfold len in *. lia.
Qed.

Lemma get_range_take {A} (l : list A) a b :
  0 ≤ a ≤ b → b ≤ len l → ∃ d, get_range l a b = Some d ∧ len d = b - a ∧ ∀ n, 0 ≤ n ≤ len d → ztake a l ++ ztake n d = ztake (a + n) l.
Proof.
  intros Ha Hb. unfold get_range. rewrite bool_decide_true by lia. eexists. split; [done|].
  split; [unfold len in *; rewrite length_take, length_drop; lia|]. intros n Hn. unfold ztake.
  assert (len (take (Z.to_nat (b - a)) (drop (Z.to_nat a) l)) ≤ b - a) by (unfold len; rewrite length_take; lia).
  rewrite take_take, Nat.min_l by lia. rewrite Z2Nat.inj_add by lia. apply take_take_drop.
Qed.

Lemma hol_send_ok c sock :
  hol_ok (c, sock) →
  ∃ sent sock', hol_send c sock = Ok (sent, sock') ∧ 0 ≤ sent ≤ len (hc_payload c) ∧
    given sock' = ztake sent (hc_payload c) ∧ handed sock' = handed sock ∧ held sock' = held sock ∧ echoes sock'.
Proof.
  intros [Hch Hs Hg _ Hec _]. cbn in *. unfold hol_send.
  case_bool_decide as Hlt; cbn; [|by exists (hc_sent c), sock]. destruct (can_send sock); [|by exists (hc_sent c), sock].
  destruct (get_range_take (hc_payload c) (hc_sent c) (Z.min (hc_sent c + hc_send_chunk c) (len (hc_payload c))))
    as (d & Hd & Hl & Ht); [lia..|]. unfold slice. rewrite Hd. cbn.
  destruct (send_slice sock d) as [[n sock']|] eqn:Es; [|by exists (hc_sent c), sock].
  destruct (send_log _ _ _ _ Es) as (Hn & Hg' & Hh & He). exists (hc_sent c + n), sock'.
  rewrite Hg', Hg, Ht by lia. split_and!; try (done || lia). by eapply echoes_send.
Qed.

Lemma hol_visit_ok fuel now c sock :
  (length (hc_payload c) < fuel)%nat → hol_ok (c, sock) →
  ∃ c' sock', hol_visit fuel now c sock = Ok (c', sock', 0) ∧ hol_ok (c', sock') ∧ hol_goes c c'.
Proof.
  intros Hf Hok. unfold hol_visit. destruct (hol_done c && hc_closed c); [by exists c, sock|].
  destruct (hol_send_ok c sock Hok) as (sent & sock1 & Es & Hs & Hg & Hh & He & Hec). rewrite Es. cbn [rbind].
  pose proof (hol_held _ Hok) as Hl. destruct Hok as [Hch _ _ Hr _ Hdn]. cbn in Hl, Hch, Hr, Hdn.
  destruct (hol_recv_ok fuel sock1 (hc_received c)) as (sock2 & d & Er & H1 & H2 & H3); [rewrite He; lia|].
  rewrite Er. cbn [rbind]. pose proof (echoes_recv _ _ _ Hec H1 H2 H3) as Hec2. set (finish := bool_decide _ && _).
  set (sock3 := if finish then tcp_close sock2 else sock2).
  assert (given sock3 = given sock2 ∧ handed sock3 = handed sock2 ∧ echoes sock3) as (G3 & G4 & G5).
  { subst sock3. destruct finish; [|done]. destruct (close_log sock2) as (-> & -> & _). auto using echoes_close. }
  do 2 eexists. split; [done|]. split; [split; cbn; try done|split; [done|]].
  - congruence.
  - rewrite G4, H2, Hh. congruence.
  - unfold hol_done in Hdn |- *. cbn. subst finish. intros Hd%bool_decide_eq_true_1. pose proof (len_nonneg d). rewrite len_app.
    case_bool_decide as E1; cbn in Hd; [|rewrite bool_decide_true in Hdn by (by destruct (hc_done_us c)); lia].
    case_bool_decide as E2; [by rewrite len_app in E2|]. rewrite E1 in Hd. by destruct Hd.
  - unfold hol_done. cbn. intros Hd%bool_decide_eq_true_1. subst finish. rewrite (bool_decide_false (_ = None)); cbn.
    + by apply bool_decide_true.
    + intros E. rewrite E in Hd. by destruct Hd.
Qed.

Lemma hol_poll_ok r c i sock : echoing r → hol_ok (c, sock) → hol_ok (c, rd_poll r i sock).
Proof.
  intros He [Hch Hs Hg Hr Hec Hd]. destruct (He i sock) as (E1 & E2 & E3). split; cbn in *; try done; [congruence..|auto].
Qed.

(** A drive ends when a round is past the time limit, and keeps what the connections promise. *)
Lemma hol_drive_ok fuel timeout stop rounds l :
  Forall echoing rounds → Exists (λ r, timeout ≤ rd_elapsed r) rounds →
  Forall hol_ok l → Forall (λ c, length (hc_payload c) < fuel)%nat l.*1 →
  ∃ l', drive_hol_generator fuel timeout stop rounds l = Ok l' ∧ Forall hol_ok l' ∧ Forall2 hol_goes l.*1 l'.*1.
Proof.
  intros Hr Ht. revert l. induction rounds as [|r rounds IH]; intros l Hl Hf; [by apply Exists_nil in Ht|]. cbn.
  apply Forall_cons in Hr as [Hr Hrs].
  assert (Forall2 hol_goes l.*1 l.*1) as Hrefl by reflexivity.
  destruct (stop (rd_stalled r) l.*1); cbn; [by exists l|]. case_bool_decide as Hlt; cbn; [|by exists l].
  apply Exists_cons in Ht as [?|Ht]; [lia|].
  destruct (visit_all_ok (hol_visit fuel (rd_now r)) (λ cs, hol_ok cs ∧ (length (hc_payload cs.1) < fuel)%nat) hol_goes (λ _, 0))
    with (l := poll_all r l) as (l1 & E1 & Hok1 & Hg1).
  { intros c sock [Hc Hlen]. destruct (hol_visit_ok fuel (rd_now r) c sock Hlen Hc) as (c' & sock' & Ev & Hok & Hgo).
    exists c', sock'. split_and!; try done. cbn. destruct Hgo as [-> _]. done. }
  { apply poll_all_ok; [intros c i s [? ?]; split; [by apply hol_poll_ok|done]|].
    apply Forall_and. split; [done|]. by apply Forall_fmap in Hf. }
  rewrite E1. cbn [rbind]. rewrite poll_all_fst in Hg1. apply Forall_and in Hok1 as [Hok1 Hf1].
  destruct (IH Hrs Ht l1 Hok1) as (l2 & E2 & Hok2 & Hg2); [by apply Forall_fmap|].
  exists l2. split_and!; try done. by etransitivity.
Qed.

Lemma hol_new_ok payload chunk now sock :
  given sock = [] ∧ handed sock = [] ∧ held sock = [] → hol_ok (hol_new payload chunk now, sock).
Proof.
  intros (Hg & Hh & He). split; cbn; try done; try lia; [pose proof (len_nonneg payload); lia|].
  unfold echoes. by rewrite Hg, Hh, He.
Qed.

(** On a path that echoes, a connection that is done received its payload. *)
Lemma hol_done_match c sock : hol_ok (c, sock) → hol_done c = true → bytes_match c = true ∧ hc_sent c = len (hc_payload c).
Proof.
  intros [_ Hs Hg Hr He Hd] Hdn. cbn in *. specialize (Hd Hdn). unfold echoes in He. rewrite Hg in He.
  assert (handed sock `prefix_of` ztake (hc_sent c) (hc_payload c)) as Hp by (eapply transitivity; [by apply prefix_app_r|done]).
  pose proof (len_prefix _ _ Hp) as Hl. rewrite len_ztake, <-Hr in Hl by lia.
  assert (hc_sent c = len (hc_payload c)) as Hsent by lia. split; [|done]. apply bool_decide_true.
  rewrite Hsent in Hp. unfold ztake, len in Hp. rewrite Nat2Z.id, take_ge in Hp by done. rewrite Hr.
  apply prefix_length_eq; [done|]. rewrite <-Hr. unfold len in *. lia.
Qed.

Lemma hol_received_le c sock : hol_ok (c, sock) → len (hc_received c) ≤ hc_sent c.
Proof.
  intros [_ Hs Hg Hr He _]. cbn in *. apply len_prefix in He. rewrite len_app, Hg, len_ztake in He by lia.
  pose proof (len_nonneg (held sock)). rewrite Hr. lia.
Qed.

Lemma push_hol_conn_ok dst_port local_port payload :
  0 < local_port →
  ∃ sock, push_hol_conn dst_port local_port payload = Ok sock ∧ ∀ chunk now, hol_ok (hol_new payload chunk now, sock).
Proof.
  intros Hp. unfold push_hol_conn.
  destruct (connect_ok (Z.max (len payload * 2) 4096) (V4 TARGET_IP dst_port) local_port Hp) as [sock Hs].
  exists sock. rewrite Hs. split; [done|]. intros. by eapply hol_new_ok, connect_fresh.
Qed.

(** A drive whose rounds echo and reach its time limit. *)
Definition driven (timeout : Z) (rounds : list round) : Prop :=
  Forall echoing rounds ∧ Exists (λ r, timeout ≤ rd_elapsed r) rounds.

Lemma drive_one fuel timeout stop rounds a sa :
  driven timeout rounds → hol_ok (a, sa) → (length (hc_payload a) < fuel)%nat →
  ∃ a' sa', drive_hol_generator fuel timeout stop rounds [(a, sa)] = Ok [(a', sa')] ∧ hol_ok (a', sa') ∧ hol_goes a a'.
Proof.
  intros [Hr Ht] Ha Hf. destruct (hol_drive_ok fuel timeout stop rounds [(a, sa)]) as (l & E & Hok & Hg);
    [done|done|by apply Forall_singleton..|].
  apply Forall2_length in Hg as Hlen. destruct l as [|[a' sa'] [|? ?]]; try done.
  apply Forall_cons in Hok as [? _]. apply Forall2_cons in Hg as [? _]. exists a', sa'. by split_and!.
Qed.

Lemma drive_two fuel timeout stop rounds a sa b sb :
  driven timeout rounds → hol_ok (a, sa) → hol_ok (b, sb) →
  (length (hc_payload a) < fuel)%nat → (length (hc_payload b) < fuel)%nat →
  ∃ a' sa' b' sb', drive_hol_generator fuel timeout stop rounds [(a, sa); (b, sb)] = Ok [(a', sa'); (b', sb')] ∧
    hol_ok (a', sa') ∧ hol_ok (b', sb') ∧ hol_goes a a' ∧ hol_goes b b'.
Proof.
  intros [Hr Ht] Ha Hb Hfa Hfb. destruct (hol_drive_ok fuel timeout stop rounds [(a, sa); (b, sb)]) as (l & E & Hok & Hg);
    [done|done|by apply Forall_cons_2, Forall_singleton|by apply Forall_cons_2, Forall_singleton|].
  apply Forall2_length in Hg as Hlen. destruct l as [|[a' sa'] [|[b' sb'] [|? ?]]]; try done.
  apply Forall_cons in Hok as [? [? _]%Forall_cons]. apply Forall2_cons in Hg as [? Hg].
  apply Forall2_cons in Hg as [? _]. exists a', sa', b', sb'. by split_and!.
Qed.

End laws.

Lemma hol_payload_len seed n : length (hol_payload seed n) = Z.to_nat n.
Proof. unfold hol_payload. by rewrite length_fmap, length_seq. Qed.

(** The head-of-line scenario reports what happened.  On a path that echoes, with each of its drives
    given rounds up to its time limit, the scenario ends with a report whatever the timing; the verdicts
    about bytes cannot fail by the generator's own doing: a connection reported complete sent its whole
    payload and received exactly it, no connection received more than it sent, and one that is complete
    while the other is stalled is still complete at the end. *)
Theorem hol_report_sound {TS : Smoltcp} {G : GenTcp TS} `{!GenTcpLaws TS G} fuel (e : hol_env) :
  (Z.to_nat (16 * 1024) < fuel)%nat →
  driven (8 * 10 ^ 9) (he_drive1 e) → driven (5 * 10 ^ 9) (he_drive2 e) → driven (10 * 10 ^ 9) (he_drive3 e) →
  ∃ r, run_tcp_hol_scenario fuel e = Ok r ∧
    (hr_normal_completed_while_stalled r = true →
     hr_normal_bytes_match r = true ∧ hr_normal_sent r = 8 * 1024 ∧ hr_normal_received r = 8 * 1024) ∧
    (hr_stalled_completed_after_release r = true →
     hr_stalled_bytes_match r = true ∧ hr_stalled_sent r = 16 * 1024 ∧ hr_stalled_received r = 16 * 1024) ∧
    (hr_stalled_completed_while_stalled r = true → hr_stalled_completed_after_release r = true) ∧
    hr_normal_received r ≤ hr_normal_sent r ≤ 8 * 1024 ∧ hr_stalled_received r ≤ hr_stalled_sent r ≤ 16 * 1024.
Proof.
  intros Hf [R1 T1] [R2 T2] [R3 T3]. unfold run_tcp_hol_scenario.
  pose proof (hol_payload_len 160 (16 * 1024)) as L0. pose proof (hol_payload_len 32 (8 * 1024)) as L1.
  generalize dependent (hol_payload 160 (16 * 1024)). intros pa L0. generalize dependent (hol_payload 32 (8 * 1024)). intros pb L1.
  destruct (push_hol_conn_ok TARGET_PORT_BASE 41000 pa ltac:(lia)) as (sock0 & -> & H0). cbn [rbind].
  destruct (push_hol_conn_ok (TARGET_PORT_BASE + 1) 41001 pb ltac:(lia)) as (sock1 & E1 & H1).
  match goal with |- context [drive_hol_generator _ _ ?f (he_drive1 e)] =>
    destruct (drive_one fuel (8 * 10 ^ 9) f (he_drive1 e) (hol_new pa 4 (he_started0 e)) sock0)
      as (a1 & sa1 & -> & Ha1 & Ga1 & _); [done|apply H0|cbn; lia|] end.
  cbn [rbind]. rewrite E1. cbn [rbind app].
  match goal with |- context [drive_hol_generator _ _ ?f (he_drive2 e)] =>
    destruct (drive_two fuel (5 * 10 ^ 9) f (he_drive2 e) a1 sa1 (hol_new pb 1024 (he_started1 e)) sock1)
      as (a2 & sa2 & b2 & sb2 & -> & Ha2 & Hb2 & [Ga2 _] & [Gb2 _]); [done..|apply H1|rewrite Ga1; cbn; lia|cbn; lia|] end.
  cbn [rbind idx get expect]. cbn in Ga1, Gb2.
  match goal with |- context [drive_hol_generator _ _ ?f (he_drive3 e)] =>
    destruct (drive_two fuel (10 * 10 ^ 9) f (he_drive3 e) a2 sa2 b2 sb2)
      as (a3 & sa3 & b3 & sb3 & E3 & Ha3 & Hb3 & [Ga3 Da3] & [Gb3 Db3]); [done..|rewrite Ga2, Ga1; lia|rewrite Gb2; lia|] end.
  eexists. split; [by cbn; rewrite E3|]. cbn [hr_normal_completed_while_stalled hr_normal_bytes_match hr_normal_sent
    hr_normal_received hr_stalled_completed_after_release hr_stalled_bytes_match hr_stalled_sent hr_stalled_received
    hr_stalled_completed_while_stalled].
  assert (len (hc_payload a3) = 16 * 1024) as La by (unfold len; rewrite Ga3, Ga2, Ga1, L0; lia).
  assert (len (hc_payload b3) = 8 * 1024) as Lb by (unfold len; rewrite Gb3, Gb2, L1; lia).
  pose proof (hol_received_le _ _ Ha3). pose proof (hol_received_le _ _ Hb3).
  pose proof (ho_sent _ Ha3) as Sa. pose proof (ho_sent _ Hb3) as Sb. cbn [fst] in Sa, Sb.
  split_and!; try lia; try done.
  - intros Hd. destruct (hol_done_match _ _ Hb3 (Db3 Hd)) as [Hm Hs]. split_and!; [done|congruence|].
    apply bool_decide_eq_true_1 in Hm. congruence.
  - intros Hd. destruct (hol_done_match _ _ Ha3 Hd) as [Hm Hs]. split_and!; [done|congruence|].
    apply bool_decide_eq_true_1 in Hm. congruence.
Qed.

(** *** The connections of [run_tcp_scenario] *)

Section tcp.
Context {TS : Smoltcp} {G : GenTcp TS} `{!GenTcpLaws TS G}.
Variable plen : Z.
Hypothesis plen_nonneg : 0 ≤ plen.
Abbreviation payload := (replicate (Z.to_nat plen) xab).

Record gen_ok (cs : GenConn * TcpSocket) : Prop := {
  go_len : gc_payload_len cs.1 = plen;
  go_sent : 0 ≤ gc_sent cs.1 ≤ plen;
  go_given : len (given cs.2) = gc_sent cs.1;
  go_recvd : gc_recvd cs.1 = len (handed cs.2);
  go_echoes : echoes cs.2;
  go_done : is_Some (gc_done_us cs.1) → plen ≤ gc_recvd cs.1
}.

Definition done_count (c : GenConn) : Z := if bool_decide (is_Some (gc_done_us c)) then 1 else 0.

Lemma gen_recvd_le c sock : gen_ok (c, sock) → len (handed sock) + len (held sock) ≤ gc_sent c.
Proof. intros [_ _ Hg _ He _]. cbn in *. apply len_prefix in He. rewrite len_app in He. lia. Qed.

Lemma len_payload : len payload = plen.
Proof. unfold len. rewrite length_replicate. lia. Qed.

Lemma gen_send_ok c sock :
  gen_ok (c, sock) →
  ∃ c' sock', gen_send payload c sock = Ok (c', sock') ∧ gen_ok (c', sock') ∧
    gc_done_us c' = gc_done_us c ∧ handed sock' = handed sock ∧ held sock' = held sock.
Proof.
  intros Hok. unfold gen_send. case_bool_decide as Hlt; cbn; [|by exists c, sock].
  destruct (can_send sock); [|by exists c, sock]. pose proof Hok as [Hl Hs Hg Hr He Hd]. cbn in *.
  pose proof len_payload as Hp. unfold get_from, get_range.
  rewrite bool_decide_true by lia. cbn [expect rbind].
  destruct (send_slice sock _) as [[n sock']|] eqn:Es; [|by exists c, sock].
  pose proof (echoes_send _ _ _ _ Es He) as He'. destruct (send_log _ _ _ _ Es) as (Hn & Hg' & Hh & Hd').
  assert (len (take (Z.to_nat (len payload - gc_sent c)) (drop (Z.to_nat (gc_sent c)) payload)) = plen - gc_sent c) as Hrest.
  { unfold len in *. rewrite length_take, length_drop. lia. }
  do 2 eexists. split; [done|]. split_and!; try done. split; cbn; try done; try lia.
  - rewrite Hg', len_app, len_ztake by lia. lia.
  - congruence.
Qed.

Lemma gen_visit_ok fuel n now c sock :
  0 < n → (Z.to_nat plen < fuel)%nat → gen_ok (c, sock) →
  ∃ c' sock', gen_visit fuel n payload now c sock = Ok (c', sock', done_count c' - done_count c) ∧
    gen_ok (c', sock') ∧ True.
Proof.
  intros Hn Hf Hok. unfold gen_visit. destruct (bool_decide _ && gc_closed c); [by exists c, sock; rewrite Z.sub_diag|].
  destruct (gen_send_ok c sock Hok) as (c1 & sock1 & -> & Hok1 & Hd1 & _). cbn [rbind]. unfold done_count. rewrite <-Hd1.
  pose proof (gen_recvd_le _ _ Hok1) as Hle. destruct Hok1 as [Hl Hs Hg Hr He Hd]. cbn in Hl, Hs, Hg, Hr, He, Hd.
  destruct (gen_recv_ok fuel n sock1 (gc_recvd c1)) as (sock2 & d & -> & H1 & H2 & H3); [|done|].
  { pose proof (len_nonneg (handed sock1)). unfold len in *. lia. }
  cbn [rbind]. pose proof (echoes_recv _ _ _ He H1 H2 H3) as He2. pose proof (len_nonneg d).
  destruct c1 as [pl sent recvd started done_us closed]. cbn in *. subst pl. set (finish := bool_decide _ && _).
  set (sock3 := if finish then tcp_close sock2 else sock2).
  assert (given sock3 = given sock2 ∧ handed sock3 = handed sock2 ∧ echoes sock3) as (G3 & G4 & G5).
  { subst sock3. destruct finish; [|done]. destruct (close_log sock2) as (-> & -> & _). auto using echoes_close. }
  do 2 eexists. split.
  { do 2 f_equal. cbn [gc_done_us]. subst finish. destruct done_us; cbn; [done|]. case_bool_decide; done. }
  split; [split; cbn; try done|done].
  - by rewrite G3, H3.
  - rewrite G4, H2, len_app. lia.
  - subst finish. destruct done_us as [us|]; cbn; [intros _; specialize (Hd ltac:(done)); lia|].
    case_bool_decide; [done|]. by intros [].
Qed.

Lemma gen_poll_ok r c i sock : echoing r → gen_ok (c, sock) → gen_ok (c, rd_poll r i sock).
Proof.
  intros Hr [Hl Hs Hg Hrc He Hd]. destruct (Hr i sock) as (E1 & E2 & E3). split; cbn in *; try done; [congruence..|auto].
Qed.

Lemma tcp_drive_ok fuel p rounds completed l :
  sp_payload_len p = plen → (Z.to_nat plen < fuel)%nat → driven (sp_timeout p) rounds → Forall gen_ok l →
  completed = zsum (done_count <$> l.*1) →
  ∃ l' wall, tcp_drive fuel p rounds completed l = Ok (l', zsum (done_count <$> l'.*1), wall) ∧
    Forall gen_ok l' ∧ length l' = length l.
Proof.
  intros Hp Hf [Hr Ht]. revert completed l. induction rounds as [|r rounds IH]; intros completed l Hl ->;
    [by apply Exists_nil in Ht|]. cbn [tcp_drive]. apply Forall_cons in Hr as [Hr Hrs].
  destruct (bool_decide (_ < sp_connections p)); cbn [andb]; [|by exists l, (rd_elapsed r)].
  case_bool_decide as Hlt; [|by exists l, (rd_elapsed r)]. apply Exists_cons in Ht as [?|Ht]; [lia|]. rewrite Hp.
  destruct (visit_all_ok (gen_visit fuel (Z.max (plen * 2) 4096) payload (rd_now r)) gen_ok (λ _ _, True) done_count)
    with (l := poll_all r l) as (l1 & E1 & Hok1 & Hg1).
  { intros c sock Hc. apply gen_visit_ok; [lia|done|done]. }
  { apply poll_all_ok; [|done]. intros. by apply gen_poll_ok. }
  rewrite E1. cbn [rbind]. rewrite poll_all_fst in Hg1 |- *.
  destruct (IH Hrs Ht (zsum (done_count <$> l.*1) + (zsum (done_count <$> l1.*1) - zsum (done_count <$> l.*1))) l1 Hok1)
    as (l2 & wall & E2 & Hok2 & Hlen); [lia|]. exists l2, wall. split_and!; [exact E2|done|].
  apply Forall2_length in Hg1. rewrite !length_fmap in Hg1. congruence.
Qed.

End tcp.

Lemma conn_ports_ok p i :
  0 ≤ i < 25536 → sp_distinct_ports p ≤ 56536 →
  0 < conn_local_port i ≤ u16_max ∧ ∃ port, conn_dst_port p i = Ok port ∧ TARGET_PORT_BASE ≤ port ≤ u16_max.
Proof.
  intros Hi Hd. unfold conn_local_port, conn_dst_port, TARGET_PORT_BASE.
  assert (0 ≤ i mod Z.max (sp_distinct_ports p) 1 < Z.max (sp_distinct_ports p) 1) as Hm by (apply Z.mod_pos_bound; lia).
  assert (as_u16 (i mod Z.max (sp_distinct_ports p) 1) = i mod Z.max (sp_distinct_ports p) 1) as -> by (apply Z.mod_small; lia).
  assert (i mod Z.max (sp_distinct_ports p) 1 ≤ i) by (apply Z.mod_le; lia).
  split.
  - unfold wrapping_add_u16, as_u16, u16_max. rewrite (Z.mod_small i) by lia. rewrite Z.mod_small by lia. lia.
  - rewrite bool_decide_true by (unfold u16_max; lia). eexists. split; [done|]. unfold u16_max. lia.
Qed.

Lemma open_conns_ok {TS : Smoltcp} {G : GenTcp TS} `{!GenTcpLaws TS G} p now ids :
  0 ≤ sp_payload_len p → sp_distinct_ports p ≤ 56536 → Forall (λ i, Z.of_nat i < 25536) ids →
  ∃ l, open_conns p now ids = Ok l ∧ Forall (gen_ok (sp_payload_len p)) l ∧ length l = length ids ∧
    zsum (done_count <$> l.*1) = 0.
Proof.
  intros Hp Hd. induction 1 as [|i ids Hi _ (l & E & Hok & Hl & Hz)]; [by exists []|]. cbn [open_conns].
  destruct (conn_ports_ok p (Z.of_nat i)) as (Hlp & port & Ep & _); [lia|done|]. unfold open_conn. rewrite Ep. cbn [rbind].
  destruct (connect_ok (Z.max (sp_payload_len p * 2) 4096) (V4 TARGET_IP port) (conn_local_port (Z.of_nat i))) as [sock Es]; [lia|].
  rewrite Es. cbn [expect rbind]. rewrite E. cbn [rbind]. eexists. split; [done|]. split_and!; [|cbn; lia|exact Hz].
  apply Forall_cons. split; [|done]. destruct (connect_fresh _ _ _ _ Es) as (Hg & Hh & He).
  split; cbn; try done; try lia; [by rewrite Hg|by rewrite Hh|unfold echoes; by rewrite Hg, Hh, He].
Qed.

(** Sums over the connections. *)
Lemma done_count_latencies {A} (l : list (GenConn * A)) : zsum (done_count <$> l.*1) = len (omap (gc_done_us ∘ fst) l).
Proof.
  induction l as [|[c s] l IH]; [done|]. unfold zsum in *. cbn. rewrite IH. unfold done_count.
  destruct (gc_done_us c); cbn; [rewrite len_cons; lia|lia].
Qed.

Lemma recvd_sum_bounds {TS : Smoltcp} {G : GenTcp TS} `{!GenTcpLaws TS G} plen l :
  0 ≤ plen → Forall (gen_ok plen) l →
  zsum (done_count <$> l.*1) * plen ≤ zsum (gc_recvd ∘ fst <$> l) ≤ len l * plen ∧ 0 ≤ zsum (done_count <$> l.*1) ≤ len l.
Proof.
  intros Hp. induction 1 as [|[c s] l Hc _ IH]; [done|]. rewrite len_cons. unfold zsum in *. cbn.
  pose proof (gen_recvd_le plen c s Hc) as Hle. destruct Hc as [_ Hs _ Hr _ Hd]. cbn in *.
  pose proof (len_nonneg (handed s)). pose proof (len_nonneg (held s)).
  assert (done_count c = 1 ∧ plen ≤ gc_recvd c ∨ done_count c = 0) as Hk.
  { unfold done_count. case_bool_decide; [left|by right]. auto. }
  generalize dependent (foldr Z.add 0 (done_count <$> l.*1)). intros k IH.
  rewrite !Z.mul_add_distr_r. destruct Hk as [[-> Hk]| ->]; lia.
Qed.

(** The TCP scenario's report adds up.  On a path that echoes, with at most 25536 connections (the
    next would use source port 0) over ports that fit 16 bits, the run ends within its time limit with
    a report, whatever the timing: one latency per completed connection, at most one per connection,
    and the bytes echoed are at least those of the completed connections and at most those of all, so
    exactly all when every connection completed. *)
Theorem tcp_report_sound {TS : Smoltcp} {G : GenTcp TS} `{!GenTcpLaws TS G} fuel p now rounds rec :
  0 ≤ sp_payload_len p → 0 ≤ sp_connections p ≤ 25536 → sp_distinct_ports p ≤ 56536 →
  (Z.to_nat (sp_payload_len p) < fuel)%nat → driven (sp_timeout p) rounds →
  ∃ r, run_tcp_scenario fuel p now rounds rec = Ok r ∧
    rp_completed r = len (rp_latencies_us r) ∧ 0 ≤ rp_completed r ≤ rp_connections r ∧
    rp_completed r * sp_payload_len p ≤ rp_bytes_echoed r ≤ rp_connections r * sp_payload_len p.
Proof.
  intros Hp Hc Hd Hf Hdr. unfold run_tcp_scenario.
  destruct (open_conns_ok p now (seq 0 (Z.to_nat (sp_connections p)))) as (l & -> & Hok & Hl & Hz); [done..| |].
  { apply Forall_forall. intros i Hi%elem_of_seq. lia. }
  cbn [rbind]. destruct (tcp_drive_ok (sp_payload_len p) Hp fuel p rounds 0 l) as (l' & wall & -> & Hok' & Hl'); [done..|].
  cbn [rbind]. eexists. split; [done|]. cbn. rewrite length_seq in Hl. rewrite <-done_count_latencies.
  destruct (recvd_sum_bounds (sp_payload_len p) l' Hp Hok') as [Hb Hn].
  assert (len l' = sp_connections p) as El by (unfold len; lia). rewrite El in Hb, Hn. done.
Qed.

(** ** Percentiles *)

Lemma f64_round_usize_nonneg x : 0 ≤ f64_round_usize x.
Proof.
  destruct x as [|[]| |[] m e]; cbn; try (unfold u64_max; lia). apply Z.min_glb; [unfold u64_max; lia|].
  case_bool_decide; [apply Z.shiftl_nonneg; lia|]. apply Z.shiftr_nonneg, Z.add_nonneg_nonneg; [lia|]. apply Z.shiftl_nonneg. lia.
Qed.

Lemma elem_of_max_us l x : x ∈ l → x ≤ max_us l.
Proof. induction l; [by intros ?%not_elem_of_nil|]. intros [->|H]%elem_of_cons; cbn; [lia|]. specialize (IHl H). unfold max_us in *. lia. Qed.

(** A percentile is a latency of the run, whatever the rounding of the index. *)
Lemma percentile_member l p :
  l ≠ [] → ∃ x, percentile l p = Ok x ∧ x ∈ l ∧ x ≤ max_us l.
Proof.
  intros Hl. unfold percentile. rewrite bool_decide_false by done. set (v := merge_sort Z.le l).
  assert (v ≡ₚ l) as Hv by apply merge_sort_Permutation.
  assert (0 < len v) as Hn by (unfold len; rewrite Hv; destruct l; [done|cbn; lia]).
  set (i := Z.min _ _). assert (0 ≤ i < len v) as Hi.
  { subst i. pose proof (f64_round_usize_nonneg (SFmul 53 1024 (SFsub 53 1024 (f64_of_Z (len v)) f64_one) p)). lia. }
  destruct (lookup_lt_is_Some_2 v (Z.to_nat i)) as [x Hx]; [unfold len in Hi; lia|].
  exists x. unfold idx, get. rewrite bool_decide_true, Hx by lia. split; [done|].
  assert (x ∈ l) by (rewrite <-Hv; by eapply list_elem_of_lookup_2). auto using elem_of_max_us.
Qed.

(** The index of a percentile of a sorted run of eleven. *)
Example percentile_eleven :
  p50_us [50; 10; 20; 40; 30; 60; 110; 90; 80; 70; 100] = Ok 60 ∧
  p95_us [50; 10; 20; 40; 30; 60; 110; 90; 80; 70; 100] = Ok 110.
Proof. by vm_compute. Qed.

(** ** The UDP throughput scenario *)

Section throughput.
Context {P : EtherParse}.

Definition markers (ids : list nat) : gset Z := list_to_set ((λ i, as_u16 (Z.of_nat i)) <$> ids).

(** Only payloads that were sent come back whole. *)
Definition echo_only (ids : list nat) (payload_len : Z) (arrived : PacketLink) : Prop :=
  Forall (λ pkt, ∀ m, intact_echo pkt payload_len = Ok (Some m) → m ∈ markers ids) arrived.

Lemma intact_echo_total pkt n : 2 ≤ n → ∃ o, intact_echo pkt n = Ok o.
Proof.
  intros Hn. unfold intact_echo. destruct (parse_inbound_udp pkt) as [udp|]; [|by eexists].
  case_bool_decide as Hl; cbn; [|by eexists]. destruct (ui_payload udp) as [|b0 [|b1 l]]; [cbv in Hl; lia..|].
  cbn. by eexists.
Qed.

Lemma drain_ok ids n arrived intact any :
  2 ≤ n → echo_only ids n arrived → intact ⊆ markers ids →
  ∃ intact' any', drain_intact_echoes arrived n intact any = Ok (intact', any') ∧ intact' ⊆ markers ids ∧ intact ⊆ intact' ∧
    ∀ pkt m, pkt ∈ arrived → intact_echo pkt n = Ok (Some m) → m ∈ intact'.
Proof.
  intros Hn He. revert intact any. induction He as [|pkt arrived Hp _ IH]; intros intact any Hi; cbn [drain_intact_echoes].
  { exists intact, any. split_and!; try done. by intros pkt m ?%not_elem_of_nil. }
  destruct (intact_echo_total pkt n Hn) as [o Eo]. rewrite Eo. cbn [rbind].
  assert ((match o with Some m => {[m]} ∪ intact | None => intact end) ⊆ markers ids) as Hi'.
  { destruct o as [m|]; [|done]. specialize (Hp m Eo). set_solver. }
  destruct (IH _ true Hi') as (intact' & any' & E & H1 & H2 & H3). exists intact', any'. split_and!; try done.
  - destruct o; set_solver.
  - intros pkt' m [->|Hin]%elem_of_cons Em; [|by eapply H3]. rewrite Eo in Em. simplify_eq. set_solver.
Qed.

Lemma udp_send_all_ok `{!EtherParseLaws P} ids all n arrived link intact :
  2 ≤ n ≤ UDP_PAYLOAD_MAX → (∀ i, echo_only all n (arrived i)) → intact ⊆ markers all →
  ∃ link' intact', udp_send_all ids n arrived link intact = Ok (link', intact') ∧ intact' ⊆ markers all ∧ intact ⊆ intact' ∧
    ∀ i pkt m, i ∈ ids → pkt ∈ arrived i → intact_echo pkt n = Ok (Some m) → m ∈ intact'.
Proof.
  intros Hn He. revert link intact. induction ids as [|i ids IH]; intros link intact Hi; cbn [udp_send_all].
  { exists link, intact. split_and!; try done. by intros i pkt m ?%not_elem_of_nil. }
  unfold udp_packet, build_udp_ip.
  destruct (write_fits (GEN_IP, wrapping_add_u16 40000 (as_u16 (Z.of_nat i))) (TARGET_IP, 5000) 64
    (throughput_payload (Z.of_nat i) n)) as [pkt ->]; [rewrite throughput_payload_len; lia|]. cbn [expect rbind].
  destruct (drain_ok all n (arrived i) intact false) as (intact1 & any & -> & H1 & H2 & H3); [lia|done..|]. cbn [rbind].
  destruct (IH (link_push link pkt) intact1 H1) as (link2 & intact2 & E & K1 & K2 & K3). exists link2, intact2.
  split_and!; try done; [set_solver|]. intros j pkt' m [->|Hj]%elem_of_cons Hin Em; [|by eapply K3].
  apply K2. by eapply H3.
Qed.

Lemma udp_wait_ok all n count timeout rounds intact :
  2 ≤ n → Forall (echo_only all n) rounds.*2 → Exists (λ r, timeout ≤ r) rounds.*1 → intact ⊆ markers all →
  ∃ intact' wall, udp_wait count n timeout rounds intact = Ok (intact', wall) ∧ intact' ⊆ markers all ∧ intact ⊆ intact'.
Proof.
  intros Hn. revert intact. induction rounds as [|[elapsed arrived] rounds IH]; intros intact He Ht Hi;
    [by apply Exists_nil in Ht|]. cbn in He, Ht |- *. apply Forall_cons in He as [He Hes].
  case_bool_decide; cbn; [|by exists intact, elapsed]. case_bool_decide as Hlt; [|by exists intact, elapsed].
  apply Exists_cons in Ht as [?|Ht]; [lia|].
  destruct (drain_ok all n arrived intact false) as (intact1 & any & -> & H1 & H2 & H3); [done..|]. cbn [rbind].
  destruct (IH intact1 Hes Ht H1) as (intact2 & wall & E & K1 & K2). exists intact2, wall. split_and!; try done. set_solver.
Qed.

Lemma list_to_set_size_le (l : list Z) : (size (list_to_set l : gset Z) ≤ length l)%nat.
Proof.
  induction l as [|x l IH]; cbn; [by rewrite size_empty|]. rewrite size_union_alt, size_singleton. cbn.
  apply le_n_S. etrans; [|exact IH]. apply subseteq_size. set_solver.
Qed.

(** There are as many markers as packets at most, and at most 65536. *)
Lemma markers_size ids : Z.of_nat (size (markers ids)) ≤ Z.min (len ids) (2 ^ 16).
Proof.
  apply Z.min_glb.
  - unfold markers, len. pose proof (list_to_set_size_le ((λ i, as_u16 (Z.of_nat i)) <$> ids)) as H.
    rewrite length_fmap in H. lia.
  - pose proof (list_to_set_size_le (Z.of_nat <$> seq 0 (Z.to_nat (2 ^ 16)))) as H. rewrite length_fmap, length_seq in H.
    assert (size (markers ids) ≤ size (list_to_set (Z.of_nat <$> seq 0 (Z.to_nat (2 ^ 16))) : gset Z))%nat; [|lia].
    apply subseteq_size. intros m. unfold markers. rewrite !elem_of_list_to_set, !list_elem_of_fmap.
    intros (i & -> & _). exists (Z.to_nat (as_u16 (Z.of_nat i))).
    assert (0 ≤ as_u16 (Z.of_nat i) < 2 ^ 16) by (apply Z.mod_pos_bound; lia).
    split; [lia|]. apply elem_of_seq. lia.
Qed.

Lemma markers_size_exact n : 0 ≤ n ≤ 2 ^ 16 → Z.of_nat (size (markers (seq 0 (Z.to_nat n)))) = n.
Proof.
  intros Hn. unfold markers. rewrite size_list_to_set; [rewrite length_fmap, length_seq; lia|].
  apply NoDup_fmap_2_strong; [|apply NoDup_seq]. intros i j Hi%elem_of_seq Hj%elem_of_seq.
  unfold as_u16. rewrite !Z.mod_small by lia. lia.
Qed.

(** The throughput scenario counts what came back.  When only payloads that were sent come back
    whole, the run ends once its time limit is reached, without an abort (payloads of 2 bytes at least
    and of one datagram at most): the packets counted intact and those counted lost add up to the
    packets sent.  If every packet's echo arrives while the packets are sent, none is lost, as long as
    there are at most 65536 of them; beyond, the 16-bit marker makes the rest count as lost whatever
    comes back. *)
Theorem udp_throughput_accounts `{!EtherParseLaws P} n payload_len frag timeout arrived rounds :
  0 ≤ n → 2 ≤ payload_len ≤ UDP_PAYLOAD_MAX →
  (∀ i, echo_only (seq 0 (Z.to_nat n)) payload_len (arrived i)) →
  Forall (echo_only (seq 0 (Z.to_nat n)) payload_len) rounds.*2 → Exists (λ t, timeout ≤ t) rounds.*1 →
  ∃ r, run_udp_throughput_scenario n payload_len frag timeout arrived rounds = Ok r ∧
    ut_sent r = n ∧ ut_echoed_intact r + ut_lost r = n ∧ 0 ≤ ut_echoed_intact r ∧ n - 2 ^ 16 ≤ ut_lost r ∧ 0 ≤ ut_lost r ∧
    (n ≤ 2 ^ 16 →
     (∀ i, 0 ≤ i < n → ∃ j pkt src sport dst dport, 0 ≤ Z.of_nat j < n ∧ pkt ∈ arrived j ∧
        parse_inbound_udp pkt = Some (mk_UdpInbound src sport dst dport (throughput_payload i payload_len))) →
     ut_lost r = 0).
Proof.
  intros Hn Hp Ha Hr Ht. unfold run_udp_throughput_scenario. set (ids := seq 0 (Z.to_nat n)) in *.
  destruct (udp_send_all_ok ids ids payload_len arrived link_new ∅) as (link & intact & -> & H1 & _ & H3); [done..|set_solver|].
  cbn [rbind]. destruct (udp_wait_ok ids payload_len n timeout rounds intact) as (intact' & wall & -> & K1 & K2); [lia|done..|].
  cbn [rbind]. pose proof (markers_size ids) as Hm. apply subseteq_size in K1 as Hs.
  assert (len ids = n) as Hl by (unfold ids, len; rewrite length_seq; lia).
  rewrite bool_decide_true by lia. eexists. split; [done|]. cbn. split_and!; try lia. intros Hle Hall.
  assert (markers ids ⊆ intact') as Hsub.
  { intros m. unfold markers. rewrite elem_of_list_to_set, list_elem_of_fmap. intros (i & -> & Hi%elem_of_seq).
    destruct (Hall (Z.of_nat i)) as (j & pkt & src & sport & dst & dport & Hj & Hin & Hpkt); [lia|]. apply K2.
    apply (H3 j pkt); [apply elem_of_seq; lia|done|]. apply (intact_echo_recognised pkt (Z.of_nat i) payload_len src sport dst dport); [lia|done]. }
  apply subseteq_size in Hsub. pose proof (markers_size_exact n). fold ids in H. lia.
Qed.
End throughput.

(** The echo scenario pushes one packet per datagram, each from a port of its own. *)
Lemma udp_echo_sends {P : EtherParse} `{!EtherParseLaws P} ids payload_len link sent :
  len (replicate (Z.to_nat payload_len) xcd) ≤ UDP_PAYLOAD_MAX →
  ∃ pkts, udp_echo_send ids payload_len link sent = Ok (link ++ pkts, sent + len ids) ∧
    Forall2 (λ i pkt, parse_inbound_udp pkt = Some (mk_UdpInbound GEN_IP (wrapping_add_u16 40000 (as_u16 (Z.of_nat i)))
      TARGET_IP 5000 (replicate (Z.to_nat payload_len) xcd))) ids pkts.
Proof.
  intros Hl. revert link sent. induction ids as [|i ids IH]; intros link sent; cbn [udp_echo_send].
  { exists []. rewrite app_nil_r, len_nil, Z.add_0_r. by split. }
  unfold udp_packet, build_udp_ip. set (src := (GEN_IP, wrapping_add_u16 40000 (as_u16 (Z.of_nat i)))).
  destruct (write_fits src (TARGET_IP, 5000) 64 (replicate (Z.to_nat payload_len) xcd) Hl) as [pkt Ep]. rewrite Ep. cbn [expect rbind].
  destruct (IH (link_push link pkt) (sent + 1)) as (pkts & E & Hf). exists (pkt :: pkts). rewrite E, len_cons. split.
  { unfold link_push. rewrite <-(assoc_L (++)). do 2 f_equal. lia. }
  constructor; [|done]. unfold parse_inbound_udp.
  erewrite (parse_written src (TARGET_IP, 5000) 64); [done| | | | |exact Ep].
  - by vm_compute.
  - apply Z.mod_pos_bound. lia.
  - by vm_compute.
  - by vm_compute.
Qed.

(** ** A stack that echoes *)

Record echo_sock := mk_echo_sock { ek_given : list byte; ek_handed : list byte; ek_held : list byte; ek_open : bool }.

#[local] Instance echo_stack : Smoltcp := {|
  TcpSocket := echo_sock;
  tcp_new := mk_echo_sock [] [] [] false;
  tcp_listen s _ := None;
  tcp_abort s := s;
  tcp_state s := if ek_open s then TsEstablished else TsClosed;
  is_active s := ek_open s;
  can_send s := ek_open s;
  can_recv s := negb (bool_decide (ek_held s = []));
  send_slice s l := Some (len l, mk_echo_sock (ek_given s ++ l) (ek_handed s) (ek_held s) (ek_open s));
  recv_all s := Some (ek_held s, mk_echo_sock (ek_given s) (ek_handed s ++ ek_held s) [] (ek_open s));
  local_endpoint _ := None
|}.
#[local] Instance echo_gen : GenTcp echo_stack := {|
  tcp_connect _ _ p := if bool_decide (0 < p) then Some (mk_echo_sock [] [] [] true) else None;
  tcp_close s := mk_echo_sock (ek_given s) (ek_handed s) (ek_held s) false;
  recv_slice s n := Some (ztake n (ek_held s), mk_echo_sock (ek_given s) (ek_handed s ++ ztake n (ek_held s)) (zdrop n (ek_held s)) (ek_open s))
|}.
#[local] Instance echo_laws : GenTcpLaws echo_stack echo_gen.
Proof.
  apply (Build_GenTcpLaws echo_stack echo_gen ek_given ek_handed ek_held); cbn.
  - intros n a p s. case_bool_decide; [|done]. by intros [= <-].
  - intros n a p Hp. rewrite bool_decide_true by done. eauto.
  - intros s l n s' [= <- <-]. cbn. unfold ztake, len. rewrite Nat2Z.id, take_ge by done. split_and!; (done || lia).
  - intros s d s' Hc [= <- <-]. cbn. apply negb_true_iff, bool_decide_eq_false_1 in Hc. by rewrite app_nil_r.
  - intros s n d s' Hc [= <- <-]. cbn. apply negb_true_iff, bool_decide_eq_false_1 in Hc. unfold ztake, zdrop.
    rewrite take_drop. split; [|done]. intros Hn. split.
    + destruct (ek_held s); [done|]. by destruct (Z.to_nat n) eqn:E; [lia|].
    + unfold len. rewrite length_take. lia.
  - done.
Defined.

(** A poll brings back everything sent and not yet received. *)
Definition echo_round (elapsed : Z) : @round echo_stack :=
  mk_round elapsed true
    (λ _ s, mk_echo_sock (ek_given s) (ek_handed s) (drop (length (ek_handed s)) (ek_given s)) (ek_open s)) elapsed.

Lemma echo_round_ok t : echoing (echo_round t).
Proof.
  intros i s. unfold echoes. cbn. split_and!; try done. intros [k ->].
  by rewrite <-(assoc_L (++)), drop_app_length.
Qed.

Lemma echo_driven t l : driven t (echo_round <$> l ++ [t]).
Proof.
  split; [by apply Forall_fmap, Forall_true; intros; apply echo_round_ok|].
  rewrite fmap_app. apply Exists_app. right. apply Exists_cons. left. cbn. lia.
Qed.

(** The other connection completes while the first, held to four bytes at a time, has not. *)
Definition hol_demo : hol_env :=
  mk_hol_env (echo_round <$> [] ++ [8 * 10 ^ 9]) (echo_round <$> seqZ 1 10 ++ [5 * 10 ^ 9])
    (echo_round <$> [] ++ [10 * 10 ^ 9]) 0 0 true 2 2.

Lemma hol_report_sound_witness :
  ∃ r, run_tcp_hol_scenario (Z.to_nat 20000) hol_demo = Ok r ∧ hr_normal_completed_while_stalled r = true ∧
    hr_normal_bytes_match r = true ∧ hr_normal_received r = 8 * 1024 ∧ hr_stalled_completed_while_stalled r = false.
Proof.
  destruct (hol_report_sound (Z.to_nat 20000) hol_demo) as (r & E & Hn & _); [lia|apply echo_driven..|].
  assert (match run_tcp_hol_scenario (Z.to_nat 20000) hol_demo with
          | Ok r => hr_normal_completed_while_stalled r && negb (hr_stalled_completed_while_stalled r)
          | _ => false
          end = true) as Hc by (vm_compute; reflexivity).
  rewrite E in Hc. apply andb_true_iff in Hc as [H1 H2]. apply negb_true_iff in H2.
  exists r. destruct (Hn H1) as (H3 & _ & H4). repeat split; assumption.
Defined.

Lemma tcp_report_sound_witness :
  ∃ r, run_tcp_scenario 200 (mk_ScenarioParams 3 2 100 8 1000 0) (λ _, 0) (echo_round <$> [1; 2; 3] ++ [1000])
         recorded_default = Ok r ∧ rp_completed r = 3 ∧ len (rp_latencies_us r) = 3 ∧ 3 * 100 ≤ rp_bytes_echoed r ≤ 3 * 100.
Proof.
  destruct (tcp_report_sound 200 (mk_ScenarioParams 3 2 100 8 1000 0) (λ _, 0) (echo_round <$> [1; 2; 3] ++ [1000])
    recorded_default) as (r & E & H1 & H2 & H3); [cbn; lia..|apply echo_driven|].
  assert (rp_completed r = 3 ∧ rp_connections r = 3) as [E1 E2] by (vm_compute in E; injection E as <-; split; reflexivity).
  rewrite E1 in H1, H3. rewrite E2 in H3. exists r. split; [exact E|]. split; [exact E1|]. split; [lia|exact H3].
Defined.

(** Both packets of the scenario come back at once: one line of [arrived] each. *)
Definition udp_echo_packet (i : Z) : list byte :=
  default [] (write_ipv4_udp (TARGET_IP, 5000) (GEN_IP, 40000 + i) 64 (throughput_payload i 4)).

Lemma udp_throughput_accounts_witness :
  ∃ r, run_udp_throughput_scenario 2 4 None 1000
         (λ i, if bool_decide (i < 2)%nat then [udp_echo_packet (Z.of_nat i)] else []) [(1000, [])] = Ok r ∧
    ut_sent r = 2 ∧ ut_echoed_intact r + ut_lost r = 2 ∧ ut_lost r = 0.
Proof.
  destruct (udp_throughput_accounts 2 4 None 1000 (λ i, if bool_decide (i < 2)%nat then [udp_echo_packet (Z.of_nat i)] else [])
    [(1000, [])]) as (r & E & H1 & H2 & _ & _ & _ & H3).
  - lia.
  - split; vm_compute; discriminate.
  - intros i. case_bool_decide as Hi; [|apply Forall_nil_2]. apply Forall_singleton. intros m.
    intros Hm. apply elem_of_list_to_set, list_elem_of_In.
    destruct i as [|[|i]]; [| |lia]; vm_compute in Hm; injection Hm as <-; [left|right; left]; reflexivity.
  - apply Forall_singleton, Forall_nil_2.
  - apply Exists_cons. left. cbn. lia.
  - exists r. split; [exact E|]. split; [exact H1|]. split; [exact H2|]. apply H3; [lia|].
    intros i Hi. assert (i = 0 ∨ i = 1) as [->| ->] by lia; [exists 0%nat|exists 1%nat].
    + eexists _, _, _, _, _. split; [lia|]. split; [apply list_elem_of_here|vm_compute; reflexivity].
    + eexists _, _, _, _, _. split; [lia|]. split; [apply list_elem_of_here|vm_compute; reflexivity].
Defined.
