(* ===== verification/Startup.v ===== *)
(** * Startup: from the environment to the running event loop

    [main], [start_tun_proxy] and [run_event_loop_sinked] of [src/client_tun.rs], the connection of
    [TuicUpstream::connect] ([src/tuic.rs]) and the QUIC settings of [src/quic.rs].  The file system, the
    certificate parser, the sockets and the QUIC library are the class [Platform]; messages printed
    on the way are not modelled. *)

From S2P Require Import Prelude Shared Text TuicCodec Metrics TuicUpstream Crypto Auth Reassembly RealityStream Config RealityUpstream UdpRelay Device TunSlot Upstream ClientTun TunInv TunStep TunProps Sink.
Import (notations) Strings.String.

(** What start-up asks of the platform and of the libraries. *)
Class Platform := {
  Certificate : Type;
  (** [File::open] and [rustls_pemfile::certs] *)
  open_file : list byte → option (list byte);
  pem_certs : list byte → option (list Certificate);
  (** [RootCertStore::add] *)
  root_accepts : Certificate → bool;
  udp_bind : bool;
  default_runtime : bool;
  payload_size_allowed : Z → bool;
  endpoint_new : bool;
  (** [tun::create_as_async] *)
  tun_create : Z → bool
}.

(** ** QUIC settings *)

Definition QUIC_ALPN : list byte := str "mvpn".
Definition QUIC_MAX_IDLE_SECS : Z := 15.
Definition QUIC_KEEPALIVE_SECS : Z := 5.
Definition QUIC_MAX_UDP_PAYLOAD_SIZE : Z := 1472.
Definition QUIC_MAX_CONCURRENT_UNI_STREAMS : Z := 4096.

Record TransportConfig := mk_TransportConfig {
  qt_max_idle_secs : Z;
  qt_keep_alive_secs : Z;
  qt_initial_mtu : Z;
  qt_min_mtu : Z;
  qt_max_uni_streams : Z;
  qt_congestion : CcChoice
}.

(** [IdleTimeout::try_from] refuses what does not fit a QUIC variable-length integer of milliseconds. *)
Definition quic_transport_config (cc : CcChoice) : res reason TransportConfig :=
  let? idle := expect (if bool_decide (QUIC_MAX_IDLE_SECS * 1000 < 2 ^ 62) then Some QUIC_MAX_IDLE_SECS else None) in
  Ok (mk_TransportConfig idle QUIC_KEEPALIVE_SECS QUIC_INITIAL_MTU QUIC_INITIAL_MTU QUIC_MAX_CONCURRENT_UNI_STREAMS cc).

Section startup.
Context {F : Platform}.

Record QuicClientConfig := mk_QuicClientConfig {
  qc_roots : list Certificate;
  qc_alpn_protocols : list (list byte);
  qc_enable_early_data : bool;
  qc_transport : TransportConfig
}.

Definition load_certs (path : list byte) : res reason (list Certificate) :=
  let? f := ok_or quic_ca_open (open_file path) in
  let? certs := ok_or quic_ca_read (pem_certs f) in
  if bool_decide (certs = []) then Err quic_ca_empty else Ok certs.

(** The loop [for cert in load_certs(..)? { roots.add(..)?; }]. *)
Fixpoint add_roots (roots certs : list Certificate) : res reason (list Certificate) :=
  match certs with
  | [] => Ok roots
  | cert :: certs => if root_accepts cert then add_roots (roots ++ [cert]) certs else Err quic_ca_add
  end.

(** The TLS part: roots, protocols, early data. *)
Definition client_crypto (ca_path : list byte) (alpn : list (list byte)) (enable_0rtt : bool)
  : res reason (list Certificate * list (list byte) * bool) :=
  let? certs := load_certs ca_path in
  let? roots := add_roots [] certs in
  Ok (roots, alpn, enable_0rtt).

Definition finish_client_config (crypto : list Certificate * list (list byte) * bool) (cc : CcChoice)
  : res reason QuicClientConfig :=
  let '(roots, alpn, early) := crypto in
  let? t := quic_transport_config cc in
  Ok (mk_QuicClientConfig roots alpn early t).

Definition client_quic_config (ca_path : list byte) : res reason QuicClientConfig :=
  let? crypto := client_crypto ca_path [QUIC_ALPN] false in
  finish_client_config crypto Cubic.

Definition client_quic_config_alpn (ca_path : list byte) (alpn : list (list byte)) (cc : CcChoice)
  : res reason QuicClientConfig :=
  let? crypto := client_crypto ca_path alpn true in
  finish_client_config crypto cc.

(** An endpoint is known by its payload limit and its client configuration. *)
Record QuicEndpoint := mk_QuicEndpoint { qe_max_udp_payload_size : Z; qe_client : QuicClientConfig }.

Definition client_endpoint (cfg : QuicClientConfig) : res reason QuicEndpoint :=
  require udp_bind else quic_bind in
  require default_runtime else quic_no_runtime in
  require payload_size_allowed QUIC_MAX_UDP_PAYLOAD_SIZE else quic_payload_size in
  require endpoint_new else quic_endpoint in
  Ok (mk_QuicEndpoint QUIC_MAX_UDP_PAYLOAD_SIZE cfg).

(** [map_err(ClientError::InvalidTarget)] *)
Definition invalid_target {A} (m : res reason A) : res ClientError A :=
  match m with Ok a => Ok a | Err r => Err (InvalidTarget r) | Panic => Panic end.

(** ** [TuicUpstream::connect] *)

Context {Q : QuicLib}.

Definition tuic_connect (cfg : TuicClientConfig)
  : res ClientError (QuicEndpoint * TuicUpstream * Conn) * list wire_event :=
  let '(cc, _) := parse_cc (tc_congestion_control cfg) in
  let mode := default Native (udp_relay_mode_parse (tc_udp_relay_mode cfg)) in
  match invalid_target (client_quic_config_alpn (tc_ca_path cfg) [tc_alpn cfg] cc) with
  | Ok qcfg =>
      match invalid_target (client_endpoint qcfg) with
      | Ok endpoint =>
          let '(conn, w) := tuic_handshake (tc_uuid cfg) (tc_password cfg) (tc_zero_rtt cfg) in
          (let? conn := conn in
           Ok (endpoint, mk_TuicUpstream (tc_uuid cfg) (tc_password cfg) (tc_zero_rtt cfg) mode 0 0 0, conn), w)
      | Err e => (Err e, [])
      | Panic => (Panic, [])
      end
  | Err e => (Err e, [])
  | Panic => (Panic, [])
  end.

(** ** [start_tun_proxy] *)

Context `{B : Base64}.

(** Why start-up stops: each is a message and a return. *)
Inductive abort_reason : Type :=
| AbortRuntime (e : ClientError)
| AbortDevice
| AbortTuicConfig (e : ClientError)
| AbortTuicConnect (e : ClientError)
| AbortRealityConfig (e : ClientError).

(** The upstream the event loop is started with. *)
Inductive started : Type :=
| StartedTuic (u : TuicUpstream) (conn : Conn)
| StartedReality (cfg : RealityClientConfig)
| StartedFailover (u : TuicUpstream) (conn : Conn) (cfg : RealityClientConfig).

(** [match m { Ok(x) => x, Err(e) => { println!(..); return; } }] *)
Definition or_abort {E A} (why : E → abort_reason) (m : res E A) : res abort_reason A :=
  match m with Ok a => Ok a | Err e => Err (why e) | Panic => Panic end.

(** The MTU conversion may abort before the device is asked for. *)
Definition create_tun_device (tun_mtu : Z) : res abort_reason unit :=
  let? mtu := or_abort AbortRuntime (tun_mtu_for_config tun_mtu) in
  if tun_create mtu then Ok tt else Err AbortDevice.

Definition start_tuic (g : env) : res abort_reason (TuicUpstream * Conn) :=
  let? cfg := or_abort AbortTuicConfig (tuic_from_env g) in
  let? '(_, u, conn) := or_abort AbortTuicConnect (tuic_connect cfg).1 in
  Ok (u, conn).

(** [RealityUpstream::from_env] *)
Definition reality_upstream_from_env (g : env) : res ClientError RealityClientConfig := reality_from_env g.

Definition start_tun_proxy (g : env) : res abort_reason (TunRuntimeConfig * VirtualTunDevice * started) :=
  let? rt := or_abort AbortRuntime (runtime_from_env g) in
  let? _ := create_tun_device (rt_tun_mtu rt) in
  let device := device_new (rt_tun_mtu rt) in
  match select_upstream_kind (g (str "MINI_VPN_UPSTREAM")) with
  | UTuic =>
      let? '(u, conn) := start_tuic g in
      Ok (rt, device, StartedTuic u conn)
  | UReality =>
      let? cfg := or_abort AbortRealityConfig (reality_upstream_from_env g) in
      Ok (rt, device, StartedReality cfg)
  | UFailover =>
      let? '(u, conn) := start_tuic g in
      let? cfg := or_abort AbortRealityConfig (reality_upstream_from_env g) in
      Ok (rt, device, StartedFailover u conn cfg)
  end.

(** [run_event_loop_sinked]: the sink by the profile switch. *)
Definition sink_of (rt : TunRuntimeConfig) (now : Z) : LoopProfiler + NoopSink :=
  if rt_profile_loop rt then inl (profiler_new now) else inr mk_NoopSink.

(** [main]: the mode by the first argument. *)
Inductive run_mode : Type := ModeTun | ModeProbe (target : list byte).
Definition main_mode (arg1 arg2 : option (list byte)) : res unit run_mode :=
  match arg1 with
  | None => Ok ModeTun
  | Some a =>
      if bool_decide (a = str "client") || bool_decide (a = str "client-tun") then Ok ModeTun
      else if bool_decide (a = str "reality-probe") then Ok (ModeProbe (default (str "example.com:80") arg2))
      else Panic
  end.

(** ** Lemmas *)

Lemma uuid_bytes_len n i hex bs : uuid_bytes n i hex = Ok bs → length bs = n.
Proof.
  revert i bs. induction n as [|n IH]; cbn; intros i bs H; [by simplify_eq|]. inv_res. simplify_eq. cbn. f_equal. eauto.
Qed.

Lemma parse_uuid_len s u : parse_uuid s = Ok u → len u = 16.
Proof. unfold parse_uuid. case_bool_decide as Hl; [done|]. intros H%uuid_bytes_len. unfold len. lia. Qed.

Lemma reality_config_widths g cfg :
  reality_from_env g = Ok cfg → len (rc_uuid cfg) = 16 ∧ len (rc_pbk cfg) = 32 ∧ len (rc_short_id cfg) = 8.
Proof.
  unfold reality_from_env, reality_from_sources, or_error, parse_pbk. intros H. inv_res. simplify_eq. cbn.
  repeat case_match; simplify_eq; inv_res; simplify_eq; try done.
  split_and!; [by eapply parse_uuid_len|by eapply bool_decide_eq_true_1|by eapply parse_short_id_len].
Qed.

Lemma add_roots_no_panic roots certs : add_roots roots certs ≠ Panic.
Proof. revert roots. induction certs as [|c cs IH]; intros roots; cbn; [done|]. destruct (root_accepts c); [apply IH|done]. Qed.

Lemma client_quic_config_alpn_no_panic path alpn cc : client_quic_config_alpn path alpn cc ≠ Panic.
Proof.
  unfold client_quic_config_alpn, client_crypto, load_certs.
  destruct (open_file path) as [f|]; cbn; [|done]. destruct (pem_certs f) as [certs|]; cbn; [|done].
  case_bool_decide; cbn; [done|]. pose proof (add_roots_no_panic [] certs) as Hr. by destruct (add_roots [] certs).
Qed.

Lemma client_endpoint_no_panic cfg : client_endpoint cfg ≠ Panic.
Proof. unfold client_endpoint. by repeat case_match. Qed.

Lemma tuic_connect_no_panic cfg : (tuic_connect cfg).1 ≠ Panic.
Proof.
  unfold tuic_connect. destruct (parse_cc _) as [cc b].
  pose proof (client_quic_config_alpn_no_panic (tc_ca_path cfg) [tc_alpn cfg] cc) as H1.
  destruct (client_quic_config_alpn _ _ _) as [q| |]; cbn; [|done..].
  pose proof (client_endpoint_no_panic q) as H2. destruct (client_endpoint q) as [ep| |]; cbn; [|done..].
  pose proof (tuic_handshake_no_panic (tc_uuid cfg) (tc_password cfg) (tc_zero_rtt cfg)) as H3.
  by destruct (tuic_handshake _ _ _) as [[c| |] w].
Qed.

Lemma start_tuic_panic g : start_tuic g = Panic → tuic_from_env g = Panic.
Proof.
  unfold start_tuic. destruct (tuic_from_env g) as [cfg|e|]; cbn; [|done..].
  pose proof (tuic_connect_no_panic cfg) as H. by destruct (tuic_connect cfg).1 as [[[ep u] c]| |].
Qed.

End startup.

(** Start-up hands the event loop a state it is safe to run from.  Whatever the environment holds,
    [start_tun_proxy] prints why it stops or starts the loop, and aborts only where a configuration
    parser does ([Config.parse_uuid_panics]).  When it starts, at least one listener per port and an MTU
    between 576 and 9000 are set, the device and the loop use that MTU, a REALITY configuration has
    keys and ids of the widths the handshake needs, the upstream is the one the environment selects,
    and (for a pool size that fits memory) the loop's first state is a reachable state, so none of the
    events that follow stops it. *)
Theorem startup_safe {TS : Smoltcp} {P : EtherParse} {F : Platform} {Q : QuicLib} {C : Crypto} {B : Base64} macos g :
  (start_tun_proxy g = Panic → tuic_from_env g = Panic ∨ reality_from_env g = Panic) ∧
  ∀ rt dev st, start_tun_proxy g = Ok (rt, dev, st) → rt_pool_size rt ≤ POOL_BOUND →
    1 ≤ rt_pool_size rt ∧ 576 ≤ rt_tun_mtu rt ≤ 9000 ∧ 0 < rt_metrics_secs rt ∧ dev = device_new (rt_tun_mtu rt) ∧
    let start {U} `{ProxyUpstream U} (up : U) := loop_init (TS:=TS) (rt_pool_size rt) (rt_tun_mtu rt) up in
    match st with
    | StartedTuic u c =>
        select_upstream_kind (g (str "MINI_VPN_UPSTREAM")) = UTuic ∧
        ∀ w now lock, loop_reachable macos (start (mk_TuicLeg Q u c w now lock))
    | StartedReality cfg =>
        select_upstream_kind (g (str "MINI_VPN_UPSTREAM")) = UReality ∧ leg_ok cfg [] = true ∧
        ∀ leg, re_cfg leg = cfg → loop_reachable macos (start leg)
    | StartedFailover u c cfg =>
        select_upstream_kind (g (str "MINI_VPN_UPSTREAM")) = UFailover ∧ leg_ok cfg [] = true ∧
        ∀ w now lock leg fs t, re_cfg leg = cfg →
          loop_reachable macos (start (mk_FailoverUpstream (mk_TuicLeg Q u c w now lock) leg fs t))
    end.
Proof.
  destruct (runtime_settings_in_range g) as [Hnp Hrt]. unfold start_tun_proxy.
  destruct (runtime_from_env g) as [rt|e|]; cbn [or_abort rbind]; [|by split|done].
  destruct (Hrt rt eq_refl) as (Hp & Hm & Hs & Hc). unfold create_tun_device. rewrite Hc. cbn [or_abort rbind].
  destruct (tun_create (rt_tun_mtu rt)); cbn [rbind]; [|by split].
  pose proof (start_tuic_panic g) as Htp. pose proof (reality_config_widths g) as Hw.
  unfold reality_upstream_from_env.
  assert (∀ cfg, reality_from_env g = Ok cfg → leg_ok cfg [] = true) as Hleg.
  { intros cfg H. destruct (Hw cfg H) as (? & _ & ?). unfold leg_ok. by rewrite bool_decide_true. }
  split.
  - destruct (select_upstream_kind _), (start_tuic g) as [[u c]|e|], (reality_from_env g) as [cfg|e'|]; cbn; intros H; auto; done.
  - intros rt' dev st Hst Hb.
    assert (∀ U `{!ProxyUpstream U, !DatagramUpstream U} (up : U), 0 ≤ rt_pool_size rt ≤ POOL_BOUND →
      loop_reachable macos (loop_init (TS:=TS) (rt_pool_size rt) (rt_tun_mtu rt) up)) as Hre.
    { intros U Hpx Hdg up Hpb. apply lr_init; [done|]. unfold MTU_BOUND. lia. }
    destruct (select_upstream_kind _), (start_tuic g) as [[u c]|e|], (reality_from_env g) as [cfg|e'|]; cbn in Hst; simplify_eq.
    all: split_and!; try done; try lia; try (intros; apply Hre; lia); eauto.
Qed.

(** An environment for TUIC with a profile, on a platform where everything works. *)
Definition demo_platform : Platform := {|
  Certificate := nat; open_file _ := Some []; pem_certs _ := Some [1%nat]; root_accepts _ := true;
  udp_bind := true; default_runtime := true; payload_size_allowed n := bool_decide (1200 ≤ n ≤ 65527);
  endpoint_new := true; tun_create _ := true
|}.
Definition demo_base64 : Base64 := {|
  url_safe_no_pad _ := Some (replicate 32 x01); url_safe _ := None; standard_no_pad _ := None; standard _ := None
|}.
Definition demo_settings : list (list byte * list byte) :=
  [(str "MINI_VPN_UPSTREAM", str " Failover ");
   (str "MINI_VPN_TUN_MTU", str "1400"); (str "MINI_VPN_PROFILE_LOOP", str "1");
   (str "MINI_VPN_TUIC_SERVER", str "203.0.113.1:443"); (str "MINI_VPN_TUIC_PASSWORD", str "p");
   (str "MINI_VPN_TUIC_UUID", str "00112233-4455-6677-8899-aabbccddeeff"); (str "MINI_VPN_TUIC_CC", str "BBR");
   (str "MINI_VPN_REALITY_SERVER", str "203.0.113.2:443"); (str "MINI_VPN_REALITY_SNI", str "example.com");
   (str "MINI_VPN_REALITY_UUID", str "00112233445566778899aabbccddeeff"); (str "MINI_VPN_REALITY_PBK", str "key");
   (str "MINI_VPN_REALITY_SHORT_ID", str "01ab")].
Definition demo_env : env := λ k,
  match List.find (λ kv, bool_decide (kv.1 = k)) demo_settings with Some (_, v) => Some v | None => None end.
Definition demo_started : res abort_reason (TunRuntimeConfig * VirtualTunDevice * @started demo_quic) :=
  @start_tun_proxy demo_platform demo_quic demo_base64 demo_env.

Lemma startup_safe_witness :
  ∃ rt dev u c cfg,
    demo_started = Ok (rt, dev, @StartedFailover demo_quic u c cfg) ∧ rt_tun_mtu rt = 1400 ∧ leg_ok cfg [] = true ∧
    ∀ w now lock leg fs t, re_cfg leg = cfg →
      loop_reachable (TS:=demo_stack) false (loop_init (rt_pool_size rt) (rt_tun_mtu rt)
        (mk_FailoverUpstream (mk_TuicLeg demo_quic u c w now lock) leg fs t)).
Proof.
  destruct demo_started as [[[rt dev] [u c|cfg|u c cfg]]| |] eqn:E; try (vm_compute in E; discriminate E).
  destruct (startup_safe (TS:=demo_stack) (F:=demo_platform) (Q:=demo_quic) (C:=demo_crypto) (B:=demo_base64) false demo_env)
    as [_ H].
  assert (rt_pool_size rt ≤ POOL_BOUND ∧ rt_tun_mtu rt = 1400) as [Hp Hm].
  { vm_compute in E. injection E as <- _ _ _ _. split; [vm_compute; discriminate|reflexivity]. }
  destruct (H rt dev (@StartedFailover demo_quic u c cfg) E Hp) as (_ & _ & _ & _ & _ & Hl & Hr).
  exists rt, dev, u, c, cfg. split; [reflexivity|]. split; [exact Hm|]. split; [exact Hl|exact Hr].
Defined.
