(* ===== verification/Probe.v ===== *)
(** * Probe: the diagnostic probe of [src/reality_upstream.rs] ([reality_probe])

    [mini_vpn reality-probe host:port] opens one REALITY stream without a TUN device, sends an HTTP
    request and reports the first answer.  [probe_outcome] lists the ends the function reports.  Waiting
    for the socket is a list of the readiness the socket still gets; when it is used up the probe is
    still waiting. *)

From S2P Require Import Prelude Text Shared Addr Show TuicCodec Crypto Record Auth ClientHello KeySchedule ServerHello Cert Vless.
From S2P Require Import Reassembly Handshake RealityStream Config RealityUpstream.
From S2P Require Import UdpRelay Device TunSlot Upstream ClientTun RelayTask Startup.
Import (notations) Strings.String.

Inductive probe_outcome : Type :=
| ProbeBadConfig (e : ClientError)
| ProbeBadTarget (e : ClientError)
| ProbeOpenFailed (e : ClientError)
| ProbeWriteFailed
| ProbeNoAnswer
| ProbeAnswer (data : list byte)
| ProbeReadFailed
| ProbeWaiting
| ProbeAborted.

Definition CRLF : list byte := [x0d; x0a].
Definition PROBE_BUF : Z := 4096.

Definition probe_host (t : TargetAddr) : list byte :=
  match t with
  | DomainPort host _ => host
  | IpPort (V4 ip _) => show_ipv4 ip
  | IpPort (V6 ip _) => show_ipv6 ip
  end.

Definition probe_request (host : list byte) : list byte :=
  str "GET / HTTP/1.1" ++ CRLF ++ str "Host: " ++ host ++ CRLF ++ str "Connection: close" ++ CRLF ++
  str "User-Agent: mini-vpn-probe" ++ CRLF ++ CRLF.

(** One more readiness of the socket. *)
Definition readiness : Type := list rd_poll * list wr_poll.
Definition more_ready (r : readiness) (st : RealityStream) : RealityStream :=
  RealityStream.set_sockets (rs_rin st ++ r.1) (rs_win st ++ r.2) (rs_wout st) st.

Section probe.
Context `{C : Crypto, B : Base64}.

(** [s.read(&mut buf).await] *)
Fixpoint probe_read (ready : list readiness) (st : RealityStream) : RealityStream * probe_outcome :=
  match poll_read PROBE_BUF st with
  | (st, Ok (Ready [])) => (st, ProbeNoAnswer)
  | (st, Ok (Ready data)) => (st, ProbeAnswer data)
  | (st, Ok Pending) =>
      match ready with
      | [] => (st, ProbeWaiting)
      | r :: ready => probe_read ready (more_ready r st)
      end
  | (st, Err _) => (st, ProbeReadFailed)
  | (st, Panic) => (st, ProbeAborted)
  end.

(** [s.write_all(req).await], then the read. *)
Fixpoint probe_write (ready : list readiness) (rest : list byte) (st : RealityStream) : RealityStream * probe_outcome :=
  match write_all_poll (length rest) rest st with
  | (st, Ok (Ready _, _)) => probe_read ready st
  | (st, Ok (Pending, rest)) =>
      match ready with
      | [] => (st, ProbeWaiting)
      | r :: ready => probe_write ready rest (more_ready r st)
      end
  | (st, Err _) => (st, ProbeWriteFailed)
  | (st, Panic) => (st, ProbeAborted)
  end.

Definition probe_stream (host : list byte) (ready : list readiness) (st : RealityStream) : RealityStream * probe_outcome :=
  probe_write ready (probe_request host) st.

Definition reality_probe (g : env) (target : list byte) (e : entropy) (c : connect_outcome) (slow : bool)
    (rin : list rd_poll) (win : list wr_poll) (ready : list readiness) : probe_outcome :=
  match reality_from_env g with
  | Err err => ProbeBadConfig err
  | Panic => ProbeAborted
  | Ok cfg =>
      match target_parse target with
      | Err err => ProbeBadTarget err
      | Panic => ProbeAborted
      | Ok t =>
          match open_tcp cfg e t c slow rin win with
          | Err err => ProbeOpenFailed err
          | Panic => ProbeAborted
          | Ok st => (probe_stream (probe_host t) ready st).2
          end
      end
  end.

(** ** Lemmas *)

Context `{!CryptoLaws C}.

Definition ready_ok (r : readiness) : Prop := Forall rd_ok r.1 ∧ Forall wr_ok r.2.
Definition ready_bytes (rs : list readiness) : list byte := concat ((λ r, rd_bytes r.1) <$> rs).

Lemma more_ready_sync r st d0 outs its later :
  synced st d0 outs its (rd_bytes r.1 ++ later) → ready_ok r → synced (more_ready r st) d0 outs its later.
Proof.
  intros [[dl Hin] Hits Hout Hrs Hs Hri Hwi] [Hr Hw]. split; try done; [|by apply Forall_app..]. exists dl.
  unfold more_ready. cbn [rs_server_ap_secret rs_recv_keys rs_read_raw rs_rin RealityStream.set_sockets].
  rewrite rd_bytes_app, <-!app_assoc in *. done.
Qed.

Lemma probe_read_ok ready st d0 outs its later :
  synced st d0 outs its (ready_bytes ready ++ later) → Forall ready_ok ready →
  ∃ st' o, probe_read ready st = (st', o) ∧
    (o = ProbeWaiting ∨ ∃ data, o = ProbeAnswer data ∧ data ≠ [] ∧ len data ≤ PROBE_BUF ∧
       data `prefix_of` RealityStream.released st (items_data its)).
Proof.
  revert st outs its. induction ready as [|r ready IH]; intros st outs its Hsy Hok; cbn [probe_read].
  all: destruct (poll_read_sync PROBE_BUF st d0 outs its _ Hsy ltac:(done)) as (st1 & p & its1 & n & E & _ & Hsy1 & Hres & _).
  all: rewrite E; destruct p as [bs|].
  1,3: destruct Hres as [Hne Hrel]; pose proof (poll_read_le PROBE_BUF st st1 bs ltac:(done) E); destruct bs as [|b bs]; [done|];
    eexists _, _; (split; [done|]); right; eexists; (split; [done|]); split_and!; [done..|]; by eexists.
  - eexists _, _. split; [done|]. by left.
  - apply Forall_cons in Hok as [Hr Hok]. destruct Hres as (Hrel & _).
    unfold ready_bytes in Hsy1. cbn in Hsy1. rewrite <-app_assoc in Hsy1.
    destruct (IH (more_ready r st1) _ its1 (more_ready_sync _ _ _ _ _ _ Hsy1 Hr) Hok) as (st' & o & E' & Ho).
    exists st', o. split; [done|]. destruct Ho as [|(data & -> & Hne & Hl & Hp)]; [by left|right].
    exists data. split_and!; try done. by rewrite <-Hrel.
Qed.

Lemma probe_write_ok ready rest st d0 outs its later :
  synced st d0 outs its (ready_bytes ready ++ later) → Forall ready_ok ready →
  rk_seq (rs_send_keys st) + len rest + Z.of_nat (requests its) < 2 ^ 64 - 1 →
  ∃ st' o, probe_write ready rest st = (st', o) ∧
    (o = ProbeWaiting ∨ ∃ data, o = ProbeAnswer data ∧ data ≠ [] ∧ len data ≤ PROBE_BUF ∧
       data `prefix_of` RealityStream.released st (items_data its)).
Proof.
  revert rest st outs. induction ready as [|r ready IH]; intros rest st outs Hsy Hok Hb; cbn [probe_write].
  all: destruct (write_all_poll_sync rest st d0 outs its _ (length rest) Hsy ltac:(done) Hb)
    as (st1 & p & rest1 & outs1 & -> & Hsy1 & _ & Hrel & Hk & _); destruct p as [[]|].
  1,3: destruct (probe_read_ok _ st1 d0 outs1 its later Hsy1 Hok) as (st' & o & E & Ho); exists st', o;
    rewrite <-Hrel; done.
  - eexists _, _. split; [done|]. by left.
  - apply Forall_cons in Hok as [Hr Hok]. unfold ready_bytes in Hsy1. cbn in Hsy1. rewrite <-app_assoc in Hsy1.
    destruct (IH rest1 (more_ready r st1) outs1 (more_ready_sync _ _ _ _ _ _ Hsy1 Hr) Hok) as (st' & o & E' & Ho); [cbn; lia|].
    exists st', o. split; [done|]. rewrite <-Hrel. exact Ho.
Qed.

End probe.

(** The probe reports an answer only when it has one: over a stream in step with the server and a working
    socket it never fails and never aborts; it waits, or reports a non-empty front of the server's data
    behind the response header, at most a buffer long. *)
Theorem probe_answer_genuine `{C : Crypto, !CryptoLaws C} host ready st d0 outs its later :
  synced st d0 outs its (ready_bytes ready ++ later) → Forall ready_ok ready →
  rk_seq (rs_send_keys st) + len (probe_request host) + Z.of_nat (requests its) < 2 ^ 64 - 1 →
  ∃ st' o, probe_stream host ready st = (st', o) ∧
    (o = ProbeWaiting ∨ ∃ data, o = ProbeAnswer data ∧ data ≠ [] ∧ len data ≤ PROBE_BUF ∧
       data `prefix_of` RealityStream.released st (items_data its)).
Proof. exact (probe_write_ok ready (probe_request host) st d0 outs its later). Qed.

Lemma probe_answer_genuine_witness :
  ∃ st' o, @probe_stream demo_crypto (str "h") [([RdData (zdrop 30 demo_wire)], [WrOk 500; WrOk 500])] demo_reality = (st', o).
Proof.
  destruct (probe_answer_genuine (C:=demo_crypto) (str "h") [([RdData (zdrop 30 demo_wire)], [WrOk 500; WrOk 500])]
    demo_reality demo_dir [] demo_sent []) as (st' & o & E & _).
  - apply demo_synced. vm_compute. reflexivity.
  - repeat constructor; vm_compute; congruence.
  - vm_compute. reflexivity.
  - exists st', o. exact E.
Defined.

(** Every end of the probe that comes before the stream. *)
Example probe_reports :
  reality_probe (C:=demo_crypto) (B:=demo_base64) (λ _, None) (str "example.com:80") demo_entropy ConnectFailed false [] [] []
    = ProbeBadConfig (Reality reality_server_missing).
Proof. vm_compute. reflexivity. Qed.
