(* ===== verification/Redact.v ===== *)
(** * Redact: the debug output of the configurations

    [impl Debug] of [TuicClientConfig] (src/tuic.rs) and of [RealityClientConfig] (src/reality_upstream.rs), which
    keep credentials out of logs, over the debug formatting of the standard library: [debug_struct] and
    the quoting of strings.  How a character outside ASCII is printed depends on the Unicode tables and
    is a parameter. *)

From S2P Require Import Prelude Text Shared Addr Show Config.
Import (notations) Strings.String.

Section debug.
Context (unicode : list byte → list byte).

(** [char::escape_debug] inside double quotes, for an ASCII character. *)
Definition escape_ascii (b : byte) : list byte :=
  let n := b2z b in
  if bool_decide (n = 0) then str "\0"
  else if bool_decide (n = 9) then str "\t"
  else if bool_decide (n = 13) then str "\r"
  else if bool_decide (n = 10) then str "\n"
  else if bool_decide (n = 34 ∨ n = 92) then [x5c; b]
  else if bool_decide (32 ≤ n < 127) then [b]
  else str "\u{" ++ show_hex n ++ str "}".

(** The characters of a UTF-8 string, one after the other. *)
Fixpoint escape_str (pending s : list byte) : list byte :=
  let flush := match pending with [] => [] | _ => unicode pending end in
  match s with
  | [] => flush
  | b :: s =>
      if is_ascii b then flush ++ escape_ascii b ++ escape_str [] s
      else if is_cont b then escape_str (pending ++ [b]) s
      else flush ++ escape_str [b] s
  end.

Definition debug_str (s : list byte) : list byte := [x22] ++ escape_str [] s ++ [x22].
Definition debug_bool (b : bool) : list byte := if b then str "true" else str "false".

(** [f.debug_struct(name).field(..)..finish()] *)
Definition debug_struct (name : list byte) (fields : list (list byte * list byte)) : list byte :=
  name ++ str " { " ++ join (str ", ") ((λ f, f.1 ++ str ": " ++ f.2) <$> fields) ++ str " }".

Definition redacted : list byte := debug_str (str "<redacted>").

Definition tuic_config_fmt (c : TuicClientConfig) : list byte :=
  debug_struct (str "TuicClientConfig")
    [(str "server", show_sockaddr (tc_server c)); (str "uuid", redacted); (str "password", redacted);
     (str "sni", debug_str (tc_sni c)); (str "ca_path", debug_str (tc_ca_path c)); (str "alpn", debug_str (tc_alpn c));
     (str "congestion_control", debug_str (tc_congestion_control c)); (str "udp_relay_mode", debug_str (tc_udp_relay_mode c));
     (str "zero_rtt", debug_bool (tc_zero_rtt c))].

Definition reality_config_fmt (c : RealityClientConfig) : list byte :=
  debug_struct (str "RealityClientConfig")
    [(str "server", debug_str (rc_server c)); (str "uuid", redacted); (str "pbk", redacted); (str "short_id", redacted);
     (str "sni", debug_str (rc_sni c))].

(** What is printed is the same for every credential, also through the parsers: two sources that differ
    in UUID, password, public key and short id alone print the same text. *)
Theorem debug_hides_credentials `{B : Base64} server u1 u2 p1 p2 sni ca alpn k1 k2 i1 i2 :
  (∀ c1 c2, tuic_from_sources server u1 p1 sni ca alpn = Ok c1 → tuic_from_sources server u2 p2 sni ca alpn = Ok c2 →
     tuic_config_fmt c1 = tuic_config_fmt c2) ∧
  (∀ c1 c2, reality_from_sources server u1 k1 i1 sni = Ok c1 → reality_from_sources server u2 k2 i2 sni = Ok c2 →
     reality_config_fmt c1 = reality_config_fmt c2).
Proof.
  split; intros c1 c2.
  - unfold tuic_from_sources. intros H1 H2. destruct server as [sv|]; [|done].
    repeat (inv_res; repeat case_match; simplify_eq); try done.
  - unfold reality_from_sources. intros H1 H2. destruct server as [sv|]; [|done].
    repeat (inv_res; repeat case_match; simplify_eq); try done.
Qed.
End debug.
