(* ===== verification/StdCrypto.v ===== *)
(** * StdCrypto: the cryptographic operations by their standards

    The crates of [Crypto] are parameters of the development.  This file instantiates them by the
    published standards, as executable definitions: SHA-256 and SHA-512 (FIPS 180-4), HMAC (RFC 2104), HKDF
    (RFC 5869), AES-128/256 (FIPS 197) in Galois/Counter mode (SP 800-38D) and X25519 (RFC 7748).  No theorem
    about the program rests on the instance: it is what [ConformReality] runs the program's own test
    vectors on. *)

From S2P Require Import Prelude Crypto.

(** [l] cut into pieces of [n] elements. *)
Fixpoint groups {A} (fuel n : nat) (l : list A) : list (list A) :=
  match fuel with
  | O => []
  | S fuel => match l with [] => [] | _ => take n l :: groups fuel n (drop n l) end
  end.

(** ** SHA-2 *)

Record sha_params := mk_sha_params {
  sh_bits : Z;                     (** the word size *)
  sh_mask : Z;                     (** a word of ones *)
  sh_k : list Z;                   (** the round constants *)
  sh_iv : list Z;                  (** the initial hash value *)
  sh_S0 : Z * Z * Z; sh_S1 : Z * Z * Z; (** the rotations of the two upper-case sigmas *)
  sh_s0 : Z * Z * Z; sh_s1 : Z * Z * Z  (** the rotations and the shift of the two lower-case ones *)
}.

Section sha.
  Context (P : sha_params).

(** Three rotations at once: [x] twice in a row, shifted. *)
Definition twice (x : Z) : Z := Z.lor (Z.shiftl x (sh_bits P)) x.
Definition upper_sigma (r : Z * Z * Z) (x : Z) : Z :=
  let '(a, b, c) := r in
  let d := twice x in Z.land (Z.lxor (Z.lxor (Z.shiftr d a) (Z.shiftr d b)) (Z.shiftr d c)) (sh_mask P).
Definition lower_sigma (r : Z * Z * Z) (x : Z) : Z :=
  let '(a, b, c) := r in
  let d := twice x in Z.land (Z.lxor (Z.lxor (Z.shiftr d a) (Z.shiftr d b)) (Z.shiftr x c)) (sh_mask P).

(** The next word of the message schedule, from the last sixteen, oldest first. *)
Definition next_word (ws : list Z) : Z :=
  match ws with
  | [w0; w1; _; _; _; _; _; _; _; w9; _; _; _; _; w14; _] =>
      Z.land (lower_sigma (sh_s1 P) w14 + w9 + lower_sigma (sh_s0 P) w1 + w0) (sh_mask P)
  | _ => 0
  end.

Definition sha_round (st : list Z) (k w : Z) : list Z :=
  match st with
  | [a; b; c; d; e; f; g; h] =>
      let ch := Z.lxor (Z.land e f) (Z.land (Z.lxor e (sh_mask P)) g) in
      let maj := Z.lxor (Z.lxor (Z.land a b) (Z.land a c)) (Z.land b c) in
      let t1 := h + upper_sigma (sh_S1 P) e + ch + k + w in
      let t2 := upper_sigma (sh_S0 P) a + maj in
      [Z.land (t1 + t2) (sh_mask P); a; b; c; Z.land (d + t1) (sh_mask P); e; f; g]
  | _ => st
  end.

Fixpoint sha_rounds (ks ws st : list Z) : list Z :=
  match ks, ws with
  | k :: ks, w :: rest => sha_rounds ks (rest ++ [next_word ws]) (sha_round st k w)
  | _, _ => st
  end.

Definition word_bytes : nat := Z.to_nat (sh_bits P / 8).

Definition sha_compress (st : list Z) (block : list byte) : list Z :=
  zip_with (λ a b, Z.land (a + b) (sh_mask P)) st (sha_rounds (sh_k P) (of_be <$> groups 16 word_bytes block) st).

(** A one bit, zeros, and the length in bits in two words, up to a whole number of blocks. *)
Definition sha_pad (m : list byte) : list byte :=
  let size := sh_bits P * 2 in
  let field := sh_bits P / 4 in
  m ++ x80 :: replicate (Z.to_nat ((- (len m + 1 + field)) mod size)) x00 ++ to_be (Z.to_nat field) (8 * len m).

Definition sha (m : list byte) : list byte :=
  let p := sha_pad m in
  concat (to_be word_bytes <$> fold_left sha_compress (groups (length p) (Z.to_nat (sh_bits P * 2)) p) (sh_iv P)).

(** HMAC over the hash. *)
Definition hmac (key m : list byte) : list byte :=
  let size := Z.to_nat (sh_bits P * 2) in
  let key := if bool_decide (size < length key)%nat then sha key else key in
  let key := key ++ replicate (size - length key) x00 in
  let pad c := (λ b, z2b (Z.lxor (b2z b) c)) <$> key in
  sha (pad 0x5c ++ sha (pad 0x36 ++ m)).
End sha.

(** The constants of SHA-2 are the leading fraction bits of the cube roots and square roots of the first
    primes; they are computed here from that definition. *)
Definition is_prime (n : nat) : bool :=
  forallb (λ d, negb (Nat.eqb (n mod d) 0)) (seq 2 (n - 2)).
Definition first_primes (n : nat) : list Z :=
  Z.of_nat <$> take n (List.filter is_prime (seq 2 500)).

(** The largest [r] with [r] cubed at most [x], bit by bit from [bits] down. *)
Fixpoint cube_root (bits : nat) (x acc : Z) : Z :=
  match bits with
  | O => acc
  | S b =>
      let r := acc + Z.shiftl 1 (Z.of_nat b) in
      cube_root b x (if r * r * r <=? x then r else acc)
  end.

Definition cube_fraction (bits p : Z) : Z :=
  Z.land (cube_root (Z.to_nat (bits + 4)) (Z.shiftl p (3 * bits)) 0) (Z.ones bits).
Definition square_fraction (bits p : Z) : Z := Z.land (Z.sqrt (Z.shiftl p (2 * bits))) (Z.ones bits).

Definition sha256_params : sha_params := Eval vm_compute in
  mk_sha_params 32 (Z.ones 32) (cube_fraction 32 <$> first_primes 64) (square_fraction 32 <$> first_primes 8)
    (2, 13, 22) (6, 11, 25) (7, 18, 3) (17, 19, 10).

Definition sha512_params : sha_params := Eval vm_compute in
  mk_sha_params 64 (Z.ones 64) (cube_fraction 64 <$> first_primes 80) (square_fraction 64 <$> first_primes 8)
    (28, 34, 39) (14, 18, 41) (1, 8, 7) (19, 61, 6).

(** ** HKDF over SHA-256 *)

Definition std_hkdf_extract (salt ikm : list byte) : list byte := hmac sha256_params salt ikm.

Fixpoint hkdf_blocks (n : nat) (prk info prev : list byte) (i : Z) : list byte :=
  match n with
  | O => []
  | S n => let t := hmac sha256_params prk (prev ++ info ++ [z2b i]) in t ++ hkdf_blocks n prk info t (i + 1)
  end.

Definition std_hkdf_expand (prk info : list byte) (n : Z) : option (list byte) :=
  if bool_decide (0 ≤ n ≤ 255 * 32)
  then Some (ztake n (hkdf_blocks (Z.to_nat ((n + 31) / 32)) prk info [] 1)) else None.

(** ** AES *)

Definition xtime (x : Z) : Z := let y := Z.shiftl x 1 in if Z.testbit y 8 then Z.lxor y 0x11b else y.

(** The product of bytes as polynomials modulo the one of AES. *)
Fixpoint byte_mul (n : nat) (x y : Z) : Z :=
  match n with
  | O => 0
  | S n => Z.lxor (if Z.odd y then x else 0) (byte_mul n (xtime x) (Z.div2 y))
  end.

Definition byte_inverse (x : Z) : Z :=
  default 0 (head (List.filter (λ y, byte_mul 8 x y =? 1) (seqZ 0 256))).

(** The affine map: a byte, its four rotations and a constant. *)
Definition affine (x : Z) : Z :=
  let rot n := Z.land (Z.lor (Z.shiftl x n) (Z.shiftr x (8 - n))) 0xff in
  fold_left Z.lxor (rot <$> [1; 2; 3; 4]) (Z.lxor x 0x63).

Definition sbox_table : list Z := Eval vm_compute in affine ∘ byte_inverse <$> seqZ 0 256.
Definition sbox (x : Z) : Z := default 0 (get sbox_table x).
Definition xor_list : list Z → list Z → list Z := zip_with Z.lxor.

Definition mix_column (c : list Z) : list Z :=
  match c with
  | [a; b; c; d] =>
      let t := Z.lxor (Z.lxor a b) (Z.lxor c d) in
      let m x y := Z.lxor x (Z.lxor t (xtime (Z.lxor x y))) in
      [m a b; m b c; m c d; m d a]
  | _ => c
  end.

(** The state is the sixteen bytes, column by column. *)
Definition shift_rows (s : list Z) : list Z :=
  match s with
  | [a0; a1; a2; a3; b0; b1; b2; b3; c0; c1; c2; c3; d0; d1; d2; d3] =>
      [a0; b1; c2; d3; b0; c1; d2; a3; c0; d1; a2; b3; d0; a1; b2; c3]
  | _ => s
  end.

Fixpoint aes_rounds (ks : list (list Z)) (s : list Z) : list Z :=
  match ks with
  | [] => s
  | [k] => xor_list (shift_rows (sbox <$> s)) k
  | k :: ks => aes_rounds ks (xor_list (concat (mix_column <$> groups 4 4 (shift_rows (sbox <$> s)))) k)
  end.
Definition aes_block (ks : list (list Z)) (s : list Z) : list Z :=
  match ks with [] => s | k :: ks => aes_rounds ks (xor_list s k) end.

(** The words of the key schedule, newest first: [n] more of them, the next has index [i]. *)
Fixpoint expand_words (nk n i : nat) (rcon : Z) (rev : list (list Z)) : list (list Z) :=
  match n with
  | O => rev
  | S n =>
      let back := default [] (rev !! (nk - 1)%nat) in
      let prev := default [] (head rev) in
      if bool_decide (i mod nk = 0)%nat then
        let t := match prev with [a; b; c; d] => [Z.lxor (sbox b) rcon; sbox c; sbox d; sbox a] | _ => [] end in
        expand_words nk n (S i) (xtime rcon) (xor_list back t :: rev)
      else if bool_decide (6 < nk ∧ i mod nk = 4)%nat then
        expand_words nk n (S i) rcon (xor_list back (sbox <$> prev) :: rev)
      else expand_words nk n (S i) rcon (xor_list back prev :: rev)
  end.
Definition key_expansion (key : list byte) : list (list Z) :=
  let nk := (length key / 4)%nat in
  let ws := reverse (expand_words nk (4 * (nk + 7) - nk) nk 1 (reverse (groups nk 4 (b2z <$> key)))) in
  (λ g, concat g) <$> groups (nk + 7) 4 ws.

(** ** Galois/Counter mode *)

Fixpoint gf_mul (n : nat) (x y acc : Z) : Z :=
  match n with
  | O => acc
  | S n =>
      gf_mul n x (if Z.testbit y 0 then Z.lxor (Z.shiftr y 1) (Z.shiftl 0xe1 120) else Z.shiftr y 1)
        (if Z.testbit x (Z.of_nat n) then Z.lxor acc y else acc)
  end.
Definition ghash (h : Z) (blocks : list Z) : Z := fold_left (λ y b, gf_mul 128 (Z.lxor y b) h 0) blocks 0.
Definition blocks16 (l : list byte) : list Z :=
  of_be <$> groups (length l) 16 (l ++ replicate (Z.to_nat ((- len l) mod 16)) x00).

Fixpoint keystream (ks : list (list Z)) (nonce : list byte) (n : nat) (c : Z) : list Z :=
  match n with O => [] | S n => aes_block ks (b2z <$> (nonce ++ be32 c)) ++ keystream ks nonce n (c + 1) end.
Definition gctr (ks : list (list Z)) (nonce msg : list byte) : list byte :=
  zip_with (λ b k, z2b (Z.lxor (b2z b) k)) msg (keystream ks nonce ((length msg + 15) / 16) 2).
Definition gcm_tag (ks : list (list Z)) (nonce aad ct : list byte) : list byte :=
  let h := of_be (z2b <$> aes_block ks (replicate 16 0)) in
  let s := ghash h (blocks16 aad ++ blocks16 ct ++ [Z.lor (Z.shiftl (8 * len aad) 64) (8 * len ct)]) in
  let j := of_be (z2b <$> aes_block ks (b2z <$> (nonce ++ be32 1))) in
  to_be 16 (Z.lxor s j).

Definition gcm_encrypt (key nonce aad msg : list byte) : option (list byte) :=
  if bool_decide (len msg ≤ GCM_P_MAX) then
    let ks := key_expansion key in
    let ct := gctr ks nonce msg in Some (ct ++ gcm_tag ks nonce aad ct)
  else None.
Definition gcm_decrypt (key nonce aad sealed : list byte) : option (list byte) :=
  if bool_decide (16 ≤ len sealed) then
    let ct := ztake (len sealed - 16) sealed in
    let ks := key_expansion key in
    if bool_decide (zdrop (len sealed - 16) sealed = gcm_tag ks nonce aad ct) then Some (gctr ks nonce ct) else None
  else None.

(** ** X25519 *)

Definition p25519 : Z := 2 ^ 255 - 19.
(** A representative modulo the prime, not always the least one. *)
Definition fold25519 (x : Z) : Z := Z.land x (Z.ones 255) + 19 * Z.shiftr x 255.
Definition fmul (a b : Z) : Z := fold25519 (fold25519 (a * b)).
Definition fadd (a b : Z) : Z := fold25519 (a + b).
Definition fsub (a b : Z) : Z := fold25519 (a + 4 * p25519 - b).

Fixpoint ladder (n : nat) (k x1 x2 z2 x3 z3 : Z) (swap : bool) : Z * Z :=
  match n with
  | O => if swap then (x3, z3) else (x2, z2)
  | S n =>
      let kt := Z.testbit k (Z.of_nat n) in
      let '(x2, z2, x3, z3) := if xorb swap kt then (x3, z3, x2, z2) else (x2, z2, x3, z3) in
      let a := fadd x2 z2 in let aa := fmul a a in
      let b := fsub x2 z2 in let bb := fmul b b in
      let e := fsub aa bb in
      let c := fadd x3 z3 in let d := fsub x3 z3 in
      let da := fmul d a in let cb := fmul c b in
      let s := fadd da cb in let t := fsub da cb in
      ladder n k x1 (fmul aa bb) (fmul e (fadd aa (fmul 121665 e))) (fmul s s) (fmul x1 (fmul t t)) kt
  end.

Fixpoint fpow (n : nat) (e b acc : Z) : Z :=
  match n with
  | O => acc
  | S n => let a := fmul acc acc in fpow n e b (if Z.testbit e (Z.of_nat n) then fmul a b else a)
  end.

Definition std_x25519 (secret peer : list byte) : list byte :=
  let k := Z.lor (Z.land (of_be (reverse secret)) (2 ^ 254 - 8)) (2 ^ 254) in
  let u := Z.land (of_be (reverse peer)) (Z.ones 255) in
  let '(x, z) := ladder 255 k u 1 0 u 1 false in
  reverse (to_be 32 (fmul x (fpow 255 (p25519 - 2) z 1) mod p25519)).

(** ** The instance, for a given Diffie-Hellman function *)

Definition std_crypto (dh : list byte → list byte → list byte) : Crypto := {|
  aes128_encrypt := gcm_encrypt;
  aes128_decrypt := gcm_decrypt;
  aes256_encrypt := gcm_encrypt;
  aes256_decrypt := gcm_decrypt;
  x25519 := dh;
  hkdf_extract := std_hkdf_extract;
  hkdf_expand := std_hkdf_expand;
  sha256 := sha sha256_params;
  hmac_sha256 := hmac sha256_params;
  hmac_sha512 := hmac sha512_params |}.
