(* ===== verification/Conform.v ===== *)
(** * Conform: the unit tests of the data components

    The repository tests its components on concrete inputs.  Here each test function is translated line by
    line over the definitions of this development, as a list of assertions, and run: where the tests of
    the source pin its behaviour down, the model behaves the same.  This file holds the tests of
    [src/fake_ip.rs], [src/dns.rs], [src/dns_block.rs], [src/tuic.rs], [src/metrics.rs], [src/udp_relay.rs]
    and [src/device.rs]. *)

From S2P Require Import Prelude Text Shared Addr FakeIp TuicCodec Frag Assoc Metrics Show Dns Config UdpRelay Device.
Import (notations) Strings.String.

(** ** Assertions *)

Definition assert_eq {A} `{EqDecision A} (a b : A) : bool := bool_decide (a = b).
Definition assert_ne {A} `{EqDecision A} (a b : A) : bool := negb (bool_decide (a = b)).
Definition is_some {A} (o : option A) : bool := match o with Some _ => true | None => false end.
Definition is_none {A} (o : option A) : bool := negb (is_some o).
Definition is_err {E A} (r : res E A) : bool := match r with Err _ => true | _ => false end.
(** [expect]: the test goes on with the value, and fails without one. *)
Definition with_ok {E A} (r : res E A) (k : A → list bool) : list bool := match r with Ok a => k a | _ => [false] end.
Definition with_some {A} (o : option A) (k : A → list bool) : list bool := match o with Some a => k a | None => [false] end.
(** [&l[a..b]] with bounds in range. *)
Definition sub {A} (l : list A) (a b : Z) : list A := ztake (b - a) (zdrop a l).
Fixpoint contains (needle l : list byte) : bool :=
  is_some (strip_prefix needle l) || match l with [] => false | _ :: l => contains needle l end.
Definition passes (t : list bool) : bool := forallb id t.

(** ** [src/fake_ip.rs] *)

Definition alloc_is_stable_per_domain : list bool :=
  let p := pool_new in
  let '(a, p) := pool_alloc p (str "facebook.com") 0 in
  let '(b, p) := pool_alloc p (str "facebook.com") 1 in
  let '(c, p) := pool_alloc p (str "google.com") 0 in
  [assert_eq a b; assert_ne a c].

Definition alloc_starts_at_dot_two_skipping_resolver : list bool :=
  let '(a, p) := pool_alloc pool_new (str "a.com") 0 in
  let '(b, p) := pool_alloc p (str "b.com") 0 in
  [assert_eq a (ipv4_new 198 18 0 2); assert_eq b (ipv4_new 198 18 0 3)].

Definition resolve_round_trips_and_misses : list bool :=
  let '(ip, p) := pool_alloc pool_new (str "x.com") 0 in
  [assert_eq (pool_resolve p ip) (Some (str "x.com")); assert_eq (pool_resolve p (ipv4_new 198 18 0 250)) None].

Definition is_fake_range_boundaries : list bool :=
  let p := pool_new in
  [is_fake p (ipv4_new 198 18 0 0); is_fake p (ipv4_new 198 19 255 255); negb (is_fake p (ipv4_new 198 17 255 255));
   negb (is_fake p (ipv4_new 198 20 0 0)); negb (is_fake p (ipv4_new 1 1 1 1))].

Definition sweep_never_reclaims_active_flow : list bool :=
  let '(ip, p) := pool_alloc pool_new (str "live.com") 0 in
  let p := pool_acquire p ip 0 in
  let '(n, p) := pool_sweep p 10000 300 in
  [assert_eq n 0; assert_eq (pool_resolve p ip) (Some (str "live.com"))].

Definition sweep_reclaims_idle_zero_refcount : list bool :=
  let '(ip, p) := pool_alloc pool_new (str "idle.com") 0 in
  let p := pool_acquire p ip 0 in
  let p := pool_release p ip 5 in
  let '(n1, p) := pool_sweep p 100 300 in
  let r1 := pool_resolve p ip in
  let '(n2, p) := pool_sweep p 306 300 in
  [assert_eq n1 0; is_some r1; assert_eq n2 1; assert_eq (pool_resolve p ip) None].

Definition release_saturates_at_zero : list bool :=
  let '(ip, p) := pool_alloc pool_new (str "x.com") 0 in
  let p := pool_release p ip 1 in
  let p := pool_release p ip 2 in
  [assert_eq (pool_sweep p 1000 300).1 1].

Definition usage_tracks_total_and_active : list bool :=
  let p0 := pool_new in
  let '(ip, p1) := pool_alloc p0 (str "a.com") 0 in
  let p2 := pool_acquire p1 ip 0 in
  let '(_, p3) := pool_alloc p2 (str "b.com") 0 in
  let p4 := pool_release p3 ip 5 in
  let '(n, p5) := pool_sweep p4 1000 300 in
  [assert_eq (pool_usage p0) (0, 0); assert_eq (pool_usage p1) (1, 0); assert_eq (pool_usage p2) (1, 1);
   assert_eq (pool_usage p3) (2, 1); assert_eq (pool_usage p4) (2, 0); assert_eq n 2; assert_eq (pool_usage p5) (0, 0)].

Definition reclaimed_ip_is_reusable : list bool :=
  let '(ip1, p) := pool_alloc pool_new (str "a.com") 0 in
  let '(_, p) := pool_alloc p (str "b.com") 0 in
  let '(n, p) := pool_sweep p 1000 300 in
  let r1 := pool_resolve p ip1 in
  let '(ip3, p) := pool_alloc p (str "c.com") 2000 in
  [assert_eq n 2; assert_eq r1 None; is_fake p ip3; assert_eq (pool_resolve p ip3) (Some (str "c.com"))].

Example fake_ip_tests :
  forallb passes [alloc_is_stable_per_domain; alloc_starts_at_dot_two_skipping_resolver; resolve_round_trips_and_misses;
    is_fake_range_boundaries; sweep_never_reclaims_active_flow; sweep_reclaims_idle_zero_refcount;
    release_saturates_at_zero; usage_tracks_total_and_active; reclaimed_ip_is_reusable] = true.
Proof. vm_compute. reflexivity. Qed.

(** ** [src/dns.rs] *)

(** [s.split(c)] for an ASCII character. *)
Fixpoint split_on (c : byte) (acc s : list byte) : list (list byte) :=
  match s with
  | [] => [acc]
  | b :: s => if bool_decide (b = c) then acc :: split_on c [] s else split_on c (acc ++ [b]) s
  end.

Definition build_query (id : Z) (qname : list byte) (qtype : Z) : list byte :=
  be16 id ++ be16 256 ++ be16 1 ++ be16 0 ++ be16 0 ++ be16 0 ++
  concat ((λ label, z2b (len label) :: label) <$> split_on x2e [] qname) ++ [x00] ++ be16 qtype ++ be16 1.

Definition parse_a_query : list bool :=
  with_ok (parse_query (build_query 4660 (str "test.com") QTYPE_A)) (λ q,
    [assert_eq (dq_id q) 4660; assert_eq (dq_qname q) (str "test.com"); assert_eq (dq_qtype q) QTYPE_A; dq_rd q]).

Definition parse_rejects_truncated : list bool :=
  [is_err (parse_query (replicate 4 x00)); is_err (parse_query (ztake 15 (build_query 1 (str "test.com") QTYPE_A)))].

Definition parse_rejects_multi_question : list bool :=
  let q := build_query 1 (str "test.com") QTYPE_A in
  [is_err (parse_query (<[5%nat := x02]> (<[4%nat := x00]> q)))].

Definition build_a_response_fields : list bool :=
  with_ok (parse_query (build_query 4660 (str "test.com") QTYPE_A)) (λ q,
    let r := build_response q (AnswerA (ipv4_new 198 18 0 2) 5) in
    [assert_eq (sub r 0 2) (be16 4660); assert_ne (Z.land (b2z (default x00 (r !! 2%nat))) 128) 0;
     assert_eq (Z.land (b2z (default xff (r !! 3%nat))) 15) 0; assert_eq (sub r 6 8) (be16 1);
     assert_eq (sub r 24 26) [x00; x01]; assert_eq (sub r 26 28) [xc0; x0c];
     assert_eq (sub r 32 36) [x00; x00; x00; x05]; assert_eq (sub r 38 42) [xc6; x12; x00; x02]]).

Definition build_nodata_response_fields : list bool :=
  with_ok (parse_query (build_query 4660 (str "test.com") QTYPE_AAAA)) (λ q,
    let r := build_response q NoData in
    [assert_ne (Z.land (b2z (default x00 (r !! 2%nat))) 128) 0; assert_eq (Z.land (b2z (default xff (r !! 3%nat))) 15) 0;
     assert_eq (sub r 6 8) (be16 0)]).

(** ** [src/dns_block.rs] *)

Definition encrypted_dns_port_only_853 : list bool :=
  is_encrypted_dns_port 853 :: ((λ p, negb (is_encrypted_dns_port p)) <$> [53; 80; 443; 8443; 0; 65535]).

Definition dns_relay_port_covers_53_and_853 : list bool :=
  [is_dns_relay_port 53; is_dns_relay_port 853] ++ ((λ p, negb (is_dns_relay_port p)) <$> [443; 80; 0; 65535; 5353; 8443]).

Definition doh_domain_exact_and_case_insensitive : list bool :=
  is_doh_domain <$> [str "dns.google"; str "dns.google.com"; str "DNS.GOOGLE"; str "cloudflare-dns.com"; str "dns.google."].

Definition doh_domain_subdomain_match_but_no_naked_suffix : list bool :=
  is_doh_domain (str "foo.cloudflare-dns.com") ::
  ((λ d, negb (is_doh_domain d)) <$> [str "mycloudflare-dns.com"; str "notdns.google"; str "example.com"; str "google.com"]).

Definition doh_ip_membership : list bool :=
  (is_doh_ip <$> [ipv4_new 1 1 1 1; ipv4_new 8 8 8 8; ipv4_new 9 9 9 9; ipv4_new 149 112 112 112]) ++
  ((λ ip, negb (is_doh_ip ip)) <$> [ipv4_new 93 184 216 34; ipv4_new 10 0 0 1; ipv4_new 198 18 0 2]).

Example dns_tests :
  forallb passes [parse_a_query; parse_rejects_truncated; parse_rejects_multi_question; build_a_response_fields;
    build_nodata_response_fields; encrypted_dns_port_only_853; dns_relay_port_covers_53_and_853;
    doh_domain_exact_and_case_insensitive; doh_domain_subdomain_match_but_no_naked_suffix; doh_ip_membership] = true.
Proof. vm_compute. reflexivity. Qed.

(** ** [src/tuic.rs]: wire format *)

(** [s.parse().unwrap()] of a socket address. *)
Definition addr_of (s : list byte) : SocketAddr := default (V4 0 0) (parse_socket_addr s).

Definition address_ipv4 : list bool :=
  [assert_eq (encode_address (IpPort (addr_of (str "1.2.3.4:443")))) [x01; x01; x02; x03; x04; x01; xbb]].

Definition address_domain : list bool :=
  [assert_eq (encode_address (DomainPort (str "ab.com") 443)) ([x00; x06] ++ str "ab.com" ++ [x01; xbb])].

Definition address_ipv6 : list bool :=
  let a := encode_address (IpPort (addr_of (str "[::1]:53"))) in
  [assert_eq (a !! 0%nat) (Some x02); assert_eq (len a) (1 + 16 + 2); assert_eq (sub a 17 19) [x00; x35]].

Definition authenticate_layout : list bool :=
  let uuid := replicate 16 xab in
  let token := replicate 32 xcd in
  let c := encode_authenticate uuid token in
  [assert_eq (len c) (2 + 16 + 32); assert_eq (sub c 0 2) [x05; x00]; assert_eq (sub c 2 18) uuid; assert_eq (sub c 18 50) token].

Definition connect_prefixes_header : list bool :=
  let c := encode_connect (IpPort (addr_of (str "1.2.3.4:443"))) in
  [assert_eq (sub c 0 2) [x05; x01]; assert_eq (zdrop 2 c) [x01; x01; x02; x03; x04; x01; xbb]].

Definition domain_over_255_truncated_safely : list bool :=
  let a := encode_address (DomainPort (replicate 300 x61) 80) in
  [assert_eq (a !! 0%nat) (Some x00); assert_eq (a !! 1%nat) (Some xff); assert_eq (len a) (1 + 1 + 255 + 2)].

Definition packet_ipv4_layout : list bool :=
  let p := encode_packet 7 (IpPort (addr_of (str "1.2.3.4:53"))) (str "hi") in
  [assert_eq (sub p 0 2) [x05; x02]; assert_eq (sub p 2 4) [x00; x07]; assert_eq (sub p 4 6) [x00; x00];
   assert_eq (p !! 6%nat) (Some x01); assert_eq (p !! 7%nat) (Some x00); assert_eq (sub p 8 10) [x00; x02];
   assert_eq (sub p 10 15) [x01; x01; x02; x03; x04]; assert_eq (sub p 15 17) [x00; x35]; assert_eq (zdrop 17 p) (str "hi")].

Definition packet_domain_roundtrips_assoc_and_data : list bool :=
  with_ok (decode_packet (encode_packet 9 (DomainPort (str "a.com") 443) (str "q"))) (λ '(assoc, data),
    [assert_eq assoc 9; assert_eq data (str "q")]).

Definition packet_decode_rejects_truncated : list bool :=
  [is_err (decode_packet (replicate 5 x00));
   is_err (decode_packet [x05; x02; x00; x07; x00; x00; x01; x00; x00; x00; x00; xc8])].

Definition datagram_pressure_signal : list bool :=
  [is_datagram_pressured 0 1200; is_datagram_pressured 1199 1200; negb (is_datagram_pressured 1200 1200);
   negb (is_datagram_pressured 100000 1200)].

Definition format_udp_stats_includes_key_metrics : list bool :=
  let s := format_udp_stats (Some 1332) 7 2 180 65535 3 1000 4096 in
  (λ t, contains t s) <$> [str "stream 兜底=7"; str "丢弃=2"; str "RTT=180ms"; str "cwnd=65535"; str "3/1000"; str "4096"].

Definition udp_send_plan_native_is_size_based : list bool :=
  [assert_eq (udp_send_plan Native (Some 1242) 1000) Datagram; assert_eq (udp_send_plan Native (Some 1242) 1242) Datagram;
   assert_eq (udp_send_plan Native (Some 1242) 1243) Stream; assert_eq (udp_send_plan Native None 100) Stream].

Definition udp_send_plan_quic_is_always_stream : list bool :=
  [assert_eq (udp_send_plan Quic (Some 1242) 1000) Stream; assert_eq (udp_send_plan Quic (Some 1242) 1242) Stream;
   assert_eq (udp_send_plan Quic (Some 1242) 1243) Stream; assert_eq (udp_send_plan Quic None 100) Stream].

Definition udp_relay_mode_parses : list bool :=
  [assert_eq (udp_relay_mode_parse (str "native")) (Some Native); assert_eq (udp_relay_mode_parse (str "quic")) (Some Quic);
   assert_eq (udp_relay_mode_parse (str "QUIC")) (Some Quic); assert_eq (udp_relay_mode_parse (str "nope")) None].

Definition heartbeat_layout : list bool := [assert_eq encode_heartbeat [x05; x04]].

Definition packet_meta_single_fragment : list bool :=
  with_ok (decode_packet_meta (encode_packet 7 (IpPort (addr_of (str "1.2.3.4:53"))) (str "hi"))) (λ m,
    [assert_eq (pm_assoc_id m) 7; assert_eq (pm_pkt_id m) 0; assert_eq (pm_frag_total m) 1; assert_eq (pm_frag_id m) 0;
     assert_eq (pm_data m) (str "hi")]).

Definition packet_meta_non_first_fragment_skips_none_addr : list bool :=
  with_ok (decode_packet_meta [x05; x02; x00; x09; x00; x02; x03; x01; x00; x03; xff; x61; x62; x63]) (λ m,
    [assert_eq (pm_assoc_id m) 9; assert_eq (pm_pkt_id m) 2; assert_eq (pm_frag_total m) 3; assert_eq (pm_frag_id m) 1;
     assert_eq (pm_data m) (str "abc")]).

Definition packet_meta_rejects_truncated : list bool :=
  [is_err (decode_packet_meta (replicate 5 x00));
   is_err (decode_packet_meta [x05; x02; x00; x07; x00; x00; x01; x00; x00; xc8; x01; x01; x02; x03; x04])].

Definition decode_packet_delegates_to_meta : list bool :=
  with_ok (decode_packet (encode_packet 3 (IpPort (addr_of (str "1.2.3.4:53"))) (str "xy"))) (λ r,
    [assert_eq r (3, str "xy")]).

Definition heartbeat_only_while_udp_active : list bool :=
  let w := 60 in
  [negb (should_send_heartbeat 0 100 w); should_send_heartbeat 100 100 w; should_send_heartbeat 100 130 w;
   should_send_heartbeat 100 160 w; negb (should_send_heartbeat 100 161 w)].

Example tuic_wire_tests :
  forallb passes [address_ipv4; address_domain; address_ipv6; authenticate_layout; connect_prefixes_header;
    domain_over_255_truncated_safely; packet_ipv4_layout; packet_domain_roundtrips_assoc_and_data;
    packet_decode_rejects_truncated; datagram_pressure_signal; format_udp_stats_includes_key_metrics;
    udp_send_plan_native_is_size_based; udp_send_plan_quic_is_always_stream; udp_relay_mode_parses; heartbeat_layout;
    packet_meta_single_fragment; packet_meta_non_first_fragment_skips_none_addr; packet_meta_rejects_truncated;
    decode_packet_delegates_to_meta; heartbeat_only_while_udp_active] = true.
Proof. vm_compute. reflexivity. Qed.

(** ** [src/tuic.rs]: configuration *)

Definition UUID : list byte := str "550e8400-e29b-41d4-a716-446655440000".

Definition config_valid_with_defaults : list bool :=
  with_ok (tuic_from_sources (Some (str "1.2.3.4:8443")) (Some UUID) (Some (str "secret123")) None None None) (λ c,
    [assert_eq (tc_server c) (addr_of (str "1.2.3.4:8443")); assert_eq (tc_uuid c !! 0%nat) (Some x55);
     assert_eq (tc_alpn c) (str "h3"); assert_eq (tc_congestion_control c) (str "cubic");
     assert_eq (tc_udp_relay_mode c) (str "native"); negb (tc_zero_rtt c)]).

Definition env_overrides_cc_and_udp_mode : list bool :=
  [assert_eq (override_field (str "bbr") (Some (str "cubic"))) (str "cubic");
   assert_eq (override_field (str "native") (Some (str "quic"))) (str "quic");
   assert_eq (override_field (str "bbr") None) (str "bbr");
   assert_eq (override_field (str "native") (Some (str "   "))) (str "native")].

Definition zero_rtt_defaults_off_and_parses_on : list bool :=
  [negb (parse_zero_rtt None); parse_zero_rtt (Some (str "true")); parse_zero_rtt (Some (str "1"));
   parse_zero_rtt (Some (str "on")); parse_zero_rtt (Some (str "YES")); negb (parse_zero_rtt (Some (str "false")));
   negb (parse_zero_rtt (Some (str "0"))); negb (parse_zero_rtt (Some (str "maybe")))].

Definition config_requires_core_fields : list bool :=
  let bad s u p := is_err (tuic_from_sources s u p None None None) in
  [bad None (Some UUID) (Some (str "p")); bad (Some (str "1.2.3.4:8443")) None (Some (str "p"));
   bad (Some (str "1.2.3.4:8443")) (Some UUID) None; bad (Some (str "1.2.3.4:8443")) (Some UUID) (Some [])].

Definition config_rejects_bad_server_and_uuid : list bool :=
  [is_err (tuic_from_sources (Some (str "nope")) (Some UUID) (Some (str "p")) None None None);
   is_err (tuic_from_sources (Some (str "1.2.3.4:8443")) (Some (str "not-a-uuid")) (Some (str "p")) None None None)].

Example tuic_config_tests :
  forallb passes [config_valid_with_defaults; env_overrides_cc_and_udp_mode; zero_rtt_defaults_off_and_parses_on;
    config_requires_core_fields; config_rejects_bad_server_and_uuid] = true.
Proof. vm_compute. reflexivity. Qed.

(** ** [src/tuic.rs]: fragments *)

Definition meta (assoc pkt ftot fid : Z) (data : list byte) : PacketMeta := mk_PacketMeta assoc pkt ftot fid data.
Definition pending_len (r : FragReassembler) : Z := Z.of_nat (size (fr_partials r)).

Definition reassemble_single_fragment_passthrough : list bool :=
  with_ok (frag_accept frag_new (meta 1 0 1 0 (str "hello")) 0) (λ '(o, r),
    [assert_eq o (Some (str "hello")); assert_eq (pending_len r) 0]).

Definition reassemble_two_fragments_in_order : list bool :=
  with_ok (frag_accept frag_new (meta 5 9 2 0 (str "AB")) 0) (λ '(o1, r),
  with_ok (frag_accept r (meta 5 9 2 1 (str "CD")) 0) (λ '(o2, r),
    [assert_eq o1 None; assert_eq o2 (Some (str "ABCD")); assert_eq (pending_len r) 0])).

Definition reassemble_two_fragments_out_of_order : list bool :=
  with_ok (frag_accept frag_new (meta 5 9 2 1 (str "CD")) 0) (λ '(o1, r),
  with_ok (frag_accept r (meta 5 9 2 0 (str "AB")) 0) (λ '(o2, r),
    [assert_eq o1 None; assert_eq o2 (Some (str "ABCD"))])).

Definition reassemble_duplicate_fragment_last_writer_wins : list bool :=
  with_ok (frag_accept frag_new (meta 5 9 2 0 (str "AB")) 0) (λ '(o1, r),
  with_ok (frag_accept r (meta 5 9 2 0 (str "XX")) 0) (λ '(o2, r),
  with_ok (frag_accept r (meta 5 9 2 1 (str "CD")) 0) (λ '(o3, r),
    [assert_eq o1 None; assert_eq o2 None; assert_eq o3 (Some (str "XXCD"))]))).

Definition reassemble_incomplete_swept_by_ttl : list bool :=
  with_ok (frag_accept frag_new (meta 5 9 3 0 (str "AB")) 0) (λ '(o1, r),
    [assert_eq o1 None; assert_eq (pending_len r) 1; assert_eq (pending_len (frag_sweep r 11 10)) 0]).

Definition reassemble_rejects_bad_frag_id : list bool :=
  with_ok (frag_accept frag_new (meta 5 9 2 2 (str "X")) 0) (λ '(o1, r1),
  with_ok (frag_accept r1 (meta 5 9 0 0 (str "X")) 0) (λ '(o2, r2),
    [assert_eq o1 None; assert_eq (pending_len r1) 0; assert_eq o2 None; assert_eq (pending_len r2) 0])).

Definition reassemble_cap_evicts_oldest : list bool :=
  with_ok (frag_accept (frag_with_cap 1) (meta 1 1 2 0 (str "A")) 0) (λ '(_, r),
  with_ok (frag_accept r (meta 2 2 2 0 (str "B")) 5) (λ '(_, r), [assert_eq (pending_len r) 1])).

Example frag_tests :
  forallb passes [reassemble_single_fragment_passthrough; reassemble_two_fragments_in_order;
    reassemble_two_fragments_out_of_order; reassemble_duplicate_fragment_last_writer_wins;
    reassemble_incomplete_swept_by_ttl; reassemble_rejects_bad_frag_id; reassemble_cap_evicts_oldest] = true.
Proof. vm_compute. reflexivity. Qed.

(** ** [src/tuic.rs]: UDP associations *)

Definition tuple (p : Z) : FourTuple := mk_FourTuple (ipv4_new 10 0 0 1) p (ipv4_new 198 18 0 5) 443.
Definition assoc_len (t : AssocTable) : Z := Z.of_nat (size (at_id_to_entry t)).
(** [t.next_id = id] *)
Definition force_next (t : AssocTable) (id : Z) : AssocTable :=
  mk_AssocTable (at_tuple_to_id t) (at_id_to_entry t) (at_id_to_fake_ip t) (at_reclaimed t) id (at_cap t).

Definition assoc_intern_stable_and_unique : list bool :=
  with_some (intern assoc_new (tuple 1000)) (λ '(a, t),
  with_some (intern t (tuple 1000)) (λ '(b, t),
  with_some (intern t (tuple 1001)) (λ '(c, t), [assert_eq a b; assert_ne a c]))).

Definition assoc_intern_skips_live_id_on_wraparound : list bool :=
  with_some (intern (assoc_with_cap 8) (tuple 1)) (λ '(keep, t),
  with_some (intern (force_next t keep) (tuple 2)) (λ '(other, t2),
  with_some (intern t2 (tuple 1)) (λ '(a, t),
  with_some (intern t (tuple 2)) (λ '(b, t),
    [assert_ne other keep; is_some (assoc_resolve t2 keep); is_some (assoc_resolve t2 other); assert_eq a keep;
     assert_eq b other])))).

Definition assoc_contains_tracks_membership : list bool :=
  let t0 := assoc_new in
  with_some (intern t0 (tuple 1000)) (λ '(_, t),
    [negb (assoc_contains t0 (tuple 1000)); assoc_contains t (tuple 1000); negb (assoc_contains t (tuple 1001))]).

Definition assoc_resolve_endpoints_and_sweep : list bool :=
  with_some (intern assoc_new (tuple 1000)) (λ '(id, t),
  with_some (assoc_resolve t id) (λ e,
    let '(_, t) := assoc_sweep t 61 60 in
    [assert_eq (app_endpoint e) (ipv4_new 10 0 0 1, 1000); assert_eq (target_src e) (ipv4_new 198 18 0 5, 443);
     is_none (assoc_resolve t id)])).

Definition assoc_sweep_reclaims_fake_ip : list bool :=
  with_some (intern assoc_new (tuple 1000)) (λ '(id, t),
    let t := set_fake_ip t id (ipv4_new 198 18 0 5) in
    let t := assoc_touch t id 0 in
    let '(ips1, t) := assoc_sweep t 30 60 in
    let '(ips2, t) := assoc_sweep t 61 60 in
    [assert_eq ips1 []; assert_eq ips2 [ipv4_new 198 18 0 5]]).

Definition assoc_evict_reclaims_fake_ip : list bool :=
  with_some (intern (assoc_with_cap 1) (tuple 1)) (λ '(id1, t),
    let t := set_fake_ip t id1 (ipv4_new 198 18 0 9) in
    with_some (intern t (tuple 2)) (λ '(_, t), [assert_eq (take_reclaimed_fake_ips t).1 [ipv4_new 198 18 0 9]])).

Definition assoc_touch_keeps_alive : list bool :=
  with_some (intern assoc_new (tuple 1000)) (λ '(id, t),
    let '(_, t) := assoc_sweep (assoc_touch t id 50) 100 60 in [is_some (assoc_resolve t id)]).

Definition assoc_lru_evicts_at_cap : list bool :=
  with_some (intern (assoc_with_cap 2) (tuple 1)) (λ '(a, t),
  with_some (intern t (tuple 2)) (λ '(_, t),
  with_some (intern t (tuple 3)) (λ '(_, t), [is_none (assoc_resolve t a); assert_eq (assoc_len t) 2]))).

Example assoc_tests :
  forallb passes [assoc_intern_stable_and_unique; assoc_intern_skips_live_id_on_wraparound;
    assoc_contains_tracks_membership; assoc_resolve_endpoints_and_sweep; assoc_sweep_reclaims_fake_ip;
    assoc_evict_reclaims_fake_ip; assoc_touch_keeps_alive; assoc_lru_evicts_at_cap] = true.
Proof. vm_compute. reflexivity. Qed.

(** ** [src/metrics.rs] *)

Definition new_is_zero_and_leg_none : list bool :=
  let s := snapshot metrics_new 0 0 in
  [assert_eq (ms_dns_forged s) 0; assert_eq (ms_dns_dropped s) 0; assert_eq (ms_udp_drops_up s) 0;
   assert_eq (ms_udp_drops_down s) 0; assert_eq (ms_udp_stream_fallbacks s) 0; assert_eq (ms_datagram_pressure_events s) 0;
   assert_eq (ms_relays_spawned s) 0; assert_eq (ms_active_relays s) 0; assert_eq (ms_fake_ip_active s) 0;
   assert_eq (ms_fake_ip_total s) 0; match ms_failover_leg s with LegNone => true | _ => false end].

Definition counters_increment_into_snapshot : list bool :=
  let m := inc_dns_forged (inc_dns_forged metrics_new) in
  let m := inc_dns_dropped m in
  let m := inc_udp_drops_down m in
  let m := inc_datagram_pressure_events m in
  let m := inc_relays_spawned m in
  let s := snapshot m 7 3 in
  [assert_eq (ms_dns_forged s) 2; assert_eq (ms_dns_dropped s) 1; assert_eq (ms_udp_drops_down s) 1;
   assert_eq (ms_datagram_pressure_events s) 1; assert_eq (ms_relays_spawned s) 1; assert_eq (ms_udp_drops_up s) 7;
   assert_eq (ms_udp_stream_fallbacks s) 3].

Definition gauges_publish_into_snapshot : list bool :=
  let m := set_failover_leg (set_fake_ip_gauge (set_active_relays metrics_new 5) 42 9) 1 in
  let s := snapshot m 0 0 in
  [assert_eq (ms_active_relays s) 5; assert_eq (ms_fake_ip_total s) 42; assert_eq (ms_fake_ip_active s) 9;
   match ms_failover_leg s with LegReality => true | _ => false end].

Definition failover_leg_u8_mapping : list bool :=
  let leg v := ms_failover_leg (snapshot (set_failover_leg metrics_new v) 0 0) in
  [match leg 0 with LegTuic => true | _ => false end; match leg 1 with LegReality => true | _ => false end;
   match leg NO_FAILOVER with LegNone => true | _ => false end; match leg 200 with LegNone => true | _ => false end].

(** Every interleaving of the threads is this sequence of increments. *)
Definition concurrent_fetch_add_loses_nothing : list bool :=
  let n_threads := 8%N in
  let per := 10000%N in
  let m := N.iter n_threads (N.iter per inc_dns_forged) metrics_new in
  [assert_eq (ms_dns_forged (snapshot m 0 0)) (Z.of_N (n_threads * per))].

(** [seq.iter().filter(|p| note_pressure_edge(p, &mut prev)).count()] *)
Fixpoint count_edges (prev : bool) (seq : list bool) : Z :=
  match seq with
  | [] => 0
  | p :: seq => let '(edge, prev) := note_pressure_edge p prev in (if edge then 1 else 0) + count_edges prev seq
  end.

Definition note_pressure_edge_counts_rising_only : list bool :=
  [assert_eq (count_edges false [false; true; true; false; true]) 2; assert_eq (count_edges false [false; false; false]) 0].

Definition format_contains_all_fields : list bool :=
  let m := set_failover_leg (set_active_relays (inc_dns_forged metrics_new) 3) 1 in
  let line := format_metrics_snapshot (snapshot m 11 2) in
  (λ needle, contains needle line) <$>
    [str "📊"; str "DNS forge="; str "drop="; str "活跃="; str "累计="; str "fake-IP"; str "UDP↓丢="; str "背压=";
     str "UDP↑丢="; str "stream兜底="; str "leg=REALITY"].

Example metrics_tests :
  forallb passes [new_is_zero_and_leg_none; counters_increment_into_snapshot; gauges_publish_into_snapshot;
    failover_leg_u8_mapping; concurrent_fetch_add_loses_nothing; note_pressure_edge_counts_rising_only;
    format_contains_all_fields] = true.
Proof. vm_compute. reflexivity. Qed.

(** ** [src/udp_relay.rs], over the concrete packet format *)

Definition flow_entry_maps_downlink_endpoints : list bool :=
  let e := mk_FlowEntry (mk_FourTuple (ipv4_new 10 0 0 1) 51000 (ipv4_new 198 18 0 5) 443) 0 in
  [assert_eq (app_endpoint e) (ipv4_new 10 0 0 1, 51000); assert_eq (target_src e) (ipv4_new 198 18 0 5, 443)].

Definition build_then_parse_roundtrips_with_checksums : list bool :=
  let src := (ipv4_new 198 18 0 5, 443) in
  let dst := (ipv4_new 10 0 0 1, 51000) in
  with_ok (build_udp_ip_packet (E:=unit) src dst (str "payload")) (λ pkt,
  with_some (parse_inbound_udp pkt) (λ got,
    [assert_eq (ui_src_ip got) src.1; assert_eq (ui_src_port got) src.2; assert_eq (ui_dst_ip got) dst.1;
     assert_eq (ui_dst_port got) dst.2; assert_eq (ui_payload got) (str "payload")])).

Definition build_empty_payload_roundtrips : list bool :=
  let src := (ipv4_new 1 1 1 1, 53) in
  let dst := (ipv4_new 10 0 0 1, 40000) in
  with_ok (build_udp_ip_packet (E:=unit) src dst []) (λ pkt,
  with_some (parse_inbound_udp pkt) (λ got, [assert_eq (ui_payload got) []; assert_eq (ui_dst_port got) 40000])).

(** The TCP packet: 10.0.0.1:50000 to 1.1.1.1:443, sequence number 0, window 1024. *)
Definition tcp_packet : list byte :=
  [x45; x00; x00; x28; x00; x00; x00; x00; x40; x06; x00; x00; x0a; x00; x00; x01; x01; x01; x01; x01;
   xc3; x50; x01; xbb; x00; x00; x00; x00; x00; x00; x00; x00; x50; x00; x04; x00; x00; x00; x00; x00].
Definition parse_rejects_garbage_and_tcp : list bool :=
  [is_none (parse_inbound_udp (replicate 4 x00)); is_none (parse_inbound_udp tcp_packet)].

(** ** [src/device.rs], on both platforms *)

Definition inject_enqueues_with_platform_header (macos : bool) : list bool :=
  let pkt := [x45; x00; x00; x1c] in
  with_some (head (push_injected macos [] pkt)) (λ framed,
    if macos then [assert_eq (sub framed 0 4) [x00; x00; x00; x02]; assert_eq (zdrop 4 framed) pkt]
    else [assert_eq framed pkt]).

Definition rx_buffer_capacity_tracks_configured_mtu (macos : bool) : list bool :=
  [assert_eq (rx_buffer_capacity_for_mtu macos 1200) (if macos then 1204 else 1200)].

Definition device_capabilities_tracks_configured_mtu : list bool :=
  let caps := device_capabilities_for_mtu 1200 in
  [assert_eq (dc_medium caps) MediumIp; assert_eq (dc_max_transmission_unit caps) 1200;
   assert_eq (dc_checksum_tcp caps) ChecksumTx; assert_eq (dc_checksum_ipv4 caps) ChecksumTx;
   assert_eq (dc_checksum_icmpv4 caps) ChecksumTx].

Example packet_tests :
  forallb passes [flow_entry_maps_downlink_endpoints; build_then_parse_roundtrips_with_checksums;
    build_empty_payload_roundtrips; parse_rejects_garbage_and_tcp; inject_enqueues_with_platform_header true;
    inject_enqueues_with_platform_header false; rx_buffer_capacity_tracks_configured_mtu true;
    rx_buffer_capacity_tracks_configured_mtu false; device_capabilities_tracks_configured_mtu] = true.
Proof. vm_compute. reflexivity. Qed.
