(* ===== verification/ConformTls.v ===== *)
(** * ConformTls: the unit tests of the REALITY protocol modules

    The tests of [src/reality/testutil.rs], [key_schedule.rs], [record.rs], [auth.rs], [cert.rs], [client_hello.rs],
    [server_hello.rs] and [vless.rs], translated over the definitions of this development as lists of
    assertions and run on the standards' cryptography of [StdCrypto].  Among them is the published trace of RFC 8448
    (a complete TLS 1.3 handshake): the key exchange, the key schedule, the Finished
    computation, the record layer and the hello parsers of the model reproduce them byte for byte.

    Where a test draws a random key, the key is an argument here and is fixed where the test is run; the
    [tls_parser] crate two tests cross-check with is an argument too. *)

From S2P Require Import Prelude Text Shared Addr Crypto Record Auth ClientHello KeySchedule ServerHello Cert Vless.
From S2P Require Import StdCrypto Conform.
Import (notations) Strings.String.

(** ** [src/reality/testutil.rs] *)

Fixpoint hex_pairs (ps : list (list byte)) : res unit (list byte) :=
  match ps with
  | [] => Ok []
  | p :: ps => let? v := ok_or tt (u8_from_hex p) in let? vs := hex_pairs ps in Ok (z2b v :: vs)
  end.
(** [u8::is_ascii_whitespace]. *)
Definition is_ascii_whitespace (b : byte) : bool := bool_decide (b ∈ [x20; x09; x0a; x0c; x0d]).
Definition try_hex (s : list byte) : res unit (list byte) :=
  let clean := List.filter (λ b, negb (is_ascii_whitespace b)) s in
  if bool_decide (len clean mod 2 ≠ 0) then Panic else hex_pairs (pairs clean).
(** A vector that does not decode stops the test in the source; here it would be empty, and
    [vectors_decode] says that none is. *)
Definition hex (s : list byte) : list byte := match try_hex s with Ok l => l | _ => [] end.
Definition arr32 (s : list byte) : list byte := match to_array (E:=unit) 32 (hex s) with Ok l => l | _ => [] end.

(** The value is there and is the expected one. *)
Definition ok_eq {E A} `{EqDecision A} (r : res E A) (a : A) : bool :=
  match r with Ok b => bool_decide (b = a) | _ => false end.

Definition RFC8448_CH : list byte := hex (str "010000c00303cb34ecb1e78163ba1c38c6dacb196a6dffa21a8d9912ec18a2ef6283024dece7000006130113031302010000910000000b0009000006736572766572ff01000100000a00140012001d0017001800190100010101020103010400230000003300260024001d002099381de560e4bd43d23d8e435a7dbafeb3c06e51c13cae4d5413691e529aaf2c002b0003020304000d0020001e040305030603020308040805080604010501060102010402050206020202002d00020101001c00024001").
Definition RFC8448_SH : list byte := hex (str "020000560303a6af06a4121860dc5e6e60249cd34c95930c8ac5cb1434dac155772ed3e2692800130100002e00330024001d0020c9828876112095fe66762bdbf7c672e156d6cc253b833df1dd69b1b04e751f0f002b00020304").
Definition RFC8448_ECDHE : list byte := hex (str "8bd4054fb55b9d63fdfbacf9f04b9f0d35e6d63f537563efd46272900f89492d").
Definition RFC8448_EE : list byte := hex (str "080000240022000a00140012001d00170018001901000101010201030104001c0002400100000000").
Definition RFC8448_CERT : list byte := hex (str "0b0001b9000001b50001b0308201ac30820115a003020102020102300d06092a864886f70d01010b0500300e310c300a06035504031303727361301e170d3136303733303031323335395a170d3236303733303031323335395a300e310c300a0603550403130372736130819f300d06092a864886f70d010101050003818d0030818902818100b4bb498f8279303d980836399b36c6988c0c68de55e1bdb826d3901a2461eafd2de49a91d015abbc9a95137ace6c1af19eaa6af98c7ced43120998e187a80ee0ccb0524b1b018c3e0b63264d449a6d38e22a5fda430846748030530ef0461c8ca9d9efbfae8ea6d1d03e2bd193eff0ab9a8002c47428a6d35a8d88d79f7f1e3f0203010001a31a301830090603551d1304023000300b0603551d0f0404030205a0300d06092a864886f70d01010b05000381810085aad2a0e5b9276b908c65f73a7267170618a54c5f8a7b337d2df7a594365417f2eae8f8a58c8f8172f9319cf36b7fd6c55b80f21a03015156726096fd335e5e67f2dbf102702e608ccae6bec1fc63a42a99be5c3eb7107c3c54e9b9eb2bd5203b1c3b84e0a8b2f759409ba3eac9d91d402dcc0cc8f8961229ac9187b42b4de10000").
Definition RFC8448_CV : list byte := hex (str "0f000084080400805a747c5d88fa9bd2e55ab085a61015b7211f824cd484145ab3ff52f1fda8477b0b7abc90db78e2d33a5c141a078653fa6bef780c5ea248eeaaa785c4f394cab6d30bbe8d4859ee511f602957b15411ac027671459e46445c9ea58c181e818e95b8c3fb0bf3278409d3be152a3da5043e063dda65cdf5aea20d53dfacd42f74f3").
Definition SFLIGHT_RECORD : list byte := hex (str "17030302a2d1ff334a56f5bff6594a07cc87b580233f500f45e489e7f33af35edf7869fcf40aa40aa2b8ea73f848a7ca07612ef9f945cb960b4068905123ea78b111b429ba9191cd05d2a389280f526134aadc7fc78c4b729df828b5ecf7b13bd9aefb0e57f271585b8ea9bb355c7c79020716cfb9b1183ef3ab20e37d57a6b9d7477609aee6e122a4cf51427325250c7d0e509289444c9b3a648f1d71035d2ed65b0e3cdd0cbae8bf2d0b227812cbb360987255cc744110c453baa4fcd610928d809810e4b7ed1a8fd991f06aa6248204797e36a6a73b70a2559c09ead686945ba246ab66e5edd8044b4c6de3fcf2a89441ac66272fd8fb330ef8190579b3684596c960bd596eea520a56a8d650f563aad27409960dca63d3e688611ea5e22f4415cf9538d51a200c27034272968a264ed6540c84838d89f72c24461aad6d26f59ecaba9acbbb317b66d902f4f292a36ac1b639c637ce343117b659622245317b49eeda0c6258f100d7d961ffb138647e92ea330faeea6dfa31c7a84dc3bd7e1b7a6c7178af36879018e3f252107f243d243dc7339d5684c8b0378bf30244da8c87c843f5e56eb4c5e8280a2b48052cf93b16499a66db7cca71e4599426f7d461e66f99882bd89fc50800becca62d6c74116dbd2972fda1fa80f85df881edbe5a37668936b335583b599186dc5c6918a396fa48a181d6b6fa4f9d62d513afbb992f2b992f67f8afe67f76913fa388cb5630c8ca01e0c65d11c66a1e2ac4c85977b7c7a6999bbf10dc35ae69f5515614636c0b9b68c19ed2e31c0b3b66763038ebba42f3b38edc0399f3a9f23faa63978c317fc9fa66a73f60f0504de93b5b845e275592c12335ee340bbc4fddd502784016e4b3be7ef04dda49f4b440a30cb5d2af939828fd4ae3794e44f94df5a631ede42c1719bfdabf0253fe5175be898e750edc53370d2b").
Definition SFLIGHT_PAYLOAD : list byte := hex (str "080000240022000a00140012001d00170018001901000101010201030104001c00024001000000000b0001b9000001b50001b0308201ac30820115a003020102020102300d06092a864886f70d01010b0500300e310c300a06035504031303727361301e170d3136303733303031323335395a170d3236303733303031323335395a300e310c300a0603550403130372736130819f300d06092a864886f70d010101050003818d0030818902818100b4bb498f8279303d980836399b36c6988c0c68de55e1bdb826d3901a2461eafd2de49a91d015abbc9a95137ace6c1af19eaa6af98c7ced43120998e187a80ee0ccb0524b1b018c3e0b63264d449a6d38e22a5fda430846748030530ef0461c8ca9d9efbfae8ea6d1d03e2bd193eff0ab9a8002c47428a6d35a8d88d79f7f1e3f0203010001a31a301830090603551d1304023000300b0603551d0f0404030205a0300d06092a864886f70d01010b05000381810085aad2a0e5b9276b908c65f73a7267170618a54c5f8a7b337d2df7a594365417f2eae8f8a58c8f8172f9319cf36b7fd6c55b80f21a03015156726096fd335e5e67f2dbf102702e608ccae6bec1fc63a42a99be5c3eb7107c3c54e9b9eb2bd5203b1c3b84e0a8b2f759409ba3eac9d91d402dcc0cc8f8961229ac9187b42b4de100000f000084080400805a747c5d88fa9bd2e55ab085a61015b7211f824cd484145ab3ff52f1fda8477b0b7abc90db78e2d33a5c141a078653fa6bef780c5ea248eeaaa785c4f394cab6d30bbe8d4859ee511f602957b15411ac027671459e46445c9ea58c181e818e95b8c3fb0bf3278409d3be152a3da5043e063dda65cdf5aea20d53dfacd42f74f3140000209b9b141d906337fbd2cbdce71df4deda4ab42c309572cb7fffee5454b78f0718").
Definition ED25519_CERT_DER : list byte := hex (str "308201423081f5a0030201020214650b853b02ac2a3e0f05b44644695bcaeec01154300506032b657030173115301306035504030c0c7265616c6974792d74656d70301e170d3236303632333134333935305a170d3336303632303134333935305a30173115301306035504030c0c7265616c6974792d74656d70302a300506032b6570032100df18652c451afa44c276c60475d9f4f6f4ae3bf9d389dd6f3215383d6d5dda0ba3533051301d0603551d0e041604146657983d0890461f3d4c21d1d6af8b1626144811301f0603551d230418301680146657983d0890461f3d4c21d1d6af8b1626144811300f0603551d130101ff040530030101ff300506032b6570034100ab056a660a043ddb36de3bd9031d346142dceb6ae874fc45219c33c6a5b57c7b9c196f1aad5fb124ec84697377bb15f03b44d2a2c63dc3a9589002dfc23a570f").
Definition ED25519_PUBKEY : list byte := hex (str "df18652c451afa44c276c60475d9f4f6f4ae3bf9d389dd6f3215383d6d5dda0b").
Definition ED25519_SIG : list byte := hex (str "ab056a660a043ddb36de3bd9031d346142dceb6ae874fc45219c33c6a5b57c7b9c196f1aad5fb124ec84697377bb15f03b44d2a2c63dc3a9589002dfc23a570f").
Definition ED25519_CERT_GT_DER : list byte := hex (str "308201403081f3a003020102021478b8af12a2ccbe7d59c3a66cdd513c159d617056300506032b657030153113301106035504030c0a7265616c6974792d67743020170d3236303632343130343931395a180f32303539303530323130343931395a30153113301106035504030c0a7265616c6974792d6774302a300506032b65700321001fdaec697021e21bc98c0a49223c6439c1b10738017fe027e8bb6da054cbf2d1a3533051301d0603551d0e041604143c59fba583f1b973dc17d84f6dfbf4a66340c384301f0603551d230418301680143c59fba583f1b973dc17d84f6dfbf4a66340c384300f0603551d130101ff040530030101ff300506032b65700341006834e4f0b5158656a2c7d15bcff59baf4a5bceae9417c519d43f6386201cf46e95c25ab465650634ec055db1d5e045e6f67039e3b1986196bd34e3f936fa8200").
Definition ED25519_GT_PUBKEY : list byte := hex (str "1fdaec697021e21bc98c0a49223c6439c1b10738017fe027e8bb6da054cbf2d1").
Definition RFC8448_CERT_MSG : list byte := hex (str "0b0001b9000001b50001b0308201ac30820115a003020102020102300d06092a864886f70d01010b0500300e310c300a06035504031303727361301e170d3136303733303031323335395a170d3236303733303031323335395a300e310c300a0603550403130372736130819f300d06092a864886f70d010101050003818d0030818902818100b4bb498f8279303d980836399b36c6988c0c68de55e1bdb826d3901a2461eafd2de49a91d015abbc9a95137ace6c1af19eaa6af98c7ced43120998e187a80ee0ccb0524b1b018c3e0b63264d449a6d38e22a5fda430846748030530ef0461c8ca9d9efbfae8ea6d1d03e2bd193eff0ab9a8002c47428a6d35a8d88d79f7f1e3f0203010001a31a301830090603551d1304023000300b0603551d0f0404030205a0300d06092a864886f70d01010b05000381810085aad2a0e5b9276b908c65f73a7267170618a54c5f8a7b337d2df7a594365417f2eae8f8a58c8f8172f9319cf36b7fd6c55b80f21a03015156726096fd335e5e67f2dbf102702e608ccae6bec1fc63a42a99be5c3eb7107c3c54e9b9eb2bd5203b1c3b84e0a8b2f759409ba3eac9d91d402dcc0cc8f8961229ac9187b42b4de10000").

Example vectors_decode :
  (λ v, len v) <$> [RFC8448_CH; RFC8448_SH; RFC8448_ECDHE; RFC8448_EE; RFC8448_CERT; RFC8448_CV; SFLIGHT_RECORD;
    SFLIGHT_PAYLOAD; ED25519_CERT_DER; ED25519_PUBKEY; ED25519_SIG; ED25519_CERT_GT_DER; ED25519_GT_PUBKEY;
    RFC8448_CERT_MSG] = [196; 90; 32; 40; 445; 136; 679; 657; 326; 32; 64; 324; 32; 445].
Proof. vm_compute. reflexivity. Qed.

Section tests.
  Context `{C : Crypto}.

(** ** [src/reality/key_schedule.rs] *)

Definition hkdf_label_encoding : list bool :=
  [assert_eq (hkdf_label 16 (str "key") []) (hex (str "00 10 09 74 6c 73 31 33 20 6b 65 79 00"));
   assert_eq (hkdf_label 12 (str "iv") []) (hex (str "00 0c 08 74 6c 73 31 33 20 69 76 00"));
   assert_eq (hkdf_label 32 (str "finished") [])
     (hex (str "00 20 0e 74 6c 73 31 33 20 66 69 6e 69 73 68 65 64 00"))].

Definition sha256_empty : list bool :=
  [assert_eq (transcript_hash []) (arr32 (str "e3b0c44298fc1c149afbf4c8996fb92427ae41e4649b934ca495991b7852b855"))].

Definition rfc8448_early_and_derived : list bool :=
  let early := extract (replicate 32 x00) (replicate 32 x00) in
  let empty_hash := transcript_hash [] in
  let derived := derive_secret early (str "derived") empty_hash in
  [assert_eq early (arr32 (str "33ad0a1c607ec03b09e6cd9893680ce210adf300aa1f2660e1b22e10f170f92a"));
   ok_eq derived (arr32 (str "6f2615a108c702c5678f54fc9dbab69716c076189c48250cebeac3576c3611ba"))].

Definition rfc8448_transcript_ch_sh : list bool :=
  [assert_eq (transcript_hash [RFC8448_CH; RFC8448_SH])
     (arr32 (str "860c06edc07858ee8e78f0e7428c58edd6b43f2ca3e6e95f02ed063cf0e1cad8"))].

Definition rfc8448_handshake_key_schedule : list bool :=
  with_ok (derive_handshake_keys RFC8448_ECDHE RFC8448_CH RFC8448_SH) (λ ks,
  [assert_eq (hk_c_hs_secret ks) (arr32 (str "b3eddb126e067f35a780b3abf45e2d8f3b1a950738f52e9600746a0e27a55a21"));
   assert_eq (hk_s_hs_secret ks) (arr32 (str "b67b7d690cc16c4e75e54213cb2d37b4e9c912bcded9105d42befd59d391ad38"));
   assert_eq (hk_server_key ks) (hex (str "3fce516009c21727d0f2e4e86ee403bc"));
   assert_eq (hk_server_iv ks) (hex (str "5d313eb2671276ee13000b30"));
   assert_eq (hk_client_key ks) (hex (str "dbfaa693d1762c5b666af5d950258d01"));
   assert_eq (hk_client_iv ks) (hex (str "5bd3c71b836e0b76bb73265f"))]).

Definition zero_ecdhe_rejected : list bool :=
  [is_err (derive_handshake_keys (replicate 32 x00) RFC8448_CH RFC8448_SH)].

Definition rfc8448_finished_key : list bool :=
  let s_hs := arr32 (str "b67b7d690cc16c4e75e54213cb2d37b4e9c912bcded9105d42befd59d391ad38") in
  let c_hs := arr32 (str "b3eddb126e067f35a780b3abf45e2d8f3b1a950738f52e9600746a0e27a55a21") in
  [ok_eq (expand_label s_hs (str "finished") [] 32)
     (hex (str "008d3b66f816ea559f96b537e885c31fc068bf492c652f01f288a1d8cdc19fc8"));
   ok_eq (expand_label c_hs (str "finished") [] 32)
     (hex (str "b80ad01015fb2f0bd65ff7d4da5d6bf83f84821d1f87fdc7d3c75b5a7b42d9c4"))].

Definition rfc8448_server_finished_verify_data : list bool :=
  let s_hs := arr32 (str "b67b7d690cc16c4e75e54213cb2d37b4e9c912bcded9105d42befd59d391ad38") in
  let th := transcript_hash [RFC8448_CH; RFC8448_SH; RFC8448_EE; RFC8448_CERT; RFC8448_CV] in
  [assert_eq th (arr32 (str "edb7725fa7a3473b031ec8ef65a2485493900138a2b91291407d7951a06110ed"));
   ok_eq (compute_finished_verify_data s_hs th)
     (arr32 (str "9b9b141d906337fbd2cbdce71df4deda4ab42c309572cb7fffee5454b78f0718"))].

Definition rfc8448_handshake_secret_exposed : list bool :=
  with_ok (derive_handshake_keys RFC8448_ECDHE RFC8448_CH RFC8448_SH) (λ ks,
  [assert_eq (hk_handshake_secret ks)
     (arr32 (str "1dc826e93606aa6fdc0aadc12f741b01046aa6b99f691ed221a9f0ca043fbeac"))]).

Definition keyupdate_next_traffic_secret_kat : list bool :=
  let s0 := arr32 (str "a11af9f05531f856ad47116b45a950328204b4f44bfb6b3a4b4f1f3fcb631643") in
  with_ok (next_application_traffic_secret s0) (λ s1,
  with_ok (expand_label s1 (str "key") [] 16) (λ key,
  with_ok (expand_label s1 (str "iv") [] 12) (λ iv,
  with_ok (seal (record_keys_new key iv) x17 (str "post-keyupdate")) (λ '(rec, _),
  with_ok (open (record_keys_new key iv) (sub rec 0 5) (zdrop 5 rec)) (λ '(ct, body, _),
  [assert_eq (hkdf_label 32 (str "traffic upd") [])
     (hex (str "00 20 11 74 6c 73 31 33 20 74 72 61 66 66 69 63 20 75 70 64 00"));
   ok_eq (expand_label s0 (str "traffic upd") [] 32) s1;
   assert_eq s1 (arr32 (str "51921b8aa3001976eb401d0a4319a8516416a6c56001a357e5d162031e84f916"));
   negb (ok_eq (next_application_traffic_secret s1) s1);
   assert_eq (ct, body) (x17, str "post-keyupdate")]))))).

Definition rfc8448_application_keys : list bool :=
  with_ok (derive_handshake_keys RFC8448_ECDHE RFC8448_CH RFC8448_SH) (λ ks,
  with_ok (derive_secret (hk_handshake_secret ks) (str "derived") (transcript_hash [])) (λ derived2,
  let sfin := hex (str "14000020 9b9b141d906337fbd2cbdce71df4deda4ab42c309572cb7fffee5454b78f0718") in
  let th := transcript_hash [RFC8448_CH; RFC8448_SH; RFC8448_EE; RFC8448_CERT; RFC8448_CV; sfin] in
  with_ok (derive_application_keys (hk_handshake_secret ks) th) (λ ap,
  [assert_eq derived2 (arr32 (str "43de77e0c77713859a944db9db2590b53190a65b3ee2e4f12dd7a0bb7ce254b4"));
   assert_eq (extract derived2 (replicate 32 x00))
     (arr32 (str "18df06843d13a08bf2a449844c5f8a478001bc4d4c627984d5a41da8d0402919"));
   assert_eq th (arr32 (str "9608102a0f1ccc6db6250b7b7e417b1a000eaada3daae4777a7686c9ff83df13"));
   assert_eq (ak_c_ap_secret ap) (arr32 (str "9e40646ce79a7f9dc05af8889bce6552875afa0b06df0087f792ebb7c17504a5"));
   assert_eq (ak_s_ap_secret ap) (arr32 (str "a11af9f05531f856ad47116b45a950328204b4f44bfb6b3a4b4f1f3fcb631643"))]))).

(** ** [src/reality/record.rs] *)

Definition nonce_construction : list bool :=
  let iv := [x5d; x31; x3e; xb2; x67; x12; x76; xee; x13; x00; x0b; x30] in
  let zero := replicate 12 x00 in
  [assert_eq (per_record_nonce iv 0) iv;
   assert_eq (per_record_nonce zero 1) (<[11%nat:=x01]> zero);
   assert_eq (per_record_nonce zero 0x0102) (<[10%nat:=x01]> (<[11%nat:=x02]> zero))].

Definition header_encodes_ciphertext_len : list bool :=
  [assert_eq (record_header 0x0123) [x17; x03; x03; x01; x23]].

(** The body of the test's loop, with the two key states. *)
Fixpoint seal_open_loop (send recv : RecordKeys) (l : list (byte * list byte)) : list bool :=
  match l with
  | [] => []
  | (ct, msg) :: l =>
      with_ok (seal send ct msg) (λ '(rec, send),
      with_ok (open recv (sub rec 0 5) (zdrop 5 rec)) (λ '(got_ct, content, recv),
      [assert_eq (sub rec 0 3) [x17; x03; x03]; assert_eq got_ct ct; assert_eq content msg]
      ++ seal_open_loop send recv l))
  end.
Definition seal_open_roundtrip : list bool :=
  let keys := record_keys_new (replicate 16 x11) (replicate 12 x22) in
  seal_open_loop keys keys [(x16, str "hello handshake"); (x17, str "app data")].

Definition tampered_record_rejected : list bool :=
  let keys := record_keys_new (replicate 16 x01) (replicate 12 x02) in
  with_ok (seal keys x17 (str "secret")) (λ '(rec, _),
  let rec := alter (λ b, xorb_byte b xff) (length rec - 1)%nat rec in
  [is_err (open keys (sub rec 0 5) (zdrop 5 rec))]).

Definition all_zero_plaintext_rejected : list bool :=
  let keys := record_keys_new (replicate 16 x01) (replicate 12 x02) in
  with_ok (seal keys x00 []) (λ '(rec, _), [is_err (open keys (sub rec 0 5) (zdrop 5 rec))]).

Definition rfc8448_server_flight_record_open : list bool :=
  let key := hex (str "3fce516009c21727d0f2e4e86ee403bc") in
  let iv := hex (str "5d313eb2671276ee13000b30") in
  let record := SFLIGHT_RECORD in
  with_ok (open (record_keys_new key iv) (sub record 0 5) (zdrop 5 record)) (λ '(content_type, plaintext, _),
  [assert_eq content_type x16; assert_eq plaintext SFLIGHT_PAYLOAD; assert_eq (sub plaintext 0 4) [x08; x00; x00; x24]]).

(** ** [src/reality/auth.rs] *)

Definition ephemeral_keypair_self_consistent (secret secret2 : list byte) : list bool :=
  let '(sk, pk) := generate_ephemeral_keypair secret in
  let base := x09 :: replicate 31 x00 in
  let '(sk2, _) := generate_ephemeral_keypair secret2 in
  [assert_eq (x25519_shared_secret sk base) pk; assert_ne sk sk2].

Definition auth_key_deterministic_and_salt_scoped : list bool :=
  let ss := replicate 32 x07 in
  let r1 := <[0%nat:=x01]> (replicate 32 x00) in
  let r2 := <[0%nat:=x02]> (replicate 32 x00) in
  let r3 := <[25%nat:=x09]> r1 in
  with_ok (derive_auth_key ss r1) (λ k1,
  [ok_eq (derive_auth_key ss r1) k1; negb (ok_eq (derive_auth_key ss r2) k1); ok_eq (derive_auth_key ss r3) k1]).

Definition session_id_plaintext_layout : list bool :=
  with_ok (parse_short_id (str "ab12")) (λ short_id,
  let b := session_id_to_bytes (mk_SessionIdPlaintext REALITY_VERSION 0x01020304 short_id) in
  [assert_eq (sub b 0 4) REALITY_VERSION; assert_eq (sub b 4 8) [x01; x02; x03; x04];
   assert_eq (get b 8) (Some xab); assert_eq (get b 9) (Some x12); assert_eq (sub b 10 16) (replicate 6 x00)]).

Definition short_id_parse : list bool :=
  [ok_eq (parse_short_id []) (replicate 8 x00);
   ok_eq (parse_short_id (str "0123456789abcdef")) [x01; x23; x45; x67; x89; xab; xcd; xef];
   is_err (parse_short_id (str "0123456789abcdef00")); is_err (parse_short_id (str "xy"));
   is_err (parse_short_id (str "abc"))].

Definition seal_open_roundtrip_and_aad_binding : list bool :=
  let key := replicate 32 x09 in
  let nonce := replicate 12 x03 in
  let aad := str "the-client-hello-bytes" in
  let pt := replicate 16 x07 in
  with_ok (seal_session_id key pt nonce aad) (λ sealed,
  [assert_eq (len sealed) 32; assert_eq (open_session_id key sealed nonce aad) (Some pt);
   assert_eq (open_session_id key sealed nonce (str "tampered-client-hello")) None;
   assert_eq (open_session_id (replicate 32 x01) sealed nonce aad) None]).

Definition verify_server_cert_hmac : list bool :=
  let key := replicate 32 x05 in
  let pubkey := replicate 32 xee in
  let sig := hmac_sha512 key pubkey in
  [verify_server_cert key pubkey sig; negb (verify_server_cert key pubkey (replicate 64 x00));
   negb (verify_server_cert key pubkey []); negb (verify_server_cert (replicate 32 x01) pubkey sig)].

(** ** [src/reality/cert.rs] *)

Definition wrap_cert_message (der : list byte) : list byte :=
  let lst := be24 (len der) ++ der ++ be16 0 in
  let body := x00 :: be24 (len lst) ++ lst in
  x0b :: be24 (len body) ++ body.

Definition extract_pubkey_and_sig_from_ed25519_cert : list bool :=
  let der := ED25519_CERT_DER in
  with_ok (extract_ed25519_pubkey_and_sig (wrap_cert_message der)) (λ '(pubkey, sig),
  [assert_eq pubkey ED25519_PUBKEY; assert_eq sig ED25519_SIG; assert_eq sig (zdrop (len der - 64) der)]).

Definition extract_handles_generalizedtime_validity : list bool :=
  let der := ED25519_CERT_GT_DER in
  with_ok (extract_ed25519_pubkey_and_sig (wrap_cert_message der)) (λ '(pubkey, sig),
  [assert_eq pubkey ED25519_GT_PUBKEY; assert_eq sig (zdrop (len der - 64) der); assert_eq (len sig) 64]).

Definition rejects_non_ed25519_cert : list bool := [is_err (extract_ed25519_pubkey_and_sig RFC8448_CERT_MSG)].

Definition reject_malformed : list bool :=
  let msg := alter (λ b, xorb_byte b xff) 1%nat (wrap_cert_message ED25519_CERT_DER) in
  [is_err (extract_ed25519_pubkey_and_sig [x02; x00; x00; x00]); is_err (extract_ed25519_pubkey_and_sig [x0b]);
   is_err (extract_ed25519_pubkey_and_sig msg)].

(** The last 64 bytes of the certificate replaced by the MAC of its public key. *)
Definition realityize_cert (der auth_key : list byte) : list byte :=
  ztake (len der - 64) der ++ hmac_sha512 auth_key ED25519_PUBKEY.

Definition cert_extract_then_verify_server_cert_e2e : list bool :=
  let auth_key := replicate 32 x5a in
  let msg := wrap_cert_message (realityize_cert ED25519_CERT_DER auth_key) in
  with_ok (extract_ed25519_pubkey_and_sig msg) (λ '(pubkey, sig),
  let bad_pk := alter (λ b, xorb_byte b x01) 0%nat pubkey in
  let bad_sig := alter (λ b, xorb_byte b x01) 0%nat sig in
  [assert_eq pubkey ED25519_PUBKEY; verify_server_cert auth_key pubkey sig;
   negb (verify_server_cert (replicate 32 x00) pubkey sig); negb (verify_server_cert auth_key bad_pk sig);
   negb (verify_server_cert auth_key pubkey bad_sig)]).

(** ** [src/reality/client_hello.rs] *)

Fixpoint find_ext_at (fuel : nat) (exts : list byte) (typ i : Z) : option (list byte) :=
  match fuel with
  | O => None
  | S fuel =>
      if bool_decide (i + 4 ≤ len exts) then
        a ← get exts i; b ← get exts (i + 1); c ← get exts (i + 2); d ← get exts (i + 3);
        body ← get_range exts (i + 4) (i + 4 + u16_of c d);
        if bool_decide (u16_of a b = typ) then Some body else find_ext_at fuel exts typ (i + (4 + u16_of c d))
      else None
  end.
Definition find_ext (exts : list byte) (typ : Z) : option (list byte) := find_ext_at (S (length exts)) exts typ 0.

Definition sample : list byte :=
  build_client_hello (mk_ClientHelloParams (str "www.microsoft.com") (replicate 32 x42) (replicate 32 x11)
    (replicate 32 x00)).

Definition session_id_at_offset_39 : list bool :=
  let msg := sample in
  [assert_eq (get msg 0) (Some x01); assert_eq (get msg 38) (Some (z2b 32)); assert_eq (sub msg 39 71) (replicate 32 x00)].

(** What the [tls_parser] crate returns for a ClientHello: version, session id, cipher suites, extension block. *)
Record parsed_hello := mk_parsed_hello {
  ph_version : Z;
  ph_session_id : option (list byte);
  ph_ciphers : list Z;
  ph_ext : option (list byte)
}.

(** [chunks(2)] read as big-endian 16-bit numbers. *)
Definition u16_chunks (l : list byte) : list Z := of_be <$> pairs l.

(** The extension types in order, as the test's own loop walks them. *)
Fixpoint ext_types_at (fuel : nat) (exts : list byte) (i : Z) : option (list Z) :=
  match fuel with
  | O => None
  | S fuel =>
      if bool_decide (i + 4 ≤ len exts) then
        a ← get exts i; b ← get exts (i + 1); c ← get exts (i + 2); d ← get exts (i + 3);
        ts ← ext_types_at fuel exts (i + (4 + u16_of c d));
        Some (u16_of a b :: ts)
      else Some []
  end.

Section parser.
  Context (parse_tls_message_handshake : list byte → option parsed_hello).

Definition parses_as_clienthello_with_expected_ciphers : list bool :=
  with_some (parse_tls_message_handshake sample) (λ ch,
  let has c := bool_decide (c ∈ ph_ciphers ch) in
  [assert_eq (ph_version ch) 0x0303; has 0x1301; has GREASE; negb (has 0x1302); negb (has 0x1303);
   assert_eq (ph_session_id ch) (Some (replicate 32 x00))]).

Definition required_extensions_present : list bool :=
  with_some (ch ← parse_tls_message_handshake sample; ph_ext ch) (λ exts,
  with_some (find_ext exts 0x0000) (λ sni,
  with_some (find_ext exts 0x0033) (λ ks,
  with_some (find_ext exts 0x002b) (λ sv,
  with_some (find_ext exts 0x000a) (λ groups,
  with_some (find_ext exts 0x0010) (λ alpn,
  let vers := u16_chunks (zdrop 1 sv) in
  let glist := u16_chunks (zdrop 2 groups) in
  [contains (str "www.microsoft.com") sni;
   assert_eq (sub ks 2 4) (be16 0x001d); assert_eq (of_be (sub ks 4 6)) 32; assert_eq (sub ks 6 38) (replicate 32 x42);
   bool_decide (0x0304 ∈ vers); negb (bool_decide (0x0303 ∈ vers)); bool_decide (0x001d ∈ glist);
   contains (str "h2") alpn])))))).

Definition no_duplicate_extension_types : list bool :=
  with_some (ch ← parse_tls_message_handshake sample; ph_ext ch) (λ exts,
  with_some (ext_types_at (S (length exts)) exts 0) (λ seen,
  [bool_decide (NoDup seen); bool_decide (GREASE ∈ seen); bool_decide (GREASE_EXT2 ∈ seen)])).

Definition authed_client_hello_server_view_roundtrip (sk_s sk_c : list byte) : list bool :=
  let '(sk_s, pk_s) := generate_ephemeral_keypair sk_s in
  let '(sk_c, pk_c) := generate_ephemeral_keypair sk_c in
  let shared_c := x25519_shared_secret sk_c pk_s in
  let shared_s := x25519_shared_secret sk_s pk_c in
  let random := replicate 32 x33 in
  with_ok (derive_auth_key shared_c random) (λ auth_key,
  with_ok (parse_short_id (str "01ab")) (λ short_id,
  let ts := 0x01020304 in
  with_ok (build_authed_client_hello
    (mk_AuthedClientHelloParams (str "www.microsoft.com") pk_c random auth_key short_id ts)) (λ authed,
  let sealed := sub authed 39 71 in
  let aad := ztake 39 authed ++ replicate 32 x00 ++ zdrop 71 authed in
  let nonce := sub random 20 32 in
  with_ok (derive_auth_key shared_s random) (λ auth_key_server,
  with_some (open_session_id auth_key_server sealed nonce aad) (λ pt,
  [assert_eq shared_c shared_s; assert_ne (sub authed 39 71) (replicate 32 x00);
   is_some (parse_tls_message_handshake authed); assert_eq (sub pt 0 4) REALITY_VERSION;
   assert_eq (of_be (sub pt 4 8)) ts; assert_eq (sub pt 8 16) short_id]))))).
End parser.

Definition authed_client_hello_tamper_breaks_auth (sk_s sk_c : list byte) : list bool :=
  let '(sk_s, pk_s) := generate_ephemeral_keypair sk_s in
  let '(sk_c, pk_c) := generate_ephemeral_keypair sk_c in
  let shared := x25519_shared_secret sk_c pk_s in
  let random := replicate 32 x44 in
  with_ok (derive_auth_key shared random) (λ auth_key,
  with_ok (parse_short_id (str "ff")) (λ short_id,
  with_ok (build_authed_client_hello
    (mk_AuthedClientHelloParams (str "www.apple.com") pk_c random auth_key short_id 1)) (λ authed,
  let sealed := sub authed 39 71 in
  let authed := alter (λ b, xorb_byte b xff) (length authed - 1)%nat authed in
  let aad := ztake 39 authed ++ replicate 32 x00 ++ zdrop 71 authed in
  let nonce := sub random 20 32 in
  with_ok (derive_auth_key (x25519_shared_secret sk_s pk_c) random) (λ auth_key_server,
  [assert_eq (open_session_id auth_key_server sealed nonce aad) None])))).

(** ** [src/reality/server_hello.rs] *)

Definition rfc8448_serverhello_parse : list bool :=
  with_ok (parse_server_hello RFC8448_SH []) (λ parsed,
  [assert_eq (ps_cipher_suite parsed) 0x1301;
   assert_eq (ps_server_key_share parsed)
     (hex (str "c9828876112095fe66762bdbf7c672e156d6cc253b833df1dd69b1b04e751f0f"))]).

(** [dst[a..].copy_from_slice(src)] within bounds. *)
Definition overwrite (dst : list byte) (a : Z) (src : list byte) : list byte :=
  ztake a dst ++ src ++ zdrop (a + len src) dst.

Definition reject_paths : list bool :=
  let base := RFC8448_SH in
  let hrr := overwrite base 6 HRR_RANDOM in
  let dg := overwrite base 30 (str "DOWNGRD" ++ [x01]) in
  let comp := overwrite base 41 [x01] in
  let ver := overwrite base (len base - 2) [x03; x03] in
  let cs := overwrite base 39 [x13; x02] in
  [is_err (parse_server_hello hrr []); is_err (parse_server_hello dg []); is_err (parse_server_hello comp []);
   is_err (parse_server_hello ver []); is_err (parse_server_hello cs []);
   is_err (parse_server_hello base (replicate 32 x00)); is_err (parse_server_hello (sub base 0 10) []);
   is_err (parse_server_hello [x02] [])].

(** ** [src/reality/vless.rs] *)

Definition ipv4_request_golden : list bool :=
  with_ok (target_parse (str "1.2.3.4:443")) (λ target,
  let req := encode_vless_request (replicate 16 x11) VLESS_CMD_TCP target in
  [assert_eq req (hex (str "00 11111111111111111111111111111111 00 01 01bb 01 01020304")); assert_eq (len req) 26;
   assert_eq (sub req 19 21) [x01; xbb]; assert_eq (get req 21) (Some x01)]).

Definition domain_request_golden : list bool :=
  let req := encode_vless_request (replicate 16 x11) VLESS_CMD_TCP (DomainPort (str "example.com") 443) in
  [assert_eq req (hex (str "00 11111111111111111111111111111111 00 01 01bb 02 0b 6578616d706c652e636f6d"));
   assert_eq (get req 21) (Some VLESS_ATYP_DOMAIN); assert_eq (get req 22) (Some (z2b 11))].

Definition ipv6_request : list bool :=
  with_ok (target_parse (str "[2001:db8::1]:8443")) (λ target,
  let req := encode_vless_request (replicate 16 x22) VLESS_CMD_TCP target in
  [assert_eq (sub req 19 21) (be16 0x20fb); assert_eq (get req 21) (Some VLESS_ATYP_IPV6);
   assert_eq (len req) (19 + 2 + 1 + 16); assert_eq (sub req 22 38) ([x20; x01; x0d; xb8] ++ replicate 11 x00 ++ [x01])]).

Definition overlong_domain_truncated : list bool :=
  let req := encode_vless_request (replicate 16 x00) VLESS_CMD_TCP (DomainPort (replicate 300 x61) 80) in
  [assert_eq (get req 22) (Some xff); assert_eq (len req) (1 + 16 + 1 + 1 + 2 + 1 + 1 + 255)].

Definition strip_empty_addons : list bool :=
  with_ok (strip stripper_new (hex (str "00 00 deadbeef"))) (λ '(done, _, buf),
  [done; assert_eq buf (hex (str "deadbeef"))]).

Definition strip_nonempty_addons : list bool :=
  with_ok (strip stripper_new (hex (str "00 03 aabbcc cafe"))) (λ '(done, _, buf),
  [done; assert_eq buf (hex (str "cafe"))]).

Definition strip_accumulates_across_segments : list bool :=
  with_ok (strip stripper_new (hex (str "00"))) (λ '(d1, s, b1),
  with_ok (strip s (b1 ++ hex (str "03 aa"))) (λ '(d2, s, b2),
  with_ok (strip s (b2 ++ hex (str "bbcc 11223344"))) (λ '(d3, _, b3),
  [negb d1; assert_eq (len b1) 1; negb d2; assert_eq (len b2) 3; d3; assert_eq b3 (hex (str "11223344"))]))).

Definition strip_only_once : list bool :=
  with_ok (strip stripper_new (hex (str "00 00 aa"))) (λ '(d1, s, b1),
  with_ok (strip s (hex (str "0000bbcc"))) (λ '(d2, _, b2),
  [d1; assert_eq b1 (hex (str "aa")); d2; assert_eq b2 (hex (str "0000bbcc"))])).
End tests.

(** ** Running them *)

(** The client's key pair of RFC 8448 is used often, so its shared secret is looked up; the function is
    still X25519. *)
Definition RFC8448_CLIENT_EPH : list byte :=
  hex (str "49af42ba7f7994852d713ef2784bcbcaa7911de26adc5642cb634540e7ea5005").
Definition RFC8448_SERVER_SHARE : list byte :=
  hex (str "c9828876112095fe66762bdbf7c672e156d6cc253b833df1dd69b1b04e751f0f").
Definition kat_x25519 (secret peer : list byte) : list byte :=
  if bool_decide (secret = RFC8448_CLIENT_EPH ∧ peer = RFC8448_SERVER_SHARE) then RFC8448_ECDHE
  else std_x25519 secret peer.

Lemma kat_x25519_std secret peer : kat_x25519 secret peer = std_x25519 secret peer.
Proof.
  unfold kat_x25519. case_bool_decide as H; [|done]. destruct H as [-> ->]. vm_compute. reflexivity.
Qed.

Definition kat_crypto : Crypto := std_crypto kat_x25519.
(** A commutative function in place of X25519, for the tests that need no more of it than that both ends agree. *)
Definition xor_dh (secret peer : list byte) : list byte := zip_with xorb_byte secret peer.
Definition quick_crypto : Crypto := std_crypto xor_dh.

(** The ClientHello of RFC 8446 4.1.2, read field by field. *)
Definition rfc8446_client_hello (msg : list byte) : option parsed_hello :=
  slen ← get msg 38;
  let p := 39 + b2z slen in
  sid ← get_range msg 39 p;
  c0 ← get msg p; c1 ← get msg (p + 1);
  let q := p + 2 + u16_of c0 c1 in
  ciphers ← get_range msg (p + 2) q;
  clen ← get msg q;
  let q := q + 1 + b2z clen in
  e0 ← get msg q; e1 ← get msg (q + 1);
  exts ← get_range msg (q + 2) (q + 2 + u16_of e0 e1);
  v ← get_range msg 4 6;
  Some (mk_parsed_hello (of_be v) (Some sid) (u16_chunks ciphers) (Some exts)).

Definition key_schedule_tests `{C : Crypto} : list (list bool) :=
  [hkdf_label_encoding; sha256_empty; rfc8448_early_and_derived; rfc8448_transcript_ch_sh;
   rfc8448_handshake_key_schedule; zero_ecdhe_rejected; rfc8448_finished_key; rfc8448_server_finished_verify_data;
   rfc8448_handshake_secret_exposed; keyupdate_next_traffic_secret_kat; rfc8448_application_keys].
Definition record_tests `{C : Crypto} : list (list bool) :=
  [nonce_construction; header_encodes_ciphertext_len; seal_open_roundtrip; tampered_record_rejected;
   all_zero_plaintext_rejected; rfc8448_server_flight_record_open].
Definition auth_tests `{C : Crypto} : list (list bool) :=
  [auth_key_deterministic_and_salt_scoped; session_id_plaintext_layout; short_id_parse;
   seal_open_roundtrip_and_aad_binding; verify_server_cert_hmac;
   ephemeral_keypair_self_consistent (replicate 32 x0a) (replicate 32 x0b)].
Definition cert_tests `{C : Crypto} : list (list bool) :=
  [extract_pubkey_and_sig_from_ed25519_cert; extract_handles_generalizedtime_validity; rejects_non_ed25519_cert;
   reject_malformed; cert_extract_then_verify_server_cert_e2e].
Definition client_hello_tests `{C : Crypto} : list (list bool) :=
  [session_id_at_offset_39; parses_as_clienthello_with_expected_ciphers rfc8446_client_hello;
   required_extensions_present rfc8446_client_hello; no_duplicate_extension_types rfc8446_client_hello;
   authed_client_hello_server_view_roundtrip rfc8446_client_hello (replicate 32 x0a) (replicate 32 x0b);
   authed_client_hello_tamper_breaks_auth (replicate 32 x0a) (replicate 32 x0b)].
Definition hello_and_vless_tests : list (list bool) :=
  [rfc8448_serverhello_parse; reject_paths; ipv4_request_golden; domain_request_golden; ipv6_request;
   overlong_domain_truncated; strip_empty_addons; strip_nonempty_addons; strip_accumulates_across_segments;
   strip_only_once].

Example key_schedule_tests_pass : forallb passes (key_schedule_tests (C:=kat_crypto)) = true.
Proof. vm_compute. reflexivity. Qed.
Example record_tests_pass : forallb passes (record_tests (C:=kat_crypto)) = true.
Proof. vm_compute. reflexivity. Qed.
Example auth_tests_pass : forallb passes (auth_tests (C:=quick_crypto)) = true.
Proof. vm_compute. reflexivity. Qed.
Example cert_tests_pass : forallb passes (cert_tests (C:=kat_crypto)) = true.
Proof. vm_compute. reflexivity. Qed.
Example client_hello_tests_pass : forallb passes (client_hello_tests (C:=quick_crypto)) = true.
Proof. vm_compute. reflexivity. Qed.
Example hello_and_vless_tests_pass : forallb passes hello_and_vless_tests = true.
Proof. vm_compute. reflexivity. Qed.
