(* ===== verification/ConformReality.v ===== *)
(** * ConformReality: the unit tests of the handshake and of the REALITY upstream

    The tests of [src/reality/handshake.rs], of [src/reality_upstream.rs] and of the relay task of
    [src/client_tun.rs], translated over the definitions of this
    development and run on the cryptography of [StdCrypto].  The handshake driver is run against the
    recorded server of RFC 8448, and [establish] followed by the stream against the test suite's own REALITY
    server, which is translated here too.

    A [tokio::io::duplex] pair is what each end has written; a client that reads sees what the server has
    written so far in one piece, so where a test interleaves the two ends the translation hands the bytes
    over in the same order.  Where the tests draw random keys, they are arguments here. *)

From S2P Require Import Prelude Text Shared Addr Crypto Record Auth ClientHello KeySchedule ServerHello Cert Vless.
From S2P Require Import UdpRelay Device TunSlot Upstream ClientTun RelayTask.
From S2P Require Import Reassembly Handshake RealityStream Config RealityUpstream Redact.
From S2P Require Import StdCrypto Conform ConformTls.
Import (notations) Strings.String.

(** ** The crate [base64] by RFC 4648 *)

Definition b64_digit (s62 s63 : byte) (b : byte) : option Z :=
  let c := b2z b in
  if bool_decide (65 ≤ c ≤ 90) then Some (c - 65)
  else if bool_decide (97 ≤ c ≤ 122) then Some (c - 71)
  else if bool_decide (48 ≤ c ≤ 57) then Some (c + 4)
  else if bool_decide (b = s62) then Some 62
  else if bool_decide (b = s63) then Some 63
  else None.

(** Whole quanta, and a last one of two or three digits whose unused bits are zero; [pad] says whether it must
    be padded or must not be. *)
Definition b64_last2 (dig : byte → option Z) (a b : byte) : option (list byte) :=
  x ← dig a; y ← dig b;
  if bool_decide (y mod 16 = 0) then Some [z2b (x * 4 + y / 16)] else None.
Definition b64_last3 (dig : byte → option Z) (a b c : byte) : option (list byte) :=
  x ← dig a; y ← dig b; z ← dig c;
  if bool_decide (z mod 4 = 0) then Some (ztake 2 (to_be 3 (((x * 64 + y) * 64 + z) * 64))) else None.
Fixpoint b64_decode (dig : byte → option Z) (pad : bool) (l : list byte) : option (list byte) :=
  match l with
  | [] => Some []
  | [a; b] => if pad then None else b64_last2 dig a b
  | [a; b; c] => if pad then None else b64_last3 dig a b c
  | a :: b :: c :: d :: l =>
      if pad && bool_decide (l = [] ∧ d = x3d) then
        if bool_decide (c = x3d) then b64_last2 dig a b else b64_last3 dig a b c
      else
        x ← dig a; y ← dig b; z ← dig c; w ← dig d;
        r ← b64_decode dig pad l;
        Some (to_be 3 (((x * 64 + y) * 64 + z) * 64 + w) ++ r)
  | _ => None
  end.

Definition rfc4648 : Base64 := {|
  url_safe_no_pad := b64_decode (b64_digit x2d x5f) false;
  url_safe := b64_decode (b64_digit x2d x5f) true;
  standard_no_pad := b64_decode (b64_digit x2b x2f) false;
  standard := b64_decode (b64_digit x2b x2f) true |}.

(** ** [src/reality/handshake.rs] *)

Definition reassembles_whole_flight : list bool :=
  let '(msgs, r) := reasm_push [] SFLIGHT_PAYLOAD in
  [reasm_is_empty r; assert_eq ((λ m, get m 0) <$> msgs) [Some x08; Some x0b; Some x0f; Some x14]].

Definition cross_record_reassembly_byte_exact `{C : Crypto} : list bool :=
  let flight := SFLIGHT_PAYLOAD in
  let '(msgs, r) := reasm_push_all [] [sub flight 0 30; sub flight 30 400; zdrop 400 flight] in
  let th := transcript_hash ([RFC8448_CH; RFC8448_SH] ++ ztake 3 msgs) in
  [reasm_is_empty r; assert_eq (len msgs) 4;
   assert_eq th (arr32 (str "edb7725fa7a3473b031ec8ef65a2485493900138a2b91291407d7951a06110ed"));
   assert_eq (concat msgs) flight].

Definition byte_by_byte_feed : list bool :=
  let '(msgs, r) := reasm_push_all [] ((λ b, [b]) <$> SFLIGHT_PAYLOAD) in
  [assert_eq (len msgs) 4; reasm_is_empty r].

(** What [drive] returns, with the state of the connection. *)
Definition with_run {A} (m : M A) (s : io) (k : io → A → list bool) : list bool :=
  match m s with (s, Ok a) => k s a | _ => [false] end.
Definition fails {A} (m : M A) (s : io) : bool := is_err (m s).2.
(** [|_cert| Ok(())] *)
Definition always_ok (_ : list byte) : res ClientError unit := Ok tt.
Definition SERVER_CCS : list byte := [x14; x03; x03; x00; x01; x01].

Definition rfc8448_handshake_drive_e2e `{C : Crypto} : list bool :=
  let ch := RFC8448_CH in
  let sh := RFC8448_SH in
  (* the server's first flight *)
  let shrec := [x16; x03; x03] ++ be16 (as_u16 (len sh)) ++ sh in
  let first := shrec ++ SERVER_CCS ++ SFLIGHT_RECORD in
  let input := mk_HandshakeInput ch RFC8448_CLIENT_EPH [] in
  with_run (drive always_ok input) (mk_io [Some first] [] []) (λ s out,
  (* the server reads the client's ClientHello, CCS and Finished *)
  with_ok (reader_nexts 3 [] [Some (io_out s)]) (λ '(recs, rr, _),
  match recs with
  | [(ct_ch, _, got_ch); (ct_ccs, _, ccs_body); (ct_fin, fhdr, fpayload)] =>
      let crecv := record_keys_new (hex (str "dbfaa693d1762c5b666af5d950258d01")) (hex (str "5bd3c71b836e0b76bb73265f")) in
      let th_sfin := arr32 (str "9608102a0f1ccc6db6250b7b7e417b1a000eaada3daae4777a7686c9ff83df13") in
      let c_hs := arr32 (str "b3eddb126e067f35a780b3abf45e2d8f3b1a950738f52e9600746a0e27a55a21") in
      let handshake_secret := arr32 (str "1dc826e93606aa6fdc0aadc12f741b01046aa6b99f691ed221a9f0ca043fbeac") in
      with_ok (open crecv fhdr fpayload) (λ '(inner, fin_msg, _),
      with_ok (compute_finished_verify_data c_hs th_sfin) (λ verify_data,
      with_ok (derive_application_keys handshake_secret th_sfin) (λ app,
      with_ok (seal (record_keys_new (ak_server_key app) (ak_server_iv app)) x17 (str "server-app-hello")) (λ '(down, _),
      (* the client reads the server's application record and answers *)
      with_ok (reader_next (ho_leftover out) [Some down]) (λ '(ct, hdr, payload, _, _),
      with_ok (open (ho_recv_keys out) hdr payload) (λ '(it, content, _),
      with_ok (seal (ho_send_keys out) x17 (str "client-app-hi")) (λ '(up, _),
      with_ok (reader_next rr [Some up]) (λ '(ct_a, ahdr, apayload, _, _),
      with_ok (open (record_keys_new (ak_client_key app) (ak_client_iv app)) ahdr apayload) (λ '(it_a, content_a, _),
      [assert_eq ct_ch x16; assert_eq got_ch ch; assert_eq (ct_ccs, ccs_body) (x14, [x01]); assert_eq ct_fin x17;
       assert_eq inner x16; assert_eq fin_msg ([x14; x00; x00; x20] ++ verify_data);
       assert_eq ct x17; assert_eq (it, content) (x17, str "server-app-hello");
       assert_eq ct_a x17; assert_eq (it_a, content_a) (x17, str "client-app-hi")])))))))))
  | _ => [false]
  end)).

Definition drive_rejects_flight_without_certificate `{C : Crypto} : list bool :=
  let ch := RFC8448_CH in
  let sh := RFC8448_SH in
  let ee := RFC8448_EE in
  let s_hs := arr32 (str "b67b7d690cc16c4e75e54213cb2d37b4e9c912bcded9105d42befd59d391ad38") in
  let th := transcript_hash [ch; sh; ee] in
  with_ok (compute_finished_verify_data s_hs th) (λ verify_data,
  let flight := ee ++ [x14; x00; x00; x20] ++ verify_data in
  let shrec := [x16; x03; x03] ++ be16 (as_u16 (len sh)) ++ sh in
  let s_hs_rk := record_keys_new (hex (str "3fce516009c21727d0f2e4e86ee403bc")) (hex (str "5d313eb2671276ee13000b30")) in
  with_ok (seal s_hs_rk x16 flight) (λ '(rec, _),
  [fails (drive always_ok (mk_HandshakeInput ch RFC8448_CLIENT_EPH [])) (mk_io [Some (shrec ++ SERVER_CCS ++ rec)] [] [])])).

Definition rejects_non_serverhello_first `{C : Crypto} : list bool :=
  [fails (drive always_ok (mk_HandshakeInput RFC8448_CH (replicate 32 x01) []))
     (mk_io [Some [x17; x03; x03; x00; x01; x00]] [] [])].

Definition early_eof_errs `{C : Crypto} : list bool :=
  [fails (drive always_ok (mk_HandshakeInput RFC8448_CH (replicate 32 x01) [])) (mk_io [] [] [])].

(** ** [src/reality_upstream.rs]: the public key *)

Section pbk.
  Context `{B : Base64}.
(** [std::array::from_fn(|i| i as u8)] *)
Definition bytes_upto (n : nat) : list byte := (λ i, z2b (Z.of_nat i)) <$> seq 0 n.

Definition pbk_base64url_singbox_style : list bool :=
  let s := str "AAECAwQFBgcICQoLDA0ODxAREhMUFRYXGBkaGxwdHh8" in
  [assert_eq (len s) 43; ok_eq (parse_pbk s) (bytes_upto 32)].
Definition pbk_std_base64_fallback : list bool :=
  let s := str "+//7//v/+//7//v/+//7//v/+//7//v/+//7//v/+/8" in
  [ok_eq (parse_pbk s) (concat (replicate 16 [xfb; xff]))].
Definition pbk_padded_accepted : list bool :=
  [ok_eq (parse_pbk (str "AAECAwQFBgcICQoLDA0ODxAREhMUFRYXGBkaGxwdHh8=")) (bytes_upto 32)].
Definition pbk_wrong_length_rejected : list bool :=
  [is_err (parse_pbk (str "AAECAwQFBgcICQoLDA0ODxAREhMUFRYXGBkaGx0e"))].
Definition pbk_hex_rejected : list bool :=
  [is_err (parse_pbk (str "df18652c451afa44c276c60475d9f4f6f4ae3bf9d389dd6f3215383d6d5dda0b"))].
Definition pbk_garbage_rejected : list bool := [is_err (parse_pbk (str "!!!not base64!!!")); is_err (parse_pbk [])].

Definition config_from_sources_and_redacted_debug (unicode : list byte → list byte) : list bool :=
  with_ok (reality_from_sources (Some (str "1.2.3.4:443")) (Some (str "12345678-1234-1234-1234-123456789abc"))
             (Some (str "AAECAwQFBgcICQoLDA0ODxAREhMUFRYXGBkaGxwdHh8")) (Some (str "01ab")) (Some (str "www.example.com"))) (λ cfg,
  let dbg := reality_config_fmt unicode cfg in
  [assert_eq (rc_server cfg) (str "1.2.3.4:443"); assert_eq (rc_pbk cfg) (bytes_upto 32);
   assert_eq (ztake 2 (rc_short_id cfg)) [x01; xab]; assert_eq (rc_sni cfg) (str "www.example.com");
   contains (str "<redacted>") dbg; negb (contains (str "123456789abc") dbg); contains (str "www.example.com") dbg]).

Definition config_missing_or_invalid_fields_err : list bool :=
  let uuid := Some (str "12345678-1234-1234-1234-123456789abc") in
  let pbk := Some (str "AAECAwQFBgcICQoLDA0ODxAREhMUFRYXGBkaGxwdHh8") in
  let s := Some (str "s") in
  let h := Some (str "h:1") in
  [is_err (reality_from_sources None uuid pbk None s); is_err (reality_from_sources h (Some (str "bad-uuid")) pbk None s);
   is_err (reality_from_sources h uuid (Some (str "short")) None s); is_err (reality_from_sources h uuid pbk None None)].
End pbk.

(** ** [src/reality_upstream.rs]: the stream *)

Section stream.
  Context `{C : Crypto}.

(** tokio's [read_exact] on data that has arrived: fails when the stream would wait, ends or errs. *)
Fixpoint read_exact (fuel : nat) (n : Z) (s : RealityStream) : option (list byte * RealityStream) :=
  if bool_decide (n ≤ 0) then Some ([], s) else
  match fuel with
  | O => None
  | S fuel =>
      match poll_read n s with
      | (s, Ok (Ready (b :: l))) => '(r, s) ← read_exact fuel (n - len (b :: l)) s; Some ((b :: l) ++ r, s)
      | _ => None
      end
  end.
(** tokio's [write_all] while the socket accepts. *)
Fixpoint write_all_now (fuel : nat) (buf : list byte) (s : RealityStream) : option RealityStream :=
  match buf with
  | [] => Some s
  | _ =>
      match fuel with
      | O => None
      | S fuel =>
          match poll_write buf s with
          | (s, Ok (Ready n)) => if bool_decide (n ≤ 0) then None else write_all_now fuel (zdrop n buf) s
          | _ => None
          end
      end
  end.
(** The peer's end accepts everything, and has written [chunks]. *)
Definition open_end : list wr_poll := replicate 16 (WrOk 1000000).
Definition arrives (chunks : list (list byte)) (s : RealityStream) : RealityStream :=
  set_sockets (rs_rin s ++ (RdData <$> chunks)) (rs_win s) (rs_wout s) s.
Definition mk_stream (rk iv : list byte) (inp : list rd_poll) : RealityStream :=
  reality_stream_new inp open_end [] (record_keys_new rk iv) (record_keys_new (replicate 16 x33) (replicate 12 x44)) []
    (replicate 32 x00) (replicate 32 x00).

Definition realitystream_read_strips_vless_and_drops_nst : list bool :=
  let srv := record_keys_new (replicate 16 x11) (replicate 12 x22) in
  with_ok (seal_all srv [(x17, [x00; x00] ++ str "hello"); (x16, [x04; x00; x00; x01; x00]); (x17, str " world")])
    (λ '(recs, _),
  let stream := mk_stream (replicate 16 x11) (replicate 12 x22) (RdData <$> recs) in
  with_some (read_exact 11 11 stream) (λ '(got, _), [assert_eq got (str "hello world")])).

Definition realitystream_partial_record_reassembled : list bool :=
  let srv := record_keys_new (replicate 16 x55) (replicate 12 x66) in
  with_ok (seal srv x17 ([x00; x00] ++ str "split-record-payload")) (λ '(rec, _),
  let mid := len rec / 2 in
  let stream := mk_stream (replicate 16 x55) (replicate 12 x66) [RdData (ztake mid rec)] in
  match poll_read 20 stream with
  | (stream, Ok Pending) =>
      with_some (read_exact 20 20 (arrives [zdrop mid rec] stream)) (λ '(got, _),
      [assert_eq got (str "split-record-payload")])
  | _ => [false]
  end).

Definition keys_from (secret : list byte) : res ClientError RecordKeys :=
  let? key := expand_label secret (str "key") [] 16 in
  let? iv := expand_label secret (str "iv") [] 12 in
  Ok (record_keys_new key iv).
Definition mk_stream_secrets (s_ap c_ap : list byte) (inp : list rd_poll) : res ClientError RealityStream :=
  let? rk := keys_from s_ap in
  let? sk := keys_from c_ap in
  Ok (reality_stream_new inp open_end [] rk sk [] s_ap c_ap).

(** [k.open(&rec[..5], &rec[5..])] *)
Definition open_rec (k : RecordKeys) (rec : list byte) : res ClientError (byte * list byte * RecordKeys) :=
  open k (sub rec 0 5) (zdrop 5 rec).

Definition keyupdate_requested_reply_old_key_then_rotate_send : list bool :=
  let s0 := replicate 32 xa0 in
  let c0 := replicate 32 xc0 in
  with_ok (mk_stream_secrets s0 c0 []) (λ stream,
  with_ok (keys_from c0) (λ peer_old,
  with_ok (seal (rs_send_keys stream) x17 (str "vless-request")) (λ '(pre, keys),
  let stream := set_send keys (rs_client_ap_secret stream) (rs_write_pending stream) stream in
  with_ok (open_rec peer_old pre) (λ '(_, _, peer_old),
  match on_key_update [x18; x00; x00; x01; x01] stream with
  | (stream, Ok tt) =>
      let reply := rs_write_pending stream in
      with_ok (open_rec peer_old reply) (λ '(rit, rbody, _),
      with_ok (next_application_traffic_secret c0) (λ c1,
      with_ok (keys_from c1) (λ peer_new,
      with_ok (seal (rs_send_keys stream) x17 (str "after-update")) (λ '(after, _),
      with_ok (open_rec peer_new after) (λ '(ait, abody, _),
      with_ok (next_application_traffic_secret s0) (λ s1,
      with_ok (keys_from s1) (λ srv_new,
      with_ok (seal srv_new x17 (str "down-after")) (λ '(down, _),
      with_ok (open_rec (rs_recv_keys stream) down) (λ '(dit, dbody, _),
      [assert_ne reply []; assert_eq rit x16; assert_eq rbody [x18; x00; x00; x01; x00];
       assert_eq (ait, abody) (x17, str "after-update"); assert_eq (rs_client_ap_secret stream) c1;
       assert_eq (dit, dbody) (x17, str "down-after"); assert_eq (rs_server_ap_secret stream) s1])))))))))
  | _ => [false]
  end)))).

Definition keyupdate_not_requested_recv_only_and_illegal_rejected : list bool :=
  let s0 := replicate 32 x1a in
  let c0 := replicate 32 x2b in
  with_ok (mk_stream_secrets s0 c0 []) (λ start,
  with_ok (keys_from s0) (λ srv_s0,
  with_ok (keys_from c0) (λ peer_send,
  with_ok (next_application_traffic_secret s0) (λ s1,
  with_ok (keys_from s1) (λ srv_new,
  match on_key_update [x18; x00; x00; x01; x00] start with
  | (stream, Ok tt) =>
      with_ok (seal (rs_send_keys stream) x17 (str "still-c0")) (λ '(snd, _),
      with_ok (open_rec peer_send snd) (λ '(_, sbody, _),
      with_ok (seal srv_new x17 (str "down-s1")) (λ '(down, _),
      with_ok (open_rec (rs_recv_keys stream) down) (λ '(_, dbody, _),
      let '(s2, r2) := on_key_update [x18; x00; x00; x01; x02] start in
      with_ok (seal srv_s0 x17 (str "still-s0")) (λ '(d0, _),
      with_ok (open_rec (rs_recv_keys s2) d0) (λ '(_, b3, _),
      let '(s3, r3) := on_key_update [x18; x00; x00; x02; x00; x00] start in
      let '(s3, r3') := on_key_update [x18; x00; x00] s3 in
      with_ok (seal srv_s0 x17 (str "frame-illegal")) (λ '(d3, _),
      with_ok (open_rec (rs_recv_keys s3) d3) (λ '(_, b4, _),
      [assert_eq (rs_write_pending stream) []; assert_eq (rs_client_ap_secret stream) c0; assert_eq sbody (str "still-c0");
       assert_eq (rs_server_ap_secret stream) s1; assert_eq dbody (str "down-s1");
       is_err r2; assert_eq (rs_server_ap_secret s2) s0; assert_eq (rs_write_pending s2) []; assert_eq b3 (str "still-s0");
       is_err r3; is_err r3'; assert_eq (rs_server_ap_secret s3) s0; assert_eq b4 (str "frame-illegal")]))))))))
  | _ => [false]
  end))))).

Definition keyupdate_coalesced_after_nst_in_one_record : list bool :=
  let s0 := replicate 32 x3c in
  let c0 := replicate 32 x4d in
  with_ok (keys_from s0) (λ srv,
  let content := [x04; x00; x00; x04; xaa; xbb; xcc; xdd] ++ [x18; x00; x00; x01; x00] in
  with_ok (seal srv x16 content) (λ '(r1, _),
  with_ok (next_application_traffic_secret s0) (λ s1,
  with_ok (keys_from s1) (λ srv_new,
  with_ok (seal srv_new x17 ([x00; x00] ++ str "after-coalesced")) (λ '(r2, _),
  with_ok (mk_stream_secrets s0 c0 [RdData r1; RdData r2]) (λ stream,
  with_some (read_exact 15 15 stream) (λ '(got, _), [assert_eq got (str "after-coalesced")]))))))).

Definition realitystream_alert_distinguished : list bool :=
  let rk := replicate 16 x55 in
  let iv := replicate 12 x66 in
  let srv := record_keys_new rk iv in
  with_ok (seal srv x15 [x02; x28]) (λ '(fatal, _),
  with_ok (seal srv x15 [x01; x00]) (λ '(notify, _),
  [is_err (poll_read 4 (mk_stream rk iv [RdData fatal])).2;
   match (poll_read 4 (mk_stream rk iv [RdData notify; RdData []])).2 with Ok (Ready []) => true | _ => false end])).

Definition realitystream_truncated_record_errs : list bool :=
  [is_err (poll_read 4 (mk_stream (replicate 16 x77) (replicate 12 x88) [RdData [x17; x03; x03]; RdData []])).2].

(** ** [src/client_tun.rs]: the idle timer of a relay

    The tests' [IdleStream] never yields data and takes every write: here a stream whose socket does the same. *)

Definition idle_stream : RealityStream := mk_stream (replicate 16 x01) (replicate 12 x02) [].
(** The timer is looked at and the task is polled at [now]. *)
Definition at_time (now : Z) : list (Z * task_event) :=
  [(now, TkPoll true (Ok (Ready tt))); (now, TkIdle); (now, TkPoll true (Ok (Ready tt)))].
Definition relay_finished (t : timed_task) : bool := match tk_phase (tt_task t) with TkGone => true | _ => false end.

Definition relay_idle_timeout_shuts_down_stream : list bool :=
  let t0 := mk_timed_task (task_new idle_stream []) 0 in
  let t1 := timed_run (at_time 89) t0 in
  let t2 := timed_run (at_time 91) t1 in
  [negb (relay_finished t1); relay_finished t2].

Definition relay_activity_resets_idle_timer : list bool :=
  let t0 := mk_timed_task (task_new idle_stream []) 0 in
  let t1 := timed_run (at_time 89 ++ [(89, TkMessage [x01; x02; x03]); (89, TkPoll true (Ok (Ready tt)))]) t0 in
  let t2 := timed_run (at_time 178) t1 in
  let t3 := timed_run (at_time 180) t2 in
  [negb (relay_finished t1); negb (relay_finished t2); relay_finished t3].

(** ** [src/reality_upstream.rs]: the loopback server *)

Definition find_ch_keyshare (ch : list byte) : option (list byte) :=
  let p := 4 + 2 + 32 in
  sid_len ← get ch p;
  let p := p + (1 + b2z sid_len) in
  c0 ← get ch p; c1 ← get ch (p + 1);
  let p := p + (2 + u16_of c0 c1) in
  comp_len ← get ch p;
  let p := p + (1 + b2z comp_len) in
  let p := p + 2 in
  exts ← get_from ch p;
  body ← find_ext exts 0x0033;
  get_range body 6 38.

Definition build_sh (server_random client_sid server_ks : list byte) : list byte :=
  let ext := [x00; x2b; x00; x02; x03; x04] ++ [x00; x33; x00; x24; x00; x1d; x00; x20] ++ server_ks in
  let body := [x03; x03] ++ server_random ++ z2b (len client_sid) :: client_sid ++ [x13; x01] ++ x00 ::
    be16 (as_u16 (len ext)) ++ ext in
  x02 :: be24 (len body) ++ body.

Definition build_reality_cert_msg (cert_der cert_pubkey auth_key : list byte) : list byte :=
  let der := ztake (len cert_der - 64) cert_der ++ hmac_sha512 auth_key cert_pubkey in
  let lst := be24 (len der) ++ der ++ [x00; x00] in
  let bdy := x00 :: be24 (len lst) ++ lst in
  x0b :: be24 (len bdy) ++ bdy.

(** The server's answer to the client's first bytes: what it writes, what it expects of the client's
    Finished, and its keys. *)
Record sim_state := mk_sim_state {
  sim_out : list byte;
  sim_hs : HsKeys;
  sim_want : list byte;
  sim_app : AppKeys
}.

Definition lift_opt {A} (o : option A) : res ClientError A := expect o.

(** [reality_sim_handshake] up to its first [flush]. *)
Definition sim_answer (server_static_sk eph ch : list byte) : res ClientError sim_state :=
  let? client_random := slice ch 6 38 in
  let? client_sid := slice ch 39 71 in
  let? client_ks := lift_opt (find_ch_keyshare ch) in
  let? auth_key := derive_auth_key (x25519_shared_secret server_static_sk client_ks) client_random in
  let '(sk_se, pk_se) := generate_ephemeral_keypair eph in
  let sh := build_sh (replicate 32 x55) client_sid pk_se in
  let ecdhe := x25519_shared_secret sk_se client_ks in
  let? hs := derive_handshake_keys ecdhe ch sh in
  let ee := hex (str "08 00 00 02 00 00") in
  let cert_msg := build_reality_cert_msg ED25519_CERT_DER ED25519_PUBKEY auth_key in
  let cv := [x0f; x00; x00; x44; x08; x07; x00; x40] ++ replicate 64 x00 in
  let th_cv := transcript_hash [ch; sh; ee; cert_msg; cv] in
  let? fin := compute_finished_verify_data (hk_s_hs_secret hs) th_cv in
  let sfin := [x14; x00; x00; x20] ++ fin in
  let flight := concat [ee; cert_msg; cv; sfin] in
  let shrec := [x16; x03; x03] ++ be16 (as_u16 (len sh)) ++ sh in
  let? ' (rec, _) := seal (record_keys_new (hk_server_key hs) (hk_server_iv hs)) x16 flight in
  let th_sfin := transcript_hash [ch; sh; ee; cert_msg; cv; sfin] in
  let? cfin := compute_finished_verify_data (hk_c_hs_secret hs) th_sfin in
  let? app := derive_application_keys (hk_handshake_secret hs) th_sfin in
  Ok (mk_sim_state (shrec ++ SERVER_CCS ++ rec) hs ([x14; x00; x00; x20] ++ cfin) app).

(** Both ends of the handshake: the client's output so far decides the server's answer, so [establish] is
    run once to see its ClientHello and once with the answer on the wire. *)
Definition loopback (cfg : RealityClientConfig) (e : entropy) (target : TargetAddr) (sk_s eph : list byte)
    (k : io → HandshakeOutput → sim_state → list byte → list bool) : list bool :=
  let hello := io_out (establish cfg e target (mk_io [] [] [])).1 in
  with_ok (reader_nexts 2 [] [Some hello]) (λ '(recs, _, _),
  match recs with
  | [(_, _, ch); (ct_ccs, _, _)] =>
      with_ok (sim_answer sk_s eph ch) (λ sim,
      with_run (establish cfg e target) (mk_io [Some (sim_out sim)] [] []) (λ s out,
      with_ok (reader_nexts 3 [] [Some (io_out s)]) (λ '(recs, rr, _),
      match recs with
      | [_; _; (_, fh, fp)] =>
          with_ok (open (record_keys_new (hk_client_key (sim_hs sim)) (hk_client_iv (sim_hs sim))) fh fp) (λ '(_, cfin, _),
          [assert_eq ct_ccs x14; assert_eq cfin (sim_want sim)] ++ k s out sim rr)
      | _ => [false]
      end)))
  | _ => [false]
  end).

Definition loopback_cfg (uuid pbk short_id : list byte) : RealityClientConfig :=
  mk_RealityClientConfig (str "unused-loopback") uuid pbk short_id (str "example.com").

Definition client_app_keys (sim : sim_state) : RecordKeys :=
  record_keys_new (ak_client_key (sim_app sim)) (ak_client_iv (sim_app sim)).
Definition server_app_keys (sim : sim_state) : RecordKeys :=
  record_keys_new (ak_server_key (sim_app sim)) (ak_server_iv (sim_app sim)).
Definition client_stream (s : io) (out : HandshakeOutput) : RealityStream :=
  reality_stream_new [] open_end [] (ho_recv_keys out) (ho_send_keys out) (ho_leftover out) (ho_s_ap_secret out)
    (ho_c_ap_secret out).

(** [reality_server_sim] after its handshake: the request, the data, the echo. *)
Definition reality_server_sim (sim : sim_state) (rr : list byte) (expected_uuid : list byte)
    (k : list byte → list bool) : list bool :=
  with_ok (reader_nexts 2 rr []) (λ '(recs, _, _),
  match recs with
  | [(_, vh, vp); (_, ph, pp)] =>
      with_ok (open (client_app_keys sim) vh vp) (λ '(_, vless, c_ap),
      with_ok (open c_ap ph pp) (λ '(_, ping, _),
      with_ok (seal (server_app_keys sim) x17 ([x00; x00] ++ str "pong")) (λ '(resp, _),
      [assert_eq (get vless 0) (Some x00); assert_eq (sub vless 1 17) expected_uuid; assert_eq ping (str "ping")]
      ++ k resp)))
  | _ => [false]
  end).

Definition open_tcp_full_reality_handshake_loopback (sk_s eph : list byte) (e : entropy) : list bool :=
  let '(sk_s, pk_s) := generate_ephemeral_keypair sk_s in
  let uuid := replicate 16 x42 in
  with_ok (parse_short_id (str "01ab")) (λ short_id,
  with_ok (target_parse (str "1.2.3.4:443")) (λ target,
  loopback (loopback_cfg uuid pk_s short_id) e target sk_s eph (λ s out sim rr,
  with_some (write_all_now 2 (str "ping") (client_stream s out)) (λ stream,
  reality_server_sim sim (rr ++ rs_wout stream) uuid (λ resp,
  with_some (read_exact 4 4 (arrives [resp] stream)) (λ '(got, _), [assert_eq got (str "pong")])))))).

(** [reality_server_sim_keyupdate] after its handshake, in two parts: what it sends, and what it reads back. *)
Definition sim_keyupdate_send (sim : sim_state) (vh vp expected_uuid : list byte) (k : RecordKeys → list byte → list bool)
  : list bool :=
  with_ok (open (client_app_keys sim) vh vp) (λ '(_, vless, c_ap),
  with_ok (seal (server_app_keys sim) x16 [x18; x00; x00; x01; x01]) (λ '(ku, _),
  with_ok (next_application_traffic_secret (ak_s_ap_secret (sim_app sim))) (λ s_ap1,
  with_ok (keys_from s_ap1) (λ s_ap_new,
  with_ok (seal s_ap_new x17 ([x00; x00] ++ str "down-after-update")) (λ '(down, _),
  assert_eq (sub vless 1 17) expected_uuid :: k c_ap (ku ++ down)))))).
Definition sim_keyupdate_read (sim : sim_state) (c_ap : RecordKeys) (rr : list byte) : list bool :=
  with_ok (reader_nexts 2 rr []) (λ '(recs, _, _),
  match recs with
  | [(_, kh, kp); (_, uh, up)] =>
      with_ok (open c_ap kh kp) (λ '(kt, kbody, _),
      with_ok (next_application_traffic_secret (ak_c_ap_secret (sim_app sim))) (λ c_ap1,
      with_ok (keys_from c_ap1) (λ c_ap_new,
      with_ok (open c_ap_new uh up) (λ '(ut, ubody, _),
      [assert_eq (kt, kbody) (x16, [x18; x00; x00; x01; x00]); assert_eq (ut, ubody) (x17, str "up-after-update")]))))
  | _ => [false]
  end).

Definition keyupdate_loopback_end_to_end (sk_s eph : list byte) (e : entropy) : list bool :=
  let '(sk_s, pk_s) := generate_ephemeral_keypair sk_s in
  let uuid := replicate 16 x42 in
  with_ok (parse_short_id (str "01ab")) (λ short_id,
  with_ok (target_parse (str "1.2.3.4:443")) (λ target,
  loopback (loopback_cfg uuid pk_s short_id) e target sk_s eph (λ s out sim rr,
  with_ok (reader_next rr []) (λ '(_, vh, vp, rr, _),
  sim_keyupdate_send sim vh vp uuid (λ c_ap wire,
  with_some (read_exact 17 17 (arrives [wire] (client_stream s out))) (λ '(got, stream),
  with_some (write_all_now 2 (str "up-after-update") stream) (λ stream,
  assert_eq got (str "down-after-update") :: sim_keyupdate_read sim c_ap (rr ++ rs_wout stream)))))))).
End stream.

(** ** Running them *)

Definition handshake_tests `{C : Crypto} : list (list bool) :=
  [reassembles_whole_flight; cross_record_reassembly_byte_exact; byte_by_byte_feed; rfc8448_handshake_drive_e2e;
   drive_rejects_flight_without_certificate; rejects_non_serverhello_first; early_eof_errs].
Definition pbk_tests `{B : Base64} : list (list bool) :=
  [pbk_base64url_singbox_style; pbk_std_base64_fallback; pbk_padded_accepted; pbk_wrong_length_rejected;
   pbk_hex_rejected; pbk_garbage_rejected; config_from_sources_and_redacted_debug id; config_missing_or_invalid_fields_err].
Definition stream_tests `{C : Crypto} : list (list bool) :=
  [realitystream_read_strips_vless_and_drops_nst; realitystream_partial_record_reassembled;
   keyupdate_requested_reply_old_key_then_rotate_send; keyupdate_not_requested_recv_only_and_illegal_rejected;
   keyupdate_coalesced_after_nst_in_one_record; realitystream_alert_distinguished; realitystream_truncated_record_errs;
   relay_idle_timeout_shuts_down_stream; relay_activity_resets_idle_timer].
Definition loopback_tests `{C : Crypto} : list (list bool) :=
  let e := mk_entropy (replicate 32 x0b) (replicate 32 x1c) (Some 1700000000) in
  [open_tcp_full_reality_handshake_loopback (replicate 32 x0a) (replicate 32 x0d) e;
   keyupdate_loopback_end_to_end (replicate 32 x0a) (replicate 32 x0d) e].

Example handshake_tests_pass : forallb passes (handshake_tests (C:=kat_crypto)) = true.
Proof. vm_compute. reflexivity. Qed.
Example pbk_tests_pass : forallb passes (pbk_tests (B:=rfc4648)) = true.
Proof. vm_compute. reflexivity. Qed.
Example stream_tests_pass : forallb passes (stream_tests (C:=quick_crypto)) = true.
Proof. vm_compute. reflexivity. Qed.
Example loopback_tests_pass : forallb passes (loopback_tests (C:=quick_crypto)) = true.
Proof. vm_compute. reflexivity. Qed.
