(* ===== verification/ConformTun.v ===== *)
(** * ConformTun: the unit tests of the TUN client, the failover upstream and the profiler

    The tests of [src/client_tun.rs], [src/failover.rs], [src/loop_profiler.rs], [src/quic.rs] and [src/upstream.rs] and the redaction test of [src/tuic.rs], translated over
    the definitions of this development.  They are run on the concrete TCP stack of [TunSlot] and the
    concrete packet format of [UdpRelay]; the mock leg of the failover tests is translated with them. *)

From Stdlib Require Import SpecFloat.
From S2P Require Import Prelude Text Shared Addr Dns FakeIp TuicCodec Frag Assoc Metrics Show Config UdpRelay Device.
From S2P Require Import TunSlot Upstream ClientTun Sink Redact Conform.
From S2P Require Failover.
Import (notations) Strings.String.

#[local] Instance UpstreamKind_eq_dec : EqDecision UpstreamKind.
Proof. solve_decision. Defined.
#[local] Instance CcChoice_eq_dec : EqDecision CcChoice.
Proof. solve_decision. Defined.
#[local] Instance Inbound_eq_dec : EqDecision Inbound.
Proof. solve_decision. Defined.
#[local] Instance LegView_eq_dec : EqDecision FailoverLegView.
Proof. solve_decision. Defined.

(** ** [src/client_tun.rs]: configuration and diagnostics *)

Definition upstream_kind_selector : list bool :=
  [assert_eq (select_upstream_kind (Some (str "reality"))) UReality;
   assert_eq (select_upstream_kind (Some (str "  REALITY "))) UReality;
   assert_eq (select_upstream_kind (Some (str "failover"))) UFailover;
   assert_eq (select_upstream_kind (Some (str " Failover "))) UFailover;
   assert_eq (select_upstream_kind (Some (str "tuic"))) UTuic; assert_eq (select_upstream_kind None) UTuic;
   assert_eq (select_upstream_kind (Some (str "bogus"))) UTuic].

Definition target_from_endpoint_builds_ipv4_target : list bool :=
  [assert_eq (to_wire_string (target_from_endpoint (V4 (ipv4_new 93 184 216 34) 80))) (str "93.184.216.34:80")].

Definition tun_runtime_config_defaults_match_stage9_behavior : list bool :=
  with_ok (runtime_from_sources None) (λ config,
  [assert_eq (rt_pool_size config) 2; assert_eq (rt_tun_mtu config) DEFAULT_TUN_MTU;
   assert_eq (rt_metrics_secs config) METRICS_SNAPSHOT_SECS]).

Definition parse_metrics_secs_clamps_and_defaults : list bool :=
  [assert_eq (parse_metrics_secs (Some (str "5"))) 5; assert_eq (parse_metrics_secs (Some (str "  10 "))) 10;
   assert_eq (parse_metrics_secs (Some (str "0"))) METRICS_SNAPSHOT_SECS;
   assert_eq (parse_metrics_secs (Some (str "abc"))) METRICS_SNAPSHOT_SECS;
   assert_eq (parse_metrics_secs (Some [])) METRICS_SNAPSHOT_SECS;
   assert_eq (parse_metrics_secs None) METRICS_SNAPSHOT_SECS].

Definition parse_profile_loop_only_truthy_enables : list bool :=
  [parse_profile_loop (Some (str "1")); parse_profile_loop (Some (str "true")); parse_profile_loop (Some (str " TRUE "));
   negb (parse_profile_loop (Some (str "0"))); negb (parse_profile_loop (Some (str "false")));
   negb (parse_profile_loop (Some (str "yes"))); negb (parse_profile_loop (Some [])); negb (parse_profile_loop None)].

Definition parse_trace_only_truthy_enables : list bool :=
  [parse_trace (Some (str "1")); parse_trace (Some (str "true")); parse_trace (Some (str " TRUE "));
   negb (parse_trace (Some (str "0"))); negb (parse_trace (Some (str "false")));
   negb (parse_trace (Some (str "yes"))); negb (parse_trace (Some [])); negb (parse_trace None)].

Definition parse_tun_mtu_accepts_safe_range_and_defaults : list bool :=
  [assert_eq (parse_tun_mtu (Some (str "1200"))) 1200; assert_eq (parse_tun_mtu (Some (str "  1500 "))) 1500;
   assert_eq (parse_tun_mtu (Some (str "576"))) 576; assert_eq (parse_tun_mtu (Some (str "9000"))) 9000;
   assert_eq (parse_tun_mtu (Some (str "0"))) DEFAULT_TUN_MTU; assert_eq (parse_tun_mtu (Some (str "575"))) DEFAULT_TUN_MTU;
   assert_eq (parse_tun_mtu (Some (str "9001"))) DEFAULT_TUN_MTU; assert_eq (parse_tun_mtu (Some (str "abc"))) DEFAULT_TUN_MTU;
   assert_eq (parse_tun_mtu (Some [])) DEFAULT_TUN_MTU; assert_eq (parse_tun_mtu None) DEFAULT_TUN_MTU].

Definition is_ok_eq {A} `{EqDecision A} (r : res ClientError A) (a : A) : bool :=
  match r with Ok b => bool_decide (b = a) | _ => false end.

Definition tun_mtu_for_config_preserves_runtime_mtu : list bool :=
  [is_ok_eq (tun_mtu_for_config 1200) 1200; is_ok_eq (tun_mtu_for_config DEFAULT_TUN_MTU) 1500;
   is_ok_eq (tun_mtu_for_config MAX_TUN_MTU) 9000].

Definition tun_runtime_config_defaults_profile_loop_off : list bool :=
  with_ok (runtime_from_sources None) (λ cfg, [negb (rt_profile_loop cfg)]).

(** The test looks for the text [at least 1], which is the message of this error. *)
Definition tun_runtime_config_rejects_zero_pool_size : list bool :=
  match runtime_from_sources (Some (str "0")) with Err e => [assert_eq e (InvalidTarget pool_size_zero)] | _ => [false] end.

Definition tun_runtime_config_accepts_pool_size_override : list bool :=
  with_ok (runtime_from_sources (Some (str "3"))) (λ config, [assert_eq (rt_pool_size config) 3]).

Definition tcp_downlink_diag_tracks_pending_acceptance_and_flush_failures : list bool :=
  let diag := downlink_diag_default in
  let diag := note_remote_payload 100 100 diag in
  let diag := note_send_slice_ok 60 40 diag in
  let diag := note_send_slice_ok 0 40 diag in
  let diag := note_send_slice_error diag in
  let diag := note_tun_flush true diag in
  let diag := note_tun_flush false diag in
  [assert_eq (dd_remote_to_global_rx_bytes diag) 100; assert_eq (dd_pending_high_water diag) 100;
   assert_eq (dd_send_slice_calls diag) 3; assert_eq (dd_send_slice_accepted_bytes diag) 60;
   assert_eq (dd_send_slice_zero diag) 1; assert_eq (dd_send_slice_errors diag) 1;
   assert_eq (dd_tun_flush_tx_calls diag) 2; assert_eq (dd_tun_flush_tx_failures diag) 1].

Definition relay_task_diag_tracks_bytes_and_global_rx_pressure : list bool :=
  let diag := relay_diag_default in
  let diag := note_uplink_write 40 diag in
  let diag := note_remote_read 100 diag in
  let diag := note_global_rx_wait 25 10 diag in
  let diag := note_global_rx_wait 5 10 diag in
  [assert_eq (rd_uplink_bytes diag) 40; assert_eq (rd_remote_to_global_rx_bytes diag) 100;
   assert_eq (rd_remote_reads diag) 1; assert_eq (rd_global_rx_wait_max_micros diag) 25;
   assert_eq (rd_global_rx_pressure_events diag) 1].

(** A sink that overrides three of the callbacks. *)
Record CountingSink := mk_CountingSink { cs_poll_enters : Z; cs_relay_enters : Z; cs_last_listeners : Z }.
Definition counting_hook (c : sink_call) (_ : Z) (k : CountingSink) : res unit (CountingSink * option LoopProfileSnapshot) :=
  match c with
  | EnterPoll => Ok (mk_CountingSink (cs_poll_enters k + 1) (cs_relay_enters k) (cs_last_listeners k), None)
  | EnterRelay => Ok (mk_CountingSink (cs_poll_enters k) (cs_relay_enters k + 1) (cs_last_listeners k), None)
  | NoteListeners n => Ok (mk_CountingSink (cs_poll_enters k) (cs_relay_enters k) n, None)
  | _ => Ok (k, None)
  end.
#[local] Instance counting_sink : MetricsSink CountingSink := counting_hook.

Definition metrics_sink_records_per_phase_calls : list bool :=
  with_ok (sink_run [(0, EnterPoll); (0, LeavePoll); (0, EnterRelay); (0, NoteListeners 7); (0, LeaveRelay)]
    (mk_CountingSink 0 0 0)) (λ '(sink, _),
  [assert_eq (cs_poll_enters sink) 1; assert_eq (cs_relay_enters sink) 1; assert_eq (cs_last_listeners sink) 7]).

Definition noop_sink_is_zero_state : list bool :=
  with_ok (sink_run [(0, EnterPoll); (0, LeavePoll); (0, EnterRelay); (0, NoteListeners 1024); (0, LeaveRelay)]
    mk_NoopSink) (λ '(_, lines), [bool_decide (length lines = 0)%nat]).

(** ** [src/client_tun.rs]: packets and names, over the concrete packet format *)

(** [PacketBuilder::ipv4(src, dst, 64).tcp(src_port, dst_port, 0, 1024)] with the two flags and no payload, checksums aside. *)
Definition build_ipv4_tcp (src dst src_port dst_port : Z) (syn ack : bool) : list byte :=
  [x45; x00; x00; x28; x00; x00; x00; x00; x40; x06; x00; x00] ++ be32 src ++ be32 dst ++ be16 src_port ++ be16 dst_port ++
  [x00; x00; x00; x00; x00; x00; x00; x00; x50; z2b ((if syn then 2 else 0) + (if ack then 16 else 0)); x04; x00;
   x00; x00; x00; x00].

Definition udp_pkt (dst dst_port : Z) : list byte := default [] (demo_write (ipv4_new 10 0 0 1, 50000) (dst, dst_port) 64 []).

Definition inspect_inbound_tcp_flags_clean_syn : list bool :=
  let app := ipv4_new 10 0 0 1 in
  let srv := ipv4_new 1 1 1 1 in
  let syn := build_ipv4_tcp app srv 60000 443 true false in
  let synack := build_ipv4_tcp srv app 443 60000 true true in
  let ack := build_ipv4_tcp app srv 60000 80 false true in
  [assert_eq (inspect_inbound_tcp syn) (Some (443, true)); assert_eq (inspect_inbound_tcp synack) (Some (60000, false));
   assert_eq (inspect_inbound_tcp ack) (Some (80, false))].

Definition inspect_inbound_tcp_rejects_non_tcp_and_garbage : list bool :=
  [assert_eq (inspect_inbound_tcp (udp_pkt (ipv4_new 8 8 8 8) 53)) None; assert_eq (inspect_inbound_tcp (replicate 4 x00)) None].

Definition classify_routes_dns_relay_and_other : list bool :=
  [assert_eq (classify_inbound (udp_pkt (ipv4_new 198 18 0 1) 53)) InDns;
   assert_eq (classify_inbound (udp_pkt (ipv4_new 8 8 8 8) 53)) InDns;
   assert_eq (classify_inbound (udp_pkt (ipv4_new 1 1 1 1) 53)) InDns;
   assert_eq (classify_inbound (udp_pkt (ipv4_new 198 18 0 5) 443)) InUdpRelay;
   assert_eq (classify_inbound (udp_pkt (ipv4_new 1 1 1 1) 853)) InUdpRelay;
   assert_eq (classify_inbound (build_ipv4_tcp (ipv4_new 10 0 0 1) (ipv4_new 1 1 1 1) 60000 443 true false)) InOther;
   assert_eq (classify_inbound (replicate 4 x00)) InOther].

Definition dns_query (id : Z) (qname : list byte) (qtype : Z) : list byte :=
  be16 id ++ be16 0x0100 ++ be16 1 ++ replicate 6 x00 ++
  concat ((λ label, z2b (len label) :: label) <$> split_on x2e [] qname) ++ [x00] ++ be16 qtype ++ be16 1.

Definition reply_rdata_ip (reply : list byte) : option Z :=
  g ← parse_inbound_udp reply;
  let p := ui_payload g in
  of_be <$> get_range p (len p - 4) (len p).

(** The query packet, as the stack hands it over. *)
Definition query_udp (app res : Z * Z) (query : list byte) (k : UdpInbound → list bool) : list bool :=
  with_ok (build_udp_ip_packet (E:=unit) app res query) (λ pkt, with_some (parse_inbound_udp pkt) k).

Definition forge_dns_reply_forges_fake_ip_for_any_resolver : list bool :=
  let app := (ipv4_new 10 0 0 2, 50000) in
  query_udp app (ipv4_new 8 8 8 8, 53) (dns_query 0x1234 (str "example.com") QTYPE_A) (λ udp,
  with_ok (forge_dns_reply udp pool_new 0) (λ '(reply, pool),
  with_some (parse_inbound_udp reply) (λ r,
  with_some (reply_rdata_ip reply) (λ fake,
  [assert_eq (ui_src_ip r, ui_src_port r) (ipv4_new 8 8 8 8, 53); assert_eq (ui_dst_ip r, ui_dst_port r) app;
   is_fake pool fake; assert_eq (pool_resolve pool fake) (Some (str "example.com"))])))).

Definition forge_dns_reply_forges_even_for_fake_range_resolver : list bool :=
  let app := (ipv4_new 10 0 0 2, 50001) in
  let resolver := (ipv4_new 198 18 0 9, 53) in
  query_udp app resolver (dns_query 1 (str "foo.com") QTYPE_A) (λ udp,
  with_ok (forge_dns_reply udp pool_new 0) (λ '(reply, pool),
  with_some (parse_inbound_udp reply) (λ r,
  with_some (reply_rdata_ip reply) (λ fake,
  [assert_eq (ui_src_ip r, ui_src_port r) resolver; is_fake pool fake])))).

Definition forge_dns_reply_aaaa_is_nodata : list bool :=
  let app := (ipv4_new 10 0 0 2, 50002) in
  query_udp app (ipv4_new 1 1 1 1, 53) (dns_query 2 (str "example.com") QTYPE_AAAA) (λ udp,
  with_ok (forge_dns_reply udp pool_new 0) (λ '(reply, _),
  with_some (parse_inbound_udp reply) (λ r, [assert_eq (of_be (sub (ui_payload r) 6 8)) 0]))).

Definition forge_dns_reply_unparseable_is_none : list bool :=
  let app := (ipv4_new 10 0 0 2, 50003) in
  query_udp app (ipv4_new 8 8 8 8, 53) (replicate 4 x00) (λ udp, [is_err (forge_dns_reply udp pool_new 0)]).

Definition forge_dns_reply_stable_fake_ip_per_domain : list bool :=
  let app := (ipv4_new 10 0 0 2, 50004) in
  let res := (ipv4_new 8 8 8 8, 53) in
  query_udp app res (dns_query 1 (str "stable.com") QTYPE_A) (λ u1,
  query_udp app res (dns_query 2 (str "stable.com") QTYPE_A) (λ u2,
  with_ok (forge_dns_reply u1 pool_new 0) (λ '(r1, pool),
  with_ok (forge_dns_reply u2 pool 1) (λ '(r2, _), [assert_eq (reply_rdata_ip r1) (reply_rdata_ip r2)])))).

Definition is_block (r : TargetResolve) : bool := match r with Block => true | _ => false end.
Definition is_direct (r : TargetResolve) : bool := match r with Direct _ _ => true | _ => false end.
Definition is_refuse (r : TargetResolve) : bool := match r with Refuse => true | _ => false end.

Definition resolve_target_blocks_encrypted_dns : list bool :=
  let p0 := pool_new in
  let '(doh_fake, p1) := pool_alloc p0 (str "dns.google") 0 in
  let '(normal_fake, p2) := pool_alloc p1 (str "example.com") 0 in
  [is_block (resolve_target (V4 (ipv4_new 1 1 1 1) 853) p0); is_block (resolve_target (V4 (ipv4_new 93 184 216 34) 853) p0);
   is_block (resolve_target (V4 (ipv4_new 8 8 8 8) 53) p0); is_block (resolve_target (V4 (ipv4_new 198 18 0 1) 53) p0);
   is_block (resolve_target (V4 doh_fake 443) p1); is_direct (resolve_target (V4 doh_fake 80) p1);
   is_direct (resolve_target (V4 normal_fake 443) p2); is_block (resolve_target (V4 (ipv4_new 1 1 1 1) 443) p2);
   is_direct (resolve_target (V4 (ipv4_new 93 184 216 34) 443) p2);
   is_refuse (resolve_target (V4 (ipv4_new 198 18 99 99) 443) p2)].

(** ** [src/client_tun.rs]: listener pools and slots *)

Section slots.
  Context {TS : Smoltcp}.

Definition no_slots : slots := ([], ∅).
(** [sockets.get_mut::<TcpSocket>(h).abort()] *)
Definition abort_all (hs : list nat) (sl : slots) : slots :=
  (fold_left (λ socks h, alter tcp_abort h socks) hs sl.1, sl.2).

(** [for i in 0..n { reg.ensure_port(i + 1, ..).unwrap() }] *)
Fixpoint ensure_ports (n : nat) (port : Z) (r : ListenerRegistry) (sl : slots) : option (ListenerRegistry * slots) :=
  match n with
  | O => Some (r, sl)
  | S n =>
      match ensure_port (E:=unit) r port sl with
      | Ok (r, sl, false) => ensure_ports n (port + 1) r sl
      | _ => None
      end
  end.

Definition registry_ensure_port_is_idempotent_and_capped : list bool :=
  let full (r : ListenerRegistry) := assert_eq (Z.of_nat (size (lr_ports r))) MAX_INTERCEPTED_PORTS in
  let all (sl : slots) := assert_eq (Z.of_nat (size sl.2)) (2 * MAX_INTERCEPTED_PORTS) in
  with_some (ensure_ports (Z.to_nat MAX_INTERCEPTED_PORTS) 1 (registry_new 2) no_slots) (λ '(r, sl),
  with_ok (ensure_port (E:=unit) r 1 sl) (λ '(r1, sl1, capped1),
  with_ok (ensure_port (E:=unit) r1 9999 sl1) (λ '(r2, _, capped2),
  [full r; all sl; negb capped1; full r1; all sl1; capped2; full r2]))).

Definition ensure_spare_listeners_grows_and_is_idempotent : list bool :=
  with_ok (ensure_port (E:=unit) (registry_new 2) 443 no_slots) (λ '(r, sl, _),
  let hs := handles_for_port r 443 in
  let sl1 := abort_all hs sl in
  with_ok (ensure_spare_listeners (E:=unit) r 443 2 sl1) (λ '(r2, sl2, _),
  with_ok (ensure_spare_listeners (E:=unit) r2 443 2 sl2) (λ '(r3, sl3, _),
  with_ok (ensure_spare_listeners (E:=unit) r3 8080 2 sl3) (λ '(r4, _, _),
  [assert_eq (len hs) 2; assert_eq (len (handles_for_port r2 443)) 4; assert_eq (len (handles_for_port r3 443)) 4;
   assert_eq (handles_for_port r4 8080) []])))).

(** [ListenerRegistry::with_max_total] of the tests. *)
Definition with_max_total (pool_size max_total : Z) : ListenerRegistry := mk_ListenerRegistry ∅ pool_size max_total 0.

Definition ensure_spare_listeners_respects_global_cap : list bool :=
  with_ok (ensure_port (E:=unit) (with_max_total 2 3) 443 no_slots) (λ '(r, sl, _),
  let sl := abort_all (handles_for_port r 443) sl in
  with_ok (ensure_spare_listeners (E:=unit) r 443 4 sl) (λ '(r, _, capped),
  [capped; assert_eq (len (handles_for_port r 443)) 3])).

Definition reap_dead_slots_rearms_closed_slot_and_releases_fake_ip : list bool :=
  with_ok (ensure_port (E:=unit) (registry_new 2) 443 no_slots) (λ '(r, sl, _),
  let '(ip, pool) := pool_alloc pool_new (str "x.com") 0 in
  let pool := pool_acquire pool ip 0 in
  match handles_for_port r 443 with
  | [dead; idle_listen] =>
      let sl := abort_all [dead] sl in
      let sl := (sl.1, alter (λ c, set_fake (Some ip) (set_state Relaying c)) dead sl.2) in
      with_ok (reap_dead_slots (E:=unit) r sl pool 1) (λ '(sl, pool, reaped),
      with_some (sl.2 !! dead) (λ dead_ctx,
      with_some (sl.2 !! idle_listen) (λ idle_ctx,
      [assert_eq reaped 1; assert_eq (cx_state dead_ctx) Listening; is_none (cx_fake_ip dead_ctx);
       assert_eq (pool_sweep pool 1000 300).1 1; assert_eq (cx_state idle_ctx) Listening])))
  | _ => [false]
  end).

Definition rearm_socket_restores_listening_state_and_releases_fake_ip : list bool :=
  with_ok (build_listener_socket (E:=unit) 80) (λ socket,
  let '(ip, pool) := pool_alloc pool_new (str "x.com") 0 in
  let pool := pool_acquire pool ip 0 in
  let downlink_diag := note_remote_payload 128 128 downlink_diag_default in
  let ctx := mk_SocketCtx 80 Relaying (Some 0%nat) [] (Some ip) 7 [x01; x02; x03] downlink_diag in
  with_ok (rearm_socket (E:=unit) socket ctx pool 1) (λ '(_, ctx, pool),
  [assert_eq (cx_state ctx) Listening; is_none (cx_uplink_tx ctx); is_none (cx_fake_ip ctx);
   assert_eq (cx_uplink_buffer ctx) []; assert_eq (dd_pending_high_water (cx_downlink_diag ctx)) 0;
   assert_eq (cx_conn_epoch ctx) 8; assert_eq (pool_sweep pool 1000 300).1 1])).

Definition handles_for_port_returns_pool_handles : list bool :=
  with_ok (ensure_port (E:=unit) (registry_new 3) 443 no_slots) (λ '(r, _, _),
  [assert_eq (len (handles_for_port r 443)) 3; assert_eq (handles_for_port r 8080) []]).

Definition uplink_buffer_enforces_cap : list bool :=
  let '(c1, ok1) := buffer_uplink (replicate 1000 x00) (ctx_new 80) in
  let fill := replicate (Z.to_nat (MAX_UPLINK_BUFFER - 1000)) x00 in
  let '(c2, ok2) := buffer_uplink fill c1 in
  let '(c3, ok3) := buffer_uplink [x00] c2 in
  [ok1; assert_eq (len (cx_uplink_buffer c1)) 1000; ok2; assert_eq (len (cx_uplink_buffer c2)) MAX_UPLINK_BUFFER; negb ok3;
   assert_eq (len (cx_uplink_buffer c3)) MAX_UPLINK_BUFFER].
End slots.

(** Too many bytes to compute with; the lengths decide. *)
Lemma uplink_buffer_test : passes uplink_buffer_enforces_cap = true.
Proof.
  assert (∀ n : nat, len (replicate n x00) = Z.of_nat n) as Hl by (intros; unfold len; by rewrite length_replicate).
  unfold passes, uplink_buffer_enforces_cap, buffer_uplink, assert_eq. cbn [cx_uplink_buffer ctx_new].
  set (a := replicate 1000 x00). assert (len a = 1000) as Ha by apply Hl.
  set (f := replicate (Z.to_nat _) x00). assert (len f = MAX_UPLINK_BUFFER - 1000) as Hf by (unfold f; by rewrite Hl).
  clearbody a f. change (len (@nil byte)) with 0. rewrite bool_decide_eq_false_2 by (unfold MAX_UPLINK_BUFFER; lia).
  cbn [set_buffer cx_uplink_buffer app]. rewrite bool_decide_eq_false_2 by (unfold MAX_UPLINK_BUFFER in *; lia).
  cbn [set_buffer cx_uplink_buffer]. rewrite len_app.
  rewrite (bool_decide_eq_true_2 (MAX_UPLINK_BUFFER < _)) by (change (len [x00]) with 1; lia).
  cbn [cx_uplink_buffer set_buffer forallb negb id andb]. rewrite len_app, !bool_decide_eq_true_2 by lia. done.
Qed.

(** ** [src/client_tun.rs]: the handshake results and the DNS branch, on a loop *)

Section loop.
  Context {TS : Smoltcp} {P : EtherParse} {U : Type} `{!ProxyUpstream U, !DatagramUpstream U} (up : U).
  Context (macos : bool) (stream : RelayStream U).

Definition mk_pending_ctx (epoch : Z) : SocketCtx := set_epoch epoch (set_state HandshakePending (ctx_new 12345)).
(** A loop with one listener socket whose context is [c]. *)
Definition one_slot (c : SocketCtx) (pool : FakeIpPool) (k : Loop → list bool) : list bool :=
  with_ok (build_listener_socket (E:=unit) 12345) (λ sock,
  k (set_sockets [sock] (set_ctxs {[0%nat := c]} (set_pool pool (loop_init 2 1500 up))))).
Definition with_loop (r : Loop * res ClientError unit) (k : Loop → list bool) : list bool :=
  match r with (s, Ok _) => k s | _ => [false] end.
Definition with_ctx (s : Loop) (k : SocketCtx → list bool) : list bool := with_some (lp_ctxs s !! 0%nat) k.

Definition handshake_done_epoch_guard_drops_stale_then_installs_match : list bool :=
  one_slot (mk_pending_ctx 5) pool_new (λ s,
  with_loop (handle_handshake_done (mk_HandshakeDone 0 3 (inl stream)) 0 s) (λ s,
  with_ctx s (λ c1,
  with_loop (handle_handshake_done (mk_HandshakeDone 0 5 (inl stream)) 0 s) (λ s,
  with_ctx s (λ c2,
  [assert_eq (cx_state c1) HandshakePending; is_none (cx_uplink_tx c1); assert_eq (cx_state c2) Relaying;
   is_some (cx_uplink_tx c2)]))))).

Definition handshake_done_failure_rearms_and_releases_fakeip : list bool :=
  let '(ip, pool) := pool_alloc pool_new (str "x.com") 0 in
  let pool := pool_acquire pool ip 0 in
  let ctx := (buffer_uplink (str "buffered") (set_fake (Some ip) (mk_pending_ctx 2))).1 in
  one_slot ctx pool (λ s,
  with_loop (handle_handshake_done (mk_HandshakeDone 0 2 (inr (Reality hs_io))) 1 s) (λ s,
  with_ctx s (λ c,
  [assert_eq (cx_state c) Listening; is_none (cx_fake_ip c); assert_eq (cx_uplink_buffer c) [];
   assert_eq (pool_sweep (lp_pool s) 1000 300).1 1]))).

(** The relay task writes its queue to the stream in order, so what the far end reads first is the queue. *)
Definition handshake_done_flushes_buffered_uplink_in_order : list bool :=
  let ctx := (buffer_uplink (str "HELLO-BUFFERED") (mk_pending_ctx 1)).1 in
  one_slot ctx pool_new (λ s,
  with_loop (handle_handshake_done (mk_HandshakeDone 0 1 (inl stream)) 0 s) (λ s,
  with_loop (run_relay 0 (RelayLocal true) s) (λ s,
  with_some (lp_relays s !! 0%nat) (λ r, [assert_eq (ry_written r) (str "HELLO-BUFFERED")])))).

Definition handle_dns_hijack_counts_forge_and_drop : list bool :=
  let app := (ipv4_new 10 0 0 2, 50000) in
  let res := (ipv4_new 8 8 8 8, 53) in
  with_ok (build_udp_ip_packet (E:=unit) app res (dns_query 1 (str "example.com") QTYPE_A)) (λ q,
  with_ok (build_udp_ip_packet (E:=unit) app res (replicate 4 x00)) (λ bad,
  let injected (s : Loop) := len (vd_written (lp_dev s)) in
  with_loop (handle_dns_hijack macos q [] 0 (loop_init 2 1500 up)) (λ s1,
  with_loop (handle_dns_hijack macos bad [] 0 s1) (λ s2,
  let m1 := snapshot (lp_metrics s1) 0 0 in
  let m2 := snapshot (lp_metrics s2) 0 0 in
  [assert_eq (ms_dns_forged m1, ms_dns_dropped m1) (1, 0); assert_eq (injected s1) 1;
   assert_eq (ms_dns_forged m2, ms_dns_dropped m2) (1, 1); assert_eq (injected s2) 1])))).

Definition publish_gauges_samples_relaying_pool_and_leg : list bool :=
  let mk s := set_state s (ctx_new 0) in
  let ctxs := [mk Relaying; mk Relaying; mk Listening; mk OpeningRemote] in
  let '(ip, pool) := pool_alloc pool_new (str "a.com") 0 in
  let pool := pool_acquire pool ip 0 in
  let '(_, pool) := pool_alloc pool (str "b.com") 0 in
  let m := publish_gauges metrics_new ctxs pool 1 in
  let s := snapshot m 0 0 in
  [assert_eq (ms_active_relays s) 2; assert_eq (ms_fake_ip_total s, ms_fake_ip_active s) (2, 1);
   assert_eq (ms_failover_leg s) LegReality;
   assert_eq (ms_failover_leg (snapshot (publish_gauges m ctxs pool NO_FAILOVER) 0 0)) LegNone].
End loop.

(** ** [src/failover.rs] *)

(** The mock leg: what it was asked, what it answers. *)
Record MockLeg := mk_MockLeg {
  ml_tcp : list (list byte);
  ml_udp : list (list byte);
  ml_fail_open : bool;
  ml_dead : bool;
  ml_probe_ok : bool;
  ml_rx : Z;
  ml_drops_up : Z
}.
Definition mock_default : MockLeg := mk_MockLeg [] [] false false false 0 0.
Definition mock_set (fail_open dead : bool) (drops : Z) (m : MockLeg) : MockLeg :=
  mk_MockLeg (ml_tcp m) (ml_udp m) fail_open dead (ml_probe_ok m) (ml_rx m) drops.

Definition mock_open_tcp (m : MockLeg) (target : TargetAddr) : MockLeg * res ClientError unit :=
  (mk_MockLeg (ml_tcp m ++ [to_wire_string target]) (ml_udp m) (ml_fail_open m) (ml_dead m) (ml_probe_ok m) (ml_rx m)
     (ml_drops_up m),
   if ml_fail_open m then Err (Reality reality_connect_failed) else Ok tt).
Definition mock_send_udp (m : MockLeg) (datagram : list byte) : MockLeg :=
  mk_MockLeg (ml_tcp m) (ml_udp m ++ [datagram]) (ml_fail_open m) (ml_dead m) (ml_probe_ok m) (ml_rx m) (ml_drops_up m).

#[local] Instance mock_proxy : ProxyUpstream MockLeg := {|
  RelayStream := unit;
  up_open_tcp := mock_open_tcp;
  up_open_is_cheap := false;
  up_failover_leg _ := NO_FAILOVER
|}.
#[local] Instance mock_datagram : DatagramUpstream MockLeg := {|
  up_send_udp := mock_send_udp;
  up_drops := ml_drops_up;
  up_stream_fallbacks _ := 0
|}.
#[local] Instance mock_health : HealthProbe MockLeg := {|
  hp_probe m := (m, ml_probe_ok m);
  hp_is_dead := ml_dead;
  hp_rx_datagrams m := Some (ml_rx m)
|}.

Definition mock_failover : Type := FailoverUpstream MockLeg MockLeg.
Definition mk (tuic : MockLeg) : mock_failover := failover_upstream_new tuic mock_default.
(** Setting a flag of the TUIC mock, or the leg, behind the upstream's back. *)
Definition with_tuic (f : MockLeg → MockLeg) (u : mock_failover) : mock_failover :=
  mk_FailoverUpstream (f (fu_tuic u)) (fu_reality u) (fu_state u) (fu_now u).
Definition with_state (f : Failover.FailoverState → Failover.FailoverState) (u : mock_failover) : mock_failover :=
  mk_FailoverUpstream (fu_tuic u) (fu_reality u) (f (fu_state u)) (fu_now u).
Definition test_target : TargetAddr := IpPort (V4 (ipv4_new 1 2 3 4) 443).
Definition leg_of (u : mock_failover) : Failover.TcpLeg := Failover.active_leg (fu_state u).
Definition tcp_count (m : MockLeg) : Z := len (ml_tcp m).
Definition udp_count (m : MockLeg) : Z := len (ml_udp m).

Definition failover_leg_u8_tracks_active_leg : list bool :=
  let u0 := mk mock_default in
  let u1 := with_state (Failover.set_leg Failover.LegReality) u0 in
  let u2 := with_state (Failover.set_leg Failover.LegTuic) u1 in
  [assert_eq (up_failover_leg u0) 0; assert_eq (up_failover_leg u1) 1; assert_eq (up_failover_leg u2) 0].

Definition udp_drops_up_forwards_to_tuic_leg : list bool :=
  let fo : mock_failover :=
    failover_upstream_new (mock_set false false 42 mock_default) (mock_set false false 999 mock_default) in
  [assert_eq (up_drops fo) 42; assert_eq (up_stream_fallbacks fo) 0].

Definition non_failover_leg_u8_is_sentinel : list bool :=
  [assert_eq (up_failover_leg mock_default) NO_FAILOVER; assert_eq (up_stream_fallbacks mock_default) 0].

Definition open_tcp_routes_by_leg_and_udp_pinned_to_tuic : list bool :=
  let '(u1, r1) := up_open_tcp (mk mock_default) test_target in
  let u2 := up_send_udp u1 [x01; x02; x03] in
  let '(u3, r3) := up_open_tcp (with_state (Failover.set_leg Failover.LegReality) u2) test_target in
  let u4 := up_send_udp u3 [x04; x05] in
  [is_ok r1; assert_eq (tcp_count (fu_tuic u1)) 1; assert_eq (ml_tcp (fu_reality u1)) []; assert_eq (udp_count (fu_tuic u2)) 1;
   is_ok r3; assert_eq (tcp_count (fu_reality u3)) 1; assert_eq (udp_count (fu_tuic u4)) 2; assert_eq (ml_udp (fu_reality u4)) []].

Definition down_fast_path_switches_on_dead_connection : list bool :=
  let '(u, r) := up_open_tcp (mk (mock_set true true 0 mock_default)) test_target in
  [is_ok r; assert_eq (leg_of u) Failover.LegReality; assert_eq (tcp_count (fu_reality u)) 1].

Definition down_slow_path_switches_after_three_failures : list bool :=
  let '(u1, r1) := up_open_tcp (mk (mock_set true false 0 mock_default)) test_target in
  let '(u2, r2) := up_open_tcp u1 test_target in
  let '(u3, r3) := up_open_tcp u2 test_target in
  [is_err r1; assert_eq (leg_of u1) Failover.LegTuic; is_err r2; assert_eq (leg_of u2) Failover.LegTuic;
   is_ok r3; assert_eq (leg_of u3) Failover.LegReality; assert_eq (tcp_count (fu_reality u3)) 1].

Definition success_resets_slow_path_counter : list bool :=
  let failing := with_tuic (mock_set true false 0) in
  let working := with_tuic (mock_set false false 0) in
  let u := failing (mk mock_default) in
  let '(u, _) := up_open_tcp u test_target in
  let '(u, _) := up_open_tcp u test_target in
  let '(u, r) := up_open_tcp (working u) test_target in
  let '(u, _) := up_open_tcp (failing u) test_target in
  let '(u, _) := up_open_tcp u test_target in
  [is_ok r; assert_eq (leg_of u) Failover.LegTuic].

Definition up_switch_back_requires_three_ok_and_cooldown : list bool :=
  let '(s0, b0) := Failover.record_tuic_failure Failover.failover_new true 100 in
  let '(s1, b1) := Failover.record_probe s0 true 130 in
  let '(s2, b2) := Failover.record_probe s1 true 140 in
  let '(s3, b3) := Failover.record_probe s2 true 150 in
  let '(s4, b4) := Failover.record_probe s3 true 165 in
  let '(t0, _) := Failover.record_tuic_failure Failover.failover_new true 100 in
  let '(t1, c1) := Failover.record_probe t0 true 200 in
  let '(t2, c2) := Failover.record_probe t1 false 210 in
  let '(t3, c3) := Failover.record_probe t2 true 220 in
  let '(t4, c4) := Failover.record_probe t3 true 230 in
  let '(t5, c5) := Failover.record_probe t4 true 240 in
  [b0; assert_eq (Failover.active_leg s0) Failover.LegReality; negb b1; negb b2; negb b3;
   assert_eq (Failover.active_leg s3) Failover.LegReality; b4; assert_eq (Failover.active_leg s4) Failover.LegTuic;
   negb c1; negb c2; negb c3; negb c4; assert_eq (Failover.active_leg t4) Failover.LegReality; c5;
   assert_eq (Failover.active_leg t5) Failover.LegTuic].

Definition down_switch_is_idempotent : list bool :=
  let '(s1, b1) := Failover.record_tuic_failure Failover.failover_new true 10 in
  let '(s2, b2) := Failover.record_tuic_failure s1 true 11 in
  let '(_, b3) := Failover.record_tuic_failure s2 false 12 in
  [b1; assert_eq (Failover.active_leg s1) Failover.LegReality; negb b2; negb b3].

(** The answers of the detector to a sequence of samples. *)
Fixpoint observe_all (d : Failover.BlackholeDetector) (l : list (Z * Z)) : list bool * Failover.BlackholeDetector :=
  match l with
  | [] => ([], d)
  | (rx, now) :: l =>
      let '(d, b) := Failover.observe d rx now in
      let '(bs, d) := observe_all d l in (b :: bs, d)
  end.
Definition blackhole_detector_fires_on_rx_stall : list bool :=
  let '(b1, d) := observe_all Failover.detector_new [(100, 0); (101, 5); (102, 10); (102, 12); (102, 19); (102, 20)] in
  let '(b2, _) := observe_all (Failover.detector_reset d) [(102, 21); (102, 30); (102, 31)] in
  [assert_eq b1 [false; false; false; false; false; true]; assert_eq b2 [false; false; true]].

Definition record_blackhole_switches_once : list bool :=
  let '(s1, b1) := Failover.record_blackhole Failover.failover_new 100 in
  let '(_, b2) := Failover.record_blackhole s1 101 in
  [b1; assert_eq (Failover.active_leg s1) Failover.LegReality; negb b2].

Definition send_udp_never_gated_by_failover_state : list bool :=
  let u := with_state (λ s, (Failover.record_tuic_failure s true 0).1) (mk mock_default) in
  let u2 := up_send_udp u [x09; x09; x09] in
  [assert_eq (leg_of u) Failover.LegReality; assert_eq (udp_count (fu_tuic u2)) 1; assert_eq (ml_udp (fu_reality u2)) []].

(** ** [src/loop_profiler.rs]; durations in nanoseconds *)

Definition ms (n : Z) : Z := n * 10 ^ 6.
(** The literal [n / 10^k], which is the nearest double. *)
Definition lit (n k : Z) : spec_float := SFdiv 53 1024 (f64_of_Z n) (f64_of_Z (10 ^ k)).
Definition near (a b : spec_float) : bool := SFltb (SFabs (SFsub 53 1024 a b)) (lit 1 9).
Definition f64_eq (a b : spec_float) : bool := SFeqb a b.
Definition gt (a b : spec_float) : bool := SFltb b a.

Definition fractions_basic_split : list bool :=
  let snap := mk_LoopProfileSnapshot (ms 600) (ms 100) (ms 300) (ms 1000) 50 in
  [near (poll_fraction snap) (lit 6 1); near (relay_fraction snap) (lit 1 1); near (park_fraction snap) (lit 3 1);
   near (loop_active_fraction snap) (lit 7 1)].

Definition loop_active_high_when_park_low : list bool :=
  let snap := mk_LoopProfileSnapshot (ms 950) (ms 40) (ms 5) (ms 1000) 9000 in
  [gt (loop_active_fraction snap) (lit 99 2); gt (poll_fraction snap) (lit 9 1)].

Definition loop_active_low_when_mostly_parked : list bool :=
  let snap := mk_LoopProfileSnapshot (ms 120) (ms 10) (ms 870) (ms 1000) 1200 in
  [gt (lit 2 1) (loop_active_fraction snap)].

Definition empty_period_is_all_zero_no_divide_by_zero : list bool :=
  let snap := mk_LoopProfileSnapshot 0 0 0 0 0 in
  [f64_eq (poll_fraction snap) f64_zero; f64_eq (relay_fraction snap) f64_zero; f64_eq (park_fraction snap) f64_zero;
   f64_eq (loop_active_fraction snap) f64_zero].

Definition park_exceeding_wall_clamps_active_to_zero : list bool :=
  let snap := mk_LoopProfileSnapshot (ms 50) (ms 0) (ms 1200) (ms 1000) 100 in
  [f64_eq (loop_active_fraction snap) f64_zero; gt (park_fraction snap) f64_one].

(** The sleeps take [t1], [t2] and [t3] instead of exactly 1, 8 and 1 ms. *)
Definition profiler_accumulates_and_orders_segments (t1 t2 t3 : Z) : list bool :=
  with_ok (sink_run [(0, ParkBegin); (t1, ParkEnd); (t1, EnterPoll); (t1 + t2, LeavePoll); (t1 + t2, EnterRelay);
                     (t1 + t2 + t3, LeaveRelay)] (profiler_new 0)) (λ '(p, _),
  let '(snap, _) := take_period (t1 + t2 + t3) p in
  [assert_eq (ps_iters snap) 1; gt (poll_fraction snap) (lit 5 1); gt (poll_fraction snap) (relay_fraction snap);
   gt (loop_active_fraction snap) (lit 5 1); gt (lit 3 1) (park_fraction snap)]).

Definition take_period_resets_accumulators (t : Z) : list bool :=
  with_ok (sink_run [(0, EnterPoll); (t, LeavePoll); (t, ParkBegin); (t, ParkEnd)] (profiler_new 0)) (λ '(p, _),
  let '(s1, p) := take_period t p in
  let '(s2, _) := take_period t p in
  [bool_decide (0 < ps_poll s1); assert_eq (ps_iters s1) 1; assert_eq (ps_poll s2) 0; assert_eq (ps_iters s2) 0]).

Definition degenerate_startup_period_skipped_by_report_guard (t : Z) : list bool :=
  let '(snap, p) := take_period t (profiler_new 0) in
  with_ok (sink_run [(t, Report)] p) (λ '(_, lines),
  [bool_decide (ps_wall snap < MIN_REPORT_WALL); bool_decide (length lines = 0)%nat]).

(** ** [src/quic.rs] *)

Definition parse_cc_maps_and_falls_back : list bool :=
  [assert_eq (parse_cc (str "bbr")) (Bbr, false); assert_eq (parse_cc (str "BBR")) (Bbr, false);
   assert_eq (parse_cc (str "cubic")) (Cubic, false); assert_eq (parse_cc []) (Cubic, true);
   assert_eq (parse_cc (str "reno")) (Cubic, true)].

(** ** Running them *)

Example tun_config_tests :
  forallb passes [upstream_kind_selector; target_from_endpoint_builds_ipv4_target;
    tun_runtime_config_defaults_match_stage9_behavior; parse_metrics_secs_clamps_and_defaults;
    parse_profile_loop_only_truthy_enables; parse_trace_only_truthy_enables;
    parse_tun_mtu_accepts_safe_range_and_defaults; tun_mtu_for_config_preserves_runtime_mtu;
    tun_runtime_config_defaults_profile_loop_off; tun_runtime_config_rejects_zero_pool_size;
    tun_runtime_config_accepts_pool_size_override; parse_cc_maps_and_falls_back] = true.
Proof. vm_compute. reflexivity. Qed.

Example tun_diag_tests :
  forallb passes [tcp_downlink_diag_tracks_pending_acceptance_and_flush_failures;
    relay_task_diag_tracks_bytes_and_global_rx_pressure; metrics_sink_records_per_phase_calls;
    noop_sink_is_zero_state] = true.
Proof. vm_compute. reflexivity. Qed.

Example tun_packet_tests :
  forallb passes [inspect_inbound_tcp_flags_clean_syn; inspect_inbound_tcp_rejects_non_tcp_and_garbage;
    classify_routes_dns_relay_and_other; forge_dns_reply_forges_fake_ip_for_any_resolver;
    forge_dns_reply_forges_even_for_fake_range_resolver; forge_dns_reply_aaaa_is_nodata;
    forge_dns_reply_unparseable_is_none; forge_dns_reply_stable_fake_ip_per_domain;
    resolve_target_blocks_encrypted_dns] = true.
Proof. vm_compute. reflexivity. Qed.

Example tun_slot_tests :
  forallb passes [registry_ensure_port_is_idempotent_and_capped (TS:=demo_stack);
    ensure_spare_listeners_grows_and_is_idempotent (TS:=demo_stack);
    ensure_spare_listeners_respects_global_cap (TS:=demo_stack);
    reap_dead_slots_rearms_closed_slot_and_releases_fake_ip (TS:=demo_stack);
    rearm_socket_restores_listening_state_and_releases_fake_ip (TS:=demo_stack);
    handles_for_port_returns_pool_handles (TS:=demo_stack)] = true.
Proof. vm_compute. reflexivity. Qed.

(** ** [src/tuic.rs]: redaction, and [src/upstream.rs]: the datagram mock *)

Definition config_debug_redacts_credentials (unicode : list byte → list byte) : list bool :=
  with_ok (tuic_from_sources (Some (str "1.2.3.4:8443")) (Some UUID) (Some (str "secret123")) None None None) (λ c,
  let s := tuic_config_fmt unicode c in
  [negb (contains (str "secret123") s); negb (contains (str "550e8400") s); contains (str "redacted") s]).

(** [sent: Mutex<Vec<Vec<u8>>>] *)
Record CapturingDatagramUpstream := mk_CapturingDatagramUpstream { cd_sent : list (list byte) }.
#[local] Instance capturing_datagram : DatagramUpstream CapturingDatagramUpstream := {|
  up_send_udp u datagram := mk_CapturingDatagramUpstream (cd_sent u ++ [datagram]);
  up_drops _ := 0; up_stream_fallbacks _ := 0
|}.

Definition datagram_upstream_captures_sent_datagrams : list bool :=
  let up := mk_CapturingDatagramUpstream [] in
  let up := up_send_udp up [x01; x02; x03] in
  let up := up_send_udp up [x04; x05] in
  let sent := cd_sent up in
  [assert_eq (len sent) 2; assert_eq (get sent 0) (Some [x01; x02; x03]); assert_eq (get sent 1) (Some [x04; x05])].

Example redaction_and_mock_tests :
  forallb passes [config_debug_redacts_credentials id; datagram_upstream_captures_sent_datagrams] = true.
Proof. vm_compute. reflexivity. Qed.

Example tun_loop_tests :
  forallb passes [handshake_done_epoch_guard_drops_stale_then_installs_match (TS:=demo_stack) mock_default tt;
    handshake_done_failure_rearms_and_releases_fakeip (TS:=demo_stack) mock_default;
    handshake_done_flushes_buffered_uplink_in_order (TS:=demo_stack) mock_default tt;
    handle_dns_hijack_counts_forge_and_drop (TS:=demo_stack) mock_default true;
    handle_dns_hijack_counts_forge_and_drop (TS:=demo_stack) mock_default false;
    publish_gauges_samples_relaying_pool_and_leg] = true.
Proof. vm_compute. reflexivity. Qed.

Example failover_tests :
  forallb passes [failover_leg_u8_tracks_active_leg; udp_drops_up_forwards_to_tuic_leg; non_failover_leg_u8_is_sentinel;
    open_tcp_routes_by_leg_and_udp_pinned_to_tuic; down_fast_path_switches_on_dead_connection;
    down_slow_path_switches_after_three_failures; success_resets_slow_path_counter;
    up_switch_back_requires_three_ok_and_cooldown; down_switch_is_idempotent; blackhole_detector_fires_on_rx_stall;
    record_blackhole_switches_once; send_udp_never_gated_by_failover_state] = true.
Proof. vm_compute. reflexivity. Qed.

Example profiler_tests :
  forallb passes [fractions_basic_split; loop_active_high_when_park_low; loop_active_low_when_mostly_parked;
    empty_period_is_all_zero_no_divide_by_zero; park_exceeding_wall_clamps_active_to_zero;
    profiler_accumulates_and_orders_segments (ms 1) (ms 8) (ms 1); take_period_resets_accumulators (ms 2);
    degenerate_startup_period_skipped_by_report_guard 1000] = true.
Proof. vm_compute. reflexivity. Qed.
